(** * The simulated-annealing placement engine of VPR (vpr/src/place/place.cpp)

    A shallow embedding of the cost model, the swap trial and the annealing
    control of [place.cpp], with the properties of its specification proved
    (or refuted) over the embedding.

    Numbers.  C++ [int] values are [Z] (no overflow is reachable on the
    modelled paths: coordinates and edge counts are bounded by the grid and
    by the pin count).  [float] and [double] values are both the type [fp]
    below: a real number, or one of the three IEEE special values.  Rounding
    is not modelled, so a narrowing [double -> float] conversion is the
    identity; what is kept of IEEE arithmetic is the behaviour of NaN and of
    the infinities in arithmetic and in comparisons, which the placer relies
    on (INVALID_DELAY is a quiet NaN). *)

From Stdlib Require Import Reals Lra Lia ZArith List Bool Arith Permutation.
Import ListNotations.

Set Implicit Arguments.

(** ** Floating-point values *)

Module FP.

Inductive fp : Type :=
| NaN
| PInf
| NInf
| Fin (r : R).

Declare Scope fp_scope.
Delimit Scope fp_scope with fp.
Bind Scope fp_scope with fp.

Definition isnan (a : fp) : bool :=
  match a with NaN => true | _ => false end.

Definition is_finite (a : fp) : Prop :=
  match a with Fin _ => True | _ => False end.

Definition of_int (z : Z) : fp := Fin (IZR z).

Definition fneg (a : fp) : fp :=
  match a with
  | NaN => NaN
  | PInf => NInf
  | NInf => PInf
  | Fin x => Fin (- x)
  end.

Definition fadd (a b : fp) : fp :=
  match a, b with
  | NaN, _ | _, NaN => NaN
  | PInf, NInf | NInf, PInf => NaN
  | PInf, _ | _, PInf => PInf
  | NInf, _ | _, NInf => NInf
  | Fin x, Fin y => Fin (x + y)
  end.

Definition fsub (a b : fp) : fp := fadd a (fneg b).

(** The infinity with the sign of [x], NaN for [x = 0]. *)
Definition inf_of_sign (x : R) : fp :=
  if Rlt_dec 0 x then PInf else if Rlt_dec x 0 then NInf else NaN.

Definition fmul (a b : fp) : fp :=
  match a, b with
  | NaN, _ | _, NaN => NaN
  | Fin x, Fin y => Fin (x * y)
  | Fin x, PInf | PInf, Fin x => inf_of_sign x
  | Fin x, NInf | NInf, Fin x => inf_of_sign (- x)
  | PInf, PInf | NInf, NInf => PInf
  | PInf, NInf | NInf, PInf => NInf
  end.

(** Zero has no sign here: a finite non-zero value divided by zero is the
    infinity of the sign of the dividend. *)
Definition fdiv (a b : fp) : fp :=
  match a, b with
  | NaN, _ | _, NaN => NaN
  | Fin x, Fin y => if Req_dec_T y 0 then inf_of_sign x else Fin (x / y)
  | Fin _, (PInf | NInf) => Fin 0
  | PInf, Fin y => if Rle_dec 0 y then PInf else NInf
  | NInf, Fin y => if Rle_dec 0 y then NInf else PInf
  | (PInf | NInf), (PInf | NInf) => NaN
  end.

Definition flt (a b : fp) : bool :=
  match a, b with
  | NaN, _ | _, NaN => false
  | PInf, _ => false
  | _, NInf => false
  | NInf, _ => true
  | _, PInf => true
  | Fin x, Fin y => if Rlt_dec x y then true else false
  end.

Definition feq (a b : fp) : bool :=
  match a, b with
  | PInf, PInf | NInf, NInf => true
  | Fin x, Fin y => if Req_dec_T x y then true else false
  | _, _ => false
  end.

Definition fle (a b : fp) : bool := flt a b || feq a b.
Definition fgt (a b : fp) : bool := flt b a.
Definition fge (a b : fp) : bool := fle b a.
Definition fne (a b : fp) : bool := negb (feq a b).

(** [std::min(a, b)] is [(b < a) ? b : a], [std::max(a, b)] is
    [(a < b) ? b : a]. *)
Definition fmin (a b : fp) : fp := if flt b a then b else a.
Definition fmax (a b : fp) : fp := if flt a b then b else a.

Definition fabs (a : fp) : fp :=
  match a with
  | NaN => NaN
  | PInf | NInf => PInf
  | Fin x => Fin (Rabs x)
  end.

Definition fsqrt (a : fp) : fp :=
  match a with
  | NaN | NInf => NaN
  | PInf => PInf
  | Fin x => if Rlt_dec x 0 then NaN else Fin (sqrt x)
  end.

Definition fexp (a : fp) : fp :=
  match a with
  | NaN => NaN
  | PInf => PInf
  | NInf => Fin 0
  | Fin x => Fin (exp x)
  end.

End FP.
Export FP.

Infix "+" := fadd : fp_scope.
Infix "-" := fsub : fp_scope.
Infix "*" := fmul : fp_scope.
Infix "/" := fdiv : fp_scope.
Notation "- x" := (fneg x) : fp_scope.
Infix "<?" := flt : fp_scope.
Infix "<=?" := fle : fp_scope.
Infix ">?" := fgt : fp_scope.
Infix ">=?" := fge : fp_scope.
Infix "==?" := feq (at level 70) : fp_scope.
Infix "!=?" := fne (at level 70) : fp_scope.

(** Decimal literals of the source. *)
Definition fp0 : fp := Fin 0.
Definition fp1 : fp := Fin 1.

(** Evaluation of the operations on constructors, and case analysis on the
    comparisons of reals that remain. *)
Ltac fp_red :=
  unfold fmin, fmax, fle, fgt, fge, fne, fsub, inf_of_sign, fp0, fp1, of_int in *;
  cbn [fadd fmul fdiv fneg flt feq fabs fsqrt fexp isnan orb andb negb] in *.

(** Fails when the term still holds a comparison of reals. *)
Ltac no_rdec t :=
  lazymatch t with
  | context [Rlt_dec _ _] => fail
  | context [Rle_dec _ _] => fail
  | context [Req_dec_T _ _] => fail
  | _ => idtac
  end.

(** Case analysis on the comparisons of reals of the goal, innermost first;
    the impossible case is closed by [lra]. *)
Ltac r_dec :=
  repeat match goal with
         | |- context [Rlt_dec ?a ?b] =>
             no_rdec a; no_rdec b; destruct (Rlt_dec a b); try (exfalso; lra)
         | |- context [Rle_dec ?a ?b] =>
             no_rdec a; no_rdec b; destruct (Rle_dec a b); try (exfalso; lra)
         | |- context [Req_dec_T ?a ?b] =>
             no_rdec a; no_rdec b; destruct (Req_dec_T a b); try (exfalso; lra)
         end.

Ltac fp_dec := fp_red; repeat (progress r_dec; fp_red).

(** Evaluation of a concrete run: everything is computed but the
    comparisons of reals, which are decided one after the other. *)
Ltac run :=
  repeat (progress (cbv -[IZR Rplus Rmult Rminus Ropp Rinv Rdiv Rcase_abs Rlt_dec Rle_dec
                          Req_dec_T exp sqrt Rmax Rmin INR Rsqr];
                    repeat match goal with
                           | |- context [Rcase_abs ?a] =>
                               destruct (Rcase_abs a); try (exfalso; lra)
                           end;
                    r_dec)).

(** ** Identifiers, results and vectors *)

Definition ClusterNetId := nat.
Definition ClusterBlockId := nat.
Definition ClusterPinId := nat.

Inductive PinType : Type := DRIVER | SINK.

(** The sites of [VPR_ERROR(VPR_ERROR_PLACE, ...)] on the modelled paths. *)
Inductive vpr_error : Type :=
| NegativeDelay        (* comp_td_connection_delay *)
| BBCostDrift          (* recompute_costs_from_scratch, bb_cost *)
| TimingCostDrift.     (* recompute_costs_from_scratch, timing_cost *)

Inductive result (A : Type) : Type :=
| Ok (a : A)
| Fatal (e : vpr_error).
Arguments Ok {A} a.
Arguments Fatal {A} e.

Definition bind {A B} (c : result A) (k : A -> result B) : result B :=
  match c with
  | Ok a => k a
  | Fatal e => Fatal e
  end.

Notation "x <- c ;; k" := (bind c (fun x => k))
  (at level 61, c at next level, right associativity).
Notation "' p <- c ;; k" := (bind c (fun x => let 'p := x in k))
  (at level 61, p pattern, c at next level, right associativity).

(** A [for] loop over a range or a container whose body may raise. *)
Fixpoint foldM {A S} (f : S -> A -> result S) (l : list A) (s : S) : result S :=
  match l with
  | [] => Ok s
  | a :: l' => s' <- f s a ;; foldM f l' s'
  end.

(** [vtr::vector<Id, T>] and the net-pin matrices, indexed by identifiers:
    total maps with a point update. *)
Definition upd {A} (f : nat -> A) (k : nat) (v : A) : nat -> A :=
  fun k' => if Nat.eqb k' k then v else f k'.

Definition upd2 {A} (f : nat -> nat -> A) (k i : nat) (v : A) : nat -> nat -> A :=
  upd f k (upd (f k) i v).

(** ** The clustered netlist, the device and the placement context *)

Record Netlist : Type := {
  nets : list ClusterNetId;
  blocks : list ClusterBlockId;
  net_is_ignored : ClusterNetId -> bool;
  net_pins : ClusterNetId -> list ClusterPinId;       (* the driver first *)
  net_pin : ClusterNetId -> nat -> ClusterPinId;
  net_driver : ClusterNetId -> ClusterPinId;
  net_driver_block : ClusterNetId -> ClusterBlockId;
  block_pins : ClusterBlockId -> list ClusterPinId;
  pin_net : ClusterPinId -> ClusterNetId;
  pin_block : ClusterPinId -> ClusterBlockId;
  pin_type : ClusterPinId -> PinType;
  pin_net_index : ClusterPinId -> nat;
  pin_logical_index : ClusterPinId -> Z;
  (* vpr_utils and the physical tile of a block *)
  tile_pin_index : ClusterPinId -> Z;
  net_pin_to_tile_pin_index : ClusterNetId -> nat -> Z;
  pin_width_offset : ClusterBlockId -> Z -> Z;
  pin_height_offset : ClusterBlockId -> Z -> Z
}.

(** [net_sinks(net)]: every pin of the net but the driver. *)
Definition net_sinks (nl : Netlist) (net : ClusterNetId) : list ClusterPinId :=
  tl (net_pins nl net).

Record t_pl_loc : Type := { loc_x : Z; loc_y : Z; loc_sub_tile : Z }.

Record t_pl_moved_block : Type := {
  block_num : ClusterBlockId;
  old_loc : t_pl_loc;
  new_loc : t_pl_loc
}.

(** [moved_blocks] holds the first [num_moved_blocks] entries of the vector
    of the source. *)
Record t_pl_blocks_to_be_moved : Type := {
  moved_blocks : list t_pl_moved_block;
  affected_pins : list ClusterPinId
}.

Definition num_moved_blocks (b : t_pl_blocks_to_be_moved) : nat :=
  length (moved_blocks b).

Record t_bb : Type := { xmin : Z; xmax : Z; ymin : Z; ymax : Z }.

Inductive bb_flag : Type := NOT_UPDATED_YET | UPDATED_ONCE | GOT_FROM_SCRATCH.

Definition bb_flag_eqb (a b : bb_flag) : bool :=
  match a, b with
  | NOT_UPDATED_YET, NOT_UPDATED_YET
  | UPDATED_ONCE, UPDATED_ONCE
  | GOT_FROM_SCRATCH, GOT_FROM_SCRATCH => true
  | _, _ => false
  end.

Inductive e_move_result : Type := REJECTED | ACCEPTED | ABORTED.
Inductive e_create_move : Type := VALID | ABORT.
Inductive e_place_algorithm : Type := BOUNDING_BOX_PLACE | PATH_TIMING_DRIVEN_PLACE.
Inductive e_sched_type : Type := AUTO_SCHED | DUSTY_SCHED | USER_SCHED.

Definition SMALL_NET : nat := 4.
Definition ERROR_TOL : fp := Fin 0.01.
Definition FINAL_RLIM : fp := Fin 1.
Definition MAX_MOVES_BEFORE_RECOMPUTE : Z := 500000.
Definition INVALID_DELAY : fp := NaN.
Definition MAX_INV_TIMING_COST : fp := Fin 1e9.

Record t_placer_costs : Type := {
  cost : fp;
  bb_cost : fp;
  timing_cost : fp
}.

Record t_placer_prev_inverse_costs : Type := {
  inv_bb_cost : fp;
  inv_timing_cost : fp
}.

Record t_placer_statistics : Type := {
  av_cost : fp;
  av_bb_cost : fp;
  av_timing_cost : fp;
  sum_of_squares : fp;
  success_sum : Z
}.

(** ** File-scope state of place.cpp *)

(** Bounding boxes: [bb_coords], [bb_num_on_edges], the per-trial copies
    [ts_bb_coord_new], [ts_bb_edge_new] and the flag [bb_updated_before]. *)
Record bb_state : Type := {
  bb_coords : ClusterNetId -> t_bb;
  bb_num_on_edges : ClusterNetId -> t_bb;
  ts_bb_coord_new : ClusterNetId -> t_bb;
  ts_bb_edge_new : ClusterNetId -> t_bb;
  bb_updated_before : ClusterNetId -> bb_flag
}.

(** Net costs: [net_cost], [proposed_net_cost] and the scratch vector
    [ts_nets_to_update]. *)
Record nc_state : Type := {
  net_cost : ClusterNetId -> fp;
  proposed_net_cost : ClusterNetId -> fp;
  ts_nets_to_update : nat -> ClusterNetId
}.

(** Timing: the committed and the proposed connection delays and costs, and
    the per-net timing cost. *)
Record td_state : Type := {
  connection_delay : ClusterNetId -> nat -> fp;
  proposed_connection_delay : ClusterNetId -> nat -> fp;
  connection_timing_cost : ClusterNetId -> nat -> fp;
  proposed_connection_timing_cost : ClusterNetId -> nat -> fp;
  net_timing_cost : ClusterNetId -> fp
}.

(** [MoveOutcomeStats] of move_utils.h. *)
Record MoveOutcomeStats : Type := {
  delta_cost_norm : fp;
  delta_bb_cost_norm : fp;
  delta_timing_cost_norm : fp;
  delta_bb_cost_abs : fp;
  delta_timing_cost_abs : fp;
  outcome : e_move_result
}.

(** The fields of [t_placer_opts] and [t_annealing_sched] (vpr_types.h)
    that place.cpp reads on the modelled paths. *)
Record t_placer_opts : Type := {
  place_algorithm : e_place_algorithm;
  timing_tradeoff : fp;
  rlim_escape_fraction : fp;
  td_place_exp_first : fp;
  td_place_exp_last : fp;
  recompute_crit_iter : Z;
  inner_loop_recompute_divider : Z
}.

Record t_annealing_sched : Type := {
  sched_type : e_sched_type;
  inner_num : fp;
  init_t : fp;
  alpha_t : fp;
  exit_t : fp;
  alpha_min : fp;
  alpha_max : fp;
  alpha_decay : fp;
  success_min : fp;
  success_target : fp
}.

Record t_annealing_state : Type := {
  ann_t : fp;
  ann_rlim : fp;
  inverse_delta_rlim : fp;
  ann_alpha : fp;
  restart_t : fp;
  crit_exponent : fp;
  move_lim_max : Z;
  move_lim : Z
}.

(** The file-scope swap counters other than [num_ts_called]. *)
Record swap_counters : Type := {
  num_swap_rejected : Z;
  num_swap_accepted : Z;
  num_swap_aborted : Z
}.

(** Unsigned 64-bit arithmetic of [size_t]. *)
Definition size_t_wrap (z : Z) : Z := (z mod 2 ^ 64)%Z.

(** [(int)f]: truncation toward zero.  Outside the range of [int] and on
    the special values the conversion is undefined in C++; the model returns
    the x86 result INT_MIN there. *)
Definition INT_MIN : Z := (- 2 ^ 31)%Z.
Definition float_to_int (a : fp) : Z :=
  match a with
  | Fin r =>
      let z := if Rle_dec 0 r then Int_part r else (- Int_part (- r))%Z in
      if ((INT_MIN <=? z) && (z <? 2 ^ 31))%Z then z else INT_MIN
  | _ => INT_MIN
  end.

(** ** Statistics and schedule *)

(** [get_std_dev(n, sum_x_squared, av_x)] *)
Definition get_std_dev (n : Z) (sum_x_squared av_x : fp) : fp :=
  let std_dev :=
    if (n <=? 1)%Z then Fin 0
    else ((sum_x_squared - of_int n * av_x * av_x) / of_int (n - 1))%fp in
  if (std_dev >? Fin 0)%fp then fsqrt std_dev else Fin 0.

(** [update_rlim(rlim, success_rat, grid)]: the new value of [*rlim]. *)
Definition update_rlim (grid_width grid_height : Z) (rlim success_rat : fp) : fp :=
  let rlim := (rlim * (Fin 1 - Fin 0.44 + success_rat))%fp in
  let upper_lim :=
    of_int (Z.max (size_t_wrap (grid_width - 1)) (size_t_wrap (grid_height - 1))) in
  let rlim := fmin rlim upper_lim in
  fmax rlim (Fin 1).

(** The range-limit update as the specification words it:
    [clamp(rlim * (1.56 - success_rat), 1, max(W, H) - 1)]. *)
Definition claimed_update_rlim (grid_width grid_height : Z) (rlim success_rat : fp) : fp :=
  let v := (rlim * (Fin 1.56 - success_rat))%fp in
  fmax (fmin v (of_int (Z.max grid_width grid_height - 1))) (Fin 1).

(** The sum of a list of values, from the left, starting from zero. *)
Definition fsum (l : list fp) : fp := fold_left fadd l (Fin 0).

(** ** A small netlist for the concrete runs

    Five blocks.  Net 0 is driven by pin 0 on block 0 and has the sinks
    1, 2, 3, 4 on the blocks 1, 2, 3, 4; net 1 is driven by pin 5 on block 1
    and has the sink 6 on block 0.  No net is ignored and every pin sits at
    the origin of its tile. *)
Definition demo_netlist : Netlist :=
  {| nets := [0; 1]%nat;
     blocks := [0; 1; 2; 3; 4]%nat;
     net_is_ignored := fun _ => false;
     net_pins := fun n => match n with
                          | 0%nat => [0; 1; 2; 3; 4]%nat
                          | 1%nat => [5; 6]%nat
                          | _ => []
                          end;
     net_pin := fun n i => match n with
                           | 0%nat => i
                           | _ => (5 + i)%nat
                           end;
     net_driver := fun n => match n with 0%nat => 0%nat | _ => 5%nat end;
     net_driver_block := fun n => match n with 0%nat => 0%nat | _ => 1%nat end;
     block_pins := fun b => match b with
                            | 0%nat => [0; 6]%nat
                            | 1%nat => [1; 5]%nat
                            | 2%nat => [2]%nat
                            | 3%nat => [3]%nat
                            | 4%nat => [4]%nat
                            | _ => []
                            end;
     pin_net := fun p => if (p <? 5)%nat then 0%nat else 1%nat;
     pin_block := fun p => match p with
                           | 5%nat => 1%nat
                           | 6%nat => 0%nat
                           | _ => p
                           end;
     pin_type := fun p => match p with
                          | 0%nat | 5%nat => DRIVER
                          | _ => SINK
                          end;
     pin_net_index := fun p => if (p <? 5)%nat then p else (p - 5)%nat;
     pin_logical_index := fun p => Z.of_nat p;
     tile_pin_index := fun p => Z.of_nat p;
     net_pin_to_tile_pin_index := fun n i => match n with
                                             | 0%nat => Z.of_nat i
                                             | _ => Z.of_nat (5 + i)
                                             end;
     pin_width_offset := fun _ _ => 0%Z;
     pin_height_offset := fun _ _ => 0%Z |}.

(** A netlist with one net of sixty pins. *)
Definition wide_netlist : Netlist :=
  {| nets := [0]%nat;
     blocks := seq 0 60;
     net_is_ignored := fun _ => false;
     net_pins := fun _ => seq 0 60;
     net_pin := fun _ i => i;
     net_driver := fun _ => 0%nat;
     net_driver_block := fun _ => 0%nat;
     block_pins := fun b => [b];
     pin_net := fun _ => 0%nat;
     pin_block := fun p => p;
     pin_type := fun p => match p with 0%nat => DRIVER | _ => SINK end;
     pin_net_index := fun p => p;
     pin_logical_index := fun p => Z.of_nat p;
     tile_pin_index := fun p => Z.of_nat p;
     net_pin_to_tile_pin_index := fun _ i => Z.of_nat i;
     pin_width_offset := fun _ _ => 0%Z;
     pin_height_offset := fun _ _ => 0%Z |}.

(** The standard deviation as the specification words it: 0 for at most
    one sample; otherwise the square root of
    [(sum x^2 - n * avg^2) / (n - 1)], a negative value clamped to 0. *)
Definition claimed_std_dev (xs : list fp) : fp :=
  let n := Z.of_nat (length xs) in
  if (n <=? 1)%Z then Fin 0
  else
    let avg := (fsum xs / of_int n)%fp in
    let v := ((fsum (map (fun x => x * x) xs) - of_int n * avg * avg) / of_int (n - 1))%fp in
    fsqrt (fmax (Fin 0) v).

(** Sums, mean and sample variance of real samples. *)
Definition Rsum (l : list R) : R := fold_right Rplus 0%R l.
Definition Rmean (l : list R) : R := (Rsum l / INR (length l))%R.
Definition Rsample_variance (l : list R) : R :=
  (Rsum (map (fun x => (x - Rmean l) * (x - Rmean l)) l) / (INR (length l) - 1))%R.

(** ** The bounding-box engine *)

(** The four locals of one axis in [get_bb_from_scratch]: the two extremes
    and the number of pins on each. *)
Record extent : Type := { lo : Z; hi : Z; lo_edge : Z; hi_edge : Z }.

(** [max(min<int>(v, limit), 1)] *)
Definition clip (v limit : Z) : Z := Z.max (Z.min v limit) 1.

(** The body of the sink loop of [get_bb_from_scratch] for one axis. *)
Definition scratch_axis (a : extent) (v : Z) : extent :=
  let lo_edge1 := if (v =? lo a)%Z then (lo_edge a + 1)%Z else lo_edge a in
  if (v =? hi a)%Z then
    {| lo := lo a; hi := hi a; lo_edge := lo_edge1; hi_edge := (hi_edge a + 1)%Z |}
  else if (v <? lo a)%Z then
    {| lo := v; hi := hi a; lo_edge := 1; hi_edge := hi_edge a |}
  else if (v >? hi a)%Z then
    {| lo := lo a; hi := v; lo_edge := lo_edge1; hi_edge := 1 |}
  else
    {| lo := lo a; hi := hi a; lo_edge := lo_edge1; hi_edge := hi_edge a |}.

(** The body of the sink loop of [get_non_updateable_bb] for one axis. *)
Definition non_updateable_axis (a : Z * Z) (v : Z) : Z * Z :=
  let '(vmin, vmax) := a in
  if (v <? vmin)%Z then (v, vmax)
  else if (v >? vmax)%Z then (vmin, v)
  else (vmin, vmax).

(** What [curr_bb_coord] and [curr_bb_edge] point to in [update_bb]: the
    committed boxes, or the very boxes [bb_coord_new], [bb_edge_new] that
    are being written. *)
Inductive bb_source : Type := Committed | InProgress.

(** The pair of boxes [( *bb_coord_new, *bb_edge_new )] and its field
    writes. *)
Definition bb_pair : Type := (t_bb * t_bb)%type.

Definition wr_xmin (v : Z) (b : t_bb) : t_bb :=
  {| xmin := v; xmax := xmax b; ymin := ymin b; ymax := ymax b |}.
Definition wr_xmax (v : Z) (b : t_bb) : t_bb :=
  {| xmin := xmin b; xmax := v; ymin := ymin b; ymax := ymax b |}.
Definition wr_ymin (v : Z) (b : t_bb) : t_bb :=
  {| xmin := xmin b; xmax := xmax b; ymin := v; ymax := ymax b |}.
Definition wr_ymax (v : Z) (b : t_bb) : t_bb :=
  {| xmin := xmin b; xmax := xmax b; ymin := ymin b; ymax := v |}.

Definition coord (f : Z -> t_bb -> t_bb) (v : Z) (m : bb_pair) : bb_pair :=
  (f v (fst m), snd m).
Definition edge (f : Z -> t_bb -> t_bb) (v : Z) (m : bb_pair) : bb_pair :=
  (fst m, f v (snd m)).

(** One axis of [update_bb] (the source spells it out twice, for x and for
    y): [gmin], [gmax] read and [wmin], [wmax] write the two fields of the
    axis.  Every read goes through [curr], so a write to [bb_coord_new] or
    [bb_edge_new] is seen by the later reads when the pointers are aliased.
    [None] is the branch that recomputes the box from scratch and returns. *)
Definition update_bb_axis (gmin gmax : t_bb -> Z) (wmin wmax : Z -> t_bb -> t_bb)
    (src : bb_source) (committed : bb_pair) (vold vnew : Z) (m : bb_pair)
  : option bb_pair :=
  let curr (m : bb_pair) :=
    match src with Committed => committed | InProgress => m end in
  if (vnew <? vold)%Z then
    (* the max fields first *)
    match (if (vold =? gmax (fst (curr m)))%Z then
             if (gmax (snd (curr m)) =? 1)%Z then None
             else
               let m := edge wmax (gmax (snd (curr m)) - 1)%Z m in
               Some (coord wmax (gmax (fst (curr m))) m)
           else
             let m := coord wmax (gmax (fst (curr m))) m in
             Some (edge wmax (gmax (snd (curr m))) m))
    with
    | None => None
    | Some m =>
        (* now the min fields *)
        if (vnew <? gmin (fst (curr m)))%Z then
          let m := coord wmin vnew m in
          Some (edge wmin 1%Z m)
        else if (vnew =? gmin (fst (curr m)))%Z then
          let m := coord wmin vnew m in
          Some (edge wmin (gmin (snd (curr m)) + 1)%Z m)
        else
          let m := coord wmin (gmin (fst (curr m))) m in
          Some (edge wmin (gmin (snd (curr m))) m)
    end
  else if (vnew >? vold)%Z then
    (* the min fields first *)
    match (if (vold =? gmin (fst (curr m)))%Z then
             if (gmin (snd (curr m)) =? 1)%Z then None
             else
               let m := edge wmin (gmin (snd (curr m)) - 1)%Z m in
               Some (coord wmin (gmin (fst (curr m))) m)
           else
             let m := coord wmin (gmin (fst (curr m))) m in
             Some (edge wmin (gmin (snd (curr m))) m))
    with
    | None => None
    | Some m =>
        (* now the max fields *)
        if (vnew >? gmax (fst (curr m)))%Z then
          let m := coord wmax vnew m in
          Some (edge wmax 1%Z m)
        else if (vnew =? gmax (fst (curr m)))%Z then
          let m := coord wmax vnew m in
          Some (edge wmax (gmax (snd (curr m)) + 1)%Z m)
        else
          let m := coord wmax (gmax (fst (curr m))) m in
          Some (edge wmax (gmax (snd (curr m))) m)
    end
  else
    (* no motion along this axis *)
    let m := coord wmin (gmin (fst (curr m))) m in
    let m := coord wmax (gmax (fst (curr m))) m in
    let m := edge wmin (gmin (snd (curr m))) m in
    Some (edge wmax (gmax (snd (curr m))) m).

Definition set_bb_flag (net_id : ClusterNetId) (f : bb_flag) (s : bb_state) : bb_state :=
  {| bb_coords := bb_coords s;
     bb_num_on_edges := bb_num_on_edges s;
     ts_bb_coord_new := ts_bb_coord_new s;
     ts_bb_edge_new := ts_bb_edge_new s;
     bb_updated_before := upd (bb_updated_before s) net_id f |}.

Definition set_ts_bb_coord_new (net_id : ClusterNetId) (b : t_bb) (s : bb_state) : bb_state :=
  {| bb_coords := bb_coords s;
     bb_num_on_edges := bb_num_on_edges s;
     ts_bb_coord_new := upd (ts_bb_coord_new s) net_id b;
     ts_bb_edge_new := ts_bb_edge_new s;
     bb_updated_before := bb_updated_before s |}.

Definition set_ts_bb_edge_new (net_id : ClusterNetId) (b : t_bb) (s : bb_state) : bb_state :=
  {| bb_coords := bb_coords s;
     bb_num_on_edges := bb_num_on_edges s;
     ts_bb_coord_new := ts_bb_coord_new s;
     ts_bb_edge_new := upd (ts_bb_edge_new s) net_id b;
     bb_updated_before := bb_updated_before s |}.

Definition set_bb_coords (net_id : ClusterNetId) (b : t_bb) (s : bb_state) : bb_state :=
  {| bb_coords := upd (bb_coords s) net_id b;
     bb_num_on_edges := bb_num_on_edges s;
     ts_bb_coord_new := ts_bb_coord_new s;
     ts_bb_edge_new := ts_bb_edge_new s;
     bb_updated_before := bb_updated_before s |}.

Definition set_bb_num_on_edges (net_id : ClusterNetId) (b : t_bb) (s : bb_state) : bb_state :=
  {| bb_coords := bb_coords s;
     bb_num_on_edges := upd (bb_num_on_edges s) net_id b;
     ts_bb_coord_new := ts_bb_coord_new s;
     ts_bb_edge_new := ts_bb_edge_new s;
     bb_updated_before := bb_updated_before s |}.

(** Writing both boxes behind [bb_coord_new] and [bb_edge_new]. *)
Definition set_ts_bb (net_id : ClusterNetId) (m : bb_pair) (s : bb_state) : bb_state :=
  set_ts_bb_edge_new net_id (snd m) (set_ts_bb_coord_new net_id (fst m) s).

(** The incremental update of one axis as the specification words it, on
    the extremes and edge counts of the axis: [None] when the moved pin was
    alone on the extreme it leaves. *)
Definition incremental_axis (a : extent) (vold vnew : Z) : option extent :=
  if (vnew <? vold)%Z then
    if ((vold =? hi a) && (hi_edge a =? 1))%Z then None
    else
      let hi_edge' := if (vold =? hi a)%Z then (hi_edge a - 1)%Z else hi_edge a in
      if (vnew <? lo a)%Z then
        Some {| lo := vnew; hi := hi a; lo_edge := 1; hi_edge := hi_edge' |}
      else if (vnew =? lo a)%Z then
        Some {| lo := vnew; hi := hi a; lo_edge := (lo_edge a + 1)%Z; hi_edge := hi_edge' |}
      else
        Some {| lo := lo a; hi := hi a; lo_edge := lo_edge a; hi_edge := hi_edge' |}
  else if (vnew >? vold)%Z then
    if ((vold =? lo a) && (lo_edge a =? 1))%Z then None
    else
      let lo_edge' := if (vold =? lo a)%Z then (lo_edge a - 1)%Z else lo_edge a in
      if (vnew >? hi a)%Z then
        Some {| lo := lo a; hi := vnew; lo_edge := lo_edge'; hi_edge := 1 |}
      else if (vnew =? hi a)%Z then
        Some {| lo := lo a; hi := vnew; lo_edge := lo_edge'; hi_edge := (hi_edge a + 1)%Z |}
      else
        Some {| lo := lo a; hi := hi a; lo_edge := lo_edge'; hi_edge := hi_edge a |}
  else Some a.

(** The moved pin was alone on the extreme of the axis that it leaves. *)
Definition leaves_sole_extreme (a : extent) (vold vnew : Z) : bool :=
  ((vnew <? vold) && (vold =? hi a) && (hi_edge a =? 1)
   || (vnew >? vold) && (vold =? lo a) && (lo_edge a =? 1))%Z%bool.

(** The number of entries of [l] equal to [v]. *)
Definition count (v : Z) (l : list Z) : Z := Z.of_nat (count_occ Z.eq_dec l v).

(** [a] holds the extremes of the coordinates [l] and the number of
    entries on each. *)
Definition is_extent (l : list Z) (a : extent) : Prop :=
  In (lo a) l /\ (forall v, In v l -> (lo a <= v)%Z)
  /\ In (hi a) l /\ (forall v, In v l -> (v <= hi a)%Z)
  /\ lo_edge a = count (lo a) l /\ hi_edge a = count (hi a) l.

(** The two axes of a pair of boxes. *)
Definition x_extent (m : bb_pair) : extent :=
  {| lo := xmin (fst m); hi := xmax (fst m);
     lo_edge := xmin (snd m); hi_edge := xmax (snd m) |}.
Definition y_extent (m : bb_pair) : extent :=
  {| lo := ymin (fst m); hi := ymax (fst m);
     lo_edge := ymin (snd m); hi_edge := ymax (snd m) |}.

(** Block locations, [place_ctx.block_locs[b].loc]. *)
Definition block_locs_t : Type := ClusterBlockId -> t_pl_loc.

(** ** A small design for the concrete runs *)

(** A generator that always draws one half and counts its draws. *)
Definition half_frand (e : nat) : fp * nat := (Fin (1 / 2), S e).

(** Two blocks joined by one net: pin 0 drives it from block 0, pin 1 is
    its sink on block 1. *)
Definition pair_netlist : Netlist :=
  {| nets := [0]%nat;
     blocks := [0; 1]%nat;
     net_is_ignored := fun _ => false;
     net_pins := fun n => match n with 0%nat => [0; 1]%nat | _ => [] end;
     net_pin := fun _ i => i;
     net_driver := fun _ => 0%nat;
     net_driver_block := fun _ => 0%nat;
     block_pins := fun b => match b with
                            | 0%nat => [0]%nat
                            | 1%nat => [1]%nat
                            | _ => []
                            end;
     pin_net := fun _ => 0%nat;
     pin_block := fun p => p;
     pin_type := fun p => match p with 0%nat => DRIVER | _ => SINK end;
     pin_net_index := fun p => p;
     pin_logical_index := fun p => Z.of_nat p;
     tile_pin_index := fun p => Z.of_nat p;
     net_pin_to_tile_pin_index := fun _ i => Z.of_nat i;
     pin_width_offset := fun _ _ => 0%Z;
     pin_height_offset := fun _ _ => 0%Z |}.

(** A delay model: the Manhattan distance of the two blocks. *)
Definition manhattan_delay (sx sy _ tx ty _ : Z) : fp :=
  Fin (IZR (Z.abs (tx - sx) + Z.abs (ty - sy))).

Definition unit_fac (_ _ : Z) : fp := Fin 1.
Definition unit_criticality (_ : nat) (_ : ClusterNetId) (_ : nat) : fp := Fin 1.
Definition keep_ext {A : Type} (_ : A) (e : nat) : nat := e.

Definition stats_init : MoveOutcomeStats :=
  {| delta_cost_norm := NaN; delta_bb_cost_norm := NaN; delta_timing_cost_norm := NaN;
     delta_bb_cost_abs := NaN; delta_timing_cost_abs := NaN; outcome := ABORTED |}.

(** A move generator that sends block 1 to column [x] of row 1, and one
    that never finds a move. *)
Definition move_sink_to (x : Z) (locs : block_locs_t) (ba : t_pl_blocks_to_be_moved)
    (rlim : fp) (e : nat) : e_create_move * t_pl_blocks_to_be_moved * nat :=
  (VALID,
   {| moved_blocks := [{| block_num := 1%nat; old_loc := locs 1%nat;
                          new_loc := {| loc_x := x; loc_y := 1; loc_sub_tile := 0 |} |}];
      affected_pins := [] |},
   e).

Definition no_move (locs : block_locs_t) (ba : t_pl_blocks_to_be_moved)
    (rlim : fp) (e : nat) : e_create_move * t_pl_blocks_to_be_moved * nat :=
  (ABORT, ba, e).

(** The placement: block 0 at (1, 1), block 1 at (2, 1), on a 10 x 10
    grid, with the state that [initial_placement] and the first cost
    computation leave. *)
Definition pair_locs : block_locs_t :=
  fun b => match b with
           | 0%nat => {| loc_x := 1; loc_y := 1; loc_sub_tile := 0 |}
           | _ => {| loc_x := 2; loc_y := 1; loc_sub_tile := 0 |}
           end.

Definition pair_bb : bb_state :=
  let box := {| xmin := 1; xmax := 2; ymin := 1; ymax := 1 |} in
  let zero := {| xmin := 0; xmax := 0; ymin := 0; ymax := 0 |} in
  {| bb_coords := fun _ => box; bb_num_on_edges := fun _ => zero;
     ts_bb_coord_new := fun _ => zero; ts_bb_edge_new := fun _ => zero;
     bb_updated_before := fun _ => NOT_UPDATED_YET |}.

Definition pair_nc : nc_state :=
  {| net_cost := fun _ => Fin 3; proposed_net_cost := fun _ => Fin (-1);
     ts_nets_to_update := fun _ => 0%nat |}.

(** The timing state after [alloc_and_load_placement_structs] and the first
    cost computation: entry 0 of a net, the driver's, stays 0; the entry of
    the sink holds the delay and the cost 1 of the connection, and NaN in
    the shadow arrays. *)
Definition pair_td : td_state :=
  {| connection_delay := fun _ ipin => match ipin with 0%nat => Fin 0 | _ => Fin 1 end;
     proposed_connection_delay := fun _ ipin => match ipin with 0%nat => Fin 0 | _ => NaN end;
     connection_timing_cost := fun _ ipin => match ipin with 0%nat => Fin 0 | _ => Fin 1 end;
     proposed_connection_timing_cost :=
       fun _ ipin => match ipin with 0%nat => Fin 0 | _ => NaN end;
     net_timing_cost := fun _ => Fin 1 |}.

Definition pair_costs : t_placer_costs :=
  {| cost := Fin 1; bb_cost := Fin 3; timing_cost := Fin 1 |}.

Definition pair_inverse_costs : t_placer_prev_inverse_costs :=
  {| inv_bb_cost := Fin (1 / 3); inv_timing_cost := Fin 1 |}.

Definition no_blocks : t_pl_blocks_to_be_moved :=
  {| moved_blocks := []; affected_pins := [] |}.

(** Where the pins of a net sit: the block and the tile pin of the driver,
    then those of the sinks, as [get_bb_from_scratch] looks them up. *)
Definition net_pin_sites (nl : Netlist) (net_id : ClusterNetId)
  : list (ClusterBlockId * Z) :=
  (net_driver_block nl net_id, net_pin_to_tile_pin_index nl net_id 0)
    :: map (fun pin_id => (pin_block nl pin_id, tile_pin_index nl pin_id))
           (net_sinks nl net_id).

Section Placer.

Set Default Proof Using "Type".

(** The netlist and the device grid ([g_vpr_ctx.clustering()],
    [g_vpr_ctx.device()]); both are fixed during placement. *)
Variable nl : Netlist.
Variable grid_width grid_height : Z.

(** The clipped position of pin number [pnum] of block [bnum]. *)
Definition clipped_pin_x (locs : block_locs_t) (bnum : ClusterBlockId) (pnum : Z) : Z :=
  clip (loc_x (locs bnum) + pin_width_offset nl bnum pnum) (grid_width - 2).
Definition clipped_pin_y (locs : block_locs_t) (bnum : ClusterBlockId) (pnum : Z) : Z :=
  clip (loc_y (locs bnum) + pin_height_offset nl bnum pnum) (grid_height - 2).

(** [get_bb_from_scratch]: the pair [( *coords, *num_on_edges )] it stores.
    [VTR_ASSERT(pnum >= 0)] on the driver's tile pin is taken to hold. *)
Definition get_bb_from_scratch (locs : block_locs_t) (net_id : ClusterNetId) : bb_pair :=
  let bnum := net_driver_block nl net_id in
  let pnum := net_pin_to_tile_pin_index nl net_id 0 in
  let x := clipped_pin_x locs bnum pnum in
  let y := clipped_pin_y locs bnum pnum in
  let init := ({| lo := x; hi := x; lo_edge := 1; hi_edge := 1 |},
               {| lo := y; hi := y; lo_edge := 1; hi_edge := 1 |}) in
  let body (acc : extent * extent) (pin_id : ClusterPinId) :=
    let bnum := pin_block nl pin_id in
    let pnum := tile_pin_index nl pin_id in
    let x := clipped_pin_x locs bnum pnum in
    let y := clipped_pin_y locs bnum pnum in
    (scratch_axis (fst acc) x, scratch_axis (snd acc) y) in
  let acc := fold_left body (net_sinks nl net_id) init in
  ({| xmin := lo (fst acc); xmax := hi (fst acc);
      ymin := lo (snd acc); ymax := hi (snd acc) |},
   {| xmin := lo_edge (fst acc); xmax := hi_edge (fst acc);
      ymin := lo_edge (snd acc); ymax := hi_edge (snd acc) |}).

(** [get_non_updateable_bb]: the box it stores in [*bb_coord_new]. *)
Definition get_non_updateable_bb (locs : block_locs_t) (net_id : ClusterNetId) : t_bb :=
  let bnum := net_driver_block nl net_id in
  let pnum := net_pin_to_tile_pin_index nl net_id 0 in
  let x := (loc_x (locs bnum) + pin_width_offset nl bnum pnum)%Z in
  let y := (loc_y (locs bnum) + pin_height_offset nl bnum pnum)%Z in
  let body (acc : (Z * Z) * (Z * Z)) (pin_id : ClusterPinId) :=
    let bnum := pin_block nl pin_id in
    let pnum := tile_pin_index nl pin_id in
    let x := (loc_x (locs bnum) + pin_width_offset nl bnum pnum)%Z in
    let y := (loc_y (locs bnum) + pin_height_offset nl bnum pnum)%Z in
    (non_updateable_axis (fst acc) x, non_updateable_axis (snd acc) y) in
  let acc := fold_left body (net_sinks nl net_id) ((x, x), (y, y)) in
  {| xmin := clip (fst (fst acc)) (grid_width - 2);
     ymin := clip (fst (snd acc)) (grid_height - 2);
     xmax := clip (snd (fst acc)) (grid_width - 2);
     ymax := clip (snd (snd acc)) (grid_height - 2) |}.

(** [update_bb(net_id, &ts_bb_coord_new[net_id], &ts_bb_edge_new[net_id],
    xold, yold, xnew, ynew)], as [update_net_bb] calls it. *)
Definition update_bb (locs : block_locs_t) (net_id : ClusterNetId)
    (xold yold xnew ynew : Z) (s : bb_state) : bb_state :=
  let xnew := clip xnew (grid_width - 2) in
  let ynew := clip ynew (grid_height - 2) in
  let xold := clip xold (grid_width - 2) in
  let yold := clip yold (grid_height - 2) in
  let from_scratch (s : bb_state) :=
    set_bb_flag net_id GOT_FROM_SCRATCH
      (set_ts_bb net_id (get_bb_from_scratch locs net_id) s) in
  match bb_updated_before s net_id with
  | GOT_FROM_SCRATCH => s
  | flag =>
      let src := match flag with NOT_UPDATED_YET => Committed | _ => InProgress end in
      let committed := (bb_coords s net_id, bb_num_on_edges s net_id) in
      let s := match flag with
               | NOT_UPDATED_YET => set_bb_flag net_id UPDATED_ONCE s
               | _ => s
               end in
      let m := (ts_bb_coord_new s net_id, ts_bb_edge_new s net_id) in
      match update_bb_axis xmin xmax wr_xmin wr_xmax src committed xold xnew m with
      | None => from_scratch s
      | Some m =>
          match update_bb_axis ymin ymax wr_ymin wr_ymax src committed yold ynew m with
          | None => from_scratch s
          | Some m =>
              let s := set_ts_bb net_id m s in
              if bb_flag_eqb (bb_updated_before s net_id) NOT_UPDATED_YET
              then set_bb_flag net_id UPDATED_ONCE s
              else s
          end
      end
  end.

(** ** Net cost *)

(** The precomputed channel factors [chan?_place_cost_fac[high][low]]. *)
Variable chanx_place_cost_fac chany_place_cost_fac : Z -> Z -> fp.

Definition cross_count : list fp := map Fin
  [ 1.0; 1.0; 1.0; 1.0828; 1.1536; 1.2206; 1.2823; 1.3385; 1.3991; 1.4493; 1.4974;
    1.5455; 1.5937; 1.6418; 1.6899; 1.7304; 1.7709; 1.8114; 1.8519; 1.8924;
    1.9288; 1.9652; 2.0015; 2.0379; 2.0743; 2.1061; 2.1379; 2.1698; 2.2016;
    2.2334; 2.2646; 2.2958; 2.3271; 2.3583; 2.3895; 2.4187; 2.4479; 2.4772;
    2.5064; 2.5356; 2.5610; 2.5864; 2.6117; 2.6371; 2.6625; 2.6887; 2.7148;
    2.7410; 2.7671; 2.7933 ]%R.

(** [wirelength_crossing_count(fanout)].  A fanout of 0 reads
    [cross_count[-1]], which is undefined in the source: NaN here. *)
Definition wirelength_crossing_count (fanout : nat) : fp :=
  if (50 <? fanout)%nat then
    (Fin 2.7933 + Fin 0.02616 * of_int (Z.of_nat fanout - 50))%fp
  else
    match fanout with
    | O => NaN
    | S k => nth k cross_count NaN
    end.

Definition get_net_cost (net_id : ClusterNetId) (bb : t_bb) : fp :=
  let crossing := wirelength_crossing_count (length (net_pins nl net_id)) in
  let ncost := (of_int (xmax bb - xmin bb + 1) * crossing
                * chanx_place_cost_fac (ymax bb) (ymin bb - 1)%Z)%fp in
  (ncost + of_int (ymax bb - ymin bb + 1) * crossing
           * chany_place_cost_fac (xmax bb) (xmin bb - 1)%Z)%fp.

Definition get_net_wirelength_estimate (net_id : ClusterNetId) (bb : t_bb) : fp :=
  let crossing := wirelength_crossing_count (length (net_pins nl net_id)) in
  let ncost := (of_int (xmax bb - xmin bb + 1) * crossing)%fp in
  (ncost + of_int (ymax bb - ymin bb + 1) * crossing)%fp.

Definition set_net_cost (net_id : ClusterNetId) (v : fp) (s : nc_state) : nc_state :=
  {| net_cost := upd (net_cost s) net_id v;
     proposed_net_cost := proposed_net_cost s;
     ts_nets_to_update := ts_nets_to_update s |}.

Definition set_proposed_net_cost (net_id : ClusterNetId) (v : fp) (s : nc_state) : nc_state :=
  {| net_cost := net_cost s;
     proposed_net_cost := upd (proposed_net_cost s) net_id v;
     ts_nets_to_update := ts_nets_to_update s |}.

Definition set_ts_nets_to_update (i : nat) (net_id : ClusterNetId) (s : nc_state) : nc_state :=
  {| net_cost := net_cost s;
     proposed_net_cost := proposed_net_cost s;
     ts_nets_to_update := upd (ts_nets_to_update s) i net_id |}.

(** [recompute_bb_cost]: the function reads [net_cost] and the netlist and
    writes nothing. *)
Definition recompute_bb_cost (nc : nc_state) : fp :=
  fold_left (fun cost net_id =>
               if negb (net_is_ignored nl net_id)
               then (cost + net_cost nc net_id)%fp
               else cost)
            (nets nl) (Fin 0).

(** [record_affected_net(net, num_affected_nets)] *)
Definition record_affected_net (net : ClusterNetId) (acc : nc_state * nat) : nc_state * nat :=
  let '(nc, num_affected_nets) := acc in
  if (proposed_net_cost nc net <? Fin 0)%fp then
    let nc := set_ts_nets_to_update num_affected_nets net nc in
    let num_affected_nets := S num_affected_nets in
    (set_proposed_net_cost net (Fin 1) nc, num_affected_nets)
  else (nc, num_affected_nets).

(** [update_net_bb(net, blocks_affected, iblk, blk, blk_pin)], with [mb] the
    entry [blocks_affected.moved_blocks[iblk]]. *)
Definition update_net_bb (locs : block_locs_t) (net : ClusterNetId)
    (mb : t_pl_moved_block) (blk : ClusterBlockId) (blk_pin : ClusterPinId)
    (s : bb_state) : bb_state :=
  if (length (net_sinks nl net) <? SMALL_NET)%nat then
    match bb_updated_before s net with
    | NOT_UPDATED_YET =>
        set_ts_bb_coord_new net (get_non_updateable_bb locs net) s
    | _ => s
    end
  else
    let iblk_pin := tile_pin_index nl blk_pin in
    let pin_width_offset := pin_width_offset nl blk iblk_pin in
    let pin_height_offset := pin_height_offset nl blk iblk_pin in
    update_bb locs net
      (loc_x (old_loc mb) + pin_width_offset)
      (loc_y (old_loc mb) + pin_height_offset)
      (loc_x (new_loc mb) + pin_width_offset)
      (loc_y (new_loc mb) + pin_height_offset) s.

(** [update_move_nets(num_nets_affected)] and
    [reset_move_nets(num_nets_affected)] *)
Definition update_move_nets (num_nets_affected : nat) (s : bb_state * nc_state)
  : bb_state * nc_state :=
  fold_left (fun '(bb, nc) inet_affected =>
               let net_id := ts_nets_to_update nc inet_affected in
               let bb := set_bb_coords net_id (ts_bb_coord_new bb net_id) bb in
               let bb := if (SMALL_NET <=? length (net_sinks nl net_id))%nat
                         then set_bb_num_on_edges net_id (ts_bb_edge_new bb net_id) bb
                         else bb in
               let nc := set_net_cost net_id (proposed_net_cost nc net_id) nc in
               let nc := set_proposed_net_cost net_id (Fin (-1)) nc in
               (set_bb_flag net_id NOT_UPDATED_YET bb, nc))
            (seq 0 num_nets_affected) s.

Definition reset_move_nets (num_nets_affected : nat) (s : bb_state * nc_state)
  : bb_state * nc_state :=
  fold_left (fun '(bb, nc) inet_affected =>
               let net_id := ts_nets_to_update nc inet_affected in
               let nc := set_proposed_net_cost net_id (Fin (-1)) nc in
               (set_bb_flag net_id NOT_UPDATED_YET bb, nc))
            (seq 0 num_nets_affected) s.

(** ** The timing-cost engine *)

(** What place.cpp borrows from its collaborators.  [ext] is their mutable
    state: the random number generator of vtr_random, the move generator,
    the timing engine with the placer criticalities and the invalidator,
    and the grid-to-block map [place_ctx.grid_blocks]. *)
Variable ext : Type.
Variable frand : ext -> fp * ext.
Variable delay_model : Z -> Z -> Z -> Z -> Z -> Z -> fp.
Variable criticality : ext -> ClusterNetId -> nat -> fp.
Variable invalidate_connection : ClusterPinId -> ext -> ext.

(** Whether the build defines VTR_ASSERT_SAFE_ENABLED (vtr_assert.h). *)
Variable VTR_ASSERT_SAFE_ENABLED : bool.

Definition set_connection_delay (net : ClusterNetId) (ipin : nat) (v : fp)
    (s : td_state) : td_state :=
  {| connection_delay := upd2 (connection_delay s) net ipin v;
     proposed_connection_delay := proposed_connection_delay s;
     connection_timing_cost := connection_timing_cost s;
     proposed_connection_timing_cost := proposed_connection_timing_cost s;
     net_timing_cost := net_timing_cost s |}.

Definition set_proposed_connection_delay (net : ClusterNetId) (ipin : nat) (v : fp)
    (s : td_state) : td_state :=
  {| connection_delay := connection_delay s;
     proposed_connection_delay := upd2 (proposed_connection_delay s) net ipin v;
     connection_timing_cost := connection_timing_cost s;
     proposed_connection_timing_cost := proposed_connection_timing_cost s;
     net_timing_cost := net_timing_cost s |}.

Definition set_connection_timing_cost (net : ClusterNetId) (ipin : nat) (v : fp)
    (s : td_state) : td_state :=
  {| connection_delay := connection_delay s;
     proposed_connection_delay := proposed_connection_delay s;
     connection_timing_cost := upd2 (connection_timing_cost s) net ipin v;
     proposed_connection_timing_cost := proposed_connection_timing_cost s;
     net_timing_cost := net_timing_cost s |}.

Definition set_proposed_connection_timing_cost (net : ClusterNetId) (ipin : nat) (v : fp)
    (s : td_state) : td_state :=
  {| connection_delay := connection_delay s;
     proposed_connection_delay := proposed_connection_delay s;
     connection_timing_cost := connection_timing_cost s;
     proposed_connection_timing_cost := upd2 (proposed_connection_timing_cost s) net ipin v;
     net_timing_cost := net_timing_cost s |}.

Definition set_net_timing_cost (net : ClusterNetId) (v : fp) (s : td_state) : td_state :=
  {| connection_delay := connection_delay s;
     proposed_connection_delay := proposed_connection_delay s;
     connection_timing_cost := connection_timing_cost s;
     proposed_connection_timing_cost := proposed_connection_timing_cost s;
     net_timing_cost := upd (net_timing_cost s) net v |}.

Definition push_affected_pin (pin : ClusterPinId) (b : t_pl_blocks_to_be_moved)
  : t_pl_blocks_to_be_moved :=
  {| moved_blocks := moved_blocks b;
     affected_pins := affected_pins b ++ [pin] |}.

(** [comp_td_connection_delay(delay_model, net_id, ipin)] *)
Definition comp_td_connection_delay (locs : block_locs_t) (net_id : ClusterNetId)
    (ipin : nat) : result fp :=
  if negb (net_is_ignored nl net_id) then
    let source_pin := net_driver nl net_id in
    let sink_pin := net_pin nl net_id ipin in
    let source_block := pin_block nl source_pin in
    let sink_block := pin_block nl sink_pin in
    let source_block_ipin := pin_logical_index nl source_pin in
    let sink_block_ipin := pin_logical_index nl sink_pin in
    let source_x := loc_x (locs source_block) in
    let source_y := loc_y (locs source_block) in
    let sink_x := loc_x (locs sink_block) in
    let sink_y := loc_y (locs sink_block) in
    let delay_source_to_sink :=
      delay_model source_x source_y source_block_ipin sink_x sink_y sink_block_ipin in
    if (delay_source_to_sink <? Fin 0)%fp then Fatal NegativeDelay
    else Ok delay_source_to_sink
  else Ok (Fin 0).

(** [driven_by_moved_block(net, blocks_affected)] *)
Definition driven_by_moved_block (net : ClusterNetId) (blocks_affected : t_pl_blocks_to_be_moved)
  : bool :=
  let net_driver_block := net_driver_block nl net in
  existsb (fun mb => Nat.eqb net_driver_block (block_num mb)) (moved_blocks blocks_affected).

(** The four statements that [update_td_delta_costs] runs for a connection
    [(net, ipin)], in both of its branches: the proposed delay, the proposed
    cost, and the accumulation into [delta_timing_cost]. *)
Definition propose_connection (crit : ClusterNetId -> nat -> fp) (locs : block_locs_t)
    (net : ClusterNetId) (ipin : nat) (acc : td_state * fp) : result (td_state * fp) :=
  let '(td, delta_timing_cost) := acc in
  temp_delay <- comp_td_connection_delay locs net ipin ;;
  let td := set_proposed_connection_delay net ipin temp_delay td in
  let td := set_proposed_connection_timing_cost net ipin (crit net ipin * temp_delay)%fp td in
  let delta_timing_cost :=
    (delta_timing_cost
     + (proposed_connection_timing_cost td net ipin - connection_timing_cost td net ipin))%fp in
  Ok (td, delta_timing_cost).

(** [update_td_delta_costs(delay_model, criticalities, net, pin,
    blocks_affected, delta_timing_cost)] *)
Definition update_td_delta_costs (crit : ClusterNetId -> nat -> fp) (locs : block_locs_t)
    (net : ClusterNetId) (pin : ClusterPinId)
    (acc : td_state * t_pl_blocks_to_be_moved * fp)
  : result (td_state * t_pl_blocks_to_be_moved * fp) :=
  let '(td, blocks_affected, delta_timing_cost) := acc in
  match pin_type nl pin with
  | DRIVER =>
      foldM (fun '(td, blocks_affected, delta_timing_cost) ipin =>
               '(td, delta_timing_cost) <-
                  propose_connection crit locs net ipin (td, delta_timing_cost) ;;
               let sink_pin := net_pin nl net ipin in
               Ok (td, push_affected_pin sink_pin blocks_affected, delta_timing_cost))
            (seq 1 (length (net_pins nl net) - 1))
            (td, blocks_affected, delta_timing_cost)
  | SINK =>
      if negb (driven_by_moved_block net blocks_affected) then
        let net_pin := pin_net_index nl pin in
        '(td, delta_timing_cost) <-
           propose_connection crit locs net net_pin (td, delta_timing_cost) ;;
        Ok (td, push_affected_pin pin blocks_affected, delta_timing_cost)
      else Ok (td, blocks_affected, delta_timing_cost)
  end.

(** The four statements that [commit_td_cost] runs for a connection. *)
Definition commit_connection (net_id : ClusterNetId) (ipin : nat) (td : td_state) : td_state :=
  let td := set_connection_delay net_id ipin (proposed_connection_delay td net_id ipin) td in
  let td := set_proposed_connection_delay net_id ipin INVALID_DELAY td in
  let td := set_connection_timing_cost net_id ipin
              (proposed_connection_timing_cost td net_id ipin) td in
  set_proposed_connection_timing_cost net_id ipin INVALID_DELAY td.

(** [commit_td_cost(blocks_affected)] *)
Definition commit_td_cost (blocks_affected : t_pl_blocks_to_be_moved) (td : td_state)
  : td_state :=
  fold_left (fun td mb =>
    let bnum := block_num mb in
    fold_left (fun td pin_id =>
      let net_id := pin_net nl pin_id in
      if net_is_ignored nl net_id then td
      else
        match pin_type nl pin_id with
        | DRIVER =>
            fold_left (fun td ipin => commit_connection net_id ipin td)
                      (seq 1 (length (net_pins nl net_id) - 1)) td
        | SINK =>
            if negb (driven_by_moved_block net_id blocks_affected) then
              let net_pin := pin_net_index nl pin_id in
              commit_connection net_id net_pin td
            else td
        end)
      (block_pins nl bnum) td)
    (moved_blocks blocks_affected) td.

(** [revert_td_cost(blocks_affected)]: the loop is compiled only when
    VTR_ASSERT_SAFE_ENABLED is defined. *)
Definition revert_td_cost (blocks_affected : t_pl_blocks_to_be_moved) (td : td_state)
  : td_state :=
  if negb VTR_ASSERT_SAFE_ENABLED then td
  else
    fold_left (fun td pin =>
                 let net := pin_net nl pin in
                 let ipin := pin_net_index nl pin in
                 let td := set_proposed_connection_delay net ipin INVALID_DELAY td in
                 set_proposed_connection_timing_cost net ipin INVALID_DELAY td)
              (affected_pins blocks_affected) td.

(** [invalidate_affected_connection_delays(blocks_affected,
    pin_tedges_invalidator, timing_info)] *)
Definition invalidate_affected_connection_delays (blocks_affected : t_pl_blocks_to_be_moved)
    (td : td_state) (e : ext) : ext :=
  fold_left (fun e pin =>
               let net := pin_net nl pin in
               let ipin := pin_net_index nl pin in
               if (proposed_connection_delay td net ipin !=? connection_delay td net ipin)%fp
               then invalidate_connection pin e
               else e)
            (affected_pins blocks_affected) e.

(** ** The move trial *)

Variable propose_move :
  block_locs_t -> t_pl_blocks_to_be_moved -> fp -> ext ->
  e_create_move * t_pl_blocks_to_be_moved * ext.
Variable process_outcome : MoveOutcomeStats -> ext -> ext.
Variable commit_move_blocks : t_pl_blocks_to_be_moved -> ext -> ext.

(** The default member initialisers of [MoveOutcomeStats]. *)
Variable move_outcome_stats_init : MoveOutcomeStats.

(** Everything a trial reads and writes besides its arguments. *)
Record placer_state : Type := {
  ps_bb : bb_state;
  ps_nc : nc_state;
  ps_td : td_state;
  ps_locs : block_locs_t;
  ps_ext : ext;
  num_ts_called : Z
}.

(** Modelled from the spec: [apply_move_blocks] of move_transactions.cpp,
    which applies the move to the block locations and leaves the
    grid-to-block map alone. *)
Definition apply_move_blocks (blocks_affected : t_pl_blocks_to_be_moved)
    (locs : block_locs_t) : block_locs_t :=
  fold_left (fun locs mb => upd locs (block_num mb) (new_loc mb))
            (moved_blocks blocks_affected) locs.

(** Modelled from the spec: [revert_move_blocks] of move_transactions.cpp,
    which returns the moved blocks to their old locations. *)
Definition revert_move_blocks (blocks_affected : t_pl_blocks_to_be_moved)
    (locs : block_locs_t) : block_locs_t :=
  fold_left (fun locs mb => upd locs (block_num mb) (old_loc mb))
            (moved_blocks blocks_affected) locs.

(** Modelled from the spec: [clear_move_blocks] of move_transactions.cpp,
    which empties [blocks_affected]. *)
Definition clear_move_blocks (blocks_affected : t_pl_blocks_to_be_moved)
  : t_pl_blocks_to_be_moved :=
  {| moved_blocks := []; affected_pins := [] |}.

(** The state threaded through the first loop of
    [find_affected_nets_and_update_costs]. *)
Definition affected_acc : Type :=
  (bb_state * nc_state * td_state * t_pl_blocks_to_be_moved * nat * fp)%type.

(** The body of the loop over the pins of a moved block. *)
Definition affected_pin_step (place_algorithm : e_place_algorithm)
    (crit : ClusterNetId -> nat -> fp) (locs : block_locs_t)
    (mb : t_pl_moved_block) (acc : affected_acc) (blk_pin : ClusterPinId)
  : result affected_acc :=
  let '(bb, nc, td, blocks_affected, num_affected_nets, timing_delta_c) := acc in
  let blk := block_num mb in
  let net_id := pin_net nl blk_pin in
  if net_is_ignored nl net_id then Ok acc
  else
    let '(nc, num_affected_nets) := record_affected_net net_id (nc, num_affected_nets) in
    let bb := update_net_bb locs net_id mb blk blk_pin bb in
    match place_algorithm with
    | PATH_TIMING_DRIVEN_PLACE =>
        '(td, blocks_affected, timing_delta_c) <-
           update_td_delta_costs crit locs net_id blk_pin
             (td, blocks_affected, timing_delta_c) ;;
        Ok (bb, nc, td, blocks_affected, num_affected_nets, timing_delta_c)
    | BOUNDING_BOX_PLACE =>
        Ok (bb, nc, td, blocks_affected, num_affected_nets, timing_delta_c)
    end.

(** The second loop: one cost per affected net. *)
Definition affected_net_costs (bb : bb_state) (num_affected_nets : nat)
    (acc : nc_state * fp) : nc_state * fp :=
  fold_left (fun '(nc, bb_delta_c) inet_affected =>
               let net_id := ts_nets_to_update nc inet_affected in
               let nc := set_proposed_net_cost net_id
                           (get_net_cost net_id (ts_bb_coord_new bb net_id)) nc in
               (nc, (bb_delta_c + (proposed_net_cost nc net_id - net_cost nc net_id))%fp))
            (seq 0 num_affected_nets) acc.

(** [find_affected_nets_and_update_costs]: the number of affected nets, the
    state and the two deltas. *)
Definition find_affected_nets_and_update_costs (place_algorithm : e_place_algorithm)
    (crit : ClusterNetId -> nat -> fp) (locs : block_locs_t)
    (bb : bb_state) (nc : nc_state) (td : td_state)
    (blocks_affected : t_pl_blocks_to_be_moved) (bb_delta_c timing_delta_c : fp)
  : result (nat * bb_state * nc_state * td_state * t_pl_blocks_to_be_moved * fp * fp) :=
  let num_affected_nets := O in
  '(bb, nc, td, blocks_affected, num_affected_nets, timing_delta_c) <-
     foldM (fun acc mb =>
              foldM (affected_pin_step place_algorithm crit locs mb)
                    (block_pins nl (block_num mb)) acc)
           (moved_blocks blocks_affected)
           (bb, nc, td, blocks_affected, num_affected_nets, timing_delta_c) ;;
  let '(nc, bb_delta_c) := affected_net_costs bb num_affected_nets (nc, bb_delta_c) in
  Ok (num_affected_nets, bb, nc, td, blocks_affected, bb_delta_c, timing_delta_c).

(** [assess_swap(delta_c, t)]; the random number generator is part of
    [ext]. *)
Definition assess_swap (delta_c t : fp) (e : ext) : e_move_result * ext :=
  if (delta_c <=? Fin 0)%fp then (ACCEPTED, e)
  else if (t ==? Fin 0)%fp then (REJECTED, e)
  else
    let '(fnum, e) := frand e in
    let prob_fac := fexp (- delta_c / t)%fp in
    if (prob_fac >? fnum)%fp then (ACCEPTED, e) else (REJECTED, e).

Definition set_timing_cost (v : fp) (costs : t_placer_costs) : t_placer_costs :=
  {| cost := cost costs; bb_cost := bb_cost costs; timing_cost := v |}.

Definition set_ps_ext (e : ext) (st : placer_state) : placer_state :=
  {| ps_bb := ps_bb st; ps_nc := ps_nc st; ps_td := ps_td st;
     ps_locs := ps_locs st; ps_ext := e; num_ts_called := num_ts_called st |}.

(** The override of [rlim] at the start of [try_swap]: the generator is
    asked only when [rlim_escape_fraction] is positive. *)
Definition escape_rlim (rlim rlim_escape_fraction : fp) (e : ext) : fp * ext :=
  if (rlim_escape_fraction >? Fin 0)%fp then
    if (fst (frand e) <? rlim_escape_fraction)%fp
    then (PInf, snd (frand e))
    else (rlim, snd (frand e))
  else (rlim, e).

(** [delta_c] of a valid move. *)
Definition trial_delta_c (place_algorithm : e_place_algorithm) (timing_tradeoff : fp)
    (prev_inverse_costs : t_placer_prev_inverse_costs) (bb_delta_c timing_delta_c : fp) : fp :=
  match place_algorithm with
  | PATH_TIMING_DRIVEN_PLACE =>
      ((Fin 1 - timing_tradeoff) * bb_delta_c * inv_bb_cost prev_inverse_costs
       + timing_tradeoff * timing_delta_c * inv_timing_cost prev_inverse_costs)%fp
  | BOUNDING_BOX_PLACE => bb_delta_c
  end.

(** The branch [move_outcome == ACCEPTED] of [try_swap]; [st] is the state
    after [find_affected_nets_and_update_costs]. *)
Definition accept_move (place_algorithm : e_place_algorithm)
    (delta_c bb_delta_c timing_delta_c : fp) (num_nets_affected : nat)
    (blocks_affected : t_pl_blocks_to_be_moved) (costs : t_placer_costs)
    (st : placer_state) : t_placer_costs * placer_state :=
  let costs := {| cost := (cost costs + delta_c)%fp;
                  bb_cost := (bb_cost costs + bb_delta_c)%fp;
                  timing_cost := timing_cost costs |} in
  let costs := match place_algorithm with
               | PATH_TIMING_DRIVEN_PLACE =>
                   set_timing_cost (timing_cost costs + timing_delta_c)%fp costs
               | BOUNDING_BOX_PLACE => costs
               end in
  let e := match place_algorithm with
           | PATH_TIMING_DRIVEN_PLACE =>
               invalidate_affected_connection_delays blocks_affected (ps_td st) (ps_ext st)
           | BOUNDING_BOX_PLACE => ps_ext st
           end in
  let td := match place_algorithm with
            | PATH_TIMING_DRIVEN_PLACE => commit_td_cost blocks_affected (ps_td st)
            | BOUNDING_BOX_PLACE => ps_td st
            end in
  let nets := update_move_nets num_nets_affected (ps_bb st, ps_nc st) in
  let e := commit_move_blocks blocks_affected e in
  (costs,
   {| ps_bb := fst nets; ps_nc := snd nets; ps_td := td;
      ps_locs := ps_locs st; ps_ext := e; num_ts_called := num_ts_called st |}).

(** The branch of a rejected move. *)
Definition reject_move (place_algorithm : e_place_algorithm) (num_nets_affected : nat)
    (blocks_affected : t_pl_blocks_to_be_moved) (costs : t_placer_costs)
    (st : placer_state) : t_placer_costs * placer_state :=
  let nets := reset_move_nets num_nets_affected (ps_bb st, ps_nc st) in
  let locs := revert_move_blocks blocks_affected (ps_locs st) in
  let td := match place_algorithm with
            | PATH_TIMING_DRIVEN_PLACE => revert_td_cost blocks_affected (ps_td st)
            | BOUNDING_BOX_PLACE => ps_td st
            end in
  (costs,
   {| ps_bb := fst nets; ps_nc := snd nets; ps_td := td;
      ps_locs := locs; ps_ext := ps_ext st; num_ts_called := num_ts_called st |}).

(** [try_swap].  Drawing ([update_screen]) and the move-statistics log are
    left out.  The result is the outcome with what the call leaves in
    [*costs], in [blocks_affected] and in the file-scope state. *)
Definition try_swap (t : fp) (costs : t_placer_costs)
    (prev_inverse_costs : t_placer_prev_inverse_costs) (rlim : fp)
    (blocks_affected : t_pl_blocks_to_be_moved) (rlim_escape_fraction : fp)
    (place_algorithm : e_place_algorithm) (timing_tradeoff : fp)
    (st : placer_state)
  : result (e_move_result * t_placer_costs * t_pl_blocks_to_be_moved * placer_state) :=
  let num_ts_called := (num_ts_called st + 1)%Z in
  let bb_delta_c := Fin 0 in
  let timing_delta_c := Fin 0 in
  let esc := escape_rlim rlim rlim_escape_fraction (ps_ext st) in
  let rlim := fst esc in
  let proposal := propose_move (ps_locs st) blocks_affected rlim (snd esc) in
  let create_move_outcome := fst (fst proposal) in
  let blocks_affected := snd (fst proposal) in
  let e := snd proposal in
  match create_move_outcome with
  | ABORT =>
      let blocks_affected := clear_move_blocks blocks_affected in
      let move_outcome := ABORTED in
      let move_outcome_stats :=
        {| delta_cost_norm := delta_cost_norm move_outcome_stats_init;
           delta_bb_cost_norm := delta_bb_cost_norm move_outcome_stats_init;
           delta_timing_cost_norm := delta_timing_cost_norm move_outcome_stats_init;
           delta_bb_cost_abs := delta_bb_cost_abs move_outcome_stats_init;
           delta_timing_cost_abs := delta_timing_cost_abs move_outcome_stats_init;
           outcome := move_outcome |} in
      let e := process_outcome move_outcome_stats e in
      let blocks_affected := clear_move_blocks blocks_affected in
      Ok (move_outcome, costs, blocks_affected,
          {| ps_bb := ps_bb st; ps_nc := ps_nc st; ps_td := ps_td st;
             ps_locs := ps_locs st; ps_ext := e; num_ts_called := num_ts_called |})
  | VALID =>
      let locs := apply_move_blocks blocks_affected (ps_locs st) in
      '(num_nets_affected, bb, nc, td, blocks_affected, bb_delta_c, timing_delta_c) <-
         find_affected_nets_and_update_costs place_algorithm (criticality e) locs
           (ps_bb st) (ps_nc st) (ps_td st) blocks_affected bb_delta_c timing_delta_c ;;
      let delta_c := trial_delta_c place_algorithm timing_tradeoff prev_inverse_costs
                       bb_delta_c timing_delta_c in
      let assessed := assess_swap delta_c t e in
      let move_outcome := fst assessed in
      let st := {| ps_bb := bb; ps_nc := nc; ps_td := td; ps_locs := locs;
                   ps_ext := snd assessed; num_ts_called := num_ts_called |} in
      let done :=
        match move_outcome with
        | ACCEPTED =>
            accept_move place_algorithm delta_c bb_delta_c timing_delta_c
              num_nets_affected blocks_affected costs st
        | _ => reject_move place_algorithm num_nets_affected blocks_affected costs st
        end in
      let move_outcome_stats :=
        {| delta_cost_norm := delta_c;
           delta_bb_cost_norm := (bb_delta_c * inv_bb_cost prev_inverse_costs)%fp;
           delta_timing_cost_norm := (timing_delta_c * inv_timing_cost prev_inverse_costs)%fp;
           delta_bb_cost_abs := bb_delta_c;
           delta_timing_cost_abs := timing_delta_c;
           outcome := move_outcome |} in
      let e := process_outcome move_outcome_stats (ps_ext (snd done)) in
      let blocks_affected := clear_move_blocks blocks_affected in
      Ok (move_outcome, fst done, blocks_affected, set_ps_ext e (snd done))
  end.

(** ** The annealing controller *)

(** [update_annealing_state(state, success_rat, costs, placer_opts,
    annealing_sched)]: the returned flag and what is left in [*state]. *)
Definition update_annealing_state (state : t_annealing_state) (success_rat : fp)
    (costs : t_placer_costs) (placer_opts : t_placer_opts)
    (annealing_sched : t_annealing_sched) : bool * t_annealing_state :=
  let with_t (t : fp) (st : t_annealing_state) :=
    {| ann_t := t; ann_rlim := ann_rlim st; inverse_delta_rlim := inverse_delta_rlim st;
       ann_alpha := ann_alpha st; restart_t := restart_t st;
       crit_exponent := crit_exponent st; move_lim_max := move_lim_max st;
       move_lim := move_lim st |} in
  let with_alpha (a : fp) (st : t_annealing_state) :=
    {| ann_t := ann_t st; ann_rlim := ann_rlim st; inverse_delta_rlim := inverse_delta_rlim st;
       ann_alpha := a; restart_t := restart_t st;
       crit_exponent := crit_exponent st; move_lim_max := move_lim_max st;
       move_lim := move_lim st |} in
  let with_restart_t (r : fp) (st : t_annealing_state) :=
    {| ann_t := ann_t st; ann_rlim := ann_rlim st; inverse_delta_rlim := inverse_delta_rlim st;
       ann_alpha := ann_alpha st; restart_t := r;
       crit_exponent := crit_exponent st; move_lim_max := move_lim_max st;
       move_lim := move_lim st |} in
  let with_move_lim (m : Z) (st : t_annealing_state) :=
    {| ann_t := ann_t st; ann_rlim := ann_rlim st; inverse_delta_rlim := inverse_delta_rlim st;
       ann_alpha := ann_alpha st; restart_t := restart_t st;
       crit_exponent := crit_exponent st; move_lim_max := move_lim_max st;
       move_lim := m |} in
  (* the tail shared by the AUTO and the DUSTY schedule *)
  let finish (st : t_annealing_state) :=
    let rlim := update_rlim grid_width grid_height (ann_rlim st) success_rat in
    let crit :=
      match place_algorithm placer_opts with
      | PATH_TIMING_DRIVEN_PLACE =>
          ((Fin 1 - (rlim - FINAL_RLIM) * inverse_delta_rlim st)
           * (td_place_exp_last placer_opts - td_place_exp_first placer_opts)
           + td_place_exp_first placer_opts)%fp
      | BOUNDING_BOX_PLACE => crit_exponent st
      end in
    (true,
     {| ann_t := ann_t st; ann_rlim := rlim; inverse_delta_rlim := inverse_delta_rlim st;
        ann_alpha := ann_alpha st; restart_t := restart_t st;
        crit_exponent := crit; move_lim_max := move_lim_max st;
        move_lim := move_lim st |}) in
  match sched_type annealing_sched with
  | USER_SCHED =>
      let state := with_t (ann_t state * alpha_t annealing_sched)%fp state in
      ((ann_t state >=? exit_t annealing_sched)%fp, state)
  | DUSTY_SCHED =>
      let t_exit := (Fin 0.005 * cost costs / of_int (Z.of_nat (length (nets nl))))%fp in
      let restart_temp := ((ann_t state <? t_exit)%fp || isnan t_exit)%bool in
      if ((success_rat <? success_min annealing_sched)%fp || restart_temp)%bool then
        if (ann_alpha state >? alpha_max annealing_sched)%fp then (false, state)
        else
          let state := with_t (restart_t state / fsqrt (ann_alpha state))%fp state in
          let state :=
            with_alpha (Fin 1 - ((Fin 1 - ann_alpha state) * alpha_decay annealing_sched))%fp
                       state in
          finish (with_move_lim
                    (Z.max 1 (Z.min (move_lim_max state)
                                (float_to_int (of_int (move_lim_max state)
                                               * (success_target annealing_sched / success_rat))%fp)))
                    state)
      else
        let state := if (success_rat >? success_target annealing_sched)%fp
                     then with_restart_t (ann_t state) state else state in
        let state := with_t (ann_t state * ann_alpha state)%fp state in
        finish (with_move_lim
                  (Z.max 1 (Z.min (move_lim_max state)
                              (float_to_int (of_int (move_lim_max state)
                                             * (success_target annealing_sched / success_rat))%fp)))
                  state)
  | AUTO_SCHED =>
      let t_exit := (Fin 0.005 * cost costs / of_int (Z.of_nat (length (nets nl))))%fp in
      let state :=
        if (success_rat >? Fin 0.96)%fp then with_alpha (Fin 0.5) state
        else if (success_rat >? Fin 0.8)%fp then with_alpha (Fin 0.9) state
        else if ((success_rat >? Fin 0.15)%fp || (ann_rlim state >? Fin 1)%fp)%bool
             then with_alpha (Fin 0.95) state
        else with_alpha (Fin 0.8) state in
      let state := with_t (ann_t state * ann_alpha state)%fp state in
      if ((ann_t state <? t_exit)%fp || isnan t_exit)%bool then (false, state)
      else finish state
  end.

(** The timing engine: [timing_info->update()] reads the committed
    connection delays; [PlacerTimingCosts::total_cost()] of timing_place.h
    totals the committed connection costs. *)
Variable timing_update : (ClusterNetId -> nat -> fp) -> ext -> ext.
Variable update_criticalities : fp -> ext -> ext.
Variable pins_with_modified_criticality : ext -> list ClusterPinId.
Variable invalidator_reset : ext -> ext.
Variable total_cost : (ClusterNetId -> nat -> fp) -> fp.

(** [HUGE_POSITIVE_FLOAT] of vpr_types.h. *)
Variable HUGE_POSITIVE_FLOAT : fp.

(** [comp_td_connection_cost]; its VTR_ASSERT_SAFE checks write nothing. *)
Definition comp_td_connection_cost (crit : ClusterNetId -> nat -> fp) (td : td_state)
    (net : ClusterNetId) (ipin : nat) : fp :=
  (crit net ipin * connection_delay td net ipin)%fp.

Definition sum_td_net_cost (td : td_state) (net : ClusterNetId) : fp :=
  fold_left (fun net_td_cost ipin => (net_td_cost + connection_timing_cost td net ipin)%fp)
            (seq 1 (length (net_pins nl net) - 1)) (Fin 0).

Definition sum_td_costs (td : td_state) : fp :=
  fold_left (fun td_cost net_id =>
               if net_is_ignored nl net_id then td_cost
               else (td_cost + net_timing_cost td net_id)%fp)
            (nets nl) (Fin 0).

(** [comp_td_costs(delay_model, place_crit, timing_cost)]: the state it
    leaves and the value stored in [*timing_cost]. *)
Definition comp_td_costs (crit : ClusterNetId -> nat -> fp) (td : td_state) : td_state * fp :=
  let td :=
    fold_left (fun td net_id =>
                 if net_is_ignored nl net_id then td
                 else
                   let td :=
                     fold_left (fun td ipin =>
                                  let conn_timing_cost :=
                                    comp_td_connection_cost crit td net_id ipin in
                                  set_connection_timing_cost net_id ipin conn_timing_cost td)
                               (seq 1 (length (net_pins nl net_id) - 1)) td in
                   set_net_timing_cost net_id (sum_td_net_cost td net_id) td)
              (nets nl) td in
  (td, sum_td_costs td).

(** [update_td_costs(delay_model, place_crit, timing_cost)], without the
    VTR_ASSERT_DEBUG cross-check. *)
Definition update_td_costs (e : ext) (td : td_state) : td_state * fp :=
  let td :=
    fold_left (fun td clb_pin =>
                 match pin_type nl clb_pin with
                 | DRIVER => td
                 | SINK =>
                     let clb_net := pin_net nl clb_pin in
                     if net_is_ignored nl clb_net then td
                     else
                       let ipin := pin_net_index nl clb_pin in
                       let new_timing_cost :=
                         comp_td_connection_cost (criticality e) td clb_net ipin in
                       set_connection_timing_cost clb_net ipin new_timing_cost td
                 end)
              (pins_with_modified_criticality e) td in
  (td, total_cost (connection_timing_cost td)).

(** [recompute_criticalities(crit_exponent, ..., costs)] *)
Definition recompute_criticalities (crit_exponent : fp) (costs : t_placer_costs)
    (td : td_state) (e : ext) : t_placer_costs * td_state * ext :=
  let e := timing_update (connection_delay td) e in
  let e := update_criticalities crit_exponent e in
  let '(td, timing_cost) := update_td_costs e td in
  let e := invalidator_reset e in
  (set_timing_cost timing_cost costs, td, e).

(** [recompute_costs_from_scratch(placer_opts, delay_model, criticalities,
    costs)] *)
Definition recompute_costs_from_scratch (placer_opts : t_placer_opts)
    (crit : ClusterNetId -> nat -> fp) (costs : t_placer_costs)
    (nc : nc_state) (td : td_state) : result (t_placer_costs * td_state) :=
  let new_bb_cost := recompute_bb_cost nc in
  if (fabs (new_bb_cost - bb_cost costs) >? bb_cost costs * ERROR_TOL)%fp then
    Fatal BBCostDrift
  else
    let costs := {| cost := cost costs; bb_cost := new_bb_cost;
                    timing_cost := timing_cost costs |} in
    match place_algorithm placer_opts with
    | PATH_TIMING_DRIVEN_PLACE =>
        let '(td, new_timing_cost) := comp_td_costs crit td in
        if (fabs (new_timing_cost - timing_cost costs) >? timing_cost costs * ERROR_TOL)%fp
        then Fatal TimingCostDrift
        else Ok (set_timing_cost new_timing_cost costs, td)
    | BOUNDING_BOX_PLACE =>
        Ok ({| cost := new_bb_cost; bb_cost := bb_cost costs;
               timing_cost := timing_cost costs |}, td)
    end.

(** [calc_placer_stats(stats, success_rat, std_dev, costs, move_lim)]: what
    it leaves in [stats], [success_rat] and [std_dev]. *)
Definition calc_placer_stats (stats : t_placer_statistics) (costs : t_placer_costs)
    (move_lim : Z) : t_placer_statistics * fp * fp :=
  let success_rat := (of_int (success_sum stats) / of_int move_lim)%fp in
  let stats :=
    if (success_sum stats =? 0)%Z then
      {| av_cost := cost costs; av_bb_cost := bb_cost costs;
         av_timing_cost := timing_cost costs;
         sum_of_squares := sum_of_squares stats; success_sum := success_sum stats |}
    else
      {| av_cost := (av_cost stats / of_int (success_sum stats))%fp;
         av_bb_cost := (av_bb_cost stats / of_int (success_sum stats))%fp;
         av_timing_cost := (av_timing_cost stats / of_int (success_sum stats))%fp;
         sum_of_squares := sum_of_squares stats; success_sum := success_sum stats |} in
  (stats, success_rat, get_std_dev (success_sum stats) (sum_of_squares stats) (av_cost stats)).

(** The bookkeeping of one outcome in the file-scope swap counters. *)
Definition count_swap (swap_result : e_move_result) (c : swap_counters) : swap_counters :=
  match swap_result with
  | ACCEPTED => {| num_swap_rejected := num_swap_rejected c;
                   num_swap_accepted := (num_swap_accepted c + 1)%Z;
                   num_swap_aborted := num_swap_aborted c |}
  | ABORTED => {| num_swap_rejected := num_swap_rejected c;
                  num_swap_accepted := num_swap_accepted c;
                  num_swap_aborted := (num_swap_aborted c + 1)%Z |}
  | REJECTED => {| num_swap_rejected := (num_swap_rejected c + 1)%Z;
                   num_swap_accepted := num_swap_accepted c;
                   num_swap_aborted := num_swap_aborted c |}
  end.

(** What the loops of the controller thread from one trial to the next. *)
Record trial_env : Type := {
  te_costs : t_placer_costs;
  te_blocks_affected : t_pl_blocks_to_be_moved;
  te_counters : swap_counters;
  te_state : placer_state
}.

(** The locals of [starting_t] that its loop updates. *)
Record starting_acc : Type := {
  num_accepted : Z;
  av : fp;
  sa_sum_of_squares : fp
}.

(** One iteration of the loop of [starting_t]. *)
Definition starting_t_step (prev_inverse_costs : t_placer_prev_inverse_costs) (rlim : fp)
    (placer_opts : t_placer_opts) (acc : starting_acc * trial_env) (i : nat)
  : result (starting_acc * trial_env) :=
  let '(a, env) := acc in
  '(swap_result, costs, blocks_affected, st) <-
     try_swap HUGE_POSITIVE_FLOAT (te_costs env) prev_inverse_costs rlim
       (te_blocks_affected env) (rlim_escape_fraction placer_opts)
       (place_algorithm placer_opts) (timing_tradeoff placer_opts) (te_state env) ;;
  let a :=
    match swap_result with
    | ACCEPTED =>
        {| num_accepted := (num_accepted a + 1)%Z;
           av := (av a + cost costs)%fp;
           sa_sum_of_squares := (sa_sum_of_squares a + cost costs * cost costs)%fp |}
    | _ => a
    end in
  Ok (a, {| te_costs := costs; te_blocks_affected := blocks_affected;
            te_counters := count_swap swap_result (te_counters env);
            te_state := st |}).

(** [starting_t]: the returned temperature and what the trials leave. *)
Definition starting_t (prev_inverse_costs : t_placer_prev_inverse_costs)
    (annealing_sched : t_annealing_sched) (max_moves : Z) (rlim : fp)
    (placer_opts : t_placer_opts) (env : trial_env) : result (fp * trial_env) :=
  match sched_type annealing_sched with
  | USER_SCHED => Ok (init_t annealing_sched, env)
  | _ =>
      let move_lim := Z.min max_moves (Z.of_nat (length (blocks nl))) in
      let a := {| num_accepted := 0; av := Fin 0; sa_sum_of_squares := Fin 0 |} in
      '(a, env) <-
         foldM (starting_t_step prev_inverse_costs rlim placer_opts)
               (seq 0 (Z.to_nat move_lim)) (a, env) ;;
      let av := if negb (num_accepted a =? 0)%Z
                then (av a / of_int (num_accepted a))%fp
                else Fin 0 in
      let std_dev := get_std_dev (num_accepted a) (sa_sum_of_squares a) av in
      Ok ((Fin 20 * std_dev)%fp, env)
  end.

(** The locals and out-parameters of [placement_inner_loop] that its loop
    updates. *)
Record inner_acc : Type := {
  ia_stats : t_placer_statistics;
  ia_inner_crit_iter_count : Z;
  ia_moves_since_cost_recompute : Z
}.

(** The end of the loop body of [placement_inner_loop]: the trial is
    counted, and the costs are recomputed when the count has passed
    MAX_MOVES_BEFORE_RECOMPUTE. *)
Definition count_move_and_recompute (placer_opts : t_placer_opts) (costs : t_placer_costs)
    (st : placer_state) (moves_since_cost_recompute : Z)
  : result (t_placer_costs * placer_state * Z) :=
  let moves_since_cost_recompute := (moves_since_cost_recompute + 1)%Z in
  if (moves_since_cost_recompute >? MAX_MOVES_BEFORE_RECOMPUTE)%Z then
    '(costs, td) <-
       recompute_costs_from_scratch placer_opts (criticality (ps_ext st)) costs
         (ps_nc st) (ps_td st) ;;
    Ok (costs,
        {| ps_bb := ps_bb st; ps_nc := ps_nc st; ps_td := td;
           ps_locs := ps_locs st; ps_ext := ps_ext st;
           num_ts_called := num_ts_called st |},
        0%Z)
  else Ok (costs, st, moves_since_cost_recompute).

(** One iteration of the loop of [placement_inner_loop]; writing the
    placement files is left out. *)
Definition inner_loop_step (t rlim : fp) (placer_opts : t_placer_opts) (move_lim : Z)
    (crit_exponent : fp) (inner_recompute_limit : Z)
    (prev_inverse_costs : t_placer_prev_inverse_costs)
    (acc : inner_acc * trial_env) (inner_iter : nat) : result (inner_acc * trial_env) :=
  let '(a, env) := acc in
  '(swap_result, costs, blocks_affected, st) <-
     try_swap t (te_costs env) prev_inverse_costs rlim
       (te_blocks_affected env) (rlim_escape_fraction placer_opts)
       (place_algorithm placer_opts) (timing_tradeoff placer_opts) (te_state env) ;;
  let stats :=
    match swap_result with
    | ACCEPTED =>
        let stats := ia_stats a in
        {| av_cost := (av_cost stats + cost costs)%fp;
           av_bb_cost := (av_bb_cost stats + bb_cost costs)%fp;
           av_timing_cost := (av_timing_cost stats + timing_cost costs)%fp;
           sum_of_squares := (sum_of_squares stats + cost costs * cost costs)%fp;
           success_sum := (success_sum stats + 1)%Z |}
    | _ => ia_stats a
    end in
  let counters := count_swap swap_result (te_counters env) in
  let '(costs, st, inner_crit_iter_count) :=
    match place_algorithm placer_opts with
    | PATH_TIMING_DRIVEN_PLACE =>
        let '(costs, st, inner_crit_iter_count) :=
          if ((inner_recompute_limit <=? ia_inner_crit_iter_count a)%Z
              && negb (Z.of_nat inner_iter =? move_lim - 1)%Z)%bool then
            let '(costs, td, e) :=
              recompute_criticalities crit_exponent costs (ps_td st) (ps_ext st) in
            (costs,
             {| ps_bb := ps_bb st; ps_nc := ps_nc st; ps_td := td;
                ps_locs := ps_locs st; ps_ext := e; num_ts_called := num_ts_called st |},
             0%Z)
          else (costs, st, ia_inner_crit_iter_count a) in
        (costs, st, (inner_crit_iter_count + 1)%Z)
    | BOUNDING_BOX_PLACE => (costs, st, ia_inner_crit_iter_count a)
    end in
  '(costs, st, moves) <-
     count_move_and_recompute placer_opts costs st (ia_moves_since_cost_recompute a) ;;
  Ok ({| ia_stats := stats; ia_inner_crit_iter_count := inner_crit_iter_count;
         ia_moves_since_cost_recompute := moves |},
      {| te_costs := costs; te_blocks_affected := blocks_affected;
         te_counters := counters; te_state := st |}).

(** [placement_inner_loop]: what it leaves in [*stats], in
    [*moves_since_cost_recompute] and in the state. *)
Definition placement_inner_loop (t rlim : fp) (placer_opts : t_placer_opts) (move_lim : Z)
    (crit_exponent : fp) (inner_recompute_limit : Z)
    (prev_inverse_costs : t_placer_prev_inverse_costs)
    (moves_since_cost_recompute : Z) (env : trial_env)
  : result (t_placer_statistics * Z * trial_env) :=
  let a := {| ia_stats := {| av_cost := Fin 0; av_bb_cost := Fin 0; av_timing_cost := Fin 0;
                             sum_of_squares := Fin 0; success_sum := 0 |};
              ia_inner_crit_iter_count := 1;
              ia_moves_since_cost_recompute := moves_since_cost_recompute |} in
  '(a, env) <-
     foldM (inner_loop_step t rlim placer_opts move_lim crit_exponent
              inner_recompute_limit prev_inverse_costs)
           (seq 0 (Z.to_nat move_lim)) (a, env) ;;
  Ok (ia_stats a, ia_moves_since_cost_recompute a, env).

(** ** Costs from scratch, checks and the outer loop *)

Inductive e_cost_methods : Type := NORMAL | CHECK.

(** The body of the loop of [comp_bb_cost(method)] for one net: the boxes
    and the net cost it stores, the running cost and the running
    wirelength estimate. *)
Definition comp_bb_cost_step (method : e_cost_methods) (locs : block_locs_t)
    (acc : bb_state * nc_state * fp * fp) (net_id : ClusterNetId)
  : bb_state * nc_state * fp * fp :=
  let '(bb, nc, cost, expected_wirelength) := acc in
  if negb (net_is_ignored nl net_id) then
    let bb :=
      if ((SMALL_NET <=? length (net_sinks nl net_id))%nat
          && match method with NORMAL => true | CHECK => false end)%bool
      then
        let m := get_bb_from_scratch locs net_id in
        set_bb_num_on_edges net_id (snd m) (set_bb_coords net_id (fst m) bb)
      else set_bb_coords net_id (get_non_updateable_bb locs net_id) bb in
    let nc := set_net_cost net_id (get_net_cost net_id (bb_coords bb net_id)) nc in
    let cost := (cost + net_cost nc net_id)%fp in
    let expected_wirelength :=
      match method with
      | CHECK => (expected_wirelength
                  + get_net_wirelength_estimate net_id (bb_coords bb net_id))%fp
      | NORMAL => expected_wirelength
      end in
    (bb, nc, cost, expected_wirelength)
  else acc.

(** [comp_bb_cost(method)]: the boxes and net costs it stores, the cost it
    returns and the wirelength estimate that it logs under CHECK. *)
Definition comp_bb_cost (method : e_cost_methods) (locs : block_locs_t)
    (s : bb_state * nc_state) : bb_state * nc_state * fp * fp :=
  fold_left (comp_bb_cost_step method locs) (nets nl) (fst s, snd s, Fin 0, Fin 0).

(** [check_placement_costs(costs, delay_model, criticalities,
    place_algorithm)]: the number of errors and the state that the two
    recomputations leave. *)
Definition check_placement_costs (costs : t_placer_costs)
    (place_algorithm : e_place_algorithm) (crit : ClusterNetId -> nat -> fp)
    (locs : block_locs_t) (s : bb_state * nc_state * td_state)
  : Z * (bb_state * nc_state * td_state) :=
  let checked := comp_bb_cost CHECK locs (fst s) in
  let bb_cost_check := snd (fst checked) in
  let error :=
    if (fabs (bb_cost_check - bb_cost costs) >? bb_cost costs * ERROR_TOL)%fp
    then 1%Z else 0%Z in
  match place_algorithm with
  | PATH_TIMING_DRIVEN_PLACE =>
      let timed := comp_td_costs crit (snd s) in
      let timing_cost_check := snd timed in
      let error :=
        if (fabs (timing_cost_check - timing_cost costs) >? timing_cost costs * ERROR_TOL)%fp
        then (error + 1)%Z else error in
      (error, (fst (fst (fst checked)), snd (fst (fst checked)), fst timed))
  | BOUNDING_BOX_PLACE =>
      (error, (fst (fst (fst checked)), snd (fst (fst checked)), snd s))
  end.

(** [count_connections()] *)
Definition count_connections : Z :=
  fold_left (fun count net_id =>
               if net_is_ignored nl net_id then count
               else (count + Z.of_nat (length (net_sinks nl net_id)))%Z)
            (nets nl) 0%Z.

(** [comp_td_connection_delays(delay_model)] *)
Definition comp_td_connection_delays (locs : block_locs_t) (td : td_state)
  : result td_state :=
  foldM (fun td net_id =>
           foldM (fun td ipin =>
                    delay <- comp_td_connection_delay locs net_id ipin ;;
                    Ok (set_connection_delay net_id ipin delay td))
                 (seq 1 (length (net_pins nl net_id) - 1)) td)
        (nets nl) td.

(** What one iteration of [comp_bb_cost] stores for its net. *)
Definition bb_cost_entry (method : e_cost_methods) (locs : block_locs_t)
    (acc : bb_state * nc_state * fp * fp) (n : ClusterNetId) : Prop :=
  bb_coords (fst (fst (fst acc))) n = fst (get_bb_from_scratch locs n)
  /\ net_cost (snd (fst (fst acc))) n
     = get_net_cost n (fst (get_bb_from_scratch locs n))
  /\ (method = NORMAL -> (SMALL_NET <= length (net_sinks nl n))%nat ->
      bb_num_on_edges (fst (fst (fst acc))) n = snd (get_bb_from_scratch locs n)).

(** [init_annealing_state(state, annealing_sched, t, rlim, move_lim_max,
    crit_exponent)] *)
Definition init_annealing_state (annealing_sched : t_annealing_sched) (t rlim : fp)
    (move_lim_max : Z) (crit_exponent : fp) : t_annealing_state :=
  let move_lim_max := Z.max 1 move_lim_max in
  {| ann_t := t;
     ann_rlim := rlim;
     inverse_delta_rlim := (Fin 1 / (rlim - FINAL_RLIM))%fp;
     ann_alpha := alpha_min annealing_sched;
     restart_t := t;
     crit_exponent := crit_exponent;
     move_lim_max := move_lim_max;
     move_lim :=
       match sched_type annealing_sched with
       | DUSTY_SCHED =>
           Z.max 1 (float_to_int (of_int move_lim_max * success_target annealing_sched)%fp)
       | _ => move_lim_max
       end |}.

(** [outer_loop_recompute_criticalities]: what it leaves in [*costs], in
    [*prev_inverse_costs], in [*outer_crit_iter_count] and in the state. *)
Definition outer_loop_recompute_criticalities (placer_opts : t_placer_opts)
    (costs : t_placer_costs) (prev_inverse_costs : t_placer_prev_inverse_costs)
    (crit_exponent : fp) (outer_crit_iter_count : Z) (td : td_state) (e : ext)
  : t_placer_costs * t_placer_prev_inverse_costs * Z * td_state * ext :=
  match place_algorithm placer_opts with
  | BOUNDING_BOX_PLACE => (costs, prev_inverse_costs, outer_crit_iter_count, td, e)
  | PATH_TIMING_DRIVEN_PLACE =>
      let recomputed :=
        if ((recompute_crit_iter placer_opts <=? outer_crit_iter_count)%Z
            || negb (inner_loop_recompute_divider placer_opts =? 0)%Z)%bool
        then (recompute_criticalities crit_exponent costs td e, 0%Z)
        else ((costs, td, e), outer_crit_iter_count) in
      let costs := fst (fst (fst recomputed)) in
      let td := snd (fst (fst recomputed)) in
      let e := snd (fst recomputed) in
      let outer_crit_iter_count := (snd recomputed + 1)%Z in
      let prev_inverse_costs :=
        {| inv_bb_cost := (Fin 1 / bb_cost costs)%fp;
           inv_timing_cost := fmin (Fin 1 / timing_cost costs)%fp MAX_INV_TIMING_COST |} in
      (costs, prev_inverse_costs, outer_crit_iter_count, td, e)
  end.

(** The clipped coordinates of a pin site. *)
Definition site_x (locs : block_locs_t) (site : ClusterBlockId * Z) : Z :=
  clipped_pin_x locs (fst site) (snd site).
Definition site_y (locs : block_locs_t) (site : ClusterBlockId * Z) : Z :=
  clipped_pin_y locs (fst site) (snd site).

(** The pins that [update_td_delta_costs] appends to [affected_pins] when
    the loop of [find_affected_nets_and_update_costs] reaches [pin]. *)
Definition td_contribution (blocks_affected : t_pl_blocks_to_be_moved)
    (pin : ClusterPinId) : list ClusterPinId :=
  let net := pin_net nl pin in
  if net_is_ignored nl net then []
  else
    match pin_type nl pin with
    | DRIVER => map (net_pin nl net) (seq 1 (length (net_pins nl net) - 1))
    | SINK => if driven_by_moved_block net blocks_affected then [] else [pin]
    end.

(** The markers of a net are at rest: [proposed_net_cost] is [-1] and the
    flag is NOT_UPDATED_YET. *)
Definition quiet_net (bb : bb_state) (nc : nc_state) (net : ClusterNetId) : Prop :=
  proposed_net_cost nc net = Fin (-1) /\ bb_updated_before bb net = NOT_UPDATED_YET.

Definition quiesced_markers (bb : bb_state) (nc : nc_state) : Prop :=
  forall net, quiet_net bb nc net.

(** Every net whose markers are not at rest is among the first [num]
    entries of [ts_nets_to_update]. *)
Definition marked_or_quiet (bb : bb_state) (nc : nc_state) (num : nat) : Prop :=
  forall net, quiet_net bb nc net
              \/ exists i, (i < num)%nat /\ ts_nets_to_update nc i = net.

(** Both shadow entries of a connection are NaN. *)
Definition shadow_invalid (td : td_state) (c : ClusterNetId * nat) : Prop :=
  isnan (proposed_connection_delay td (fst c) (snd c)) = true
  /\ isnan (proposed_connection_timing_cost td (fst c) (snd c)) = true.

(** Both shadow entries of every sink of every net are NaN; entry 0 of a
    net, the driver's, is never written after the allocation. *)
Definition shadows_invalid (td : td_state) : Prop :=
  forall net ipin, In net (nets nl) -> (1 <= ipin < length (net_pins nl net))%nat ->
                   shadow_invalid td (net, ipin).

(** The connections whose shadow entries the trial writes for a pin of a
    moved block, and for all the pins of the moved blocks. *)
Definition td_connections (blocks_affected : t_pl_blocks_to_be_moved)
    (pin : ClusterPinId) : list (ClusterNetId * nat) :=
  let net := pin_net nl pin in
  if net_is_ignored nl net then []
  else
    match pin_type nl pin with
    | DRIVER => map (pair net) (seq 1 (length (net_pins nl net) - 1))
    | SINK => if driven_by_moved_block net blocks_affected then []
              else [(net, pin_net_index nl pin)]
    end.

Definition touched_connections (ba : t_pl_blocks_to_be_moved)
    (mbs : list t_pl_moved_block) : list (ClusterNetId * nat) :=
  flat_map (fun mb => flat_map (td_connections ba) (block_pins nl (block_num mb))) mbs.

(** The shadow entries of the connections outside [w] are the same in both
    states. *)
Definition shadow_frame (w : list (ClusterNetId * nat)) (td td' : td_state) : Prop :=
  forall c, ~ In c w ->
            proposed_connection_delay td' (fst c) (snd c)
            = proposed_connection_delay td (fst c) (snd c)
            /\ proposed_connection_timing_cost td' (fst c) (snd c)
               = proposed_connection_timing_cost td (fst c) (snd c).

(** The two timing states agree on the committed arrays. *)
Definition same_committed (td td' : td_state) : Prop :=
  connection_delay td' = connection_delay td
  /\ connection_timing_cost td' = connection_timing_cost td
  /\ net_timing_cost td' = net_timing_cost td.

(** The committed boxes, edge counts and net costs are the same in both
    states. *)
Definition same_committed_nets (bb bb' : bb_state) (nc nc' : nc_state) : Prop :=
  bb_coords bb' = bb_coords bb
  /\ bb_num_on_edges bb' = bb_num_on_edges bb
  /\ net_cost nc' = net_cost nc.

(** The committed cost of a net is the cost of its committed box. *)
Definition net_cost_consistent (bb : bb_state) (nc : nc_state) (net : ClusterNetId) : Prop :=
  net_cost nc net = get_net_cost net (bb_coords bb net).

(** The first [num] entries of [ts_nets_to_update] are distinct, they are
    the nets whose [proposed_net_cost] is 1, and every other net has its
    markers at rest. *)
Definition recorded_once (bb : bb_state) (nc : nc_state) (num : nat) : Prop :=
  NoDup (map (ts_nets_to_update nc) (seq 0 num))
  /\ forall net,
       (quiet_net bb nc net /\ ~ In net (map (ts_nets_to_update nc) (seq 0 num)))
       \/ (proposed_net_cost nc net = Fin 1
           /\ In net (map (ts_nets_to_update nc) (seq 0 num))).

(** The pins of the moved blocks, in the order of the loop. *)
Definition moved_pins (ba : t_pl_blocks_to_be_moved) : list ClusterPinId :=
  flat_map (block_pins nl) (map block_num (moved_blocks ba)).

(** The connection of a sink pin: its net and its index in the net. *)
Definition connection_of (pin : ClusterPinId) : ClusterNetId * nat :=
  (pin_net nl pin, pin_net_index nl pin).

(** What the netlist guarantees about the pins of a block and of a net. *)
Unset Implicit Arguments.
Record netlist_wf : Prop := {
  wf_block_of_pin : forall b p, In p (block_pins nl b) -> pin_block nl p = b;
  wf_block_pins_nodup : forall b, NoDup (block_pins nl b);
  wf_pin_in_net : forall b p, In p (block_pins nl b) ->
                              net_pin nl (pin_net nl p) (pin_net_index nl p) = p;
  wf_net_pin : forall n i, (1 <= i < length (net_pins nl n))%nat ->
                           pin_net nl (net_pin nl n i) = n
                           /\ pin_net_index nl (net_pin nl n i) = i;
  wf_driver : forall b p, In p (block_pins nl b) -> pin_type nl p = DRIVER ->
                          pin_net_index nl p = 0%nat
                          /\ net_driver_block nl (pin_net nl p) = pin_block nl p
}.

(** What the netlist guarantees about the two ends of a connection: a net
    with a sink has its driver pin on its driver block, sink [i] of a net
    is a sink pin of the block it is on, and a sink pin of a block has a
    sink index of its net. *)
Record netlist_pins_wf : Prop := {
  wf_driver_pin : forall n, (1 < length (net_pins nl n))%nat ->
                            In (net_driver nl n) (block_pins nl (net_driver_block nl n))
                            /\ pin_type nl (net_driver nl n) = DRIVER
                            /\ pin_net nl (net_driver nl n) = n;
  wf_sink_pin : forall n i, (1 <= i < length (net_pins nl n))%nat ->
                            In (net_pin nl n i)
                               (block_pins nl (pin_block nl (net_pin nl n i)))
                            /\ pin_type nl (net_pin nl n i) = SINK;
  wf_sink_index : forall b p, In p (block_pins nl b) -> pin_type nl p = SINK ->
                              (1 <= pin_net_index nl p
                               < length (net_pins nl (pin_net nl p)))%nat
}.
Set Implicit Arguments.

(** The connections with an end on a moved block: sink index [snd c] of the
    net [fst c], which is not ignored, where the block of the net's driver
    or the block of that sink is among the moved blocks. *)
Definition moved_connection (ba : t_pl_blocks_to_be_moved) (c : ClusterNetId * nat)
  : Prop :=
  net_is_ignored nl (fst c) = false
  /\ (1 <= snd c < length (net_pins nl (fst c)))%nat
  /\ (In (net_driver_block nl (fst c)) (map block_num (moved_blocks ba))
      \/ In (pin_block nl (net_pin nl (fst c) (snd c))) (map block_num (moved_blocks ba))).

(** The trials of the loop of [starting_t] with what they leave: the value
    of [costs->cost] after each accepted trial, oldest first, and the
    environment after the last trial. *)
Fixpoint starting_trials (prev_inverse_costs : t_placer_prev_inverse_costs) (rlim : fp)
    (placer_opts : t_placer_opts) (n : nat) (env : trial_env)
  : result (list fp * trial_env) :=
  match n with
  | O => Ok ([], env)
  | S n' =>
      '(swap_result, costs, blocks_affected, st) <-
         try_swap HUGE_POSITIVE_FLOAT (te_costs env) prev_inverse_costs rlim
           (te_blocks_affected env) (rlim_escape_fraction placer_opts)
           (place_algorithm placer_opts) (timing_tradeoff placer_opts) (te_state env) ;;
      '(xs, env') <-
         starting_trials prev_inverse_costs rlim placer_opts n'
           {| te_costs := costs; te_blocks_affected := blocks_affected;
              te_counters := count_swap swap_result (te_counters env);
              te_state := st |} ;;
      Ok (match swap_result with
          | ACCEPTED => cost costs :: xs
          | _ => xs
          end, env')
  end.

(** The accepted trials since [c], as the counters and the statistics
    count them, and the bounds that one trial keeps. *)
Definition counted (c c' : swap_counters) (s s' : t_placer_statistics) (trials : Z) : Prop :=
  (num_swap_accepted c' - num_swap_accepted c = success_sum s' - success_sum s)%Z
  /\ (0 <= success_sum s' - success_sum s <= trials)%Z
  /\ (num_swap_rejected c <= num_swap_rejected c')%Z
  /\ (num_swap_aborted c <= num_swap_aborted c')%Z
  /\ (num_swap_rejected c' + num_swap_accepted c' + num_swap_aborted c'
      = num_swap_rejected c + num_swap_accepted c + num_swap_aborted c + trials)%Z.

(** The timing cost of a net as [comp_td_costs] leaves it: the sum of
    criticality times delay over its sinks, in the order of the sinks. *)
Definition net_td_cost_of (crit : ClusterNetId -> nat -> fp) (td : td_state)
    (net : ClusterNetId) : fp :=
  fold_left (fun acc ipin => (acc + crit net ipin * connection_delay td net ipin)%fp)
            (seq 1 (length (net_pins nl net) - 1)) (Fin 0).

(** The delay that [comp_td_connection_delay] returns for a connection. *)
Definition delay_of (locs : block_locs_t) (c : ClusterNetId * nat) : fp :=
  match comp_td_connection_delay locs (fst c) (snd c) with
  | Ok d => d
  | Fatal _ => NaN
  end.

(** The shadow entries of a connection hold the delay of the delay model at
    [locs] and its cost. *)
Definition proposed_at (crit : ClusterNetId -> nat -> fp) (locs : block_locs_t)
    (td : td_state) (c : ClusterNetId * nat) : Prop :=
  comp_td_connection_delay locs (fst c) (snd c)
  = Ok (proposed_connection_delay td (fst c) (snd c))
  /\ proposed_connection_timing_cost td (fst c) (snd c)
     = (crit (fst c) (snd c) * proposed_connection_delay td (fst c) (snd c))%fp.

(** The state of the first loop of [find_affected_nets_and_update_costs]
    after the connections [w] were proposed, from the timing state [td0]
    and the delta [d0]. *)
Definition trial_proposed (crit : ClusterNetId -> nat -> fp) (locs : block_locs_t)
    (td0 : td_state) (ba0 : t_pl_blocks_to_be_moved) (d0 : fp)
    (w : list (ClusterNetId * nat)) (acc : affected_acc) : Prop :=
  moved_blocks (snd (fst (fst acc))) = moved_blocks ba0
  /\ same_committed td0 (snd (fst (fst (fst acc))))
  /\ (forall c, In c w -> proposed_at crit locs (snd (fst (fst (fst acc)))) c)
  /\ snd acc
     = fold_left (fun a c =>
                    (a + (crit (fst c) (snd c) * delay_of locs c
                          - connection_timing_cost td0 (fst c) (snd c)))%fp) w d0.

(** ** The cost factors of the channels *)

(** [pow] of <cmath>, and the channel widths [chan_width.x_list] and
    [chan_width.y_list] of the device. *)
Variable pow : fp -> fp -> fp.
Variable chan_width_x_list chan_width_y_list : nat -> Z.

(** The three loops that [alloc_and_load_for_fast_cost_update] runs, once
    for [chanx_place_cost_fac] with the height of the grid and [x_list],
    once for [chany_place_cost_fac] with the width and [y_list]; [fac] is
    what the allocated rows hold before. *)
Definition load_place_cost_fac (size : nat) (widths : nat -> Z) (place_cost_exp : fp)
    (fac : nat -> nat -> fp) : nat -> nat -> fp :=
  let fac := upd2 fac 0 0 (of_int (widths 0%nat)) in
  let fac :=
    fold_left (fun fac high =>
                 let fac := upd2 fac high high (of_int (widths high)) in
                 fold_left (fun fac low =>
                              upd2 fac high low
                                   (fac (high - 1)%nat low + of_int (widths high))%fp)
                           (seq 0 high) fac)
              (seq 1 (size - 1)) fac in
  fold_left (fun fac high =>
               fold_left (fun fac low =>
                            let fac :=
                              if (fac high low ==? Fin 0)%fp
                              then upd2 fac high low (Fin 1) else fac in
                            let fac :=
                              upd2 fac high low
                                   ((of_int (Z.of_nat (high - low)) + Fin 1)
                                    / fac high low)%fp in
                            upd2 fac high low (pow (fac high low) place_cost_exp))
                         (seq 0 (high + 1)) fac)
            (seq 0 size) fac.

(** [alloc_and_load_for_fast_cost_update(place_cost_exp)]: the two tables,
    indexed [high] then [low]. *)
Definition alloc_and_load_for_fast_cost_update (place_cost_exp : fp)
    (chanx chany : nat -> nat -> fp) : (nat -> nat -> fp) * (nat -> nat -> fp) :=
  (load_place_cost_fac (Z.to_nat grid_height) chan_width_x_list place_cost_exp chanx,
   load_place_cost_fac (Z.to_nat grid_width) chan_width_y_list place_cost_exp chany).

(** The sum of the [n] channel widths from channel [low] on. *)
Fixpoint tracks (widths : nat -> Z) (low n : nat) : Z :=
  match n with
  | O => 0%Z
  | S n' => (tracks widths low n' + widths (low + n')%nat)%Z
  end.

(** The factor for the channels [low .. high]: their number over the sum of
    their widths, or over 1 when the sum is 0, to the power
    [place_cost_exp]. *)
Definition inverse_average_tracks (widths : nat -> Z) (place_cost_exp : fp)
    (high low : nat) : fp :=
  let sum := tracks widths low (high - low + 1) in
  pow (of_int (Z.of_nat (high - low + 1))
       / of_int (if (sum =? 0)%Z then 1%Z else sum))%fp place_cost_exp.

(** The tile site of a pin: its block and its tile pin. *)
Definition site_of_pin (p : ClusterPinId) : ClusterBlockId * Z :=
  (pin_block nl p, tile_pin_index nl p).

(** What the netlist guarantees about the pins of its nets: the sites that
    [get_bb_from_scratch] walks are those of the pins of the net, no pin is
    listed twice, every pin of a net names that net and is among the pins
    of its block, and a pin of a block is among the pins of its net. *)
Unset Implicit Arguments.
Record netlist_sites_wf : Prop := {
  ws_sites : forall n, In n (nets nl) ->
                       net_pin_sites nl n = map site_of_pin (net_pins nl n);
  ws_nodup : forall n, In n (nets nl) -> NoDup (net_pins nl n);
  ws_pin_of_net : forall n p, In n (nets nl) -> In p (net_pins nl n) ->
                              pin_net nl p = n /\ In p (block_pins nl (pin_block nl p));
  ws_pin_in_net : forall b p, In p (block_pins nl b) -> In (pin_net nl p) (nets nl) ->
                              In p (net_pins nl (pin_net nl p))
}.
Set Implicit Arguments.

(** The coordinate of a pin while a trial walks the pins of the moved
    blocks: the new one [f'] for the pins [visited] so far, the old one [f]
    for the others. *)
Definition mixed (f f' : ClusterBlockId * Z -> Z) (visited : list ClusterPinId)
    (p : ClusterPinId) : Z :=
  if in_dec Nat.eq_dec p visited then f' (site_of_pin p) else f (site_of_pin p).

(** The boxes [ts_bb_coord_new], [ts_bb_edge_new] of a net. *)
Definition ts_pair (bb : bb_state) (n : ClusterNetId) : bb_pair :=
  (ts_bb_coord_new bb n, ts_bb_edge_new bb n).

(** What the trial holds for an affected net after the pins [visited]: a
    small net has the box of the new placement; a large net has either the
    extremes and edge counts of the mixed coordinates, or the boxes from
    scratch of the new placement. *)
Definition box_in_progress (locs locs' : block_locs_t) (visited : list ClusterPinId)
    (bb : bb_state) (n : ClusterNetId) : Prop :=
  if (length (net_sinks nl n) <? SMALL_NET)%nat then
    ts_bb_coord_new bb n = get_non_updateable_bb locs' n
    /\ bb_updated_before bb n = NOT_UPDATED_YET
  else
    (bb_updated_before bb n = UPDATED_ONCE
     /\ is_extent (map (mixed (site_x locs) (site_x locs') visited) (net_pins nl n))
                  (x_extent (ts_pair bb n))
     /\ is_extent (map (mixed (site_y locs) (site_y locs') visited) (net_pins nl n))
                  (y_extent (ts_pair bb n)))
    \/ (bb_updated_before bb n = GOT_FROM_SCRATCH
        /\ ts_pair bb n = get_bb_from_scratch locs' n).

(** The state of the first loop of [find_affected_nets_and_update_costs]
    after the pins [visited], from the boxes [bb0]. *)
Definition boxes_tracked (locs locs' : block_locs_t) (bb0 : bb_state)
    (visited : list ClusterPinId) (bb : bb_state) (nc : nc_state) (num : nat) : Prop :=
  bb_coords bb = bb_coords bb0
  /\ bb_num_on_edges bb = bb_num_on_edges bb0
  /\ recorded_once bb nc num
  /\ forall n, In n (nets nl) -> net_is_ignored nl n = false ->
       (In n (map (ts_nets_to_update nc) (seq 0 num)) ->
        box_in_progress locs locs' visited bb n)
       /\ (~ In n (map (ts_nets_to_update nc) (seq 0 num)) ->
           forall p, In p visited -> pin_net nl p <> n).

(** The committed boxes are those of the placement [locs]: the box of
    every net that is not ignored, and the edge counts of the large ones. *)
Definition boxes_from_scratch (locs : block_locs_t) (bb : bb_state) : Prop :=
  forall n, In n (nets nl) -> net_is_ignored nl n = false ->
    bb_coords bb n = fst (get_bb_from_scratch locs n)
    /\ ((SMALL_NET <= length (net_sinks nl n))%nat ->
        bb_num_on_edges bb n = snd (get_bb_from_scratch locs n)).

(** ** Properties *)

Unset Implicit Arguments.

(** *** Comparisons of finite values *)

Lemma flt_Fin (x y : R) : (Fin x <? Fin y)%fp = true <-> (x < y)%R.
Proof. cbn [flt]. destruct (Rlt_dec x y); split; intros; try discriminate; auto; lra. Qed.

Lemma feq_Fin (x y : R) : (Fin x ==? Fin y)%fp = true <-> x = y.
Proof. cbn [feq]. destruct (Req_dec_T x y); split; intros; try discriminate; auto; lra. Qed.

Lemma fle_Fin (x y : R) : (Fin x <=? Fin y)%fp = true <-> (x <= y)%R.
Proof.
  unfold fle. rewrite orb_true_iff, flt_Fin, feq_Fin. split; intros; lra.
Qed.

Lemma fle_Fin_false (x y : R) : (Fin x <=? Fin y)%fp = false <-> (y < x)%R.
Proof.
  rewrite <- not_true_iff_false, fle_Fin. split; intros; lra.
Qed.

Lemma feq_Fin_false (x y : R) : (Fin x ==? Fin y)%fp = false <-> x <> y.
Proof. rewrite <- not_true_iff_false, feq_Fin. reflexivity. Qed.

(** *** The Metropolis rule *)

(** C1.  [assess_swap] accepts when [delta_c <= 0]; otherwise it rejects
    when [t == 0]; otherwise it draws one number from the generator and
    accepts exactly when [exp(-delta_c / t)] is strictly greater than the
    number drawn.  The generator is advanced in the third case only. *)
Theorem assess_swap_metropolis (delta_c t : fp) (e : ext) :
  ((delta_c <=? Fin 0)%fp = true -> assess_swap delta_c t e = (ACCEPTED, e))
  /\ ((delta_c <=? Fin 0)%fp = false -> (t ==? Fin 0)%fp = true ->
      assess_swap delta_c t e = (REJECTED, e))
  /\ ((delta_c <=? Fin 0)%fp = false -> (t ==? Fin 0)%fp = false ->
      snd (assess_swap delta_c t e) = snd (frand e)
      /\ (fst (assess_swap delta_c t e) = ACCEPTED <->
          (fexp (- delta_c / t) >? fst (frand e))%fp = true)
      /\ (fst (assess_swap delta_c t e) = REJECTED <->
          (fexp (- delta_c / t) >? fst (frand e))%fp = false)).
Proof.
  unfold assess_swap. repeat split; intros.
  - rewrite H. reflexivity.
  - rewrite H, H0. reflexivity.
  - rewrite H, H0. destruct (frand e) as [fnum e']. cbn [fst snd].
    destruct (fexp (- delta_c / t) >? fnum)%fp; reflexivity.
  - rewrite H, H0 in H1. destruct (frand e) as [fnum e']. cbn [fst snd] in *.
    destruct (fexp (- delta_c / t) >? fnum)%fp; [reflexivity | discriminate].
  - rewrite H, H0. destruct (frand e) as [fnum e']. cbn [fst snd] in *.
    rewrite H1. reflexivity.
  - rewrite H, H0 in H1. destruct (frand e) as [fnum e']. cbn [fst snd] in *.
    destruct (fexp (- delta_c / t) >? fnum)%fp; [discriminate | reflexivity].
  - rewrite H, H0. destruct (frand e) as [fnum e']. cbn [fst snd] in *.
    rewrite H1. reflexivity.
Qed.

(** The rule on real numbers: for a finite uphill [delta_c = d > 0], a
    finite non-zero temperature and a finite number [u] drawn, the move is
    accepted exactly when [exp (- d / t) > u]. *)
Lemma assess_swap_real (d t u : R) (e e' : ext) :
  (0 < d)%R -> t <> 0%R -> frand e = (Fin u, e') ->
  assess_swap (Fin d) (Fin t) e
  = (if Rlt_dec u (exp (- d / t)) then ACCEPTED else REJECTED, e').
Proof.
  intros Hd Ht Hr. unfold assess_swap.
  assert (H1 : (Fin d <=? Fin 0)%fp = false) by (apply fle_Fin_false; lra).
  assert (H2 : (Fin t ==? Fin 0)%fp = false) by (apply feq_Fin_false; lra).
  rewrite H1, H2, Hr. unfold fgt, fdiv, fneg.
  destruct (Req_dec_T t 0); [contradiction|].
  cbn [fexp flt]. destruct (Rlt_dec u (exp (- d / t))); reflexivity.
Qed.

(** *** The cost of a net *)

Lemma cross_count_length : length cross_count = 50%nat.
Proof. reflexivity. Qed.

Lemma wirelength_crossing_count_table (fanout : nat) :
  (1 <= fanout <= 50)%nat ->
  wirelength_crossing_count fanout = nth (fanout - 1) cross_count NaN.
Proof.
  intros [H1 H2]. unfold wirelength_crossing_count.
  destruct (Nat.ltb_spec 50 fanout) as [H|H]; [lia|].
  destruct fanout as [|k]; [lia|].
  replace (S k - 1)%nat with k by lia. reflexivity.
Qed.

Lemma wirelength_crossing_count_large (fanout : nat) :
  (50 < fanout)%nat ->
  wirelength_crossing_count fanout = Fin (2.7933 + 0.02616 * (INR fanout - 50)).
Proof.
  intros H. unfold wirelength_crossing_count.
  destruct (Nat.ltb_spec 50 fanout) as [_|H']; [|lia].
  unfold of_int. cbn [fmul fadd]. f_equal.
  rewrite minus_IZR, <- INR_IZR_INZ. reflexivity.
Qed.

(** C3.  [get_net_cost] is the bounding-box length along each axis times
    the crossing count times the channel factor of the other axis, summed;
    the crossing count of a net of 1 to 50 pins is the entry [pins - 1] of
    the 50-entry table, and [2.7933 + 0.02616 * (pins - 50)] beyond 50
    pins. *)
Theorem get_net_cost_formula (net_id : ClusterNetId) (bb : t_bb) :
  let pins := length (net_pins nl net_id) in
  let crossing := wirelength_crossing_count pins in
  get_net_cost net_id bb
  = (of_int (xmax bb - xmin bb + 1) * crossing
       * chanx_place_cost_fac (ymax bb) (ymin bb - 1)%Z
     + of_int (ymax bb - ymin bb + 1) * crossing
       * chany_place_cost_fac (xmax bb) (xmin bb - 1)%Z)%fp
  /\ length cross_count = 50%nat
  /\ ((1 <= pins <= 50)%nat -> crossing = nth (pins - 1) cross_count NaN)
  /\ ((50 < pins)%nat -> crossing = Fin (2.7933 + 0.02616 * (INR pins - 50))).
Proof.
  intros pins crossing. split; [reflexivity|]. split; [reflexivity|]. split.
  - apply wirelength_crossing_count_table.
  - apply wirelength_crossing_count_large.
Qed.

(** The same on real numbers, for finite channel factors. *)
Lemma get_net_cost_real (net_id : ClusterNetId) (bb : t_bb) (c fx fy : R) :
  wirelength_crossing_count (length (net_pins nl net_id)) = Fin c ->
  chanx_place_cost_fac (ymax bb) (ymin bb - 1)%Z = Fin fx ->
  chany_place_cost_fac (xmax bb) (xmin bb - 1)%Z = Fin fy ->
  get_net_cost net_id bb
  = Fin (IZR (xmax bb - xmin bb + 1) * c * fx + IZR (ymax bb - ymin bb + 1) * c * fy).
Proof.
  intros Hc Hx Hy. unfold get_net_cost. rewrite Hc, Hx, Hy. reflexivity.
Qed.

(** *** The total of the net costs *)

Lemma recompute_bb_cost_fold (nc : nc_state) (l : list ClusterNetId) (acc : fp) :
  fold_left (fun cost net_id =>
               if negb (net_is_ignored nl net_id)
               then (cost + net_cost nc net_id)%fp else cost) l acc
  = fold_left fadd
      (map (net_cost nc) (filter (fun n => negb (net_is_ignored nl n)) l)) acc.
Proof.
  revert acc. induction l as [|n l IH]; intros acc; [reflexivity|].
  cbn [fold_left filter]. destruct (negb (net_is_ignored nl n)); cbn [map fold_left]; apply IH.
Qed.

(** C10.  [recompute_bb_cost] returns the sum of the committed [net_cost]
    entries of the nets that are not ignored, in netlist order.  It is a
    function of [net_cost] alone: two states with the same entries on the
    nets of the netlist give the same total, whatever their bounding boxes,
    block locations and markers are, and nothing is written (the model of
    the function has no state to return). *)
Theorem recompute_bb_cost_sums_net_cost (nc : nc_state) :
  recompute_bb_cost nc
  = fsum (map (net_cost nc) (filter (fun n => negb (net_is_ignored nl n)) (nets nl)))
  /\ (forall st st' : placer_state,
        (forall n, In n (nets nl) -> net_cost (ps_nc st) n = net_cost (ps_nc st') n) ->
        recompute_bb_cost (ps_nc st) = recompute_bb_cost (ps_nc st')).
Proof.
  split.
  - unfold recompute_bb_cost, fsum. apply recompute_bb_cost_fold.
  - intros st st' H. unfold recompute_bb_cost.
    generalize (Fin 0). induction (nets nl) as [|n l IH]; intros acc; [reflexivity|].
    cbn [fold_left]. rewrite (H n (or_introl eq_refl)).
    apply IH. intros m Hm. apply H. right. exact Hm.
Qed.

(** *** The range limit *)

Lemma fmin_Fin (x y : R) : fmin (Fin x) (Fin y) = Fin (Rmin x y).
Proof.
  unfold fmin, Rmin. cbn [flt].
  destruct (Rlt_dec y x), (Rle_dec x y); try reflexivity; exfalso; lra.
Qed.

Lemma fmax_Fin (x y : R) : fmax (Fin x) (Fin y) = Fin (Rmax x y).
Proof.
  unfold fmax, Rmax. cbn [flt].
  destruct (Rlt_dec x y), (Rle_dec x y); try reflexivity; try (exfalso; lra).
  f_equal; lra.
Qed.

Lemma update_rlim_real (r s : R) :
  (1 <= grid_width < 2 ^ 64)%Z -> (1 <= grid_height < 2 ^ 64)%Z ->
  update_rlim grid_width grid_height (Fin r) (Fin s)
  = Fin (Rmax (Rmin (r * (0.56 + s)) (IZR (Z.max grid_width grid_height - 1))) 1).
Proof.
  intros HW HH. unfold update_rlim, size_t_wrap, of_int.
  rewrite !Z.mod_small by lia.
  replace (Z.max (grid_width - 1) (grid_height - 1))
    with (Z.max grid_width grid_height - 1)%Z by lia.
  unfold fsub. cbn [fneg fadd fmul]. rewrite fmin_Fin, fmax_Fin.
  do 3 f_equal. lra.
Qed.

(** C6, as the code has it.  [update_rlim] multiplies the range limit by
    [1 - 0.44 + success_rat], that is by [0.56 + success_rat], and then
    bounds it above by [max(W, H) - 1] and below by 1.
    [update_annealing_state] applies it on the calls that continue the
    annealing under the AUTO and the DUSTY schedule; under the USER
    schedule, and on a call that ends the annealing, the range limit is
    left as it was. *)
Theorem update_rlim_formula :
  (forall r s : R,
      (1 <= grid_width < 2 ^ 64)%Z -> (1 <= grid_height < 2 ^ 64)%Z ->
      update_rlim grid_width grid_height (Fin r) (Fin s)
      = Fin (Rmax (Rmin (r * (0.56 + s)) (IZR (Z.max grid_width grid_height - 1))) 1))
  /\ (forall state success_rat costs placer_opts annealing_sched,
        let r := update_annealing_state state success_rat costs placer_opts annealing_sched in
        match sched_type annealing_sched with
        | USER_SCHED => ann_rlim (snd r) = ann_rlim state
        | _ =>
            if fst r
            then ann_rlim (snd r)
                 = update_rlim grid_width grid_height (ann_rlim state) success_rat
            else ann_rlim (snd r) = ann_rlim state
        end).
Proof.
  split; [exact update_rlim_real|].
  intros state success_rat costs placer_opts annealing_sched r. subst r.
  unfold update_annealing_state.
  destruct (sched_type annealing_sched).
  - (* AUTO *)
    repeat (match goal with
            | |- context [if ?c then _ else _] =>
                lazymatch c with
                | context [if _ then _ else _] => fail
                | _ => destruct c
                end
            end; cbn [fst snd ann_rlim]); reflexivity.
  - (* DUSTY *)
    repeat (match goal with
            | |- context [if ?c then _ else _] =>
                lazymatch c with
                | context [if _ then _ else _] => fail
                | _ => destruct c
                end
            end; cbn [fst snd ann_rlim]); reflexivity.
  - reflexivity.
Qed.

(** *** The starting temperature *)

Lemma fold_left_fadd_Fin (rs : list R) (a : R) :
  fold_left fadd (map Fin rs) (Fin a) = Fin (a + Rsum rs).
Proof.
  revert a. induction rs as [|r rs IH]; intros a; cbn [map fold_left Rsum fold_right].
  - f_equal. lra.
  - cbn [fadd]. rewrite IH. f_equal. unfold Rsum. lra.
Qed.

Lemma fsum_Fin (rs : list R) : fsum (map Fin rs) = Fin (Rsum rs).
Proof. unfold fsum. rewrite fold_left_fadd_Fin. f_equal. lra. Qed.

Lemma Rsum_centered (m : R) (rs : list R) :
  Rsum (map (fun x => (x - m) * (x - m))%R rs)
  = (Rsum (map (fun x => x * x)%R rs) - 2 * m * Rsum rs + INR (length rs) * m * m)%R.
Proof.
  induction rs as [|r rs IH].
  - cbn. lra.
  - cbn [map Rsum fold_right length]. fold (Rsum (map (fun x => (x - m) * (x - m))%R rs)).
    fold (Rsum (map (fun x => x * x)%R rs)). fold (Rsum rs).
    rewrite IH, S_INR. lra.
Qed.

Lemma Rsum_squares_nonneg (m : R) (rs : list R) :
  (0 <= Rsum (map (fun x => (x - m) * (x - m))%R rs))%R.
Proof.
  induction rs as [|r rs IH]; cbn [map Rsum fold_right]; [lra|].
  fold (Rsum (map (fun x => (x - m) * (x - m))%R rs)).
  pose proof (Rle_0_sqr (r - m)) as Hs. unfold Rsqr in Hs. lra.
Qed.

(** The variance the code computes is the sample variance. *)
Lemma computed_variance_is_sample_variance (rs : list R) :
  (2 <= length rs)%nat ->
  ((Rsum (map (fun x => x * x)%R rs) - INR (length rs) * Rmean rs * Rmean rs)
   / (INR (length rs) - 1))%R
  = Rsample_variance rs.
Proof.
  intros Hn. unfold Rsample_variance. rewrite Rsum_centered.
  assert (Hn' : (2 <= INR (length rs))%R).
  { replace 2%R with (INR 2) by (cbn; lra). apply le_INR. exact Hn. }
  unfold Rmean. field. split; lra.
Qed.

Lemma Rsample_variance_nonneg (rs : list R) :
  (2 <= length rs)%nat -> (0 <= Rsample_variance rs)%R.
Proof.
  intros Hn. unfold Rsample_variance.
  assert (Hn' : (2 <= INR (length rs))%R).
  { replace 2%R with (INR 2) by (cbn; lra). apply le_INR. exact Hn. }
  apply Rmult_le_pos; [apply Rsum_squares_nonneg|].
  apply Rlt_le, Rinv_0_lt_compat. lra.
Qed.

Lemma get_std_dev_few (n : Z) (sum_x_squared av_x : fp) :
  (n <= 1)%Z -> get_std_dev n sum_x_squared av_x = Fin 0.
Proof.
  intros H. unfold get_std_dev. destruct (Z.leb_spec n 1); [|lia].
  unfold fgt. cbn [flt]. destruct (Rlt_dec 0 0); [exfalso; lra | reflexivity].
Qed.

Lemma get_std_dev_real (n : Z) (s a : R) :
  (1 < n)%Z ->
  get_std_dev n (Fin s) (Fin a)
  = Fin (sqrt (Rmax 0 ((s - IZR n * a * a) / (IZR n - 1)))).
Proof.
  intros H. unfold get_std_dev. destruct (Z.leb_spec n 1); [lia|].
  assert (Hn : (IZR n - 1 <> 0)%R).
  { apply IZR_lt in H. lra. }
  unfold fsub, of_int. cbn [fneg fmul fadd fdiv]. rewrite minus_IZR.
  destruct (Req_dec_T (IZR n - 1) 0); [contradiction|].
  unfold fgt. cbn [flt].
  replace (s + - (IZR n * a * a))%R with (s - IZR n * a * a)%R by lra.
  set (v := ((s - IZR n * a * a) / (IZR n - 1))%R).
  unfold Rmax. destruct (Rlt_dec 0 v), (Rle_dec 0 v); cbn [fsqrt]; try (exfalso; lra).
  - destruct (Rlt_dec v 0); [exfalso; lra | reflexivity].
  - f_equal. assert (v = 0%R) by lra. subst v. rewrite H1. symmetry. apply sqrt_0.
  - f_equal. symmetry. apply sqrt_0.
Qed.

Lemma fsqrt_zero : fsqrt (Fin 0) = Fin 0.
Proof.
  cbn [fsqrt]. destruct (Rlt_dec 0 0); [exfalso; lra|]. f_equal. apply sqrt_0.
Qed.

(** What [starting_t] passes to [get_std_dev] is the claimed standard
    deviation of the accepted costs. *)
Lemma get_std_dev_claimed (xs : list fp) :
  let n := Z.of_nat (length xs) in
  get_std_dev n (fsum (map (fun x => x * x)%fp xs))
    (if negb (n =? 0)%Z then (fsum xs / of_int n)%fp else Fin 0)
  = claimed_std_dev xs.
Proof.
  intros n. unfold claimed_std_dev. fold n.
  destruct (Z.leb_spec n 1) as [Hn|Hn].
  - apply get_std_dev_few. exact Hn.
  - unfold get_std_dev. destruct (Z.leb_spec n 1); [lia|].
    destruct (Z.eqb_spec n 0); [lia|]. cbn [negb].
    set (v := ((fsum (map (fun x => x * x) xs) - of_int n * (fsum xs / of_int n)
                * (fsum xs / of_int n)) / of_int (n - 1))%fp).
    unfold fmax, fgt. destruct (Fin 0 <? v)%fp; [reflexivity|].
    symmetry. apply fsqrt_zero.
Qed.

Lemma starting_loop_trials (prev_inverse_costs : t_placer_prev_inverse_costs) (rlim : fp)
    (placer_opts : t_placer_opts) (n k : nat) (a : starting_acc) (env : trial_env) :
  foldM (starting_t_step prev_inverse_costs rlim placer_opts) (seq k n) (a, env)
  = ('(xs, env') <- starting_trials prev_inverse_costs rlim placer_opts n env ;;
     Ok ({| num_accepted := num_accepted a + Z.of_nat (length xs);
            av := fold_left fadd xs (av a);
            sa_sum_of_squares :=
              fold_left fadd (map (fun x => x * x)%fp xs) (sa_sum_of_squares a) |},
         env')).
Proof.
  revert k a env. induction n as [|n IH]; intros k a env.
  - cbn. destruct a. cbn. rewrite Z.add_0_r. reflexivity.
  - cbn [seq foldM starting_trials]. unfold starting_t_step at 1.
    destruct (try_swap _ _ _ _ _ _ _ _ _) as [[[[swap_result costs] ba] st]|err];
      cbn [bind]; [|reflexivity].
    rewrite IH.
    destruct (starting_trials _ _ _ _ _) as [[xs env']|err]; cbn [bind]; [|reflexivity].
    destruct swap_result; cbn [num_accepted av sa_sum_of_squares length map fold_left];
      try reflexivity.
    replace (num_accepted a + 1 + Z.of_nat (length xs))%Z
      with (num_accepted a + Z.of_nat (S (length xs)))%Z by lia.
    reflexivity.
Qed.

(** C8.  Under the USER schedule [starting_t] returns [init_t] and runs no
    trial.  Under the other schedules it runs
    [min(max_moves, number of blocks)] trials of [try_swap] at
    HUGE_POSITIVE_FLOAT and returns 20 times the standard deviation of the
    costs left by the accepted ones, where the standard deviation of at
    most one sample is 0 and the variance
    [(sum x^2 - n * avg^2) / (n - 1)] is clamped at 0 before the square
    root.  On real samples the computed variance is the sample variance,
    which is never negative. *)
Theorem starting_t_std_dev (prev_inverse_costs : t_placer_prev_inverse_costs)
    (annealing_sched : t_annealing_sched) (max_moves : Z) (rlim : fp)
    (placer_opts : t_placer_opts) (env : trial_env) :
  starting_t prev_inverse_costs annealing_sched max_moves rlim placer_opts env
  = match sched_type annealing_sched with
    | USER_SCHED => Ok (init_t annealing_sched, env)
    | _ =>
        '(xs, env') <-
           starting_trials prev_inverse_costs rlim placer_opts
             (Z.to_nat (Z.min max_moves (Z.of_nat (length (blocks nl))))) env ;;
        Ok ((Fin 20 * claimed_std_dev xs)%fp, env')
    end
  /\ (forall xs, (length xs <= 1)%nat -> claimed_std_dev xs = Fin 0)
  /\ (forall rs, (2 <= length rs)%nat ->
                 claimed_std_dev (map Fin rs) = Fin (sqrt (Rsample_variance rs))).
Proof.
  split; [|split].
  - unfold starting_t.
    assert (H : forall n,
      ('(a, env0) <-
          foldM (starting_t_step prev_inverse_costs rlim placer_opts) (seq 0 n)
                ({| num_accepted := 0; av := Fin 0; sa_sum_of_squares := Fin 0 |}, env) ;;
        Ok ((Fin 20 * get_std_dev (num_accepted a) (sa_sum_of_squares a)
                        (if negb (num_accepted a =? 0)%Z
                         then (av a / of_int (num_accepted a))%fp else Fin 0))%fp, env0))
      = ('(xs, env') <- starting_trials prev_inverse_costs rlim placer_opts n env ;;
         Ok ((Fin 20 * claimed_std_dev xs)%fp, env'))).
    { intros n. rewrite starting_loop_trials.
      destruct (starting_trials _ _ _ _ _) as [[xs env']|err]; cbn [bind]; [|reflexivity].
      cbn [num_accepted av sa_sum_of_squares]. rewrite Z.add_0_l.
      pose proof (get_std_dev_claimed xs) as Hc. cbv zeta in Hc.
      unfold fsum in Hc. rewrite Hc. reflexivity. }
    destruct (sched_type annealing_sched); [apply H | apply H | reflexivity].
  - intros xs Hn. unfold claimed_std_dev.
    destruct (Z.leb_spec (Z.of_nat (length xs)) 1); [reflexivity | lia].
  - intros rs Hn. unfold claimed_std_dev. rewrite length_map.
    destruct (Z.leb_spec (Z.of_nat (length rs)) 1); [lia|].
    rewrite fsum_Fin.
    replace (map (fun x => (x * x)%fp) (map Fin rs))
      with (map Fin (map (fun x => x * x)%R rs))
      by (rewrite !map_map; reflexivity).
    rewrite fsum_Fin. unfold of_int, fsub. rewrite <- !INR_IZR_INZ.
    assert (Hn' : (2 <= INR (length rs))%R).
    { replace 2%R with (INR 2) by (cbn; lra). apply le_INR. exact Hn. }
    cbn [fdiv]. destruct (Req_dec_T (INR (length rs)) 0); [exfalso; lra|].
    cbn [fmul fneg fadd fdiv].
    rewrite minus_IZR, <- INR_IZR_INZ.
    destruct (Req_dec_T (INR (length rs) - 1) 0); [exfalso; lra|].
    pose proof (computed_variance_is_sample_variance rs Hn) as Hv.
    pose proof (Rsample_variance_nonneg rs Hn) as Hp.
    unfold Rmean in Hv.
    replace ((Rsum (map (fun x : R => x * x) rs)
              + - (INR (length rs) * (Rsum rs / INR (length rs))
                   * (Rsum rs / INR (length rs)))) / (INR (length rs) - 1))%R
      with (Rsample_variance rs) by (rewrite <- Hv; lra).
    unfold fmax. cbn [flt].
    destruct (Rlt_dec 0 (Rsample_variance rs)); cbn [fsqrt].
    + destruct (Rlt_dec (Rsample_variance rs) 0); [exfalso; lra | reflexivity].
    + destruct (Rlt_dec 0 0); [exfalso; lra|].
      f_equal. f_equal. lra.
Qed.

(** *** Quench *)

Lemma assess_swap_quench (delta_c : fp) (e : ext) :
  assess_swap delta_c (Fin 0) e
  = (if (delta_c <=? Fin 0)%fp then ACCEPTED else REJECTED, e).
Proof.
  unfold assess_swap. destruct (delta_c <=? Fin 0)%fp; [reflexivity|].
  replace (Fin 0 ==? Fin 0)%fp with true; [reflexivity|].
  symmetry. apply feq_Fin. reflexivity.
Qed.

Lemma fadd_nonpos_not_greater (c d : fp) :
  (d <=? Fin 0)%fp = true -> (c + d >? c)%fp = false.
Proof.
  unfold fle, fgt. destruct c as [| | |c], d as [| | |d]; cbn [flt feq fadd orb];
    intros H; try reflexivity; try discriminate.
  destruct (Rlt_dec d 0), (Req_dec_T d 0), (Rlt_dec c (c + d));
    try reflexivity; try discriminate; exfalso; lra.
Qed.

Lemma flt_irrefl (c : fp) : (c <? c)%fp = false.
Proof.
  destruct c as [| | |c]; cbn [flt]; try reflexivity.
  destruct (Rlt_dec c c); [exfalso; lra | reflexivity].
Qed.

(** The two ways in which [try_swap] returns: the generator aborted and
    nothing but its own state changed, or the move was valid, assessed, and
    then accepted or rejected. *)
Lemma try_swap_inv (t : fp) (costs : t_placer_costs)
    (prev_inverse_costs : t_placer_prev_inverse_costs) (rlim : fp)
    (blocks_affected : t_pl_blocks_to_be_moved) (rlim_escape_fraction : fp)
    (place_algorithm : e_place_algorithm) (timing_tradeoff : fp)
    (st : placer_state) (move_outcome : e_move_result) (costs' : t_placer_costs)
    (blocks_affected' : t_pl_blocks_to_be_moved) (st' : placer_state) :
  try_swap t costs prev_inverse_costs rlim blocks_affected rlim_escape_fraction
    place_algorithm timing_tradeoff st
  = Ok (move_outcome, costs', blocks_affected', st') ->
  let esc := escape_rlim rlim rlim_escape_fraction (ps_ext st) in
  let proposal := propose_move (ps_locs st) blocks_affected (fst esc) (snd esc) in
  (fst (fst proposal) = ABORT /\ move_outcome = ABORTED /\ costs' = costs
   /\ ps_bb st' = ps_bb st /\ ps_nc st' = ps_nc st /\ ps_td st' = ps_td st
   /\ ps_locs st' = ps_locs st)
  \/ (fst (fst proposal) = VALID /\
      exists num_nets_affected bb nc td blocks_affected1 bb_delta_c timing_delta_c,
        find_affected_nets_and_update_costs place_algorithm (criticality (snd proposal))
          (apply_move_blocks (snd (fst proposal)) (ps_locs st))
          (ps_bb st) (ps_nc st) (ps_td st) (snd (fst proposal)) (Fin 0) (Fin 0)
        = Ok (num_nets_affected, bb, nc, td, blocks_affected1, bb_delta_c, timing_delta_c)
        /\ let delta_c := trial_delta_c place_algorithm timing_tradeoff prev_inverse_costs
                            bb_delta_c timing_delta_c in
           let assessed := assess_swap delta_c t (snd proposal) in
           let st1 := {| ps_bb := bb; ps_nc := nc; ps_td := td;
                         ps_locs := apply_move_blocks (snd (fst proposal)) (ps_locs st);
                         ps_ext := snd assessed;
                         num_ts_called := (num_ts_called st + 1)%Z |} in
           let done :=
             match fst assessed with
             | ACCEPTED =>
                 accept_move place_algorithm delta_c bb_delta_c timing_delta_c
                   num_nets_affected blocks_affected1 costs st1
             | _ => reject_move place_algorithm num_nets_affected blocks_affected1 costs st1
             end in
           move_outcome = fst assessed /\ move_outcome <> ABORTED /\ costs' = fst done
           /\ ps_bb st' = ps_bb (snd done) /\ ps_nc st' = ps_nc (snd done)
           /\ ps_td st' = ps_td (snd done) /\ ps_locs st' = ps_locs (snd done)).
Proof.
  intros H esc proposal. unfold try_swap in H. fold esc in H. fold proposal in H.
  destruct (fst (fst proposal)).
  - right. split; [reflexivity|].
    destruct (find_affected_nets_and_update_costs _ _ _ _ _ _ _ _ _)
      as [[[[[[[num bb] nc] td] ba1] bbd] tdd]|err]; cbn [bind] in H; [|discriminate].
    exists num, bb, nc, td, ba1, bbd, tdd. split; [reflexivity|].
    cbv zeta. injection H as H1 H2 H3 H4. subst.
    repeat split.
    unfold assess_swap.
    repeat match goal with
           | |- context [if ?c then _ else _] => destruct c; cbn [fst]
           | |- context [frand ?e] => destruct (frand e); cbn [fst]
           end; discriminate.
  - left. injection H as H1 H2 H3 H4. subst. repeat split.
Qed.

Lemma fgt_false_trans (a b c : fp) :
  isnan b = false -> (b >? a)%fp = false -> (c >? b)%fp = false -> (c >? a)%fp = false.
Proof.
  unfold fgt. destruct a as [| | |a], b as [| | |b], c as [| | |c]; cbn [flt isnan];
    intros Hb H1 H2; try reflexivity; try discriminate.
  destruct (Rlt_dec a b), (Rlt_dec b c), (Rlt_dec a c);
    try reflexivity; try discriminate; exfalso; lra.
Qed.

Lemma fadd_nonpos_bounded (c d : fp) :
  isnan c = false -> c <> PInf -> (d <=? Fin 0)%fp = true ->
  isnan (c + d)%fp = false /\ (c + d)%fp <> PInf.
Proof.
  unfold fle. destruct c as [| | |c], d as [| | |d]; cbn [flt feq fadd orb isnan];
    intros Hn Hp Hd; try discriminate; try contradiction;
    split; try reflexivity; discriminate.
Qed.

(** [recompute_criticalities] writes [costs->timing_cost] only. *)
Lemma recompute_criticalities_cost (crit_exponent : fp) (costs : t_placer_costs)
    (td : td_state) (e : ext) :
  cost (fst (fst (recompute_criticalities crit_exponent costs td e))) = cost costs.
Proof.
  unfold recompute_criticalities.
  destruct (update_td_costs _ td) as [td1 tc]. reflexivity.
Qed.

(** What the end of the loop body leaves in [costs->cost]: the cost of the
    trial, or, when the costs were recomputed in a bounding-box-driven
    placement, the recomputed bounding-box cost. *)
Lemma count_move_and_recompute_cost (placer_opts : t_placer_opts)
    (costs costs' : t_placer_costs) (st st' : placer_state) (m m' : Z) :
  count_move_and_recompute placer_opts costs st m = Ok (costs', st', m') ->
  ps_nc st' = ps_nc st
  /\ if (m + 1 >? MAX_MOVES_BEFORE_RECOMPUTE)%Z then
       m' = 0%Z
       /\ cost costs' = match place_algorithm placer_opts with
                        | PATH_TIMING_DRIVEN_PLACE => cost costs
                        | BOUNDING_BOX_PLACE => recompute_bb_cost (ps_nc st)
                        end
     else m' = (m + 1)%Z /\ cost costs' = cost costs.
Proof.
  unfold count_move_and_recompute. intros H.
  destruct (m + 1 >? MAX_MOVES_BEFORE_RECOMPUTE)%Z.
  - destruct (recompute_costs_from_scratch _ _ _ _ _) as [[c td]|err] eqn:Hr;
      cbn [bind] in H; [|discriminate].
    injection H as <- <- <-. split; [reflexivity|]. split; [reflexivity|].
    unfold recompute_costs_from_scratch in Hr.
    destruct (_ >? _)%fp in Hr; [discriminate|]. cbv zeta in Hr.
    destruct (place_algorithm placer_opts).
    + injection Hr as <- _. reflexivity.
    + destruct (comp_td_costs _ (ps_td st)) as [td1 tc].
      cbn [timing_cost] in Hr. destruct (_ >? _)%fp in Hr; [discriminate|].
      injection Hr as <- _. reflexivity.
  - injection H as <- <- <-. auto.
Qed.

(** One iteration of the inner loop: its trial, the count of the accepted
    moves, and the cost that the end of the loop body leaves. *)
Lemma inner_loop_step_inv (t rlim : fp) (placer_opts : t_placer_opts) (move_lim : Z)
    (crit_exponent : fp) (inner_recompute_limit : Z)
    (prev_inverse_costs : t_placer_prev_inverse_costs)
    (a a' : inner_acc) (env env' : trial_env) (inner_iter : nat) :
  inner_loop_step t rlim placer_opts move_lim crit_exponent inner_recompute_limit
    prev_inverse_costs (a, env) inner_iter = Ok (a', env') ->
  exists swap_result costs1 blocks_affected1 st1,
    try_swap t (te_costs env) prev_inverse_costs rlim (te_blocks_affected env)
      (rlim_escape_fraction placer_opts) (place_algorithm placer_opts)
      (timing_tradeoff placer_opts) (te_state env)
    = Ok (swap_result, costs1, blocks_affected1, st1)
    /\ success_sum (ia_stats a')
       = (success_sum (ia_stats a)
          + match swap_result with ACCEPTED => 1 | _ => 0 end)%Z
    /\ ps_nc (te_state env') = ps_nc st1
    /\ if (ia_moves_since_cost_recompute a + 1 >? MAX_MOVES_BEFORE_RECOMPUTE)%Z then
         ia_moves_since_cost_recompute a' = 0%Z
         /\ cost (te_costs env')
            = match place_algorithm placer_opts with
              | PATH_TIMING_DRIVEN_PLACE => cost costs1
              | BOUNDING_BOX_PLACE => recompute_bb_cost (ps_nc st1)
              end
       else ia_moves_since_cost_recompute a' = (ia_moves_since_cost_recompute a + 1)%Z
            /\ cost (te_costs env') = cost costs1.
Proof.
  unfold inner_loop_step. intros H.
  destruct (try_swap _ _ _ _ _ _ _ _ _) as [[[[o c] ba] st]|err];
    cbn [bind] in H; [|discriminate].
  exists o, c, ba, st. split; [reflexivity|].
  assert (Hsum : success_sum match o with
                             | ACCEPTED =>
                                 {| av_cost := (av_cost (ia_stats a) + cost c)%fp;
                                    av_bb_cost := (av_bb_cost (ia_stats a) + bb_cost c)%fp;
                                    av_timing_cost :=
                                      (av_timing_cost (ia_stats a) + timing_cost c)%fp;
                                    sum_of_squares :=
                                      (sum_of_squares (ia_stats a) + cost c * cost c)%fp;
                                    success_sum := (success_sum (ia_stats a) + 1)%Z |}
                             | _ => ia_stats a
                             end
                 = (success_sum (ia_stats a)
                    + match o with ACCEPTED => 1 | _ => 0 end)%Z).
  { destruct o; cbn [success_sum]; lia. }
  destruct (place_algorithm placer_opts) eqn:Halg;
    [|destruct (_ && _)%bool;
      [pose proof (recompute_criticalities_cost crit_exponent c (ps_td st) (ps_ext st))
         as Hrc;
       destruct (recompute_criticalities _ _ _ _) as [[c0 td0] e0]; cbn [fst] in Hrc|]];
    match type of H with
    | context [count_move_and_recompute ?p ?c ?s ?m] =>
        destruct (count_move_and_recompute p c s m) as [[[c1 s1] m1]|err] eqn:Hc
    end; cbn [bind] in H; try discriminate;
    apply count_move_and_recompute_cost in Hc; rewrite Halg in Hc;
    destruct Hc as [Hnc Hc]; cbn [ps_nc] in Hnc, Hc;
    injection H as <- <-;
    cbn [ia_stats ia_moves_since_cost_recompute te_costs te_state];
    (split; [exact Hsum|]); (split; [exact Hnc|]);
    try rewrite Hrc in Hc; exact Hc.
Qed.

(** C9, as the code has it.  A trial at [t = 0] never leaves a greater
    cost: [assess_swap] accepts exactly the moves with [delta_c <= 0]; an
    accepted move adds its [delta_c] to [costs.cost]; a rejected and an
    aborted move leave [costs] as it was.  An iteration of the inner loop at
    [t = 0] leaves a cost that is not greater and that has changed only
    when the move was accepted, in a timing-driven placement and whenever
    the costs are not recomputed; in a bounding-box-driven placement the
    iteration that recomputes the costs leaves the recomputed bounding-box
    cost instead.  Over the whole loop at [t = 0], started with a finite
    cost, the cost is not greater at the end and is the same when no move
    was accepted, in a timing-driven placement and when no recomputation
    falls into the loop. *)
Theorem quench_cost_never_increases :
  (forall delta_c e,
      fst (assess_swap delta_c (Fin 0) e) = ACCEPTED <-> (delta_c <=? Fin 0)%fp = true)
  /\ (forall costs prev_inverse_costs rlim blocks_affected rlim_escape_fraction
             place_algorithm timing_tradeoff st move_outcome costs' blocks_affected' st',
        try_swap (Fin 0) costs prev_inverse_costs rlim blocks_affected
          rlim_escape_fraction place_algorithm timing_tradeoff st
        = Ok (move_outcome, costs', blocks_affected', st') ->
        (cost costs' >? cost costs)%fp = false
        /\ (move_outcome <> ACCEPTED -> costs' = costs)
        /\ (move_outcome = ACCEPTED ->
            exists delta_c, (delta_c <=? Fin 0)%fp = true
                            /\ cost costs' = (cost costs + delta_c)%fp))
  /\ (forall rlim placer_opts move_lim crit_exponent inner_recompute_limit
             prev_inverse_costs a env inner_iter a' env',
        inner_loop_step (Fin 0) rlim placer_opts move_lim crit_exponent
          inner_recompute_limit prev_inverse_costs (a, env) inner_iter
        = Ok (a', env') ->
        let recomputed :=
          (ia_moves_since_cost_recompute a + 1 >? MAX_MOVES_BEFORE_RECOMPUTE)%Z in
        (place_algorithm placer_opts = PATH_TIMING_DRIVEN_PLACE \/ recomputed = false ->
         (cost (te_costs env') >? cost (te_costs env))%fp = false
         /\ (success_sum (ia_stats a') = success_sum (ia_stats a) ->
             cost (te_costs env') = cost (te_costs env)))
        /\ (place_algorithm placer_opts = BOUNDING_BOX_PLACE -> recomputed = true ->
            cost (te_costs env') = recompute_bb_cost (ps_nc (te_state env'))
            /\ ia_moves_since_cost_recompute a' = 0%Z))
  /\ (forall rlim placer_opts move_lim crit_exponent inner_recompute_limit
             prev_inverse_costs moves_since_cost_recompute env stats m' env',
        placement_inner_loop (Fin 0) rlim placer_opts move_lim crit_exponent
          inner_recompute_limit prev_inverse_costs moves_since_cost_recompute env
        = Ok (stats, m', env') ->
        place_algorithm placer_opts = PATH_TIMING_DRIVEN_PLACE
        \/ (moves_since_cost_recompute + move_lim <= MAX_MOVES_BEFORE_RECOMPUTE)%Z ->
        is_finite (cost (te_costs env)) ->
        (cost (te_costs env') >? cost (te_costs env))%fp = false
        /\ (success_sum stats = 0%Z -> cost (te_costs env') = cost (te_costs env))).
Proof.
  assert (Hq : forall delta_c e,
             fst (assess_swap delta_c (Fin 0) e) = ACCEPTED
             <-> (delta_c <=? Fin 0)%fp = true).
  { intros delta_c e. rewrite assess_swap_quench. cbn [fst].
    destruct (delta_c <=? Fin 0)%fp; split; intros; try reflexivity; discriminate. }
  assert (Htrial : forall costs prev_inverse_costs rlim blocks_affected
                          rlim_escape_fraction place_algorithm timing_tradeoff st
                          move_outcome costs' blocks_affected' st',
             try_swap (Fin 0) costs prev_inverse_costs rlim blocks_affected
               rlim_escape_fraction place_algorithm timing_tradeoff st
             = Ok (move_outcome, costs', blocks_affected', st') ->
             (cost costs' >? cost costs)%fp = false
             /\ (move_outcome <> ACCEPTED -> costs' = costs)
             /\ (move_outcome = ACCEPTED ->
                 exists delta_c, (delta_c <=? Fin 0)%fp = true
                                 /\ cost costs' = (cost costs + delta_c)%fp)).
  { intros costs prev_inverse_costs rlim blocks_affected rlim_escape_fraction
           place_algorithm timing_tradeoff st move_outcome costs' blocks_affected' st' H.
    apply try_swap_inv in H. cbv zeta in H.
    destruct H as [(_ & Ho & Hc & _) | (_ & num & bb & nc & td & ba1 & bbd & tdd & _ & H)].
    - subst. split; [apply flt_irrefl|]. split; [reflexivity|]. intros; discriminate.
    - destruct H as (Ho & Hna & Hc & _).
      rewrite assess_swap_quench in Ho, Hc. cbn [fst snd] in Ho, Hc.
      set (delta_c := trial_delta_c place_algorithm timing_tradeoff prev_inverse_costs
                        bbd tdd) in *.
      destruct (delta_c <=? Fin 0)%fp eqn:Hd; subst move_outcome.
      + assert (Hcost : cost costs' = (cost costs + delta_c)%fp).
        { subst costs'. unfold accept_move. cbn [fst].
          destruct place_algorithm; reflexivity. }
        split; [rewrite Hcost; apply fadd_nonpos_not_greater; exact Hd|].
        split; [intros Hn; contradiction Hn; reflexivity|].
        intros _. exists delta_c. split; [exact Hd | exact Hcost].
      + assert (Hcost : costs' = costs).
        { subst costs'. reflexivity. }
        split; [rewrite Hcost; apply flt_irrefl|].
        split; [intros _; exact Hcost|]. intros; discriminate. }
  (* an iteration that does not replace the cost leaves the cost of its trial *)
  assert (Hstep : forall rlim placer_opts move_lim crit_exponent inner_recompute_limit
                         prev_inverse_costs a env inner_iter a' env',
             inner_loop_step (Fin 0) rlim placer_opts move_lim crit_exponent
               inner_recompute_limit prev_inverse_costs (a, env) inner_iter
             = Ok (a', env') ->
             place_algorithm placer_opts = PATH_TIMING_DRIVEN_PLACE
             \/ (ia_moves_since_cost_recompute a + 1 >? MAX_MOVES_BEFORE_RECOMPUTE)%Z = false ->
             (cost (te_costs env') >? cost (te_costs env))%fp = false
             /\ (success_sum (ia_stats a) <= success_sum (ia_stats a'))%Z
             /\ (success_sum (ia_stats a') = success_sum (ia_stats a) ->
                 cost (te_costs env') = cost (te_costs env))
             /\ (isnan (cost (te_costs env)) = false -> cost (te_costs env) <> PInf ->
                 isnan (cost (te_costs env')) = false /\ cost (te_costs env') <> PInf)).
  { intros rlim placer_opts move_lim crit_exponent inner_recompute_limit
           prev_inverse_costs a env inner_iter a' env' H Hmode.
    apply inner_loop_step_inv in H.
    destruct H as (o & c1 & ba1 & st1 & Hts & Hsum & _ & Hcost).
    apply Htrial in Hts. destruct Hts as (Hle & Hrej & Hacc).
    assert (Hc : cost (te_costs env') = cost c1).
    { destruct (ia_moves_since_cost_recompute a + 1 >? MAX_MOVES_BEFORE_RECOMPUTE)%Z.
      - destruct Hmode as [Halg|F]; [|discriminate].
        rewrite Halg in Hcost. apply Hcost.
      - apply Hcost. }
    rewrite Hc. split; [exact Hle|]. split; [destruct o; lia|]. split.
    - intros E. rewrite Hrej; [reflexivity|]. intros ->. lia.
    - intros Hn Hp. destruct o.
      + rewrite Hrej by discriminate. auto.
      + destruct (Hacc eq_refl) as (d & Hd & ->).
        apply fadd_nonpos_bounded; assumption.
      + rewrite Hrej by discriminate. auto. }
  split; [exact Hq|]. split; [exact Htrial|]. split.
  - intros rlim placer_opts move_lim crit_exponent inner_recompute_limit
           prev_inverse_costs a env inner_iter a' env' H recomputed.
    split.
    + intros Hmode. destruct (Hstep _ _ _ _ _ _ _ _ _ _ _ H Hmode) as (H1 & _ & H2 & _).
      split; assumption.
    + intros Halg Hr. apply inner_loop_step_inv in H.
      destruct H as (o & c1 & ba1 & st1 & _ & _ & Hnc & Hcost).
      subst recomputed. rewrite Hr, Halg, <- Hnc in Hcost.
      split; apply Hcost.
  - intros rlim placer_opts move_lim crit_exponent inner_recompute_limit
           prev_inverse_costs m env stats m' env' H Hmode Hfin.
    unfold placement_inner_loop in H.
    match type of H with
    | bind (foldM ?f ?l (?a0, _)) _ = _ =>
        set (step := f) in H; set (a := a0) in H;
        destruct (foldM step l (a, env)) as [[a1 env1]|err] eqn:Hloop
    end; cbn [bind] in H; [|discriminate].
    injection H as <- _ <-.
    assert (Hgen : forall iters b e b' e',
               foldM step iters (b, e) = Ok (b', e') ->
               place_algorithm placer_opts = PATH_TIMING_DRIVEN_PLACE
               \/ iters = []
               \/ (ia_moves_since_cost_recompute b + Z.of_nat (length iters)
                   <= MAX_MOVES_BEFORE_RECOMPUTE)%Z ->
               isnan (cost (te_costs e)) = false -> cost (te_costs e) <> PInf ->
               (cost (te_costs e') >? cost (te_costs e))%fp = false
               /\ (success_sum (ia_stats b) <= success_sum (ia_stats b'))%Z
               /\ (success_sum (ia_stats b') = success_sum (ia_stats b) ->
                   cost (te_costs e') = cost (te_costs e))).
    { induction iters as [|i iters IH]; intros b e b' e' Hf Hm Hn Hp; cbn [foldM] in Hf.
      - injection Hf as <- <-. split; [apply flt_irrefl|]. split; [lia|reflexivity].
      - destruct (step (b, e) i) as [[b1 e1]|err] eqn:Hs; cbn [bind] in Hf; [|discriminate].
        assert (Hm1 : place_algorithm placer_opts = PATH_TIMING_DRIVEN_PLACE
                      \/ (ia_moves_since_cost_recompute b + 1
                          >? MAX_MOVES_BEFORE_RECOMPUTE)%Z = false).
        { destruct Hm as [Hm|[Hm|Hm]]; [left; exact Hm|discriminate|right].
          cbn [length] in Hm. rewrite Z.gtb_ltb. apply Z.ltb_ge. lia. }
        pose proof Hs as Hs'. apply inner_loop_step_inv in Hs'.
        destruct Hs' as (o & c1 & ba1 & st1 & _ & _ & _ & Hcnt).
        destruct (Hstep _ _ _ _ _ _ _ _ _ _ _ Hs Hm1) as (S1 & S2 & S3 & S4).
        destruct (S4 Hn Hp) as [Hn1 Hp1].
        destruct (IH b1 e1 b' e' Hf) as (I1 & I2 & I3); [|exact Hn1|exact Hp1|].
        + destruct Hm as [Hm|[Hm|Hm]]; [left; exact Hm|discriminate|].
          destruct iters as [|j iters]; [right; left; reflexivity|right; right].
          assert (E : (ia_moves_since_cost_recompute b + 1
                       >? MAX_MOVES_BEFORE_RECOMPUTE)%Z = false).
          { rewrite Z.gtb_ltb. apply Z.ltb_ge. cbn [length] in Hm. lia. }
          rewrite E in Hcnt. destruct Hcnt as [-> _]. cbn [length] in Hm |- *. lia.
        + split; [apply fgt_false_trans with (b := cost (te_costs e1)); assumption|].
          split; [lia|]. intros E.
          rewrite I3 by lia. apply S3. lia. }
    assert (Hn : isnan (cost (te_costs env)) = false)
      by (destruct (cost (te_costs env)); [destruct Hfin|reflexivity..]).
    assert (Hp : cost (te_costs env) <> PInf)
      by (destruct (cost (te_costs env)); [discriminate|destruct Hfin|discriminate..]).
    destruct (Hgen _ _ _ _ _ Hloop) as (G1 & _ & G3); [|exact Hn|exact Hp|].
    + destruct Hmode as [Hmode|Hmode]; [left; exact Hmode|right].
      rewrite length_seq. subst a. cbn [ia_moves_since_cost_recompute].
      destruct (Z.to_nat move_lim) eqn:E; [left; reflexivity|right]. rewrite <- E. lia.
    + subst a. cbn [ia_stats success_sum] in G3. split; [exact G1 | exact G3].
Qed.

(** *** Bounding boxes: incremental against from scratch *)

Lemma count_cons (v w : Z) (l : list Z) :
  count v (w :: l) = ((if (w =? v)%Z then 1 else 0) + count v l)%Z.
Proof.
  unfold count. cbn [count_occ].
  destruct (Z.eq_dec w v) as [E|E], (Z.eqb_spec w v); try contradiction; lia.
Qed.

Lemma count_app (v : Z) (l l' : list Z) : count v (l ++ l') = (count v l + count v l')%Z.
Proof. unfold count. rewrite count_occ_app. lia. Qed.

Lemma count_nonneg (v : Z) (l : list Z) : (0 <= count v l)%Z.
Proof. unfold count. lia. Qed.

Lemma count_pos_In (v : Z) (l : list Z) : (0 < count v l)%Z <-> In v l.
Proof.
  unfold count. rewrite (count_occ_In Z.eq_dec). lia.
Qed.

Lemma count_zero_notin (v : Z) (l : list Z) : ~ In v l -> count v l = 0%Z.
Proof.
  intros H. unfold count. apply (count_occ_not_In Z.eq_dec) in H. lia.
Qed.

Lemma is_extent_unique (l : list Z) (a b : extent) :
  is_extent l a -> is_extent l b -> a = b.
Proof.
  intros (Ha1 & Ha2 & Ha3 & Ha4 & Ha5 & Ha6) (Hb1 & Hb2 & Hb3 & Hb4 & Hb5 & Hb6).
  assert (lo a = lo b) by (apply Z.le_antisymm; auto).
  assert (hi a = hi b) by (apply Z.le_antisymm; auto).
  destruct a, b; cbn in *; subst. reflexivity.
Qed.

Lemma is_extent_perm (l l' : list Z) (a : extent) :
  Permutation l l' -> is_extent l a -> is_extent l' a.
Proof.
  intros HP (H1 & H2 & H3 & H4 & H5 & H6).
  pose proof (proj1 (Permutation_count_occ Z.eq_dec l l') HP) as Hc.
  unfold is_extent, count. rewrite <- !Hc.
  repeat split; auto.
  - eapply Permutation_in; eauto.
  - intros v Hv. apply H2. eapply Permutation_in; [symmetry|]; eauto.
  - eapply Permutation_in; eauto.
  - intros v Hv. apply H4. eapply Permutation_in; [symmetry|]; eauto.
Qed.

Lemma is_extent_single (v : Z) :
  is_extent [v] {| lo := v; hi := v; lo_edge := 1; hi_edge := 1 |}.
Proof.
  unfold is_extent. cbn [lo hi lo_edge hi_edge]. rewrite count_cons, Z.eqb_refl.
  repeat split; try (left; reflexivity); try reflexivity;
    intros w [Hw|[]]; subst; lia.
Qed.

Lemma count_snoc (w v : Z) (l : list Z) :
  count w (l ++ [v]) = (count w l + if (v =? w)%Z then 1 else 0)%Z.
Proof.
  rewrite count_app, count_cons. unfold count at 2. cbn [count_occ]. lia.
Qed.

Lemma scratch_axis_snoc (l : list Z) (a : extent) (v : Z) :
  is_extent l a -> is_extent (l ++ [v]) (scratch_axis a v).
Proof.
  intros (H1 & H2 & H3 & H4 & H5 & H6).
  assert (Hlh : (lo a <= hi a)%Z) by (apply H2; exact H3).
  assert (Hin : forall w, In w (l ++ [v]) <-> In w l \/ w = v).
  { intros w. rewrite in_app_iff. cbn [In]. split; [intros [H|[H|[]]]; auto | intros [H|H]; auto]. }
  assert (Hv0 : (v < lo a)%Z \/ (hi a < v)%Z -> count v l = 0%Z).
  { intros Hv. apply count_zero_notin. intros Hi.
    pose proof (H2 v Hi). pose proof (H4 v Hi). lia. }
  unfold scratch_axis, is_extent.
  destruct (Z.eqb_spec v (hi a)) as [Ehi|Ehi];
    [|destruct (Z.ltb_spec v (lo a)) as [Llo|Llo];
      [|destruct (Z.gtb_spec v (hi a)) as [Ghi|Ghi]]];
    cbn [lo hi lo_edge hi_edge]; rewrite !count_snoc.
  all: repeat match goal with
              | |- context [(?x =? ?y)%Z] => destruct (Z.eqb_spec x y)
              end.
  all: repeat split;
    try (apply Hin; ((left; assumption) || (right; reflexivity)));
    try (intros w Hw; apply Hin in Hw; destruct Hw as [Hw|Hw];
         [pose proof (H2 w Hw); pose proof (H4 w Hw); lia | subst; lia]);
    try lia; try (rewrite Hv0 by lia; lia).
Qed.

(** The extremes and edge counts that the sink loop computes. *)
Lemma scratch_axis_fold (vs l : list Z) (a : extent) :
  is_extent l a -> is_extent (l ++ vs) (fold_left scratch_axis vs a).
Proof.
  revert l a. induction vs as [|v vs IH]; intros l a H; cbn [fold_left].
  - rewrite app_nil_r. exact H.
  - replace (l ++ v :: vs) with ((l ++ [v]) ++ vs) by (rewrite <- app_assoc; reflexivity).
    apply IH. apply scratch_axis_snoc. exact H.
Qed.

(** The incremental update of an axis is right whenever it does not give
    up: moving one pin from [vold] to [vnew] turns the extremes and edge
    counts of the old coordinates into those of the new ones. *)
Lemma incremental_axis_sound (rest : list Z) (a a' : extent) (vold vnew : Z) :
  is_extent (vold :: rest) a ->
  incremental_axis a vold vnew = Some a' ->
  is_extent (vnew :: rest) a'.
Proof.
  intros (H1 & H2 & H3 & H4 & H5 & H6) Hu.
  rewrite count_cons in H5, H6.
  assert (Hlo : forall w, In w rest -> (lo a <= w)%Z) by (intros; apply H2; right; auto).
  assert (Hhi : forall w, In w rest -> (w <= hi a)%Z) by (intros; apply H4; right; auto).
  assert (Hvlo : (lo a <= vold)%Z) by (apply H2; left; reflexivity).
  assert (Hvhi : (vold <= hi a)%Z) by (apply H4; left; reflexivity).
  assert (Hclo : (0 < count (lo a) rest)%Z -> In (lo a) rest) by apply count_pos_In.
  assert (Hchi : (0 < count (hi a) rest)%Z -> In (hi a) rest) by apply count_pos_In.
  assert (Hnlo := count_nonneg (lo a) rest).
  assert (Hnhi := count_nonneg (hi a) rest).
  assert (Hz : forall w, (w < lo a)%Z \/ (hi a < w)%Z -> count w rest = 0%Z).
  { intros w Hw. apply count_zero_notin. intros Hi.
    pose proof (Hlo w Hi). pose proof (Hhi w Hi). lia. }
  assert (Hrlo : vold <> lo a -> In (lo a) rest).
  { intros Hne. destruct H1 as [E|Hi]; [congruence | exact Hi]. }
  assert (Hrhi : vold <> hi a -> In (hi a) rest).
  { intros Hne. destruct H3 as [E|Hi]; [congruence | exact Hi]. }
  unfold incremental_axis in Hu.
  repeat match type of Hu with
         | context [(?x =? ?y)%Z] => destruct (Z.eqb_spec x y)
         | context [(?x <? ?y)%Z] => destruct (Z.ltb_spec x y)
         | context [(?x >? ?y)%Z] => destruct (Z.gtb_spec x y)
         end; cbn [andb] in Hu; try discriminate; injection Hu as <-;
    unfold is_extent; cbn [lo hi lo_edge hi_edge]; rewrite !count_cons;
    repeat match goal with
           | |- context [(?x =? ?y)%Z] => destruct (Z.eqb_spec x y)
           end; try lia.
  all: repeat split;
    try (intros w [Hw|Hw];
         [subst w; lia | pose proof (Hlo w Hw); pose proof (Hhi w Hw); lia]);
    try solve [left; lia];
    try solve [right; apply Hrlo; lia];
    try solve [right; apply Hrhi; lia];
    try solve [right; apply Hclo; lia];
    try solve [right; apply Hchi; lia];
    try lia;
    try (rewrite Hz by lia; lia);
    try (match goal with
         | E : ?v = ?w |- context [count ?v _] => rewrite E; lia
         end).
Qed.


(** The aliasing-aware axis code of [update_bb] computes the incremental
    update of the axis that [curr] held on entry, and writes nothing but the
    four fields of that axis. *)
Ltac axis_cases :=
  repeat (cbn [fst snd xmin xmax ymin ymax lo hi lo_edge hi_edge andb option_map] in *;
          match goal with
          | |- context [(?x =? ?y)%Z] => destruct (Z.eqb_spec x y)
          | |- context [(?x <? ?y)%Z] => destruct (Z.ltb_spec x y)
          | |- context [(?x >? ?y)%Z] => destruct (Z.gtb_spec x y)
          end);
  cbn [fst snd xmin xmax ymin ymax lo hi lo_edge hi_edge andb option_map] in *;
  try reflexivity; try lia.

Lemma update_bb_axis_x (src : bb_source) (committed m : bb_pair) (vold vnew : Z) :
  let cur := match src with Committed => committed | InProgress => m end in
  update_bb_axis xmin xmax wr_xmin wr_xmax src committed vold vnew m
  = option_map (fun a => ({| xmin := lo a; xmax := hi a;
                             ymin := ymin (fst m); ymax := ymax (fst m) |},
                          {| xmin := lo_edge a; xmax := hi_edge a;
                             ymin := ymin (snd m); ymax := ymax (snd m) |}))
               (incremental_axis (x_extent cur) vold vnew).
Proof.
  destruct m as [[cx0 cx1 cy0 cy1] [ex0 ex1 ey0 ey1]].
  destruct committed as [[dx0 dx1 dy0 dy1] [fx0 fx1 fy0 fy1]].
  unfold update_bb_axis, incremental_axis, x_extent, coord, edge, wr_xmin, wr_xmax.
  destruct src; axis_cases.
Qed.

Lemma update_bb_axis_y (src : bb_source) (committed m : bb_pair) (vold vnew : Z) :
  let cur := match src with Committed => committed | InProgress => m end in
  update_bb_axis ymin ymax wr_ymin wr_ymax src committed vold vnew m
  = option_map (fun a => ({| xmin := xmin (fst m); xmax := xmax (fst m);
                             ymin := lo a; ymax := hi a |},
                          {| xmin := xmin (snd m); xmax := xmax (snd m);
                             ymin := lo_edge a; ymax := hi_edge a |}))
               (incremental_axis (y_extent cur) vold vnew).
Proof.
  destruct m as [[cx0 cx1 cy0 cy1] [ex0 ex1 ey0 ey1]].
  destruct committed as [[dx0 dx1 dy0 dy1] [fx0 fx1 fy0 fy1]].
  unfold update_bb_axis, incremental_axis, y_extent, coord, edge, wr_ymin, wr_ymax.
  destruct src; axis_cases.
Qed.

Lemma incremental_axis_none (a : extent) (vold vnew : Z) :
  incremental_axis a vold vnew = None <-> leaves_sole_extreme a vold vnew = true.
Proof.
  unfold incremental_axis, leaves_sole_extreme.
  repeat match goal with
         | |- context [(?x =? ?y)%Z] => destruct (Z.eqb_spec x y)
         | |- context [(?x <? ?y)%Z] => destruct (Z.ltb_spec x y)
         | |- context [(?x >? ?y)%Z] => destruct (Z.gtb_spec x y)
         end; cbn [andb orb]; split; intros Hx; try discriminate; try reflexivity; try lia.
Qed.

Lemma scratch_fold_axes (locs : block_locs_t) (sinks : list ClusterPinId)
    (ax ay : extent) :
  fold_left (fun (acc : extent * extent) (pin_id : ClusterPinId) =>
               (scratch_axis (fst acc)
                  (clipped_pin_x locs (pin_block nl pin_id) (tile_pin_index nl pin_id)),
                scratch_axis (snd acc)
                  (clipped_pin_y locs (pin_block nl pin_id) (tile_pin_index nl pin_id))))
            sinks (ax, ay)
  = (fold_left scratch_axis
       (map (fun p => clipped_pin_x locs (pin_block nl p) (tile_pin_index nl p)) sinks) ax,
     fold_left scratch_axis
       (map (fun p => clipped_pin_y locs (pin_block nl p) (tile_pin_index nl p)) sinks) ay).
Proof.
  revert ax ay. induction sinks as [|p sinks IH]; intros ax ay; [reflexivity|].
  cbn [fold_left map fst snd]. apply IH.
Qed.

(** [get_bb_from_scratch] returns, on each axis, the extremes of the clipped
    pin coordinates of the net and the number of pins on each. *)
Lemma get_bb_from_scratch_extents (locs : block_locs_t) (net_id : ClusterNetId) :
  is_extent (map (site_x locs) (net_pin_sites nl net_id))
            (x_extent (get_bb_from_scratch locs net_id))
  /\ is_extent (map (site_y locs) (net_pin_sites nl net_id))
               (y_extent (get_bb_from_scratch locs net_id)).
Proof.
  unfold get_bb_from_scratch. cbv zeta. rewrite scratch_fold_axes.
  unfold x_extent, y_extent, net_pin_sites.
  cbn [fst snd xmin xmax ymin ymax map].
  rewrite !map_map. cbn [fst snd]. unfold site_x, site_y. cbn [fst snd].
  split.
  - match goal with
    | |- is_extent (?v :: ?l) {| lo := lo ?a; hi := hi ?a; lo_edge := lo_edge ?a;
                                 hi_edge := hi_edge ?a |} =>
        replace {| lo := lo a; hi := hi a; lo_edge := lo_edge a; hi_edge := hi_edge a |}
          with a by (destruct a; reflexivity)
    end.
    apply (scratch_axis_fold _ [_] _ (is_extent_single _)).
  - match goal with
    | |- is_extent (?v :: ?l) {| lo := lo ?a; hi := hi ?a; lo_edge := lo_edge ?a;
                                 hi_edge := hi_edge ?a |} =>
        replace {| lo := lo a; hi := hi a; lo_edge := lo_edge a; hi_edge := hi_edge a |}
          with a by (destruct a; reflexivity)
    end.
    apply (scratch_axis_fold _ [_] _ (is_extent_single _)).
Qed.

Lemma bb_pair_extents (m m' : bb_pair) :
  x_extent m = x_extent m' -> y_extent m = y_extent m' -> m = m'.
Proof.
  destruct m as [[a b c d] [e f g h]], m' as [[a' b' c' d'] [e' f' g' h']].
  unfold x_extent, y_extent. cbn [fst snd xmin xmax ymin ymax].
  intros H1 H2. injection H1 as -> -> -> ->. injection H2 as -> -> -> ->. reflexivity.
Qed.

(** Moving one pin of the net: the coordinates of the other pins stay. *)
Lemma moved_site_coords (f f' : ClusterBlockId * Z -> Z)
    (s1 s2 : list (ClusterBlockId * Z)) (site : ClusterBlockId * Z) :
  (forall o, In o (s1 ++ s2) -> f' o = f o) ->
  Permutation (map f (s1 ++ site :: s2)) (f site :: map f (s1 ++ s2))
  /\ Permutation (map f' (s1 ++ site :: s2)) (f' site :: map f (s1 ++ s2)).
Proof.
  intros H. split.
  - rewrite !map_app. cbn [map]. symmetry. apply Permutation_middle.
  - replace (map f (s1 ++ s2)) with (map f' (s1 ++ s2)) by (apply map_ext_in; exact H).
    rewrite !map_app. cbn [map]. symmetry. apply Permutation_middle.
Qed.

Lemma upd_same {A} (f : nat -> A) (k : nat) (v : A) : upd f k v k = v.
Proof. unfold upd. rewrite Nat.eqb_refl. reflexivity. Qed.

Lemma upd_other {A} (f : nat -> A) (k k' : nat) (v : A) : k' <> k -> upd f k v k' = f k'.
Proof. intros H. unfold upd. destruct (Nat.eqb_spec k' k); [contradiction | reflexivity]. Qed.

(** Once the box was recomputed from scratch, [update_bb] returns at once. *)
Lemma update_bb_after_scratch (locs : block_locs_t) (net_id : ClusterNetId)
    (xold yold xnew ynew : Z) (s : bb_state) :
  bb_updated_before s net_id = GOT_FROM_SCRATCH ->
  update_bb locs net_id xold yold xnew ynew s = s.
Proof. intros H. unfold update_bb. rewrite H. reflexivity. Qed.

(** The incremental update of one axis agrees with the computation from
    scratch on the coordinates after the move. *)
Lemma incremental_axis_scratch (f f' : ClusterBlockId * Z -> Z)
    (s1 s2 : list (ClusterBlockId * Z)) (site : ClusterBlockId * Z) (a a' b : extent) :
  (forall o, In o (s1 ++ s2) -> f' o = f o) ->
  is_extent (map f (s1 ++ site :: s2)) a ->
  is_extent (map f' (s1 ++ site :: s2)) b ->
  incremental_axis a (f site) (f' site) = Some a' ->
  a' = b.
Proof.
  intros H Ha Hb Hu. destruct (moved_site_coords f f' s1 s2 site H) as [P1 P2].
  apply (is_extent_unique (map f' (s1 ++ site :: s2))); [|exact Hb].
  apply (is_extent_perm _ _ _ (Permutation_sym P2)).
  apply (incremental_axis_sound _ a _ (f site)); [|exact Hu].
  apply (is_extent_perm _ _ _ P1). exact Ha.
Qed.

(** C2.  A net whose committed box and edge counts are those computed from
    scratch, and of which exactly one pin sits on the moved block: the first
    [update_bb] of a trial leaves in [ts_bb_coord_new], [ts_bb_edge_new]
    what [get_bb_from_scratch] computes on the locations after the move.
    The net is marked GOT_FROM_SCRATCH exactly when the pin was alone on an
    extreme that it leaves, and UPDATED_ONCE otherwise; once it is marked
    GOT_FROM_SCRATCH every further [update_bb] on it changes nothing. *)
Theorem update_bb_matches_scratch (locs locs' : block_locs_t) (net_id : ClusterNetId)
    (blk : ClusterBlockId) (pnum : Z) (s1 s2 : list (ClusterBlockId * Z))
    (s : bb_state) :
  net_pin_sites nl net_id = s1 ++ (blk, pnum) :: s2 ->
  (forall site, In site (s1 ++ s2) -> fst site <> blk) ->
  (forall c, c <> blk -> locs' c = locs c) ->
  bb_updated_before s net_id = NOT_UPDATED_YET ->
  (bb_coords s net_id, bb_num_on_edges s net_id) = get_bb_from_scratch locs net_id ->
  let xold := (loc_x (locs blk) + pin_width_offset nl blk pnum)%Z in
  let yold := (loc_y (locs blk) + pin_height_offset nl blk pnum)%Z in
  let xnew := (loc_x (locs' blk) + pin_width_offset nl blk pnum)%Z in
  let ynew := (loc_y (locs' blk) + pin_height_offset nl blk pnum)%Z in
  let s' := update_bb locs' net_id xold yold xnew ynew s in
  let alone :=
    (leaves_sole_extreme (x_extent (bb_coords s net_id, bb_num_on_edges s net_id))
       (clip xold (grid_width - 2)) (clip xnew (grid_width - 2))
     || leaves_sole_extreme (y_extent (bb_coords s net_id, bb_num_on_edges s net_id))
          (clip yold (grid_height - 2)) (clip ynew (grid_height - 2)))%bool in
  (ts_bb_coord_new s' net_id, ts_bb_edge_new s' net_id) = get_bb_from_scratch locs' net_id
  /\ bb_updated_before s' net_id = (if alone then GOT_FROM_SCRATCH else UPDATED_ONCE)
  /\ (bb_updated_before s' net_id = GOT_FROM_SCRATCH ->
      forall locs'' xo yo xn yn, update_bb locs'' net_id xo yo xn yn s' = s').
Proof.
  intros Hsites Hothers Hlocs Hflag Hcomm xold yold xnew ynew s' alone.
  assert (Hx : forall o, In o (s1 ++ s2) -> site_x locs' o = site_x locs o).
  { intros o Ho. unfold site_x, clipped_pin_x. rewrite (Hlocs _ (Hothers o Ho)). reflexivity. }
  assert (Hy : forall o, In o (s1 ++ s2) -> site_y locs' o = site_y locs o).
  { intros o Ho. unfold site_y, clipped_pin_y. rewrite (Hlocs _ (Hothers o Ho)). reflexivity. }
  destruct (get_bb_from_scratch_extents locs net_id) as [Hox Hoy].
  destruct (get_bb_from_scratch_extents locs' net_id) as [Hnx Hny].
  rewrite Hsites in Hox, Hoy, Hnx, Hny. rewrite <- Hcomm in Hox, Hoy.
  assert (Hlast : bb_updated_before s' net_id = GOT_FROM_SCRATCH ->
                  forall locs'' xo yo xn yn, update_bb locs'' net_id xo yo xn yn s' = s').
  { intros Hs locs'' xo yo xn yn. apply update_bb_after_scratch. exact Hs. }
  split; [|split; [|exact Hlast]]; clear Hlast.
  all: subst s' alone; unfold update_bb; rewrite Hflag; cbv zeta.
  all: rewrite update_bb_axis_x; cbv zeta.
  all: change (clip xold (grid_width - 2)) with (site_x locs (blk, pnum)) in *.
  all: change (clip xnew (grid_width - 2)) with (site_x locs' (blk, pnum)) in *.
  all: change (clip yold (grid_height - 2)) with (site_y locs (blk, pnum)) in *.
  all: change (clip ynew (grid_height - 2)) with (site_y locs' (blk, pnum)) in *.
  all: destruct (incremental_axis (x_extent (bb_coords s net_id, bb_num_on_edges s net_id))
                   (site_x locs (blk, pnum)) (site_x locs' (blk, pnum))) as [ax|] eqn:Eax.
  all: cbn [option_map].
  all: try rewrite update_bb_axis_y; cbv zeta.
  all: try destruct (incremental_axis (y_extent (bb_coords s net_id, bb_num_on_edges s net_id))
                   (site_y locs (blk, pnum)) (site_y locs' (blk, pnum))) as [ay|] eqn:Eay.
  all: cbn [option_map].
  all: repeat (progress (cbn [set_ts_bb set_bb_flag set_ts_bb_coord_new set_ts_bb_edge_new
                               ts_bb_coord_new ts_bb_edge_new bb_updated_before fst snd
                               bb_flag_eqb xmin xmax ymin ymax lo hi lo_edge hi_edge];
                          rewrite ?upd_same)).
  all: try (destruct (get_bb_from_scratch locs' net_id); reflexivity).
  all: try (match goal with
            | |- _ = (if _ then GOT_FROM_SCRATCH else UPDATED_ONCE) => idtac
            end;
            repeat match goal with
                   | H : incremental_axis ?a ?o ?n = None |- _ =>
                       apply incremental_axis_none in H; rewrite H
                   | H : incremental_axis ?a ?o ?n = Some _
                     |- context [leaves_sole_extreme ?a ?o ?n] =>
                       let L := fresh "L" in
                       destruct (leaves_sole_extreme a o n) eqn:L;
                       [apply incremental_axis_none in L; congruence|]
                   end;
            cbn [orb]; rewrite ?orb_true_r; reflexivity).
  apply bb_pair_extents.
  - unfold x_extent at 1. cbn [fst snd xmin xmax ymin ymax].
    rewrite <- (incremental_axis_scratch (site_x locs) (site_x locs') s1 s2 (blk, pnum)
                 _ _ _ Hx Hox Hnx Eax).
    destruct ax; reflexivity.
  - unfold y_extent at 1. cbn [fst snd xmin xmax ymin ymax].
    rewrite <- (incremental_axis_scratch (site_y locs) (site_y locs') s1 s2 (blk, pnum)
                 _ _ _ Hy Hoy Hny Eay).
    destruct ay; reflexivity.
Qed.


(** *** The timing delta of a trial *)

Lemma upd2_same {A} (f : nat -> nat -> A) (k i : nat) (v : A) : upd2 f k i v k i = v.
Proof. unfold upd2. rewrite upd_same, upd_same. reflexivity. Qed.

Lemma upd2_other {A} (f : nat -> nat -> A) (k i k' i' : nat) (v : A) :
  ~ (k' = k /\ i' = i) -> upd2 f k i v k' i' = f k' i'.
Proof.
  intros H. unfold upd2, upd.
  destruct (Nat.eqb_spec k' k) as [->|]; [|reflexivity].
  destruct (Nat.eqb_spec i' i) as [->|]; [|reflexivity].
  exfalso. apply H. split; reflexivity.
Qed.

Lemma propose_connection_ok (crit : ClusterNetId -> nat -> fp) (locs : block_locs_t)
    (net : ClusterNetId) (ipin : nat) (td td' : td_state) (d d' : fp) :
  propose_connection crit locs net ipin (td, d) = Ok (td', d') ->
  exists delay,
    comp_td_connection_delay locs net ipin = Ok delay
    /\ td' = set_proposed_connection_timing_cost net ipin (crit net ipin * delay)%fp
               (set_proposed_connection_delay net ipin delay td)
    /\ d' = (d + (crit net ipin * delay - connection_timing_cost td net ipin))%fp.
Proof.
  unfold propose_connection.
  destruct (comp_td_connection_delay locs net ipin) as [delay|err]; cbn [bind];
    [|discriminate].
  intros H. injection H as <- <-. exists delay. split; [reflexivity|].
  split; [reflexivity|].
  cbn [set_proposed_connection_timing_cost set_proposed_connection_delay
       proposed_connection_timing_cost connection_timing_cost].
  rewrite upd2_same. reflexivity.
Qed.

(** What one proposed connection leaves in the timing state. *)
Lemma propose_connection_state (crit : ClusterNetId -> nat -> fp) (locs : block_locs_t)
    (net : ClusterNetId) (ipin : nat) (td td' : td_state) (d d' : fp) :
  propose_connection crit locs net ipin (td, d) = Ok (td', d') ->
  same_committed td td'
  /\ comp_td_connection_delay locs net ipin = Ok (proposed_connection_delay td' net ipin)
  /\ proposed_connection_timing_cost td' net ipin
     = (crit net ipin * proposed_connection_delay td' net ipin)%fp
  /\ (forall n i, ~ (n = net /\ i = ipin) ->
        proposed_connection_delay td' n i = proposed_connection_delay td n i
        /\ proposed_connection_timing_cost td' n i = proposed_connection_timing_cost td n i)
  /\ d' = (d + (proposed_connection_timing_cost td' net ipin
                - connection_timing_cost td net ipin))%fp.
Proof.
  intros H. apply propose_connection_ok in H. destruct H as (delay & Hd & -> & ->).
  cbn [set_proposed_connection_timing_cost set_proposed_connection_delay
       proposed_connection_timing_cost proposed_connection_delay
       connection_timing_cost connection_delay net_timing_cost].
  rewrite !upd2_same. unfold same_committed.
  cbn [connection_delay connection_timing_cost net_timing_cost].
  repeat split; try assumption.
  - apply upd2_other. assumption.
  - apply upd2_other. assumption.
Qed.

(** The loop of the driver branch of [update_td_delta_costs]. *)
Lemma driver_loop_state (crit : ClusterNetId -> nat -> fp) (locs : block_locs_t)
    (net : ClusterNetId) (m k : nat) (td td' : td_state)
    (ba ba' : t_pl_blocks_to_be_moved) (d d' : fp) :
  foldM (fun '(td, blocks_affected, delta_timing_cost) ipin =>
           '(td, delta_timing_cost) <-
              propose_connection crit locs net ipin (td, delta_timing_cost) ;;
           let sink_pin := net_pin nl net ipin in
           Ok (td, push_affected_pin sink_pin blocks_affected, delta_timing_cost))
        (seq k m) (td, ba, d)
  = Ok (td', ba', d') ->
  same_committed td td'
  /\ moved_blocks ba' = moved_blocks ba
  /\ affected_pins ba' = affected_pins ba ++ map (net_pin nl net) (seq k m)
  /\ (forall i, (k <= i < k + m)%nat ->
        comp_td_connection_delay locs net i = Ok (proposed_connection_delay td' net i)
        /\ proposed_connection_timing_cost td' net i
           = (crit net i * proposed_connection_delay td' net i)%fp)
  /\ (forall n i, ~ (n = net /\ (k <= i < k + m)%nat) ->
        proposed_connection_delay td' n i = proposed_connection_delay td n i
        /\ proposed_connection_timing_cost td' n i = proposed_connection_timing_cost td n i)
  /\ d' = fold_left (fun acc i =>
                       (acc + (proposed_connection_timing_cost td' net i
                               - connection_timing_cost td net i))%fp)
                    (seq k m) d.
Proof.
  revert k td ba d. induction m as [|m IH]; intros k td ba d H.
  - cbn in H. injection H as <- <- <-. unfold same_committed.
    cbn [seq map fold_left]. rewrite app_nil_r.
    repeat split; intros; lia.
  - cbn [seq foldM] in H.
    destruct (propose_connection crit locs net k (td, d)) as [[td1 d1]|err] eqn:Hp;
      cbn [bind] in H; [|discriminate].
    apply propose_connection_state in Hp.
    destruct Hp as ((Hc1 & Hc2 & Hc3) & Hdel & Hcost & Hfr & Hd1).
    apply IH in H. destruct H as ((Hk1 & Hk2 & Hk3) & Hmb & Hap & Hin & Hout & Hd').
    assert (Hk : forall n i, ~ (n = net /\ (S k <= i < S k + m)%nat) ->
                 proposed_connection_delay td' n i = proposed_connection_delay td1 n i
                 /\ proposed_connection_timing_cost td' n i
                    = proposed_connection_timing_cost td1 n i) by exact Hout.
    assert (Hself : proposed_connection_delay td' net k = proposed_connection_delay td1 net k
                    /\ proposed_connection_timing_cost td' net k
                       = proposed_connection_timing_cost td1 net k).
    { apply Hk. intros [_ Hr]. lia. }
    destruct Hself as [Hs1 Hs2].
    unfold same_committed. repeat split.
    + congruence.
    + congruence.
    + congruence.
    + exact Hmb.
    + rewrite Hap. cbn [push_affected_pin affected_pins map].
      rewrite <- app_assoc. reflexivity.
    + destruct (Nat.eq_dec i k) as [->|Hne].
      * rewrite Hs1. exact Hdel.
      * apply Hin. lia.
    + destruct (Nat.eq_dec i k) as [->|Hne].
      * rewrite Hs1, Hs2. exact Hcost.
      * apply Hin. lia.
    + destruct (Hk n i) as [E1 _]; [intros [? ?]; apply H; split; [assumption|lia]|].
      destruct (Hfr n i) as [E2 _]; [intros [? ?]; apply H; split; [assumption|lia]|].
      congruence.
    + destruct (Hk n i) as [_ E1]; [intros [? ?]; apply H; split; [assumption|lia]|].
      destruct (Hfr n i) as [_ E2]; [intros [? ?]; apply H; split; [assumption|lia]|].
      congruence.
    + cbn [seq fold_left]. rewrite Hd', Hd1, Hs2, Hc2. reflexivity.
Qed.

Lemma update_td_delta_costs_pins (crit : ClusterNetId -> nat -> fp) (locs : block_locs_t)
    (net : ClusterNetId) (pin : ClusterPinId) (td td' : td_state)
    (ba ba' : t_pl_blocks_to_be_moved) (d d' : fp) :
  update_td_delta_costs crit locs net pin (td, ba, d) = Ok (td', ba', d') ->
  same_committed td td'
  /\ moved_blocks ba' = moved_blocks ba
  /\ affected_pins ba'
     = affected_pins ba
       ++ match pin_type nl pin with
          | DRIVER => map (net_pin nl net) (seq 1 (length (net_pins nl net) - 1))
          | SINK => if driven_by_moved_block net ba then [] else [pin]
          end.
Proof.
  unfold update_td_delta_costs. destruct (pin_type nl pin).
  - intros H. apply driver_loop_state in H.
    destruct H as (Hc & Hmb & Hap & _). auto.
  - destruct (driven_by_moved_block net ba); cbn [negb].
    + intros H. injection H as <- <- <-. unfold same_committed.
      rewrite app_nil_r. auto.
    + destruct (propose_connection crit locs net (pin_net_index nl pin) (td, d))
        as [[td1 d1]|err] eqn:Hp; cbn [bind]; [|discriminate].
      intros H. injection H as <- <- <-.
      apply propose_connection_state in Hp. destruct Hp as (Hc & _).
      cbn [push_affected_pin moved_blocks affected_pins]. auto.
Qed.

Lemma driven_by_moved_block_In (net : ClusterNetId) (ba : t_pl_blocks_to_be_moved) :
  driven_by_moved_block net ba = true
  <-> In (net_driver_block nl net) (map block_num (moved_blocks ba)).
Proof.
  unfold driven_by_moved_block. rewrite existsb_exists, in_map_iff. split.
  - intros (mb & Hin & He). apply Nat.eqb_eq in He. exists mb. auto.
  - intros (mb & He & Hin). exists mb. split; [exact Hin|]. apply Nat.eqb_eq. auto.
Qed.

Lemma td_contribution_moved (ba ba' : t_pl_blocks_to_be_moved) (pin : ClusterPinId) :
  moved_blocks ba' = moved_blocks ba -> td_contribution ba' pin = td_contribution ba pin.
Proof.
  intros H. unfold td_contribution, driven_by_moved_block. rewrite H. reflexivity.
Qed.

Lemma affected_pin_step_pins (crit : ClusterNetId -> nat -> fp) (locs : block_locs_t)
    (mb : t_pl_moved_block) (pin : ClusterPinId)
    (bb bb' : bb_state) (nc nc' : nc_state) (td td' : td_state)
    (ba ba' : t_pl_blocks_to_be_moved) (n n' : nat) (d d' : fp) :
  affected_pin_step PATH_TIMING_DRIVEN_PLACE crit locs mb (bb, nc, td, ba, n, d) pin
  = Ok (bb', nc', td', ba', n', d') ->
  moved_blocks ba' = moved_blocks ba
  /\ affected_pins ba' = affected_pins ba ++ td_contribution ba pin.
Proof.
  unfold affected_pin_step, td_contribution.
  destruct (net_is_ignored nl (pin_net nl pin)).
  - intros H. injection H as <- <- <- <- <- <-. rewrite app_nil_r. auto.
  - destruct (record_affected_net (pin_net nl pin) (nc, n)) as [nc1 n1].
    destruct (update_td_delta_costs crit locs (pin_net nl pin) pin (td, ba, d))
      as [[[td1 ba1] d1]|err] eqn:Hu; cbn [bind]; [|discriminate].
    intros H. injection H as <- <- <- <- <- <-.
    apply update_td_delta_costs_pins in Hu. destruct Hu as (_ & Hmb & Hap). auto.
Qed.

Lemma affected_pins_of_block (crit : ClusterNetId -> nat -> fp) (locs : block_locs_t)
    (mb : t_pl_moved_block) (pins : list ClusterPinId) (acc acc' : affected_acc) :
  foldM (affected_pin_step PATH_TIMING_DRIVEN_PLACE crit locs mb) pins acc = Ok acc' ->
  let ba := snd (fst (fst acc)) in
  let ba' := snd (fst (fst acc')) in
  moved_blocks ba' = moved_blocks ba
  /\ affected_pins ba' = affected_pins ba ++ flat_map (td_contribution ba) pins.
Proof.
  revert acc. induction pins as [|pin pins IH]; intros acc H; cbn [foldM] in H.
  - injection H as <-. cbn [flat_map]. rewrite app_nil_r. auto.
  - destruct (affected_pin_step _ crit locs mb acc pin) as [acc1|err] eqn:Hs;
      cbn [bind] in H; [|discriminate].
    apply IH in H. cbv zeta in H. destruct H as [Hmb Hap].
    destruct acc as [[[[[bb nc] td] ba] n] d].
    destruct acc1 as [[[[[bb1 nc1] td1] ba1] n1] d1].
    apply affected_pin_step_pins in Hs. destruct Hs as [Hmb1 Hap1].
    cbn [fst snd] in *. split; [congruence|].
    rewrite Hap, Hap1. cbn [flat_map]. rewrite <- app_assoc. do 2 f_equal.
    apply flat_map_ext. intros p. apply td_contribution_moved. exact Hmb1.
Qed.

Lemma affected_pins_of_blocks (crit : ClusterNetId -> nat -> fp) (locs : block_locs_t)
    (mbs : list t_pl_moved_block) (acc acc' : affected_acc) :
  foldM (fun acc mb =>
           foldM (affected_pin_step PATH_TIMING_DRIVEN_PLACE crit locs mb)
                 (block_pins nl (block_num mb)) acc)
        mbs acc = Ok acc' ->
  let ba := snd (fst (fst acc)) in
  let ba' := snd (fst (fst acc')) in
  moved_blocks ba' = moved_blocks ba
  /\ affected_pins ba'
     = affected_pins ba
       ++ flat_map (td_contribution ba) (flat_map (block_pins nl) (map block_num mbs)).
Proof.
  revert acc. induction mbs as [|mb mbs IH]; intros acc H; cbn [foldM] in H.
  - injection H as <-. cbn [map flat_map]. rewrite app_nil_r. auto.
  - destruct (foldM _ (block_pins nl (block_num mb)) acc) as [acc1|err] eqn:Hs;
      cbn [bind] in H; [|discriminate].
    apply IH in H. cbv zeta in H. destruct H as [Hmb Hap].
    apply affected_pins_of_block in Hs. cbv zeta in Hs. destruct Hs as [Hmb1 Hap1].
    split; [congruence|].
    rewrite Hap, Hap1. cbn [map flat_map]. rewrite flat_map_app, <- app_assoc.
    do 2 f_equal. apply flat_map_ext. intros p. apply td_contribution_moved. exact Hmb1.
Qed.

Lemma NoDup_flat_map_disjoint {A B} (f : A -> list B) (l : list A) :
  NoDup l ->
  (forall a, In a l -> NoDup (f a)) ->
  (forall a a' b, In a l -> In a' l -> In b (f a) -> In b (f a') -> a = a') ->
  NoDup (flat_map f l).
Proof.
  induction l as [|a l IH]; intros Hl Hf Hd; cbn [flat_map]; [constructor|].
  inversion Hl as [|a0 l0 Hna Hl']; subst.
  apply NoDup_app.
  - apply Hf. left. reflexivity.
  - apply IH; [exact Hl' | |].
    + intros x Hx. apply Hf. right. exact Hx.
    + intros x x' b Hx Hx'. apply Hd; right; assumption.
  - intros b Hb Hb'. apply in_flat_map in Hb'. destruct Hb' as (x & Hx & Hbx).
    assert (a = x) by (apply (Hd a x b); [left; reflexivity | right; exact Hx | | ]; assumption).
    subst x. contradiction.
Qed.

Lemma NoDup_map_injective_in {A B} (f : A -> B) (l : list A) :
  (forall x y, In x l -> In y l -> f x = f y -> x = y) -> NoDup l -> NoDup (map f l).
Proof.
  induction l as [|a l IH]; intros Hinj Hl; cbn [map]; [constructor|].
  inversion Hl as [|a0 l0 Hna Hl']; subst. constructor.
  - intros Hin. apply in_map_iff in Hin. destruct Hin as (x & Hfx & Hx).
    assert (x = a) by (apply Hinj; [right; exact Hx | left; reflexivity | exact Hfx]).
    subst x. contradiction.
  - apply IH; [|exact Hl']. intros x y Hx Hy. apply Hinj; right; assumption.
Qed.

Lemma map_flat_map_comm {A B C} (g : B -> C) (f : A -> list B) (l : list A) :
  map g (flat_map f l) = flat_map (fun a => map g (f a)) l.
Proof.
  induction l as [|a l IH]; cbn [flat_map map]; [reflexivity|].
  rewrite map_app, IH. reflexivity.
Qed.

Lemma moved_pins_block (ba : t_pl_blocks_to_be_moved) (p : ClusterPinId) :
  In p (moved_pins ba) ->
  exists b, In b (map block_num (moved_blocks ba)) /\ In p (block_pins nl b).
Proof. unfold moved_pins. intros H. apply in_flat_map in H. exact H. Qed.

Lemma moved_pins_NoDup (ba : t_pl_blocks_to_be_moved) :
  netlist_wf -> NoDup (map block_num (moved_blocks ba)) -> NoDup (moved_pins ba).
Proof.
  intros Hwf Hnd. unfold moved_pins. apply NoDup_flat_map_disjoint.
  - exact Hnd.
  - intros b _. apply (wf_block_pins_nodup Hwf).
  - intros b b' p _ _ Hp Hp'.
    rewrite <- (wf_block_of_pin Hwf b p Hp). apply (wf_block_of_pin Hwf b' p Hp').
Qed.

(** The connections that a pin of a moved block contributes. *)
Lemma td_contribution_connection (ba : t_pl_blocks_to_be_moved) (p : ClusterPinId)
    (c : ClusterNetId * nat) :
  netlist_wf ->
  In c (map connection_of (td_contribution ba p)) ->
  (pin_type nl p = DRIVER /\ fst c = pin_net nl p
   /\ (1 <= snd c < length (net_pins nl (pin_net nl p)))%nat)
  \/ (pin_type nl p = SINK /\ driven_by_moved_block (pin_net nl p) ba = false
      /\ c = connection_of p).
Proof.
  intros Hwf Hc. unfold td_contribution in Hc.
  destruct (net_is_ignored nl (pin_net nl p)); [destruct Hc|].
  destruct (pin_type nl p).
  - left. split; [reflexivity|].
    rewrite map_map in Hc. apply in_map_iff in Hc. destruct Hc as (i & Hi & Hin).
    apply in_seq in Hin.
    destruct (wf_net_pin Hwf (pin_net nl p) i) as [E1 E2]; [lia|].
    unfold connection_of in Hi. rewrite E1, E2 in Hi. subst c. cbn [fst snd]. lia.
  - right. split; [reflexivity|].
    destruct (driven_by_moved_block (pin_net nl p) ba); [destruct Hc|].
    split; [reflexivity|]. destruct Hc as [Hc|[]]. auto.
Qed.

Lemma td_contribution_NoDup (ba : t_pl_blocks_to_be_moved) (p : ClusterPinId) :
  netlist_wf -> NoDup (map connection_of (td_contribution ba p)).
Proof.
  intros Hwf. unfold td_contribution.
  destruct (net_is_ignored nl (pin_net nl p)); [constructor|].
  destruct (pin_type nl p).
  - rewrite map_map. apply NoDup_map_injective_in; [|apply seq_NoDup].
    intros i j Hi Hj Hij. apply in_seq in Hi. apply in_seq in Hj.
    destruct (wf_net_pin Hwf (pin_net nl p) i) as [_ Ei]; [lia|].
    destruct (wf_net_pin Hwf (pin_net nl p) j) as [_ Ej]; [lia|].
    unfold connection_of in Hij. injection Hij as _ Hij. congruence.
  - destruct (driven_by_moved_block (pin_net nl p) ba); cbn [map].
    + constructor.
    + constructor; [intros []|constructor].
Qed.

(** No connection is proposed twice in a trial. *)
Lemma moved_pins_connections_NoDup (ba : t_pl_blocks_to_be_moved) :
  netlist_wf -> NoDup (map block_num (moved_blocks ba)) ->
  NoDup (map connection_of (flat_map (td_contribution ba) (moved_pins ba))).
Proof.
  intros Hwf Hnd. rewrite map_flat_map_comm. apply NoDup_flat_map_disjoint.
  - apply moved_pins_NoDup; assumption.
  - intros p _. apply td_contribution_NoDup. exact Hwf.
  - intros p p' c Hp Hp' Hc Hc'.
    apply moved_pins_block in Hp. destruct Hp as (b & Hb & Hpb).
    apply moved_pins_block in Hp'. destruct Hp' as (b' & Hb' & Hpb').
    apply td_contribution_connection in Hc; [|exact Hwf].
    apply td_contribution_connection in Hc'; [|exact Hwf].
    destruct Hc as [(Ht & Hn & Hr)|(Ht & Hdr & Hcp)],
             Hc' as [(Ht' & Hn' & Hr')|(Ht' & Hdr' & Hcp')].
    + (* two drivers of one net *)
      destruct (wf_driver Hwf b p Hpb Ht) as [Hi _].
      destruct (wf_driver Hwf b' p' Hpb' Ht') as [Hi' _].
      rewrite <- (wf_pin_in_net Hwf b p Hpb), <- (wf_pin_in_net Hwf b' p' Hpb').
      congruence.
    + (* a driver on a moved block and a sink of its net *)
      exfalso. subst c. unfold connection_of in Hn. cbn [fst] in Hn.
      destruct (wf_driver Hwf b p Hpb Ht) as [_ Hdb].
      assert (Hd : driven_by_moved_block (pin_net nl p') ba = true).
      { apply driven_by_moved_block_In. rewrite Hn, Hdb.
        rewrite (wf_block_of_pin Hwf b p Hpb). exact Hb. }
      congruence.
    + exfalso. subst c. unfold connection_of in Hn'. cbn [fst] in Hn'.
      destruct (wf_driver Hwf b' p' Hpb' Ht') as [_ Hdb].
      assert (Hd : driven_by_moved_block (pin_net nl p) ba = true).
      { apply driven_by_moved_block_In. rewrite Hn', Hdb.
        rewrite (wf_block_of_pin Hwf b' p' Hpb'). exact Hb'. }
      congruence.
    + (* two sinks *)
      subst c. unfold connection_of in Hcp'. injection Hcp' as E1 E2.
      rewrite <- (wf_pin_in_net Hwf b p Hpb), <- (wf_pin_in_net Hwf b' p' Hpb').
      congruence.
Qed.

(** In a well-formed netlist the pins that the trial appends to
    [affected_pins] name exactly the connections it wrote. *)
Lemma td_connections_contribution (ba : t_pl_blocks_to_be_moved) (p : ClusterPinId) :
  netlist_wf -> map connection_of (td_contribution ba p) = td_connections ba p.
Proof.
  intros Hwf. unfold td_contribution, td_connections.
  destruct (net_is_ignored nl (pin_net nl p)); [reflexivity|].
  destruct (pin_type nl p).
  - rewrite map_map. apply map_ext_in. intros i Hi. apply in_seq in Hi.
    destruct (wf_net_pin Hwf (pin_net nl p) i) as [E1 E2]; [lia|].
    unfold connection_of. rewrite E1, E2. reflexivity.
  - destruct (driven_by_moved_block (pin_net nl p) ba); reflexivity.
Qed.

Lemma touched_connections_list (ba : t_pl_blocks_to_be_moved) :
  netlist_wf ->
  touched_connections ba (moved_blocks ba)
  = map connection_of (flat_map (td_contribution ba) (moved_pins ba)).
Proof.
  intros Hwf. unfold touched_connections, moved_pins.
  induction (moved_blocks ba) as [|mb mbs IH]; cbn [flat_map map]; [reflexivity|].
  rewrite flat_map_app, map_app, IH. f_equal.
  rewrite map_flat_map_comm. apply flat_map_ext. intros p.
  symmetry. apply td_connections_contribution. exact Hwf.
Qed.

(** The connections that the loops of a trial reach through the pins of
    the moved blocks are the connections with an end on a moved block. *)
Lemma touched_connections_moved_connection (ba : t_pl_blocks_to_be_moved)
    (c : ClusterNetId * nat) :
  netlist_wf -> netlist_pins_wf ->
  In c (touched_connections ba (moved_blocks ba)) <-> moved_connection ba c.
Proof.
  intros Hwf Hpw.
  assert (Hdrv : forall n s, net_is_ignored nl n = false ->
                   (1 <= s < length (net_pins nl n))%nat ->
                   In (net_driver_block nl n) (map block_num (moved_blocks ba)) ->
                   In (n, s) (touched_connections ba (moved_blocks ba))).
  { intros n s Hig Hr Hd. apply in_map_iff in Hd. destruct Hd as (mb & Hb & Hmb).
    destruct (wf_driver_pin Hpw n) as (Hp & Ht & Hn); [lia|].
    unfold touched_connections. apply in_flat_map. exists mb. split; [exact Hmb|].
    apply in_flat_map. exists (net_driver nl n). split; [rewrite Hb; exact Hp|].
    unfold td_connections. cbv zeta. rewrite Hn, Hig, Ht.
    apply in_map. apply in_seq. lia. }
  split.
  - intros H. unfold touched_connections in H.
    apply in_flat_map in H. destruct H as (mb & Hmb & H).
    apply in_flat_map in H. destruct H as (p & Hp & H).
    assert (Hb : In (pin_block nl p) (map block_num (moved_blocks ba))).
    { rewrite (wf_block_of_pin Hwf _ p Hp). apply in_map. exact Hmb. }
    unfold td_connections in H. cbv zeta in H.
    destruct (net_is_ignored nl (pin_net nl p)) eqn:Hig; [destruct H|].
    destruct (pin_type nl p) eqn:Ht.
    + apply in_map_iff in H. destruct H as (i & <- & Hi). apply in_seq in Hi.
      unfold moved_connection. cbn [fst snd].
      split; [exact Hig|]. split; [lia|]. left.
      destruct (wf_driver Hwf _ p Hp Ht) as [_ ->]. exact Hb.
    + destruct (driven_by_moved_block (pin_net nl p) ba); [destruct H|].
      destruct H as [<-|[]]. unfold moved_connection. cbn [fst snd].
      split; [exact Hig|]. split; [apply (wf_sink_index Hpw _ p Hp Ht)|]. right.
      rewrite (wf_pin_in_net Hwf _ p Hp). exact Hb.
  - destruct c as [n s]. unfold moved_connection. cbn [fst snd].
    intros (Hig & Hr & [Hd|Hs]); [apply Hdrv; assumption|].
    destruct (driven_by_moved_block n ba) eqn:Hdr.
    + apply Hdrv; [assumption..|]. apply driven_by_moved_block_In. exact Hdr.
    + apply in_map_iff in Hs. destruct Hs as (mb & Hb & Hmb).
      destruct (wf_sink_pin Hpw n s Hr) as (Hp & Ht).
      destruct (wf_net_pin Hwf n s Hr) as (Hn & Hi).
      unfold touched_connections. apply in_flat_map. exists mb. split; [exact Hmb|].
      apply in_flat_map. exists (net_pin nl n s). split; [rewrite Hb; exact Hp|].
      unfold td_connections. cbv zeta. rewrite Hn, Hig, Ht, Hdr, Hi.
      left. reflexivity.
Qed.


(** *** The markers after a trial *)

Lemma quiet_fp : (Fin (-1) <? Fin 0)%fp = true.
Proof. apply flt_Fin. lra. Qed.

Lemma record_affected_net_marked (bb : bb_state) (nc : nc_state) (num : nat)
    (net : ClusterNetId) :
  marked_or_quiet bb nc num ->
  marked_or_quiet bb (fst (record_affected_net net (nc, num)))
                  (snd (record_affected_net net (nc, num)))
  /\ exists i, (i < snd (record_affected_net net (nc, num)))%nat
               /\ ts_nets_to_update (fst (record_affected_net net (nc, num))) i = net.
Proof.
  intros Hm. unfold record_affected_net.
  destruct (proposed_net_cost nc net <? Fin 0)%fp eqn:Hlt; cbn [fst snd].
  - split.
    + intros m. destruct (Nat.eq_dec m net) as [->|Hne].
      * right. exists num. split; [lia|].
        cbn [set_proposed_net_cost set_ts_nets_to_update ts_nets_to_update].
        apply upd_same.
      * destruct (Hm m) as [[Hq1 Hq2]|(i & Hi & Hts)].
        -- left. split; [|exact Hq2].
           cbn [set_proposed_net_cost set_ts_nets_to_update proposed_net_cost].
           rewrite upd_other by exact Hne. exact Hq1.
        -- right. exists i. split; [lia|].
           cbn [set_proposed_net_cost set_ts_nets_to_update ts_nets_to_update].
           rewrite upd_other by lia. exact Hts.
    + exists num. split; [lia|].
      cbn [set_proposed_net_cost set_ts_nets_to_update ts_nets_to_update].
      apply upd_same.
  - split; [exact Hm|].
    destruct (Hm net) as [[Hq1 _]|Hl]; [|exact Hl].
    rewrite Hq1, quiet_fp in Hlt. discriminate.
Qed.

(** [update_bb] and [update_net_bb] write the flag of their net only. *)
Lemma update_bb_other_flags (locs : block_locs_t) (net m : ClusterNetId)
    (xold yold xnew ynew : Z) (s : bb_state) :
  m <> net ->
  bb_updated_before (update_bb locs net xold yold xnew ynew s) m = bb_updated_before s m.
Proof.
  intros Hne. unfold update_bb.
  destruct (bb_updated_before s net) eqn:Hf; try reflexivity;
    repeat match goal with
           | |- context [match ?x with Some _ => _ | None => _ end] => destruct x
           | |- context [if ?c then _ else _] => destruct c
           end;
    cbn [set_bb_flag set_ts_bb set_ts_bb_coord_new set_ts_bb_edge_new bb_updated_before];
    rewrite ?upd_other by exact Hne; reflexivity.
Qed.

Lemma update_net_bb_other_flags (locs : block_locs_t) (net m : ClusterNetId)
    (mb : t_pl_moved_block) (blk : ClusterBlockId) (blk_pin : ClusterPinId)
    (s : bb_state) :
  m <> net ->
  bb_updated_before (update_net_bb locs net mb blk blk_pin s) m = bb_updated_before s m.
Proof.
  intros Hne. unfold update_net_bb.
  destruct (length (net_sinks nl net) <? SMALL_NET)%nat.
  - destruct (bb_updated_before s net); reflexivity.
  - apply update_bb_other_flags. exact Hne.
Qed.

Lemma marked_or_quiet_update_net_bb (locs : block_locs_t) (net : ClusterNetId)
    (mb : t_pl_moved_block) (blk : ClusterBlockId) (blk_pin : ClusterPinId)
    (bb : bb_state) (nc : nc_state) (num : nat) :
  marked_or_quiet bb nc num ->
  (exists i, (i < num)%nat /\ ts_nets_to_update nc i = net) ->
  marked_or_quiet (update_net_bb locs net mb blk blk_pin bb) nc num.
Proof.
  intros Hm Hl m. destruct (Nat.eq_dec m net) as [->|Hne]; [right; exact Hl|].
  destruct (Hm m) as [[Hq1 Hq2]|Hi]; [|right; exact Hi].
  left. split; [exact Hq1|]. rewrite update_net_bb_other_flags by exact Hne. exact Hq2.
Qed.

Lemma affected_pin_step_marked (alg : e_place_algorithm)
    (crit : ClusterNetId -> nat -> fp) (locs : block_locs_t)
    (mb : t_pl_moved_block) (pin : ClusterPinId) (acc acc' : affected_acc) :
  affected_pin_step alg crit locs mb acc pin = Ok acc' ->
  marked_or_quiet (fst (fst (fst (fst (fst acc))))) (snd (fst (fst (fst (fst acc)))))
                  (snd (fst acc)) ->
  marked_or_quiet (fst (fst (fst (fst (fst acc'))))) (snd (fst (fst (fst (fst acc')))))
                  (snd (fst acc')).
Proof.
  destruct acc as [[[[[bb nc] td] ba] n] d]. cbn [fst snd].
  unfold affected_pin_step. destruct (net_is_ignored nl (pin_net nl pin)).
  - intros H. injection H as <-. cbn [fst snd]. auto.
  - pose proof (record_affected_net_marked bb nc n (pin_net nl pin)) as Hr.
    destruct (record_affected_net (pin_net nl pin) (nc, n)) as [nc1 n1].
    cbn [fst snd] in Hr. intros H Hm. destruct (Hr Hm) as [Hm1 Hl].
    assert (Hm2 := marked_or_quiet_update_net_bb locs (pin_net nl pin) mb (block_num mb)
                     pin bb nc1 n1 Hm1 Hl).
    destruct alg.
    + injection H as <-. cbn [fst snd]. exact Hm2.
    + destruct (update_td_delta_costs crit locs (pin_net nl pin) pin (td, ba, d))
        as [[[td1 ba1] d1]|err]; cbn [bind] in H; [|discriminate].
      injection H as <-. cbn [fst snd]. exact Hm2.
Qed.

Lemma foldM_invariant {A S} (f : S -> A -> result S) (P : S -> Prop) (l : list A) :
  (forall s a s', f s a = Ok s' -> P s -> P s') ->
  forall s s', foldM f l s = Ok s' -> P s -> P s'.
Proof.
  intros Hf. induction l as [|a l IH]; intros s s' H Hp; cbn [foldM] in H.
  - injection H as <-. exact Hp.
  - destruct (f s a) as [s1|err] eqn:Hs; cbn [bind] in H; [|discriminate].
    apply (IH s1 s' H). apply (Hf s a s1 Hs Hp).
Qed.

Lemma affected_net_costs_marked (bb : bb_state) (num : nat) (nc : nc_state) (d : fp) :
  marked_or_quiet bb nc num ->
  marked_or_quiet bb (fst (affected_net_costs bb num (nc, d))) num.
Proof.
  unfold affected_net_costs.
  assert (H : forall l nc d,
             (forall i, In i l -> (i < num)%nat) ->
             marked_or_quiet bb nc num ->
             marked_or_quiet bb
               (fst (fold_left
                       (fun '(nc, bb_delta_c) inet_affected =>
                          let net_id := ts_nets_to_update nc inet_affected in
                          let nc := set_proposed_net_cost net_id
                                      (get_net_cost net_id (ts_bb_coord_new bb net_id)) nc in
                          (nc, (bb_delta_c
                                + (proposed_net_cost nc net_id - net_cost nc net_id))%fp))
                       l (nc, d))) num).
  { induction l as [|i l IH]; intros nc0 d0 Hl Hm; cbn [fold_left fst]; [exact Hm|].
    apply IH; [intros j Hj; apply Hl; right; exact Hj|].
    intros m. destruct (Nat.eq_dec m (ts_nets_to_update nc0 i)) as [->|Hne].
    - right. exists i. split; [apply Hl; left; reflexivity | reflexivity].
    - destruct (Hm m) as [[Hq1 Hq2]|Hi]; [|right; exact Hi].
      left. split; [|exact Hq2].
      cbn [set_proposed_net_cost proposed_net_cost]. rewrite upd_other by exact Hne.
      exact Hq1. }
  intros Hm. apply H; [|exact Hm]. intros i Hi. apply in_seq in Hi. lia.
Qed.

(** Both [update_move_nets] and [reset_move_nets] put the markers of the
    listed nets at rest and leave the other markers alone. *)
Lemma move_nets_loop_quiet (step : bb_state * nc_state -> nat -> bb_state * nc_state)
    (l : list nat) :
  (forall bb nc i,
      ts_nets_to_update (snd (step (bb, nc) i)) = ts_nets_to_update nc
      /\ quiet_net (fst (step (bb, nc) i)) (snd (step (bb, nc) i))
                   (ts_nets_to_update nc i)
      /\ forall m, quiet_net bb nc m ->
                   quiet_net (fst (step (bb, nc) i)) (snd (step (bb, nc) i)) m) ->
  forall bb nc,
    ts_nets_to_update (snd (fold_left step l (bb, nc))) = ts_nets_to_update nc
    /\ forall m, quiet_net bb nc m \/ (exists i, In i l /\ ts_nets_to_update nc i = m) ->
                 quiet_net (fst (fold_left step l (bb, nc)))
                           (snd (fold_left step l (bb, nc))) m.
Proof.
  intros Hstep. induction l as [|i l IH]; intros bb nc; cbn [fold_left].
  - split; [reflexivity|]. intros m [Hq|(i & [] & _)]. exact Hq.
  - destruct (Hstep bb nc i) as (Hts & Hqi & Hkeep).
    destruct (step (bb, nc) i) as [bb1 nc1] eqn:Hs. cbn [fst snd] in *.
    destruct (IH bb1 nc1) as [Hts' Hq']. split; [congruence|].
    intros m [Hq|(j & [->|Hj] & Hm)].
    + apply Hq'. left. apply Hkeep. exact Hq.
    + apply Hq'. left. rewrite <- Hm. exact Hqi.
    + apply Hq'. right. exists j. split; [exact Hj | congruence].
Qed.

Lemma move_nets_quiet (step : bb_state * nc_state -> nat -> bb_state * nc_state)
    (num : nat) (bb : bb_state) (nc : nc_state) :
  (forall bb nc i,
      ts_nets_to_update (snd (step (bb, nc) i)) = ts_nets_to_update nc
      /\ quiet_net (fst (step (bb, nc) i)) (snd (step (bb, nc) i))
                   (ts_nets_to_update nc i)
      /\ forall m, quiet_net bb nc m ->
                   quiet_net (fst (step (bb, nc) i)) (snd (step (bb, nc) i)) m) ->
  marked_or_quiet bb nc num ->
  quiesced_markers (fst (fold_left step (seq 0 num) (bb, nc)))
                   (snd (fold_left step (seq 0 num) (bb, nc))).
Proof.
  intros Hstep Hm net.
  destruct (move_nets_loop_quiet step (seq 0 num) Hstep bb nc) as [_ Hq].
  apply Hq. destruct (Hm net) as [Hn|(i & Hi & Hts)]; [left; exact Hn|].
  right. exists i. split; [apply in_seq; lia | exact Hts].
Qed.

Lemma update_move_nets_quiet (num : nat) (bb : bb_state) (nc : nc_state) :
  marked_or_quiet bb nc num ->
  quiesced_markers (fst (update_move_nets num (bb, nc)))
                   (snd (update_move_nets num (bb, nc))).
Proof.
  unfold update_move_nets. apply move_nets_quiet.
  intros bb0 nc0 i. cbn [fst snd]. unfold quiet_net.
  split; [reflexivity|]. split.
  - cbn [set_bb_flag set_proposed_net_cost set_net_cost proposed_net_cost
         bb_updated_before]. rewrite !upd_same. auto.
  - intros m [Hq1 Hq2].
    cbn [set_bb_flag set_proposed_net_cost set_net_cost proposed_net_cost
         bb_updated_before].
    destruct (Nat.eq_dec m (ts_nets_to_update nc0 i)) as [->|Hne].
    + rewrite !upd_same. auto.
    + rewrite !upd_other by exact Hne. split; [exact Hq1|].
      destruct (SMALL_NET <=? _)%nat;
        cbn [set_bb_coords set_bb_num_on_edges bb_updated_before]; exact Hq2.
Qed.

Lemma reset_move_nets_quiet (num : nat) (bb : bb_state) (nc : nc_state) :
  marked_or_quiet bb nc num ->
  quiesced_markers (fst (reset_move_nets num (bb, nc)))
                   (snd (reset_move_nets num (bb, nc))).
Proof.
  unfold reset_move_nets. apply move_nets_quiet.
  intros bb0 nc0 i. cbn [fst snd]. unfold quiet_net.
  split; [reflexivity|]. split.
  - cbn [set_bb_flag set_proposed_net_cost proposed_net_cost bb_updated_before].
    rewrite !upd_same. auto.
  - intros m [Hq1 Hq2].
    cbn [set_bb_flag set_proposed_net_cost proposed_net_cost bb_updated_before].
    destruct (Nat.eq_dec m (ts_nets_to_update nc0 i)) as [->|Hne].
    + rewrite !upd_same. auto.
    + rewrite !upd_other by exact Hne. auto.
Qed.

Lemma find_affected_marked (alg : e_place_algorithm) (crit : ClusterNetId -> nat -> fp)
    (locs : block_locs_t) (bb bb' : bb_state) (nc nc' : nc_state) (td td' : td_state)
    (ba ba' : t_pl_blocks_to_be_moved) (bbd tdd bbd' tdd' : fp) (num : nat) :
  find_affected_nets_and_update_costs alg crit locs bb nc td ba bbd tdd
  = Ok (num, bb', nc', td', ba', bbd', tdd') ->
  quiesced_markers bb nc -> marked_or_quiet bb' nc' num.
Proof.
  intros H Hq. unfold find_affected_nets_and_update_costs in H.
  match type of H with
  | bind ?c _ = _ => destruct c as [[[[[[bb1 nc1] td1] ba1] n1] d1]|err] eqn:Hloop
  end; cbn [bind] in H; [|discriminate].
  pose proof (affected_net_costs_marked bb1 n1 nc1 bbd) as Hc.
  destruct (affected_net_costs bb1 n1 (nc1, bbd)) as [nc2 bbd2]. cbn [fst] in Hc.
  injection H as <- <- <- <- <- <- <-. apply Hc.
  pose (P := fun acc : affected_acc =>
               marked_or_quiet (fst (fst (fst (fst (fst acc)))))
                               (snd (fst (fst (fst (fst acc))))) (snd (fst acc))).
  change (P (bb1, nc1, td1, ba1, n1, d1)).
  refine (foldM_invariant _ P _ _ _ _ Hloop _).
  - intros s mb s' Hs Hp.
    refine (foldM_invariant _ P _ _ _ _ Hs Hp).
    intros s0 pin s0' Hs0. apply affected_pin_step_marked with (1 := Hs0).
  - unfold P. cbn [fst snd]. intros net. left. apply Hq.
Qed.

(** *** The shadow arrays after a trial *)

Lemma conn_eq_dec (c c' : ClusterNetId * nat) : {c = c'} + {c <> c'}.
Proof. decide equality; apply Nat.eq_dec. Qed.

Lemma shadow_frame_refl (w : list (ClusterNetId * nat)) (td : td_state) :
  shadow_frame w td td.
Proof. intros c _. auto. Qed.

Lemma shadow_frame_trans (w w' : list (ClusterNetId * nat)) (td td1 td2 : td_state) :
  shadow_frame w td td1 -> shadow_frame w' td1 td2 -> shadow_frame (w ++ w') td td2.
Proof.
  intros H1 H2 c Hc.
  destruct (H1 c) as [E1 E2]; [intros Hin; apply Hc, in_or_app; left; exact Hin|].
  destruct (H2 c) as [E3 E4]; [intros Hin; apply Hc, in_or_app; right; exact Hin|].
  split; congruence.
Qed.

Lemma td_connections_moved (ba ba' : t_pl_blocks_to_be_moved) (pin : ClusterPinId) :
  moved_blocks ba' = moved_blocks ba -> td_connections ba' pin = td_connections ba pin.
Proof.
  intros H. unfold td_connections, driven_by_moved_block. rewrite H. reflexivity.
Qed.

Lemma affected_pin_step_frame (alg : e_place_algorithm)
    (crit : ClusterNetId -> nat -> fp) (locs : block_locs_t)
    (mb : t_pl_moved_block) (pin : ClusterPinId) (acc acc' : affected_acc) :
  affected_pin_step alg crit locs mb acc pin = Ok acc' ->
  moved_blocks (snd (fst (fst acc'))) = moved_blocks (snd (fst (fst acc)))
  /\ shadow_frame (td_connections (snd (fst (fst acc))) pin)
                  (snd (fst (fst (fst acc)))) (snd (fst (fst (fst acc')))).
Proof.
  destruct acc as [[[[[bb nc] td] ba] n] d]. cbn [fst snd].
  unfold affected_pin_step, td_connections.
  destruct (net_is_ignored nl (pin_net nl pin)).
  - intros H. injection H as <-. cbn [fst snd]. split; [reflexivity|].
    apply shadow_frame_refl.
  - destruct (record_affected_net (pin_net nl pin) (nc, n)) as [nc1 n1].
    destruct alg.
    + intros H. injection H as <-. cbn [fst snd]. split; [reflexivity|].
      apply shadow_frame_refl.
    + destruct (update_td_delta_costs crit locs (pin_net nl pin) pin (td, ba, d))
        as [[[td1 ba1] d1]|err] eqn:Hu; cbn [bind]; [|discriminate].
      intros H. injection H as <-. cbn [fst snd].
      unfold update_td_delta_costs in Hu. destruct (pin_type nl pin).
      * apply driver_loop_state in Hu.
        destruct Hu as (_ & Hmb & _ & _ & Hout & _). split; [exact Hmb|].
        intros [cn ci] Hc. cbn [fst snd]. apply Hout. intros [-> Hr].
        apply Hc. apply in_map. apply in_seq. lia.
      * destruct (driven_by_moved_block (pin_net nl pin) ba); cbn [negb] in Hu.
        -- injection Hu as <- <- <-. split; [reflexivity|]. apply shadow_frame_refl.
        -- destruct (propose_connection crit locs (pin_net nl pin) (pin_net_index nl pin)
                       (td, d)) as [[td2 d2]|err] eqn:Hp; cbn [bind] in Hu; [|discriminate].
           injection Hu as <- <- <-. split; [reflexivity|].
           apply propose_connection_state in Hp. destruct Hp as (_ & _ & _ & Hfr & _).
           intros [cn ci] Hc. cbn [fst snd]. apply Hfr. intros [-> ->].
           apply Hc. left. reflexivity.
Qed.

Lemma affected_pins_frame (alg : e_place_algorithm)
    (crit : ClusterNetId -> nat -> fp) (locs : block_locs_t)
    (mb : t_pl_moved_block) (pins : list ClusterPinId) (acc acc' : affected_acc) :
  foldM (affected_pin_step alg crit locs mb) pins acc = Ok acc' ->
  moved_blocks (snd (fst (fst acc'))) = moved_blocks (snd (fst (fst acc)))
  /\ shadow_frame (flat_map (td_connections (snd (fst (fst acc)))) pins)
                  (snd (fst (fst (fst acc)))) (snd (fst (fst (fst acc')))).
Proof.
  revert acc. induction pins as [|pin pins IH]; intros acc H; cbn [foldM] in H.
  - injection H as <-. split; [reflexivity|]. apply shadow_frame_refl.
  - destruct (affected_pin_step alg crit locs mb acc pin) as [acc1|err] eqn:Hs;
      cbn [bind] in H; [|discriminate].
    apply affected_pin_step_frame in Hs. destruct Hs as [Hmb1 Hf1].
    apply IH in H. destruct H as [Hmb Hf]. split; [congruence|].
    cbn [flat_map]. apply shadow_frame_trans with (1 := Hf1).
    rewrite (flat_map_ext _ _ (fun p => td_connections_moved _ _ p Hmb1)) in Hf.
    exact Hf.
Qed.

Lemma affected_blocks_frame (alg : e_place_algorithm)
    (crit : ClusterNetId -> nat -> fp) (locs : block_locs_t)
    (mbs : list t_pl_moved_block) (acc acc' : affected_acc) :
  foldM (fun acc mb =>
           foldM (affected_pin_step alg crit locs mb) (block_pins nl (block_num mb)) acc)
        mbs acc = Ok acc' ->
  moved_blocks (snd (fst (fst acc'))) = moved_blocks (snd (fst (fst acc)))
  /\ shadow_frame (touched_connections (snd (fst (fst acc))) mbs)
                  (snd (fst (fst (fst acc)))) (snd (fst (fst (fst acc')))).
Proof.
  revert acc. induction mbs as [|mb mbs IH]; intros acc H; cbn [foldM] in H.
  - injection H as <-. split; [reflexivity|]. apply shadow_frame_refl.
  - destruct (foldM _ (block_pins nl (block_num mb)) acc) as [acc1|err] eqn:Hs;
      cbn [bind] in H; [|discriminate].
    apply affected_pins_frame in Hs. destruct Hs as [Hmb1 Hf1].
    apply IH in H. destruct H as [Hmb Hf]. split; [congruence|].
    unfold touched_connections. cbn [flat_map].
    apply shadow_frame_trans with (1 := Hf1).
    unfold touched_connections in Hf.
    rewrite (flat_map_ext _ _
               (fun mb => flat_map_ext _ _
                            (fun p => td_connections_moved _ _ p Hmb1)
                            (block_pins nl (block_num mb)))) in Hf.
    exact Hf.
Qed.

(** A loop whose steps only write NaN into the shadow arrays. *)
Lemma fold_invalidates {A} (f : td_state -> A -> td_state)
    (w : A -> list (ClusterNetId * nat)) (l : list A) :
  (forall td a c, shadow_invalid td c -> shadow_invalid (f td a) c) ->
  (forall td a c, In c (w a) -> shadow_invalid (f td a) c) ->
  forall td c, shadow_invalid td c \/ In c (flat_map w l) ->
               shadow_invalid (fold_left f l td) c.
Proof.
  intros Hkeep Hset. induction l as [|a l IH]; intros td c H; cbn [fold_left].
  - destruct H as [H|[]]. exact H.
  - apply IH. cbn [flat_map] in H. destruct H as [H|H].
    + left. apply Hkeep. exact H.
    + apply in_app_or in H. destruct H as [H|H].
      * left. apply Hset. exact H.
      * right. exact H.
Qed.

Lemma isnan_INVALID_DELAY : isnan INVALID_DELAY = true.
Proof. reflexivity. Qed.

Lemma commit_connection_invalid (net : ClusterNetId) (ipin : nat) (td : td_state)
    (c : ClusterNetId * nat) :
  shadow_invalid td c \/ c = (net, ipin) ->
  shadow_invalid (commit_connection net ipin td) c.
Proof.
  intros H. unfold shadow_invalid, commit_connection.
  cbn [set_proposed_connection_timing_cost set_connection_timing_cost
       set_proposed_connection_delay set_connection_delay
       proposed_connection_delay proposed_connection_timing_cost].
  destruct (conn_eq_dec c (net, ipin)) as [->|Hne].
  - cbn [fst snd]. rewrite !upd2_same. auto.
  - destruct H as [H|H]; [|contradiction].
    destruct c as [cn ci]. cbn [fst snd] in *.
    rewrite !upd2_other by (intros [-> ->]; apply Hne; reflexivity). exact H.
Qed.

Lemma commit_pin_invalid (ba : t_pl_blocks_to_be_moved) (pin_id : ClusterPinId)
    (td : td_state) (c : ClusterNetId * nat) :
  shadow_invalid td c \/ In c (td_connections ba pin_id) ->
  shadow_invalid
    (let net_id := pin_net nl pin_id in
     if net_is_ignored nl net_id then td
     else
       match pin_type nl pin_id with
       | DRIVER =>
           fold_left (fun td ipin => commit_connection net_id ipin td)
                     (seq 1 (length (net_pins nl net_id) - 1)) td
       | SINK =>
           if negb (driven_by_moved_block net_id ba) then
             let net_pin := pin_net_index nl pin_id in
             commit_connection net_id net_pin td
           else td
       end) c.
Proof.
  unfold td_connections. cbv zeta.
  destruct (net_is_ignored nl (pin_net nl pin_id)); [intros [H|[]]; exact H|].
  destruct (pin_type nl pin_id).
  - intros H.
    apply (fold_invalidates (fun td ipin => commit_connection (pin_net nl pin_id) ipin td)
                            (fun i => [(pin_net nl pin_id, i)])).
    + intros td0 a c0 H0. apply commit_connection_invalid. left. exact H0.
    + intros td0 a c0 [H0|[]]. apply commit_connection_invalid. right. auto.
    + destruct H as [H|H]; [left; exact H|right].
      apply in_map_iff in H. destruct H as (i & <- & Hi).
      apply in_flat_map. exists i. split; [exact Hi | left; reflexivity].
  - destruct (driven_by_moved_block (pin_net nl pin_id) ba); cbn [negb].
    + intros [H|[]]. exact H.
    + intros [H|[H|[]]]; apply commit_connection_invalid; auto.
Qed.

Lemma commit_td_cost_invalid (ba : t_pl_blocks_to_be_moved) (td : td_state)
    (c : ClusterNetId * nat) :
  shadow_invalid td c \/ In c (touched_connections ba (moved_blocks ba)) ->
  shadow_invalid (commit_td_cost ba td) c.
Proof.
  unfold commit_td_cost, touched_connections.
  apply (fold_invalidates _
           (fun mb => flat_map (td_connections ba) (block_pins nl (block_num mb)))).
  - intros td0 mb c0 H0.
    apply (fold_invalidates _ (td_connections ba)); [| |left; exact H0].
    + intros td1 p c1 H1. apply (commit_pin_invalid ba p td1 c1). left. exact H1.
    + intros td1 p c1 H1. apply (commit_pin_invalid ba p td1 c1). right. exact H1.
  - intros td0 mb c0 H0.
    apply (fold_invalidates _ (td_connections ba)); [| |right; exact H0].
    + intros td1 p c1 H1. apply (commit_pin_invalid ba p td1 c1). left. exact H1.
    + intros td1 p c1 H1. apply (commit_pin_invalid ba p td1 c1). right. exact H1.
Qed.

(** [revert_td_cost] never writes a committed array; without
    VTR_ASSERT_SAFE_ENABLED it writes nothing at all. *)
Lemma revert_td_cost_committed (ba : t_pl_blocks_to_be_moved) (td : td_state) :
  same_committed td (revert_td_cost ba td).
Proof.
  unfold revert_td_cost. destruct (negb VTR_ASSERT_SAFE_ENABLED).
  - unfold same_committed. auto.
  - generalize (affected_pins ba). intros l. revert td.
    induction l as [|p l IH]; intros td; cbn [fold_left].
    + unfold same_committed. auto.
    + destruct (IH (set_proposed_connection_timing_cost (pin_net nl p) (pin_net_index nl p)
                      INVALID_DELAY
                      (set_proposed_connection_delay (pin_net nl p) (pin_net_index nl p)
                         INVALID_DELAY td))) as (E1 & E2 & E3).
      unfold same_committed. rewrite E1, E2, E3. auto.
Qed.

Lemma revert_td_cost_unsafe (ba : t_pl_blocks_to_be_moved) (td : td_state) :
  VTR_ASSERT_SAFE_ENABLED = false -> revert_td_cost ba td = td.
Proof. intros H. unfold revert_td_cost. rewrite H. reflexivity. Qed.

Lemma revert_td_cost_invalid (ba : t_pl_blocks_to_be_moved) (td : td_state)
    (c : ClusterNetId * nat) :
  VTR_ASSERT_SAFE_ENABLED = true ->
  shadow_invalid td c \/ In c (map connection_of (affected_pins ba)) ->
  shadow_invalid (revert_td_cost ba td) c.
Proof.
  intros Hs H. unfold revert_td_cost. rewrite Hs. cbn [negb].
  apply (fold_invalidates _ (fun p => [connection_of p])).
  - intros td0 p c0 [H1 H2]. unfold shadow_invalid.
    cbn [set_proposed_connection_timing_cost set_proposed_connection_delay
         proposed_connection_delay proposed_connection_timing_cost].
    destruct (conn_eq_dec c0 (connection_of p)) as [->|Hne].
    + unfold connection_of. cbn [fst snd]. rewrite !upd2_same. auto.
    + destruct c0 as [cn ci]. cbn [fst snd] in *.
      rewrite !upd2_other
        by (intros [-> ->]; apply Hne; reflexivity). auto.
  - intros td0 p c0 [<-|[]]. unfold shadow_invalid, connection_of.
    cbn [set_proposed_connection_timing_cost set_proposed_connection_delay
         proposed_connection_delay proposed_connection_timing_cost fst snd].
    rewrite !upd2_same. auto.
  - destruct H as [H|H]; [left; exact H|right].
    apply in_map_iff in H. destruct H as (p & <- & Hp).
    apply in_flat_map. exists p. split; [exact Hp | left; reflexivity].
Qed.

Lemma touched_connections_contribution (ba : t_pl_blocks_to_be_moved)
    (c : ClusterNetId * nat) :
  netlist_wf ->
  In c (touched_connections ba (moved_blocks ba)) ->
  In c (map connection_of (flat_map (td_contribution ba) (moved_pins ba))).
Proof.
  intros Hwf H. unfold touched_connections in H.
  apply in_flat_map in H. destruct H as (mb & Hmb & H).
  apply in_flat_map in H. destruct H as (p & Hp & H).
  rewrite <- (td_connections_contribution ba p Hwf) in H.
  apply in_map_iff in H. destruct H as (q & <- & Hq).
  apply in_map. apply in_flat_map. exists p. split; [|exact Hq].
  unfold moved_pins. apply in_flat_map. exists (block_num mb).
  split; [apply in_map; exact Hmb | exact Hp].
Qed.

(** What [find_affected_nets_and_update_costs] leaves in the timing state
    and in [blocks_affected]. *)
Lemma find_affected_frame (alg : e_place_algorithm) (crit : ClusterNetId -> nat -> fp)
    (locs : block_locs_t) (bb bb' : bb_state) (nc nc' : nc_state) (td td' : td_state)
    (ba ba' : t_pl_blocks_to_be_moved) (bbd tdd bbd' tdd' : fp) (num : nat) :
  find_affected_nets_and_update_costs alg crit locs bb nc td ba bbd tdd
  = Ok (num, bb', nc', td', ba', bbd', tdd') ->
  moved_blocks ba' = moved_blocks ba
  /\ shadow_frame (touched_connections ba (moved_blocks ba)) td td'
  /\ (alg = BOUNDING_BOX_PLACE -> td' = td)
  /\ (alg = PATH_TIMING_DRIVEN_PLACE ->
      affected_pins ba'
      = affected_pins ba ++ flat_map (td_contribution ba) (moved_pins ba)).
Proof.
  intros H. unfold find_affected_nets_and_update_costs in H.
  match type of H with
  | bind ?c _ = _ => destruct c as [[[[[[bb1 nc1] td1] ba1] n1] d1]|err] eqn:Hloop
  end; cbn [bind] in H; [|discriminate].
  destruct (affected_net_costs bb1 n1 (nc1, bbd)) as [nc2 bbd2].
  injection H as <- <- <- <- <- <- <-.
  pose proof (affected_blocks_frame _ _ _ _ _ _ Hloop) as [Hmb Hf]. cbn [fst snd] in Hmb, Hf.
  split; [exact Hmb|]. split; [exact Hf|]. split.
  - intros ->.
    pose (P := fun acc : affected_acc => snd (fst (fst (fst acc))) = td).
    change (P (bb1, nc1, td1, ba1, n1, d1)).
    refine (foldM_invariant _ P _ _ _ _ Hloop _); [|reflexivity].
    intros s mb s' Hs Hp. refine (foldM_invariant _ P _ _ _ _ Hs Hp).
    intros [[[[[b0 c0] t0] a0] n0] d0] pin s0' Hs0. unfold P. cbn [fst snd].
    unfold affected_pin_step in Hs0.
    destruct (net_is_ignored nl (pin_net nl pin)).
    + injection Hs0 as <-. auto.
    + destruct (record_affected_net (pin_net nl pin) (c0, n0)).
      injection Hs0 as <-. auto.
  - intros ->. apply affected_pins_of_blocks in Hloop. cbv zeta in Hloop.
    cbn [fst snd] in Hloop. apply Hloop.
Qed.

Lemma touched_connections_moved (ba ba' : t_pl_blocks_to_be_moved)
    (mbs : list t_pl_moved_block) :
  moved_blocks ba' = moved_blocks ba ->
  touched_connections ba' mbs = touched_connections ba mbs.
Proof.
  intros H. unfold touched_connections. apply flat_map_ext. intros mb.
  apply flat_map_ext. intros p. apply td_connections_moved. exact H.
Qed.

Lemma shadows_after_commit (ba ba1 : t_pl_blocks_to_be_moved) (td td1 : td_state) :
  moved_blocks ba1 = moved_blocks ba ->
  shadow_frame (touched_connections ba (moved_blocks ba)) td td1 ->
  shadows_invalid td -> shadows_invalid (commit_td_cost ba1 td1).
Proof.
  intros Hmb Hf Hinv net ipin Hnet Hipin. set (c := (net, ipin)).
  apply commit_td_cost_invalid.
  rewrite Hmb, (touched_connections_moved ba ba1 _ Hmb).
  destruct (in_dec conn_eq_dec c (touched_connections ba (moved_blocks ba))) as [Hin|Hout].
  - right. exact Hin.
  - left. destruct (Hf c Hout) as [E1 E2]. destruct (Hinv net ipin Hnet Hipin) as [H1 H2].
    unfold shadow_invalid. rewrite E1, E2. auto.
Qed.

Lemma shadows_after_revert (ba ba1 : t_pl_blocks_to_be_moved) (td td1 : td_state) :
  VTR_ASSERT_SAFE_ENABLED = true -> netlist_wf ->
  affected_pins ba1 = affected_pins ba ++ flat_map (td_contribution ba) (moved_pins ba) ->
  shadow_frame (touched_connections ba (moved_blocks ba)) td td1 ->
  shadows_invalid td -> shadows_invalid (revert_td_cost ba1 td1).
Proof.
  intros Hs Hwf Hap Hf Hinv net ipin Hnet Hipin. set (c := (net, ipin)).
  apply revert_td_cost_invalid; [exact Hs|].
  destruct (in_dec conn_eq_dec c (touched_connections ba (moved_blocks ba))) as [Hin|Hout].
  - right. rewrite Hap, map_app. apply in_or_app. right.
    apply touched_connections_contribution; assumption.
  - left. destruct (Hf c Hout) as [E1 E2]. destruct (Hinv net ipin Hnet Hipin) as [H1 H2].
    unfold shadow_invalid. rewrite E1, E2. auto.
Qed.

(** C4, as the code has it.  Every returning trial leaves the markers of
    every net at rest.  It leaves the shadow entries of every sink of every
    net NaN when the move was accepted or aborted, when the placement is
    not timing driven, or when the build defines VTR_ASSERT_SAFE_ENABLED and
    the netlist is well formed; a rejected move leaves [costs] as it was.  [revert_td_cost] never writes a committed array; it
    resets the shadow entries of the pins in [affected_pins] in a build
    with VTR_ASSERT_SAFE_ENABLED and is the identity in a build without. *)
Theorem trial_quiesces_markers (t : fp) (costs : t_placer_costs)
    (prev_inverse_costs : t_placer_prev_inverse_costs) (rlim : fp)
    (blocks_affected : t_pl_blocks_to_be_moved) (rlim_escape_fraction : fp)
    (place_algorithm : e_place_algorithm) (timing_tradeoff : fp)
    (st : placer_state) (move_outcome : e_move_result) (costs' : t_placer_costs)
    (blocks_affected' : t_pl_blocks_to_be_moved) (st' : placer_state) :
  try_swap t costs prev_inverse_costs rlim blocks_affected rlim_escape_fraction
    place_algorithm timing_tradeoff st
  = Ok (move_outcome, costs', blocks_affected', st') ->
  (quiesced_markers (ps_bb st) (ps_nc st) -> quiesced_markers (ps_bb st') (ps_nc st'))
  /\ (shadows_invalid (ps_td st) ->
      move_outcome <> REJECTED \/ place_algorithm = BOUNDING_BOX_PLACE
      \/ (VTR_ASSERT_SAFE_ENABLED = true /\ netlist_wf) ->
      shadows_invalid (ps_td st'))
  /\ (move_outcome = REJECTED -> costs' = costs)
  /\ (forall ba td,
        same_committed td (revert_td_cost ba td)
        /\ (VTR_ASSERT_SAFE_ENABLED = false -> revert_td_cost ba td = td)
        /\ (VTR_ASSERT_SAFE_ENABLED = true ->
            forall pin, In pin (affected_pins ba) ->
                        shadow_invalid (revert_td_cost ba td) (connection_of pin))).
Proof.
  intros H.
  assert (Hrev : forall ba td,
             same_committed td (revert_td_cost ba td)
             /\ (VTR_ASSERT_SAFE_ENABLED = false -> revert_td_cost ba td = td)
             /\ (VTR_ASSERT_SAFE_ENABLED = true ->
                 forall pin, In pin (affected_pins ba) ->
                             shadow_invalid (revert_td_cost ba td) (connection_of pin))).
  { intros ba td. split; [apply revert_td_cost_committed|].
    split; [apply revert_td_cost_unsafe|].
    intros Hs pin Hp. apply revert_td_cost_invalid; [exact Hs|].
    right. apply in_map. exact Hp. }
  apply try_swap_inv in H. cbv zeta in H.
  destruct H as [(_ & Ho & Hc & Hbb & Hnc & Htd & _)
                | (_ & num & bb & nc & td & ba1 & bbd & tdd & Hfind & H)].
  - rewrite Hbb, Hnc, Htd. split; [auto|]. split; [auto|]. split; [auto | exact Hrev].
  - destruct H as (Ho & Hna & Hc & Hbb & Hnc & Htd & _).
    pose proof (find_affected_marked _ _ _ _ _ _ _ _ _ _ _ _ _ _ _ _ Hfind) as Hmark.
    pose proof (find_affected_frame _ _ _ _ _ _ _ _ _ _ _ _ _ _ _ _ Hfind)
      as (Hmb & Hfr & Hbbalg & Htdalg).
    rewrite Hbb, Hnc, Htd, Hc. rewrite Ho in Hna |- *.
    destruct (fst (assess_swap _ t _)); [| |contradiction Hna; reflexivity].
    + (* rejected *)
      cbn [reject_move fst snd ps_bb ps_nc ps_td].
      split; [intros Hq; apply reset_move_nets_quiet, Hmark, Hq|].
      split; [|split; [reflexivity | exact Hrev]].
      intros Hinv [Hn|[->|[Hs Hwf]]].
      * contradiction Hn. reflexivity.
      * rewrite (Hbbalg eq_refl). exact Hinv.
      * destruct place_algorithm.
        -- rewrite (Hbbalg eq_refl). exact Hinv.
        -- apply (shadows_after_revert _ _ _ _ Hs Hwf (Htdalg eq_refl) Hfr Hinv).
    + (* accepted *)
      cbn [accept_move fst snd ps_bb ps_nc ps_td].
      split; [intros Hq; apply update_move_nets_quiet, Hmark, Hq|].
      split; [|split; [intros; discriminate | exact Hrev]].
      intros Hinv _. destruct place_algorithm.
      * rewrite (Hbbalg eq_refl). exact Hinv.
      * apply (shadows_after_commit _ _ _ _ Hmb Hfr Hinv).
Qed.

(** *** The periodic recomputation of the costs *)

Lemma count_move_and_recompute_counter (placer_opts : t_placer_opts)
    (costs costs' : t_placer_costs) (st st' : placer_state) (m m' : Z) :
  count_move_and_recompute placer_opts costs st m = Ok (costs', st', m') ->
  (0 <= m <= MAX_MOVES_BEFORE_RECOMPUTE)%Z ->
  m' = ((m + 1) mod (MAX_MOVES_BEFORE_RECOMPUTE + 1))%Z.
Proof.
  unfold count_move_and_recompute, MAX_MOVES_BEFORE_RECOMPUTE. intros H Hm.
  destruct (m + 1 >? 500000)%Z eqn:Hgt.
  - destruct (recompute_costs_from_scratch _ _ _ _ _) as [[c td]|err];
      cbn [bind] in H; [|discriminate].
    injection H as _ _ <-.
    assert (m = 500000%Z) by lia. subst m. reflexivity.
  - injection H as _ _ <-. rewrite Z.mod_small; lia.
Qed.

Lemma inner_loop_step_counter (t rlim : fp) (placer_opts : t_placer_opts) (move_lim : Z)
    (crit_exponent : fp) (inner_recompute_limit : Z)
    (prev_inverse_costs : t_placer_prev_inverse_costs)
    (a a' : inner_acc) (env env' : trial_env) (inner_iter : nat) :
  inner_loop_step t rlim placer_opts move_lim crit_exponent inner_recompute_limit
    prev_inverse_costs (a, env) inner_iter = Ok (a', env') ->
  (0 <= ia_moves_since_cost_recompute a <= MAX_MOVES_BEFORE_RECOMPUTE)%Z ->
  ia_moves_since_cost_recompute a'
  = ((ia_moves_since_cost_recompute a + 1) mod (MAX_MOVES_BEFORE_RECOMPUTE + 1))%Z.
Proof.
  unfold inner_loop_step. intros H Hm.
  destruct (try_swap _ _ _ _ _ _ _ _ _) as [[[[o c] ba] st]|err];
    cbn [bind] in H; [|discriminate].
  destruct (place_algorithm placer_opts);
    [|destruct (_ && _)%bool; [destruct (recompute_criticalities _ _ _ _) as [[c0 td0] e0]|]];
    match type of H with
    | context [count_move_and_recompute ?p ?c ?s ?m] =>
        destruct (count_move_and_recompute p c s m) as [[[c1 s1] m1]|err] eqn:Hc
    end; cbn [bind] in H; try discriminate;
    (apply count_move_and_recompute_counter in Hc; [|exact Hm]);
    injection H as <- _; exact Hc.
Qed.

Lemma inner_loop_counter (t rlim : fp) (placer_opts : t_placer_opts) (move_lim : Z)
    (crit_exponent : fp) (inner_recompute_limit : Z)
    (prev_inverse_costs : t_placer_prev_inverse_costs) (iters : list nat)
    (a a' : inner_acc) (env env' : trial_env) :
  foldM (inner_loop_step t rlim placer_opts move_lim crit_exponent inner_recompute_limit
           prev_inverse_costs) iters (a, env) = Ok (a', env') ->
  (0 <= ia_moves_since_cost_recompute a <= MAX_MOVES_BEFORE_RECOMPUTE)%Z ->
  ia_moves_since_cost_recompute a'
  = ((ia_moves_since_cost_recompute a + Z.of_nat (length iters))
     mod (MAX_MOVES_BEFORE_RECOMPUTE + 1))%Z.
Proof.
  revert a env. induction iters as [|i iters IH]; intros a env H Hm; cbn [foldM] in H.
  - injection H as <- _. cbn [length]. rewrite Z.add_0_r, Z.mod_small; [reflexivity|].
    unfold MAX_MOVES_BEFORE_RECOMPUTE in *. lia.
  - destruct (inner_loop_step _ _ _ _ _ _ _ (a, env) i) as [[a1 env1]|err] eqn:Hs;
      cbn [bind] in H; [|discriminate].
    apply inner_loop_step_counter in Hs; [|exact Hm].
    apply IH in H.
    + rewrite H, Hs. cbn [length]. rewrite Z.add_mod_idemp_l.
      * f_equal. lia.
      * unfold MAX_MOVES_BEFORE_RECOMPUTE. lia.
    + rewrite Hs. unfold MAX_MOVES_BEFORE_RECOMPUTE.
      pose proof (Z.mod_pos_bound (ia_moves_since_cost_recompute a + 1) (500000 + 1)). lia.
Qed.

Lemma fgt_Fin (x y : R) : (Fin x >? Fin y)%fp = true <-> (x > y)%R.
Proof. unfold fgt. rewrite flt_Fin. split; intros; lra. Qed.

(** C7, as the code has it.  A trial is counted before the test, and the
    test is [moves_since_cost_recompute > MAX_MOVES_BEFORE_RECOMPUTE]: the
    costs are recomputed on trial 500,001 after the last recomputation,
    and the count over a run of the inner loop is taken modulo 500,001.
    [recompute_costs_from_scratch] raises an error when the recomputed
    bounding-box cost, or for a timing-driven placement the recomputed
    timing cost, is further than [ERROR_TOL] times the incremental value
    from it, and replaces the incremental totals otherwise. *)
Theorem recompute_after_max_moves (placer_opts : t_placer_opts) :
  (forall costs st m,
      (m + 1 <= MAX_MOVES_BEFORE_RECOMPUTE)%Z ->
      count_move_and_recompute placer_opts costs st m = Ok (costs, st, (m + 1)%Z))
  /\ (forall costs st m,
        (m + 1 > MAX_MOVES_BEFORE_RECOMPUTE)%Z ->
        count_move_and_recompute placer_opts costs st m
        = bind (recompute_costs_from_scratch placer_opts (criticality (ps_ext st)) costs
                  (ps_nc st) (ps_td st))
               (fun r => Ok (fst r,
                             {| ps_bb := ps_bb st; ps_nc := ps_nc st; ps_td := snd r;
                                ps_locs := ps_locs st; ps_ext := ps_ext st;
                                num_ts_called := num_ts_called st |},
                             0%Z)))
  /\ (forall t rlim move_lim crit_exponent inner_recompute_limit prev_inverse_costs
             m env stats m' env',
        placement_inner_loop t rlim placer_opts move_lim crit_exponent
          inner_recompute_limit prev_inverse_costs m env = Ok (stats, m', env') ->
        (0 <= m <= MAX_MOVES_BEFORE_RECOMPUTE)%Z ->
        m' = ((m + Z.max 0 move_lim) mod (MAX_MOVES_BEFORE_RECOMPUTE + 1))%Z)
  /\ (forall crit costs nc td,
        let new_bb_cost := recompute_bb_cost nc in
        let r := recompute_costs_from_scratch placer_opts crit costs nc td in
        ((fabs (new_bb_cost - bb_cost costs) >? bb_cost costs * ERROR_TOL)%fp = true ->
         r = Fatal BBCostDrift)
        /\ ((fabs (new_bb_cost - bb_cost costs) >? bb_cost costs * ERROR_TOL)%fp = false ->
            match place_algorithm placer_opts with
            | BOUNDING_BOX_PLACE =>
                r = Ok ({| cost := new_bb_cost; bb_cost := new_bb_cost;
                           timing_cost := timing_cost costs |}, td)
            | PATH_TIMING_DRIVEN_PLACE =>
                let new_timing_cost := snd (comp_td_costs crit td) in
                ((fabs (new_timing_cost - timing_cost costs)
                  >? timing_cost costs * ERROR_TOL)%fp = true ->
                 r = Fatal TimingCostDrift)
                /\ ((fabs (new_timing_cost - timing_cost costs)
                     >? timing_cost costs * ERROR_TOL)%fp = false ->
                    r = Ok ({| cost := cost costs; bb_cost := new_bb_cost;
                               timing_cost := new_timing_cost |},
                            fst (comp_td_costs crit td)))
            end))
  /\ (forall new old : R,
        (fabs (Fin new - Fin old) >? Fin old * ERROR_TOL)%fp = true
        <-> (Rabs (new - old) > old * 0.01)%R).
Proof.
  split; [|split; [|split; [|split]]].
  - intros costs st m Hm. unfold count_move_and_recompute.
    destruct (m + 1 >? MAX_MOVES_BEFORE_RECOMPUTE)%Z eqn:Hgt; [lia | reflexivity].
  - intros costs st m Hm. unfold count_move_and_recompute.
    destruct (m + 1 >? MAX_MOVES_BEFORE_RECOMPUTE)%Z eqn:Hgt; [|lia].
    destruct (recompute_costs_from_scratch _ _ _ _ _) as [[c td]|err]; reflexivity.
  - intros t rlim move_lim ce irl pic m env stats m' env' H Hm.
    unfold placement_inner_loop in H.
    match type of H with
    | bind ?c _ = _ => destruct c as [[a1 env1]|err] eqn:Hloop
    end; cbn [bind] in H; [|discriminate].
    injection H as _ <- _.
    apply inner_loop_counter in Hloop; [|exact Hm].
    rewrite Hloop. cbn [ia_moves_since_cost_recompute].
    rewrite length_seq. f_equal. lia.
  - intros crit costs nc td new_bb_cost r. subst r new_bb_cost.
    unfold recompute_costs_from_scratch. split.
    + intros ->. reflexivity.
    + intros ->. destruct (place_algorithm placer_opts).
      * reflexivity.
      * destruct (comp_td_costs crit td) as [td1 new_t]. cbn [fst snd timing_cost].
        split; intros ->; reflexivity.
  - intros new old. unfold ERROR_TOL, fsub. cbn [fneg fadd fmul fabs].
    rewrite fgt_Fin. split; intros H.
    + replace (new - old)%R with (new + - old)%R by lra. exact H.
    + replace (new + - old)%R with (new - old)%R by lra. exact H.
Qed.

(** *** The two bounding-box calculators *)

Lemma clip_min (a v limit : Z) :
  clip (Z.min a v) limit = Z.min (clip a limit) (clip v limit).
Proof. unfold clip. lia. Qed.

Lemma clip_max (a v limit : Z) :
  clip (Z.max a v) limit = Z.max (clip a limit) (clip v limit).
Proof. unfold clip. lia. Qed.

Lemma scratch_axis_min_max (a : extent) (v : Z) :
  (lo a <= hi a)%Z ->
  lo (scratch_axis a v) = Z.min (lo a) v
  /\ hi (scratch_axis a v) = Z.max (hi a) v
  /\ (lo (scratch_axis a v) <= hi (scratch_axis a v))%Z.
Proof.
  intros H. unfold scratch_axis.
  destruct (Z.eqb_spec v (hi a)); [cbn [lo hi]; lia|].
  destruct (Z.ltb_spec v (lo a)); [cbn [lo hi]; lia|].
  destruct (Z.gtb_spec v (hi a)); cbn [lo hi]; lia.
Qed.

Lemma scratch_axis_fold_min_max (vs : list Z) (a : extent) :
  (lo a <= hi a)%Z ->
  lo (fold_left scratch_axis vs a) = fold_left Z.min vs (lo a)
  /\ hi (fold_left scratch_axis vs a) = fold_left Z.max vs (hi a).
Proof.
  revert a. induction vs as [|v vs IH]; intros a H; cbn [fold_left]; [auto|].
  destruct (scratch_axis_min_max a v H) as (E1 & E2 & E3).
  destruct (IH (scratch_axis a v) E3) as [I1 I2]. rewrite I1, I2, E1, E2. auto.
Qed.

Lemma non_updateable_axis_min_max (a : Z * Z) (v : Z) :
  (fst a <= snd a)%Z ->
  non_updateable_axis a v = (Z.min (fst a) v, Z.max (snd a) v).
Proof.
  destruct a as [vmin vmax]. cbn [fst snd]. intros H. unfold non_updateable_axis.
  destruct (Z.ltb_spec v vmin); [f_equal; lia|].
  destruct (Z.gtb_spec v vmax); f_equal; lia.
Qed.

Lemma non_updateable_axis_fold (vs : list Z) (a : Z * Z) :
  (fst a <= snd a)%Z ->
  fold_left non_updateable_axis vs a
  = (fold_left Z.min vs (fst a), fold_left Z.max vs (snd a)).
Proof.
  revert a. induction vs as [|v vs IH]; intros a H; cbn [fold_left].
  - destruct a; reflexivity.
  - rewrite (non_updateable_axis_min_max a v H). rewrite IH; cbn [fst snd]; [reflexivity|lia].
Qed.

Lemma fold_min_clip (vs : list Z) (a limit : Z) :
  clip (fold_left Z.min vs a) limit
  = fold_left Z.min (map (fun v => clip v limit) vs) (clip a limit).
Proof.
  revert a. induction vs as [|v vs IH]; intros a; cbn [fold_left map]; [reflexivity|].
  rewrite IH, clip_min. reflexivity.
Qed.

Lemma fold_max_clip (vs : list Z) (a limit : Z) :
  clip (fold_left Z.max vs a) limit
  = fold_left Z.max (map (fun v => clip v limit) vs) (clip a limit).
Proof.
  revert a. induction vs as [|v vs IH]; intros a; cbn [fold_left map]; [reflexivity|].
  rewrite IH, clip_max. reflexivity.
Qed.

Lemma non_updateable_fold_axes (locs : block_locs_t) (sinks : list ClusterPinId)
    (ax ay : Z * Z) :
  fold_left (fun (acc : (Z * Z) * (Z * Z)) (pin_id : ClusterPinId) =>
               (non_updateable_axis (fst acc)
                  (loc_x (locs (pin_block nl pin_id))
                   + pin_width_offset nl (pin_block nl pin_id) (tile_pin_index nl pin_id))%Z,
                non_updateable_axis (snd acc)
                  (loc_y (locs (pin_block nl pin_id))
                   + pin_height_offset nl (pin_block nl pin_id) (tile_pin_index nl pin_id))%Z))
            sinks (ax, ay)
  = (fold_left non_updateable_axis
       (map (fun p => (loc_x (locs (pin_block nl p))
                       + pin_width_offset nl (pin_block nl p) (tile_pin_index nl p))%Z) sinks)
       ax,
     fold_left non_updateable_axis
       (map (fun p => (loc_y (locs (pin_block nl p))
                       + pin_height_offset nl (pin_block nl p) (tile_pin_index nl p))%Z) sinks)
       ay).
Proof.
  revert ax ay. induction sinks as [|p sinks IH]; intros ax ay; [reflexivity|].
  cbn [fold_left map fst snd]. apply IH.
Qed.

(** [get_non_updateable_bb] and [get_bb_from_scratch] store the same
    box. *)
Lemma get_non_updateable_bb_box (locs : block_locs_t) (net_id : ClusterNetId) :
  get_non_updateable_bb locs net_id = fst (get_bb_from_scratch locs net_id).
Proof.
  unfold get_non_updateable_bb, get_bb_from_scratch. cbv zeta.
  rewrite scratch_fold_axes, non_updateable_fold_axes. cbn [fst snd].
  rewrite !non_updateable_axis_fold by (cbn [fst snd]; lia). cbn [fst snd].
  rewrite !fold_min_clip, !fold_max_clip, !map_map.
  match goal with
  | |- context [fold_left scratch_axis ?vs {| lo := ?x; hi := ?x; lo_edge := 1; hi_edge := 1 |}] =>
      destruct (scratch_axis_fold_min_max vs {| lo := x; hi := x; lo_edge := 1; hi_edge := 1 |})
        as [Ex1 Ex2]; [cbn [lo hi]; lia|]
  end.
  match goal with
  | |- context [fold_left scratch_axis ?vs {| lo := clipped_pin_y ?a ?b ?c; hi := ?x;
                                              lo_edge := 1; hi_edge := 1 |}] =>
      destruct (scratch_axis_fold_min_max vs {| lo := x; hi := x; lo_edge := 1; hi_edge := 1 |})
        as [Ey1 Ey2]; [cbn [lo hi]; lia|]
  end.
  rewrite Ex1, Ex2, Ey1, Ey2. cbn [lo hi]. unfold clipped_pin_x, clipped_pin_y.
  reflexivity.
Qed.

(** X1.  The box that [get_non_updateable_bb] computes, clipping the
    extremes at the end, is the box of [get_bb_from_scratch], which clips
    every pin before it compares. *)
Theorem get_non_updateable_bb_scratch (locs : block_locs_t) (net_id : ClusterNetId) :
  get_non_updateable_bb locs net_id = fst (get_bb_from_scratch locs net_id).
Proof.
  unfold get_non_updateable_bb, get_bb_from_scratch. cbv zeta.
  rewrite scratch_fold_axes, non_updateable_fold_axes. cbn [fst snd].
  rewrite !non_updateable_axis_fold by (cbn [fst snd]; lia). cbn [fst snd].
  rewrite !fold_min_clip, !fold_max_clip, !map_map.
  match goal with
  | |- context [fold_left scratch_axis ?vs {| lo := ?x; hi := ?x; lo_edge := 1; hi_edge := 1 |}] =>
      destruct (scratch_axis_fold_min_max vs {| lo := x; hi := x; lo_edge := 1; hi_edge := 1 |})
        as [Ex1 Ex2]; [cbn [lo hi]; lia|]
  end.
  match goal with
  | |- context [fold_left scratch_axis ?vs {| lo := clipped_pin_y ?a ?b ?c; hi := ?x;
                                              lo_edge := 1; hi_edge := 1 |}] =>
      destruct (scratch_axis_fold_min_max vs {| lo := x; hi := x; lo_edge := 1; hi_edge := 1 |})
        as [Ey1 Ey2]; [cbn [lo hi]; lia|]
  end.
  rewrite Ex1, Ex2, Ey1, Ey2. cbn [lo hi]. unfold clipped_pin_x, clipped_pin_y.
  reflexivity.
Qed.

Lemma count_le_length (v : Z) (l : list Z) : (count v l <= Z.of_nat (length l))%Z.
Proof.
  unfold count. induction l as [|w l IH]; cbn [count_occ length]; [lia|].
  destruct (Z.eq_dec w v); lia.
Qed.

Lemma is_extent_bounds (l : list Z) (a : extent) :
  is_extent l a ->
  (lo a <= hi a)%Z
  /\ (1 <= lo_edge a <= Z.of_nat (length l))%Z
  /\ (1 <= hi_edge a <= Z.of_nat (length l))%Z.
Proof.
  intros (H1 & H2 & H3 & H4 & H5 & H6).
  split; [apply H2; exact H3|].
  rewrite H5, H6.
  pose proof (proj2 (count_pos_In (lo a) l) H1).
  pose proof (proj2 (count_pos_In (hi a) l) H3).
  pose proof (count_le_length (lo a) l). pose proof (count_le_length (hi a) l). lia.
Qed.

(** X2.  The box of [get_bb_from_scratch] is well formed: its lower
    corner is at least (1, 1) and not beyond its upper corner, the upper
    corner is within the channels of the grid when the grid has any, and
    each edge count is between one and the number of pins of the net. *)
Theorem get_bb_from_scratch_bounds (locs : block_locs_t) (net_id : ClusterNetId) :
  let m := get_bb_from_scratch locs net_id in
  let pins := Z.of_nat (S (length (net_sinks nl net_id))) in
  (1 <= xmin (fst m) <= xmax (fst m))%Z
  /\ (1 <= ymin (fst m) <= ymax (fst m))%Z
  /\ ((3 <= grid_width)%Z -> (xmax (fst m) <= grid_width - 2)%Z)
  /\ ((3 <= grid_height)%Z -> (ymax (fst m) <= grid_height - 2)%Z)
  /\ (1 <= xmin (snd m) <= pins)%Z /\ (1 <= xmax (snd m) <= pins)%Z
  /\ (1 <= ymin (snd m) <= pins)%Z /\ (1 <= ymax (snd m) <= pins)%Z.
Proof.
  intros m pins. destruct (get_bb_from_scratch_extents locs net_id) as [Hx Hy].
  fold m in Hx, Hy.
  assert (Hlen : forall f : ClusterBlockId * Z -> Z,
             Z.of_nat (length (map f (net_pin_sites nl net_id))) = pins).
  { intros f. unfold net_pin_sites. rewrite length_map. cbn [length].
    rewrite length_map. reflexivity. }
  destruct (is_extent_bounds _ _ Hx) as (Bx1 & Bx2 & Bx3).
  destruct (is_extent_bounds _ _ Hy) as (By1 & By2 & By3).
  rewrite Hlen in Bx2, Bx3, By2, By3.
  destruct Hx as (Hx1 & _ & Hx3 & _). destruct Hy as (Hy1 & _ & Hy3 & _).
  apply in_map_iff in Hx1, Hx3, Hy1, Hy3.
  destruct Hx1 as (s1 & E1 & _), Hx3 as (s2 & E2 & _),
           Hy1 as (s3 & E3 & _), Hy3 as (s4 & E4 & _).
  unfold x_extent, y_extent in *. cbn [lo hi lo_edge hi_edge] in *.
  unfold site_x, site_y, clipped_pin_x, clipped_pin_y, clip in *.
  repeat split; try lia.
Qed.

(** *** The sign of a net cost *)

Lemma cross_count_positive :
  Forall (fun c => exists r, c = Fin r /\ (1 <= r)%R) cross_count.
Proof.
  unfold cross_count. cbn [map].
  repeat (constructor; [eexists; split; [reflexivity | lra]|]). constructor.
Qed.

Lemma wirelength_crossing_count_positive (fanout : nat) :
  (1 <= fanout)%nat ->
  exists r, wirelength_crossing_count fanout = Fin r /\ (1 <= r)%R.
Proof.
  intros H. destruct (Nat.le_gt_cases fanout 50) as [Hs|Hl].
  - rewrite wirelength_crossing_count_table by lia.
    pose proof cross_count_positive as Hf. rewrite Forall_forall in Hf.
    apply Hf. apply nth_In. rewrite cross_count_length. lia.
  - rewrite wirelength_crossing_count_large by lia.
    eexists. split; [reflexivity|].
    assert (50 < INR fanout)%R.
    { replace 50%R with (INR 50) by (simpl; lra). apply lt_INR. lia. }
    lra.
Qed.

(** X3.  A net with at least one pin, a box that is not inside out and
    channel factors that are not negative: the cost of the net is a finite
    value that is not negative, and so is never mistaken for the mark
    [proposed_net_cost < 0] of a net that is not yet recorded. *)
Theorem get_net_cost_not_negative (net_id : ClusterNetId) (bb : t_bb) (fx fy : R) :
  (1 <= length (net_pins nl net_id))%nat ->
  (xmin bb <= xmax bb)%Z -> (ymin bb <= ymax bb)%Z ->
  chanx_place_cost_fac (ymax bb) (ymin bb - 1)%Z = Fin fx -> (0 <= fx)%R ->
  chany_place_cost_fac (xmax bb) (xmin bb - 1)%Z = Fin fy -> (0 <= fy)%R ->
  (exists c, get_net_cost net_id bb = Fin c /\ (0 <= c)%R)
  /\ (get_net_cost net_id bb <? Fin 0)%fp = false.
Proof.
  intros Hp Hx Hy Ex Hfx Ey Hfy.
  destruct (wirelength_crossing_count_positive _ Hp) as (r & Er & Hr).
  rewrite (get_net_cost_real net_id bb r fx fy Er Ex Ey).
  assert (Hdx : (1 <= IZR (xmax bb - xmin bb + 1))%R) by (apply IZR_le; lia).
  assert (Hdy : (1 <= IZR (ymax bb - ymin bb + 1))%R) by (apply IZR_le; lia).
  assert (Hc : (0 <= IZR (xmax bb - xmin bb + 1) * r * fx
                     + IZR (ymax bb - ymin bb + 1) * r * fy)%R).
  { apply Rplus_le_le_0_compat; apply Rmult_le_pos; try assumption;
      apply Rmult_le_pos; lra. }
  split; [eexists; split; [reflexivity | exact Hc]|].
  cbn [flt]. destruct (Rlt_dec _ 0); [lra | reflexivity].
Qed.

(** *** The costs from scratch *)

Lemma comp_bb_cost_step_spec (method : e_cost_methods) (locs : block_locs_t)
    (acc : bb_state * nc_state * fp * fp) (a : ClusterNetId) :
  let r := comp_bb_cost_step method locs acc a in
  (net_is_ignored nl a = false -> bb_cost_entry method locs r a)
  /\ (forall n, bb_cost_entry method locs acc n -> bb_cost_entry method locs r n)
  /\ snd (fst r)
     = (if negb (net_is_ignored nl a)
        then (snd (fst acc) + get_net_cost a (fst (get_bb_from_scratch locs a)))%fp
        else snd (fst acc)).
Proof.
  destruct acc as [[[bb nc] cost] wl]. unfold comp_bb_cost_step, bb_cost_entry.
  destruct (net_is_ignored nl a) eqn:Hi; cbn [negb fst snd].
  - split; [discriminate|]. split; [auto | reflexivity].
  - rewrite get_non_updateable_bb_box.
    destruct (SMALL_NET <=? length (net_sinks nl a))%nat eqn:Hs, method;
      cbn [andb fst snd set_bb_num_on_edges set_bb_coords set_net_cost
           bb_coords bb_num_on_edges net_cost];
      rewrite ?upd_same.
    all: split; [intros _; split; [reflexivity|]; split; [reflexivity|];
                 intros Hm Hl; try discriminate;
                 try (apply Nat.leb_gt in Hs; lia); reflexivity|].
    all: split; [|reflexivity].
    all: intros n (H1 & H2 & H3); destruct (Nat.eq_dec n a) as [->|Hne];
      rewrite ?upd_same, ?upd_other by exact Hne.
    all: split; [try reflexivity; exact H1|]; split; [try reflexivity; exact H2|].
    all: intros Hm Hl; try discriminate; try (apply Nat.leb_gt in Hs; lia);
      try reflexivity; apply H3; assumption.
Qed.

Lemma comp_bb_cost_fold (method : e_cost_methods) (locs : block_locs_t)
    (l : list ClusterNetId) (acc : bb_state * nc_state * fp * fp) :
  let r := fold_left (comp_bb_cost_step method locs) l acc in
  (forall n, bb_cost_entry method locs acc n \/ (In n l /\ net_is_ignored nl n = false) ->
             bb_cost_entry method locs r n)
  /\ snd (fst r)
     = fold_left (fun cost n =>
                    if negb (net_is_ignored nl n)
                    then (cost + get_net_cost n (fst (get_bb_from_scratch locs n)))%fp
                    else cost) l (snd (fst acc)).
Proof.
  revert acc. induction l as [|a l IH]; intros acc; cbn [fold_left].
  - split; [intros n [H|[[] _]]; exact H | reflexivity].
  - destruct (comp_bb_cost_step_spec method locs acc a) as (Ha & Hk & Hc).
    cbv zeta in IH. destruct (IH (comp_bb_cost_step method locs acc a)) as [I1 I2].
    split.
    + intros n [H|[[->|Hin] Hi]]; apply I1; auto.
    + rewrite I2, Hc. reflexivity.
Qed.

Lemma fold_left_ext_in {A B} (f g : A -> B -> A) (l : list B) (a : A) :
  (forall x b, In b l -> f x b = g x b) -> fold_left f l a = fold_left g l a.
Proof.
  revert a. induction l as [|b l IH]; intros a H; cbn [fold_left]; [reflexivity|].
  rewrite (H a b (or_introl eq_refl)). apply IH. intros x c Hc. apply H. right. exact Hc.
Qed.

(** X4.  The cost that [comp_bb_cost] returns, and the box and the cost it
    stores for every net, are the same under NORMAL and under CHECK and do
    not depend on what the arrays held before. *)
Theorem comp_bb_cost_methods_agree (locs : block_locs_t) (s s' : bb_state * nc_state) :
  let normal := comp_bb_cost NORMAL locs s in
  let check := comp_bb_cost CHECK locs s' in
  snd (fst normal) = snd (fst check)
  /\ forall n, In n (nets nl) -> net_is_ignored nl n = false ->
               bb_coords (fst (fst (fst normal))) n = bb_coords (fst (fst (fst check))) n
               /\ net_cost (snd (fst (fst normal))) n = net_cost (snd (fst (fst check))) n.
Proof.
  intros normal check. subst normal check. unfold comp_bb_cost.
  destruct (comp_bb_cost_fold NORMAL locs (nets nl) (fst s, snd s, Fin 0, Fin 0)) as [N1 N2].
  destruct (comp_bb_cost_fold CHECK locs (nets nl) (fst s', snd s', Fin 0, Fin 0)) as [C1 C2].
  split; [rewrite N2, C2; reflexivity|].
  intros n Hin Hi.
  destruct (N1 n (or_intror (conj Hin Hi))) as (A1 & A2 & _).
  destruct (C1 n (or_intror (conj Hin Hi))) as (B1 & B2 & _).
  split; congruence.
Qed.

(** X5.  [comp_bb_cost] leaves the arrays consistent: for every net that
    is not ignored the stored cost is the cost of the stored box, the box is
    the one computed from scratch (with its edge counts for a net of at
    least SMALL_NET sinks under NORMAL), and the cost returned is the total
    that [recompute_bb_cost] finds in [net_cost]. *)
Theorem comp_bb_cost_consistent (method : e_cost_methods) (locs : block_locs_t)
    (s : bb_state * nc_state) :
  let r := comp_bb_cost method locs s in
  let bb := fst (fst (fst r)) in
  let nc := snd (fst (fst r)) in
  snd (fst r) = recompute_bb_cost nc
  /\ forall n, In n (nets nl) -> net_is_ignored nl n = false ->
               net_cost nc n = get_net_cost n (bb_coords bb n)
               /\ bb_coords bb n = fst (get_bb_from_scratch locs n)
               /\ (method = NORMAL -> (SMALL_NET <= length (net_sinks nl n))%nat ->
                   (bb_coords bb n, bb_num_on_edges bb n) = get_bb_from_scratch locs n).
Proof.
  intros r bb nc. subst bb nc r. unfold comp_bb_cost.
  destruct (comp_bb_cost_fold method locs (nets nl) (fst s, snd s, Fin 0, Fin 0)) as [H1 H2].
  split.
  - rewrite H2. unfold recompute_bb_cost. cbn [fst snd]. apply fold_left_ext_in.
    intros x n Hin. destruct (net_is_ignored nl n) eqn:Hi; cbn [negb]; [reflexivity|].
    destruct (H1 n (or_intror (conj Hin Hi))) as (_ & E & _). rewrite E. reflexivity.
  - intros n Hin Hi. destruct (H1 n (or_intror (conj Hin Hi))) as (E1 & E2 & E3).
    split; [rewrite E2, E1; reflexivity|]. split; [exact E1|].
    intros Hm Hl. rewrite E1, (E3 Hm Hl). destruct (get_bb_from_scratch locs n); reflexivity.
Qed.

Lemma within_tolerance_self (c : R) :
  (0 <= c)%R -> (fabs (Fin c - Fin c) >? Fin c * ERROR_TOL)%fp = false.
Proof.
  intros H. unfold ERROR_TOL, fsub, fgt. cbn [fneg fadd fmul fabs flt].
  replace (c + - c)%R with 0%R by lra. rewrite Rabs_R0.
  destruct (Rlt_dec (c * 0.01) 0); [lra | reflexivity].
Qed.

(** X6.  The check of [check_place] passes on costs that were computed
    from scratch: when [costs.bb_cost] is the value of
    [comp_bb_cost(NORMAL)] on the present locations, and for a
    timing-driven placement [costs.timing_cost] is the value of
    [comp_td_costs], both finite and not negative, [check_placement_costs]
    counts no error; it never counts more than two. *)
Theorem check_placement_costs_from_scratch (costs : t_placer_costs)
    (place_algorithm : e_place_algorithm) (crit : ClusterNetId -> nat -> fp)
    (locs : block_locs_t) (s0 : bb_state * nc_state)
    (s : bb_state * nc_state * td_state) (c : R) :
  bb_cost costs = snd (fst (comp_bb_cost NORMAL locs s0)) ->
  bb_cost costs = Fin c -> (0 <= c)%R ->
  (place_algorithm = PATH_TIMING_DRIVEN_PLACE ->
   exists t, timing_cost costs = snd (comp_td_costs crit (snd s))
             /\ timing_cost costs = Fin t /\ (0 <= t)%R) ->
  fst (check_placement_costs costs place_algorithm crit locs s) = 0%Z
  /\ forall costs' alg' s',
       (0 <= fst (check_placement_costs costs' alg' crit locs s') <= 2)%Z.
Proof.
  intros Hbb Hc Hpos Htd. split.
  - unfold check_placement_costs.
    assert (Hcheck : snd (fst (comp_bb_cost CHECK locs (fst s))) = Fin c).
    { rewrite <- Hc, Hbb. unfold comp_bb_cost.
      destruct (comp_bb_cost_fold NORMAL locs (nets nl) (fst s0, snd s0, Fin 0, Fin 0))
        as [_ N].
      destruct (comp_bb_cost_fold CHECK locs (nets nl) (fst (fst s), snd (fst s), Fin 0, Fin 0))
        as [_ C].
      rewrite N, C. reflexivity. }
    rewrite Hcheck, Hc, (within_tolerance_self c Hpos).
    destruct place_algorithm; cbn [fst]; [reflexivity|].
    destruct (Htd eq_refl) as (t & E1 & E2 & Ht).
    rewrite <- E1, E2, (within_tolerance_self t Ht). reflexivity.
  - intros costs' alg' s'. unfold check_placement_costs.
    destruct alg'; cbn [fst];
      repeat match goal with
             | |- context [if ?b then _ else _] => destruct b
             end; lia.
Qed.

(** *** What a trial leaves of the committed state *)

Lemma update_bb_committed (locs : block_locs_t) (net : ClusterNetId)
    (xold yold xnew ynew : Z) (s : bb_state) :
  bb_coords (update_bb locs net xold yold xnew ynew s) = bb_coords s
  /\ bb_num_on_edges (update_bb locs net xold yold xnew ynew s) = bb_num_on_edges s.
Proof.
  unfold update_bb.
  destruct (bb_updated_before s net) eqn:Hf;
    repeat match goal with
           | |- context [match ?x with Some _ => _ | None => _ end] => destruct x
           | |- context [if ?c then _ else _] => destruct c
           end;
    split; reflexivity.
Qed.

Lemma update_net_bb_committed (locs : block_locs_t) (net : ClusterNetId)
    (mb : t_pl_moved_block) (blk : ClusterBlockId) (blk_pin : ClusterPinId)
    (s : bb_state) :
  bb_coords (update_net_bb locs net mb blk blk_pin s) = bb_coords s
  /\ bb_num_on_edges (update_net_bb locs net mb blk blk_pin s) = bb_num_on_edges s.
Proof.
  unfold update_net_bb. destruct (_ <? _)%nat.
  - destruct (bb_updated_before s net); split; reflexivity.
  - apply update_bb_committed.
Qed.

Lemma record_affected_net_cost (net : ClusterNetId) (nc : nc_state) (num : nat) :
  net_cost (fst (record_affected_net net (nc, num))) = net_cost nc.
Proof.
  unfold record_affected_net. destruct (_ <? _)%fp; reflexivity.
Qed.

Lemma same_committed_trans (td td1 td2 : td_state) :
  same_committed td td1 -> same_committed td1 td2 -> same_committed td td2.
Proof.
  intros (A1 & A2 & A3) (B1 & B2 & B3). unfold same_committed.
  rewrite B1, B2, B3. auto.
Qed.

Lemma same_committed_refl (td : td_state) : same_committed td td.
Proof. unfold same_committed. auto. Qed.

Lemma affected_pin_step_committed (alg : e_place_algorithm)
    (crit : ClusterNetId -> nat -> fp) (locs : block_locs_t)
    (mb : t_pl_moved_block) (pin : ClusterPinId) (acc acc' : affected_acc)
    (bb0 : bb_state) (nc0 : nc_state) (td0 : td_state) :
  affected_pin_step alg crit locs mb acc pin = Ok acc' ->
  same_committed_nets bb0 (fst (fst (fst (fst (fst acc))))) nc0
                      (snd (fst (fst (fst (fst acc)))))
  /\ same_committed td0 (snd (fst (fst (fst acc)))) ->
  same_committed_nets bb0 (fst (fst (fst (fst (fst acc'))))) nc0
                      (snd (fst (fst (fst (fst acc')))))
  /\ same_committed td0 (snd (fst (fst (fst acc')))).
Proof.
  destruct acc as [[[[[bb nc] td] ba] n] d]. cbn [fst snd].
  unfold affected_pin_step. destruct (net_is_ignored nl (pin_net nl pin)).
  - intros H. injection H as <-. cbn [fst snd]. auto.
  - pose proof (record_affected_net_cost (pin_net nl pin) nc n) as Hr.
    destruct (record_affected_net (pin_net nl pin) (nc, n)) as [nc1 n1].
    cbn [fst] in Hr.
    destruct (update_net_bb_committed locs (pin_net nl pin) mb (block_num mb) pin bb)
      as [Hb1 Hb2].
    intros H [(C1 & C2 & C3) Ctd].
    assert (Hnets : same_committed_nets bb0
                      (update_net_bb locs (pin_net nl pin) mb (block_num mb) pin bb)
                      nc0 nc1).
    { unfold same_committed_nets. rewrite Hb1, Hb2, Hr. auto. }
    destruct alg.
    + injection H as <-. cbn [fst snd]. auto.
    + destruct (update_td_delta_costs crit locs (pin_net nl pin) pin (td, ba, d))
        as [[[td1 ba1] d1]|err] eqn:Hu; cbn [bind] in H; [|discriminate].
      injection H as <-. cbn [fst snd]. split; [exact Hnets|].
      apply update_td_delta_costs_pins in Hu. destruct Hu as (Hc & _).
      apply (same_committed_trans _ _ _ Ctd Hc).
Qed.

Lemma affected_net_costs_cost (bb : bb_state) (num : nat) (nc : nc_state) (d : fp) :
  net_cost (fst (affected_net_costs bb num (nc, d))) = net_cost nc
  /\ ts_nets_to_update (fst (affected_net_costs bb num (nc, d))) = ts_nets_to_update nc.
Proof.
  unfold affected_net_costs. generalize (seq 0 num). intros l. revert nc d.
  induction l as [|i l IH]; intros nc d; cbn [fold_left fst]; [auto|].
  destruct (IH (set_proposed_net_cost (ts_nets_to_update nc i)
                  (get_net_cost (ts_nets_to_update nc i)
                     (ts_bb_coord_new bb (ts_nets_to_update nc i))) nc)
               (d + (proposed_net_cost
                       (set_proposed_net_cost (ts_nets_to_update nc i)
                          (get_net_cost (ts_nets_to_update nc i)
                             (ts_bb_coord_new bb (ts_nets_to_update nc i))) nc)
                       (ts_nets_to_update nc i)
                     - net_cost
                         (set_proposed_net_cost (ts_nets_to_update nc i)
                            (get_net_cost (ts_nets_to_update nc i)
                               (ts_bb_coord_new bb (ts_nets_to_update nc i))) nc)
                         (ts_nets_to_update nc i)))%fp) as [E1 E2].
  rewrite E1, E2. auto.
Qed.

Lemma find_affected_committed (alg : e_place_algorithm) (crit : ClusterNetId -> nat -> fp)
    (locs : block_locs_t) (bb bb' : bb_state) (nc nc' : nc_state) (td td' : td_state)
    (ba ba' : t_pl_blocks_to_be_moved) (bbd tdd bbd' tdd' : fp) (num : nat) :
  find_affected_nets_and_update_costs alg crit locs bb nc td ba bbd tdd
  = Ok (num, bb', nc', td', ba', bbd', tdd') ->
  same_committed_nets bb bb' nc nc' /\ same_committed td td'.
Proof.
  intros H. unfold find_affected_nets_and_update_costs in H.
  match type of H with
  | bind ?c _ = _ => destruct c as [[[[[[bb1 nc1] td1] ba1] n1] d1]|err] eqn:Hloop
  end; cbn [bind] in H; [|discriminate].
  destruct (affected_net_costs_cost bb1 n1 nc1 bbd) as [Hc _].
  destruct (affected_net_costs bb1 n1 (nc1, bbd)) as [nc2 bbd2]. cbn [fst] in Hc.
  injection H as <- <- <- <- <- <- <-.
  pose (P := fun acc : affected_acc =>
               same_committed_nets bb (fst (fst (fst (fst (fst acc))))) nc
                                   (snd (fst (fst (fst (fst acc)))))
               /\ same_committed td (snd (fst (fst (fst acc))))).
  assert (HP : P (bb1, nc1, td1, ba1, n1, d1)).
  { refine (foldM_invariant _ P _ _ _ _ Hloop _).
    - intros s mb s' Hs Hp. refine (foldM_invariant _ P _ _ _ _ Hs Hp).
      intros s0 pin s0' Hs0. apply affected_pin_step_committed with (1 := Hs0).
    - unfold P, same_committed_nets. cbn [fst snd]. split; [auto|].
      apply same_committed_refl. }
  destruct HP as [(C1 & C2 & C3) Ctd]. cbn [fst snd] in *.
  unfold same_committed_nets. rewrite Hc. auto.
Qed.

Lemma reset_move_nets_committed (num : nat) (bb : bb_state) (nc : nc_state) :
  same_committed_nets bb (fst (reset_move_nets num (bb, nc)))
                      nc (snd (reset_move_nets num (bb, nc))).
Proof.
  unfold reset_move_nets. generalize (seq 0 num). intros l.
  assert (H : forall bb1 nc1, same_committed_nets bb bb1 nc nc1 ->
              same_committed_nets bb
                (fst (fold_left
                        (fun '(bb, nc) inet_affected =>
                           let net_id := ts_nets_to_update nc inet_affected in
                           let nc := set_proposed_net_cost net_id (Fin (-1)) nc in
                           (set_bb_flag net_id NOT_UPDATED_YET bb, nc)) l (bb1, nc1)))
                nc
                (snd (fold_left
                        (fun '(bb, nc) inet_affected =>
                           let net_id := ts_nets_to_update nc inet_affected in
                           let nc := set_proposed_net_cost net_id (Fin (-1)) nc in
                           (set_bb_flag net_id NOT_UPDATED_YET bb, nc)) l (bb1, nc1)))).
  { induction l as [|i l IH]; intros bb1 nc1 Hs; cbn [fold_left]; [exact Hs|].
    apply IH. exact Hs. }
  apply H. unfold same_committed_nets. auto.
Qed.

(** X7.  A trial that is not accepted leaves the committed state as it
    was: [costs], the committed boxes, edge counts and net costs, and the
    committed connection delays, connection costs and net timing costs. *)
Theorem rejected_trial_leaves_committed (t : fp) (costs : t_placer_costs)
    (prev_inverse_costs : t_placer_prev_inverse_costs) (rlim : fp)
    (blocks_affected : t_pl_blocks_to_be_moved) (rlim_escape_fraction : fp)
    (place_algorithm : e_place_algorithm) (timing_tradeoff : fp)
    (st : placer_state) (move_outcome : e_move_result) (costs' : t_placer_costs)
    (blocks_affected' : t_pl_blocks_to_be_moved) (st' : placer_state) :
  try_swap t costs prev_inverse_costs rlim blocks_affected rlim_escape_fraction
    place_algorithm timing_tradeoff st
  = Ok (move_outcome, costs', blocks_affected', st') ->
  move_outcome <> ACCEPTED ->
  costs' = costs
  /\ same_committed_nets (ps_bb st) (ps_bb st') (ps_nc st) (ps_nc st')
  /\ same_committed (ps_td st) (ps_td st').
Proof.
  intros H Hn. apply try_swap_inv in H. cbv zeta in H.
  destruct H as [(_ & Ho & Hc & Hbb & Hnc & Htd & _)
                | (_ & num & bb & nc & td & ba1 & bbd & tdd & Hfind & H)].
  - rewrite Hbb, Hnc, Htd. split; [exact Hc|].
    split; [unfold same_committed_nets; auto | apply same_committed_refl].
  - destruct H as (Ho & _ & Hc & Hbb & Hnc & Htd & _).
    apply find_affected_committed in Hfind. destruct Hfind as [(F1 & F2 & F3) Ftd].
    rewrite Ho in Hn. rewrite Hc, Hbb, Hnc, Htd.
    destruct (fst (assess_swap _ t _)); [|contradiction Hn; reflexivity|].
    all: cbn [reject_move fst snd ps_bb ps_nc ps_td].
    all: destruct (reset_move_nets_committed num bb nc) as (R1 & R2 & R3).
    all: split; [reflexivity|].
    all: split; [unfold same_committed_nets; rewrite R1, R2, R3; auto|].
    all: destruct place_algorithm; [exact Ftd|].
    all: apply (same_committed_trans _ _ _ Ftd), revert_td_cost_committed.
Qed.

(** *** The committed net costs after a trial *)

Lemma listed_snoc (nc : nc_state) (num : nat) (net : ClusterNetId) (v : fp) :
  map (ts_nets_to_update (set_proposed_net_cost net v (set_ts_nets_to_update num net nc)))
      (seq 0 (S num))
  = map (ts_nets_to_update nc) (seq 0 num) ++ [net].
Proof.
  rewrite seq_S, map_app. cbn [map Nat.add set_proposed_net_cost set_ts_nets_to_update
                                ts_nets_to_update].
  rewrite upd_same. f_equal. apply map_ext_in. intros i Hi. apply in_seq in Hi.
  apply upd_other. lia.
Qed.

Lemma record_affected_net_once (bb : bb_state) (nc : nc_state) (num : nat)
    (net : ClusterNetId) :
  recorded_once bb nc num ->
  recorded_once bb (fst (record_affected_net net (nc, num)))
                (snd (record_affected_net net (nc, num)))
  /\ In net (map (ts_nets_to_update (fst (record_affected_net net (nc, num))))
                 (seq 0 (snd (record_affected_net net (nc, num))))).
Proof.
  intros [Hnd Hall]. unfold record_affected_net.
  destruct (proposed_net_cost nc net <? Fin 0)%fp eqn:Hlt; cbn [fst snd].
  - assert (Hnot : ~ In net (map (ts_nets_to_update nc) (seq 0 num))).
    { destruct (Hall net) as [[_ Hn]|[Hp _]]; [exact Hn|].
      rewrite Hp in Hlt. exfalso. revert Hlt. cbn [flt].
      destruct (Rlt_dec 1 0); [lra | discriminate]. }
    unfold recorded_once. rewrite listed_snoc. split; [split|].
    + apply NoDup_app; [exact Hnd | repeat constructor; intros [] |].
      intros x Hx [<-|[]]. contradiction.
    + intros m. destruct (Nat.eq_dec m net) as [->|Hne].
      * right. split; [|apply in_or_app; right; left; reflexivity].
        cbn [set_proposed_net_cost proposed_net_cost]. apply upd_same.
      * destruct (Hall m) as [[[Hq1 Hq2] Hn]|[Hp Hin]].
        -- left. split; [split; [|exact Hq2]|].
           ++ cbn [set_proposed_net_cost set_ts_nets_to_update proposed_net_cost].
              rewrite upd_other by exact Hne. exact Hq1.
           ++ intros Hin. apply in_app_or in Hin. destruct Hin as [Hin|[E|[]]]; auto.
        -- right. split; [|apply in_or_app; left; exact Hin].
           cbn [set_proposed_net_cost set_ts_nets_to_update proposed_net_cost].
           rewrite upd_other by exact Hne. exact Hp.
    + apply in_or_app. right. left. reflexivity.
  - split; [split; assumption|].
    destruct (Hall net) as [[[Hq _] _]|[_ Hin]]; [|exact Hin].
    rewrite Hq, quiet_fp in Hlt. discriminate.
Qed.

Lemma recorded_once_update_net_bb (locs : block_locs_t) (net : ClusterNetId)
    (mb : t_pl_moved_block) (blk : ClusterBlockId) (blk_pin : ClusterPinId)
    (bb : bb_state) (nc : nc_state) (num : nat) :
  recorded_once bb nc num ->
  In net (map (ts_nets_to_update nc) (seq 0 num)) ->
  recorded_once (update_net_bb locs net mb blk blk_pin bb) nc num.
Proof.
  intros [Hnd Hall] Hin. split; [exact Hnd|]. intros m.
  destruct (Hall m) as [[[Hq1 Hq2] Hn]|Hr]; [|right; exact Hr].
  left. split; [|exact Hn]. split; [exact Hq1|].
  rewrite update_net_bb_other_flags; [exact Hq2|]. intros ->. contradiction.
Qed.

Lemma affected_pin_step_once (alg : e_place_algorithm)
    (crit : ClusterNetId -> nat -> fp) (locs : block_locs_t)
    (mb : t_pl_moved_block) (pin : ClusterPinId) (acc acc' : affected_acc) :
  affected_pin_step alg crit locs mb acc pin = Ok acc' ->
  recorded_once (fst (fst (fst (fst (fst acc))))) (snd (fst (fst (fst (fst acc)))))
                (snd (fst acc)) ->
  recorded_once (fst (fst (fst (fst (fst acc'))))) (snd (fst (fst (fst (fst acc')))))
                (snd (fst acc')).
Proof.
  destruct acc as [[[[[bb nc] td] ba] n] d]. cbn [fst snd].
  unfold affected_pin_step. destruct (net_is_ignored nl (pin_net nl pin)).
  - intros H. injection H as <-. cbn [fst snd]. auto.
  - pose proof (record_affected_net_once bb nc n (pin_net nl pin)) as Hr.
    destruct (record_affected_net (pin_net nl pin) (nc, n)) as [nc1 n1].
    cbn [fst snd] in Hr. intros H Hm. destruct (Hr Hm) as [Hm1 Hl].
    assert (Hm2 := recorded_once_update_net_bb locs (pin_net nl pin) mb (block_num mb)
                     pin bb nc1 n1 Hm1 Hl).
    destruct alg.
    + injection H as <-. cbn [fst snd]. exact Hm2.
    + destruct (update_td_delta_costs crit locs (pin_net nl pin) pin (td, ba, d))
        as [[[td1 ba1] d1]|err]; cbn [bind] in H; [|discriminate].
      injection H as <-. cbn [fst snd]. exact Hm2.
Qed.

(** The second loop of [find_affected_nets_and_update_costs] over the
    indices [l]. *)
Lemma affected_net_costs_proposed (bb : bb_state) (l : list nat) (nc : nc_state) (d : fp) :
  let r := fold_left (fun '(nc, bb_delta_c) inet_affected =>
                        let net_id := ts_nets_to_update nc inet_affected in
                        let nc := set_proposed_net_cost net_id
                                    (get_net_cost net_id (ts_bb_coord_new bb net_id)) nc in
                        (nc, (bb_delta_c
                              + (proposed_net_cost nc net_id - net_cost nc net_id))%fp))
                     l (nc, d) in
  ts_nets_to_update (fst r) = ts_nets_to_update nc
  /\ (forall net, In net (map (ts_nets_to_update nc) l) ->
        proposed_net_cost (fst r) net = get_net_cost net (ts_bb_coord_new bb net))
  /\ (forall net, ~ In net (map (ts_nets_to_update nc) l) ->
        proposed_net_cost (fst r) net = proposed_net_cost nc net).
Proof.
  revert nc d. induction l as [|i l IH]; intros nc d; cbn [fold_left map].
  - cbn [fst]. split; [reflexivity|]. split; [intros net []|reflexivity].
  - set (net_i := ts_nets_to_update nc i).
    set (nc1 := set_proposed_net_cost net_i (get_net_cost net_i (ts_bb_coord_new bb net_i)) nc).
    cbv zeta in IH.
    destruct (IH nc1 (d + (proposed_net_cost nc1 net_i - net_cost nc1 net_i))%fp)
      as (I1 & I2 & I3).
    change (ts_nets_to_update nc1) with (ts_nets_to_update nc) in *.
    split; [exact I1|]. split.
    + intros net Hin.
      destruct (in_dec Nat.eq_dec net (map (ts_nets_to_update nc) l)) as [Hl|Hl].
      * apply I2. exact Hl.
      * destruct Hin as [<-|Hin]; [|contradiction].
        rewrite (I3 _ Hl). subst nc1. cbn [set_proposed_net_cost proposed_net_cost].
        apply upd_same.
    + intros net Hn. rewrite I3 by (intros Hl; apply Hn; right; exact Hl).
      subst nc1. cbn [set_proposed_net_cost proposed_net_cost].
      apply upd_other. intros ->. apply Hn. left. reflexivity.
Qed.

(** The loop of [update_move_nets] over distinct entries. *)
Lemma update_move_nets_commits (l : list nat) (bb : bb_state) (nc : nc_state) :
  NoDup (map (ts_nets_to_update nc) l) ->
  let r := fold_left (fun '(bb, nc) inet_affected =>
               let net_id := ts_nets_to_update nc inet_affected in
               let bb := set_bb_coords net_id (ts_bb_coord_new bb net_id) bb in
               let bb := if (SMALL_NET <=? length (net_sinks nl net_id))%nat
                         then set_bb_num_on_edges net_id (ts_bb_edge_new bb net_id) bb
                         else bb in
               let nc := set_net_cost net_id (proposed_net_cost nc net_id) nc in
               let nc := set_proposed_net_cost net_id (Fin (-1)) nc in
               (set_bb_flag net_id NOT_UPDATED_YET bb, nc)) l (bb, nc) in
  (forall net, In net (map (ts_nets_to_update nc) l) ->
     bb_coords (fst r) net = ts_bb_coord_new bb net
     /\ net_cost (snd r) net = proposed_net_cost nc net
     /\ ((SMALL_NET <= length (net_sinks nl net))%nat ->
         bb_num_on_edges (fst r) net = ts_bb_edge_new bb net))
  /\ (forall net, ~ In net (map (ts_nets_to_update nc) l) ->
        bb_coords (fst r) net = bb_coords bb net
        /\ bb_num_on_edges (fst r) net = bb_num_on_edges bb net
        /\ net_cost (snd r) net = net_cost nc net
        /\ proposed_net_cost (snd r) net = proposed_net_cost nc net).
Proof.
  revert bb nc. induction l as [|i l IH]; intros bb nc Hnd; cbn [fold_left map].
  - cbn [fst snd]. split; [intros net []|auto].
  - cbn [map] in Hnd. inversion Hnd as [|x xs Hni Hnd']; subst.
    set (net_i := ts_nets_to_update nc i) in *.
    match goal with
    | |- context [fold_left _ l (?b, ?c)] => set (bb1 := b); set (nc1 := c)
    end.
    assert (Hts : ts_nets_to_update nc1 = ts_nets_to_update nc) by reflexivity.
    assert (Hcn : ts_bb_coord_new bb1 = ts_bb_coord_new bb).
    { subst bb1. destruct (SMALL_NET <=? _)%nat; reflexivity. }
    assert (Hen : ts_bb_edge_new bb1 = ts_bb_edge_new bb).
    { subst bb1. destruct (SMALL_NET <=? _)%nat; reflexivity. }
    assert (Hi : bb_coords bb1 net_i = ts_bb_coord_new bb net_i
                 /\ net_cost nc1 net_i = proposed_net_cost nc net_i
                 /\ ((SMALL_NET <= length (net_sinks nl net_i))%nat ->
                     bb_num_on_edges bb1 net_i = ts_bb_edge_new bb net_i)).
    { subst bb1 nc1. split; [|split].
      - destruct (SMALL_NET <=? _)%nat;
          cbn [set_bb_flag set_bb_num_on_edges set_bb_coords bb_coords]; apply upd_same.
      - cbn [set_proposed_net_cost set_net_cost net_cost]. apply upd_same.
      - intros Hl. apply Nat.leb_le in Hl. rewrite Hl.
        cbn [set_bb_flag set_bb_num_on_edges set_bb_coords bb_num_on_edges ts_bb_edge_new].
        apply upd_same. }
    assert (Ho : forall net, net <> net_i ->
                 bb_coords bb1 net = bb_coords bb net
                 /\ bb_num_on_edges bb1 net = bb_num_on_edges bb net
                 /\ net_cost nc1 net = net_cost nc net
                 /\ proposed_net_cost nc1 net = proposed_net_cost nc net).
    { intros net Hne. subst bb1 nc1.
      cbn [set_proposed_net_cost set_net_cost net_cost proposed_net_cost].
      rewrite !upd_other by exact Hne.
      destruct (SMALL_NET <=? _)%nat;
        cbn [set_bb_flag set_bb_num_on_edges set_bb_coords bb_coords bb_num_on_edges];
        rewrite ?upd_other by exact Hne; auto. }
    cbv zeta in IH. destruct (IH bb1 nc1) as [I1 I2]; [rewrite Hts; exact Hnd'|].
    rewrite Hts in I1, I2. rewrite Hcn, Hen in I1.
    split.
    + intros net [<-|Hin].
      * destruct (I2 net_i Hni) as (E1 & E2 & E3 & E4). destruct Hi as (F1 & F2 & F3).
        split; [congruence|]. split; [congruence|]. intros Hl. rewrite E2. auto.
      * destruct (I1 net Hin) as (E1 & E2 & E3).
        assert (Hne : net <> net_i) by (intros ->; contradiction).
        destruct (Ho net Hne) as (_ & _ & _ & O4).
        split; [exact E1|]. split; [congruence | exact E3].
    + intros net Hn.
      assert (Hne : net <> net_i) by (intros ->; apply Hn; left; reflexivity).
      destruct (I2 net (fun Hl => Hn (or_intror Hl))) as (E1 & E2 & E3 & E4).
      destruct (Ho net Hne) as (O1 & O2 & O3 & O4).
      repeat split; congruence.
Qed.

Lemma find_affected_once (alg : e_place_algorithm) (crit : ClusterNetId -> nat -> fp)
    (locs : block_locs_t) (bb bb' : bb_state) (nc nc' : nc_state) (td td' : td_state)
    (ba ba' : t_pl_blocks_to_be_moved) (bbd tdd bbd' tdd' : fp) (num : nat) :
  find_affected_nets_and_update_costs alg crit locs bb nc td ba bbd tdd
  = Ok (num, bb', nc', td', ba', bbd', tdd') ->
  quiesced_markers bb nc ->
  NoDup (map (ts_nets_to_update nc') (seq 0 num))
  /\ forall net, In net (map (ts_nets_to_update nc') (seq 0 num)) ->
                 proposed_net_cost nc' net = get_net_cost net (ts_bb_coord_new bb' net).
Proof.
  intros H Hq. unfold find_affected_nets_and_update_costs in H.
  match type of H with
  | bind ?c _ = _ => destruct c as [[[[[[bb1 nc1] td1] ba1] n1] d1]|err] eqn:Hloop
  end; cbn [bind] in H; [|discriminate].
  pose proof (affected_net_costs_proposed bb1 (seq 0 n1) nc1 bbd) as Hc.
  cbv zeta in Hc. unfold affected_net_costs in H.
  match type of H with
  | context [fold_left ?f ?l ?a] => destruct (fold_left f l a) as [nc2 bbd2] eqn:Hf
  end.
  cbn [fst] in Hc. destruct Hc as (Hts & Hin & _).
  injection H as <- <- <- <- <- <- <-.
  pose (P := fun acc : affected_acc =>
               recorded_once (fst (fst (fst (fst (fst acc)))))
                             (snd (fst (fst (fst (fst acc))))) (snd (fst acc))).
  assert (HP : P (bb1, nc1, td1, ba1, n1, d1)).
  { refine (foldM_invariant _ P _ _ _ _ Hloop _).
    - intros s mb s' Hs Hp. refine (foldM_invariant _ P _ _ _ _ Hs Hp).
      intros s0 pin s0' Hs0. apply affected_pin_step_once with (1 := Hs0).
    - unfold P, recorded_once. cbn [fst snd seq map]. split; [constructor|].
      intros net. left. split; [apply Hq | intros []]. }
  destruct HP as [Hnd _]. cbn [fst snd] in Hnd.
  rewrite Hts. split; [exact Hnd | exact Hin].
Qed.

(** X8.  Every returning trial that starts with the markers at rest keeps
    the committed cost of a net equal to the cost of its committed box: an
    accepted move commits, for every net it touched, the box of the trial
    together with the cost computed from that box, and leaves the other
    nets alone. *)
Theorem trial_keeps_net_cost_of_box (t : fp) (costs : t_placer_costs)
    (prev_inverse_costs : t_placer_prev_inverse_costs) (rlim : fp)
    (blocks_affected : t_pl_blocks_to_be_moved) (rlim_escape_fraction : fp)
    (place_algorithm : e_place_algorithm) (timing_tradeoff : fp)
    (st : placer_state) (move_outcome : e_move_result) (costs' : t_placer_costs)
    (blocks_affected' : t_pl_blocks_to_be_moved) (st' : placer_state) :
  try_swap t costs prev_inverse_costs rlim blocks_affected rlim_escape_fraction
    place_algorithm timing_tradeoff st
  = Ok (move_outcome, costs', blocks_affected', st') ->
  quiesced_markers (ps_bb st) (ps_nc st) ->
  forall net, net_cost_consistent (ps_bb st) (ps_nc st) net ->
              net_cost_consistent (ps_bb st') (ps_nc st') net.
Proof.
  intros H Hq net Hcons. unfold net_cost_consistent in *.
  apply try_swap_inv in H. cbv zeta in H.
  destruct H as [(_ & Ho & Hc & Hbb & Hnc & Htd & _)
                | (_ & num & bb & nc & td & ba1 & bbd & tdd & Hfind & H)].
  - rewrite Hbb, Hnc. exact Hcons.
  - destruct H as (Ho & _ & Hc & Hbb & Hnc & Htd & _).
    destruct (find_affected_committed _ _ _ _ _ _ _ _ _ _ _ _ _ _ _ _ Hfind)
      as [(F1 & F2 & F3) _].
    destruct (find_affected_once _ _ _ _ _ _ _ _ _ _ _ _ _ _ _ _ Hfind Hq) as [Hnd Hprop].
    rewrite Hbb, Hnc.
    destruct (fst (assess_swap _ t _)).
    1, 3: cbn [reject_move fst snd ps_bb ps_nc];
      destruct (reset_move_nets_committed num bb nc) as (R1 & R2 & R3);
      rewrite R1, R3, F1, F3; exact Hcons.
    cbn [accept_move fst snd ps_bb ps_nc]. unfold update_move_nets.
    pose proof (update_move_nets_commits (seq 0 num) bb nc Hnd) as Hu.
    cbv zeta in Hu |- *. destruct Hu as [Hin Hout].
    destruct (in_dec Nat.eq_dec net (map (ts_nets_to_update nc) (seq 0 num))) as [Hl|Hl].
    + destruct (Hin net Hl) as (E1 & E2 & _). rewrite E1, E2. apply Hprop. exact Hl.
    + destruct (Hout net Hl) as (E1 & _ & E3 & _). rewrite E1, E3, F1, F3. exact Hcons.
Qed.

(** *** Bounds of the annealing controller *)

(** X9.  [update_rlim] leaves a range limit between 1 and the larger grid
    dimension less one (or 1 on a grid of one column and one row),
    whatever finite or infinite value the product takes; only a NaN
    product stays NaN. *)
Theorem update_rlim_bounds (rlim success_rat : fp) :
  (1 <= grid_width < 2 ^ 64)%Z -> (1 <= grid_height < 2 ^ 64)%Z ->
  let product := (rlim * (Fin 1 - Fin 0.44 + success_rat))%fp in
  let upper := IZR (Z.max grid_width grid_height - 1) in
  (isnan product = true -> update_rlim grid_width grid_height rlim success_rat = NaN)
  /\ (isnan product = false ->
      exists x, update_rlim grid_width grid_height rlim success_rat = Fin x
                /\ (1 <= x <= Rmax 1 upper)%R).
Proof.
  intros HW HH product upper. unfold update_rlim, size_t_wrap, of_int.
  rewrite !Z.mod_small by lia.
  replace (Z.max (grid_width - 1) (grid_height - 1))
    with (Z.max grid_width grid_height - 1)%Z by lia.
  fold upper. fold product.
  assert (Hu : (0 <= upper)%R).
  { unfold upper. apply IZR_le. lia. }
  destruct product as [| | |p]; cbn [isnan]; split; intros Hn; try discriminate.
  - reflexivity.
  - unfold fmin. cbn [flt]. rewrite fmax_Fin. eexists. split; [reflexivity|].
    unfold Rmax. repeat match goal with
                        | |- context [Rle_dec ?a ?b] => destruct (Rle_dec a b)
                        end; lra.
  - unfold fmin, fmax. cbn [flt]. exists 1%R. unfold Rmax.
    split; [reflexivity|]. destruct (Rle_dec 1 upper); lra.
  - rewrite fmin_Fin, fmax_Fin. eexists. split; [reflexivity|].
    unfold Rmax, Rmin.
    destruct (Rle_dec p upper), (Rle_dec 1 upper);
      repeat match goal with
             | |- context [Rle_dec ?a ?b] => destruct (Rle_dec a b)
             end; lra.
Qed.

(** X10.  [get_std_dev] never returns NaN or a negative value, whatever
    its arguments are. *)
Theorem get_std_dev_not_negative (n : Z) (sum_x_squared av_x : fp) :
  isnan (get_std_dev n sum_x_squared av_x) = false
  /\ (get_std_dev n sum_x_squared av_x <? Fin 0)%fp = false.
Proof.
  unfold get_std_dev.
  set (v := if (n <=? 1)%Z then Fin 0
            else ((sum_x_squared - of_int n * av_x * av_x) / of_int (n - 1))%fp).
  destruct v as [| | |x]; unfold fgt; cbn [flt fsqrt isnan].
  - split; [reflexivity|]. destruct (Rlt_dec 0 0); [lra | reflexivity].
  - split; reflexivity.
  - split; [reflexivity|]. destruct (Rlt_dec 0 0); [lra | reflexivity].
  - destruct (Rlt_dec 0 x) as [Hx|Hx]; cbn [isnan flt].
    + destruct (Rlt_dec x 0); [lra|]. cbn [isnan flt]. split; [reflexivity|].
      pose proof (sqrt_pos x). destruct (Rlt_dec (sqrt x) 0); [lra | reflexivity].
    + split; [reflexivity|]. destruct (Rlt_dec 0 0); [lra | reflexivity].
Qed.

Ltac split_ifs :=
  repeat (match goal with
          | |- context [if ?c then _ else _] =>
              lazymatch c with
              | context [if _ then _ else _] => fail
              | _ => destruct c
              end
          end;
          cbn [fst snd ann_t ann_rlim inverse_delta_rlim ann_alpha restart_t
               crit_exponent move_lim_max move_lim]).

(** X11.  Under the AUTO schedule the temperature is multiplied by 0.5,
    0.9, 0.95 or 0.8: a positive temperature stays positive and gets
    strictly smaller at every outer iteration. *)
Theorem auto_schedule_cools (state : t_annealing_state) (success_rat : fp)
    (costs : t_placer_costs) (placer_opts : t_placer_opts)
    (annealing_sched : t_annealing_sched) (t : R) :
  sched_type annealing_sched = AUTO_SCHED ->
  ann_t state = Fin t -> (0 < t)%R ->
  let r := update_annealing_state state success_rat costs placer_opts annealing_sched in
  exists a, (a = 0.5 \/ a = 0.9 \/ a = 0.95 \/ a = 0.8)%R
            /\ ann_alpha (snd r) = Fin a
            /\ ann_t (snd r) = Fin (t * a)
            /\ (0 < t * a < t)%R.
Proof.
  intros Hs Ht Hpos r. subst r. unfold update_annealing_state. rewrite Hs.
  split_ifs; rewrite ?Ht; cbn [fmul].
  all: eexists; (split; [|split; [reflexivity|split; [reflexivity|nra]]]).
  all: auto.
Qed.

(** *** The counters of the inner loop *)

Lemma inner_loop_step_counts (t rlim : fp) (placer_opts : t_placer_opts) (move_lim : Z)
    (crit_exponent : fp) (inner_recompute_limit : Z)
    (prev_inverse_costs : t_placer_prev_inverse_costs)
    (a a' : inner_acc) (env env' : trial_env) (inner_iter : nat) :
  inner_loop_step t rlim placer_opts move_lim crit_exponent inner_recompute_limit
    prev_inverse_costs (a, env) inner_iter = Ok (a', env') ->
  counted (te_counters env) (te_counters env') (ia_stats a) (ia_stats a') 1.
Proof.
  unfold inner_loop_step. intros H.
  destruct (try_swap _ _ _ _ _ _ _ _ _) as [[[[o c] ba] st]|err];
    cbn [bind] in H; [|discriminate].
  destruct (place_algorithm placer_opts);
    [|destruct (_ && _)%bool; [destruct (recompute_criticalities _ _ _ _) as [[c0 td0] e0]|]];
    match type of H with
    | context [count_move_and_recompute ?p ?c ?s ?m] =>
        destruct (count_move_and_recompute p c s m) as [[[c1 s1] m1]|err]
    end; cbn [bind] in H; try discriminate;
    injection H as <- <-; cbn [ia_stats te_counters];
    destruct o; unfold counted, count_swap;
    cbn [success_sum num_swap_accepted num_swap_rejected num_swap_aborted]; lia.
Qed.

Lemma inner_loop_counts (t rlim : fp) (placer_opts : t_placer_opts) (move_lim : Z)
    (crit_exponent : fp) (inner_recompute_limit : Z)
    (prev_inverse_costs : t_placer_prev_inverse_costs) (iters : list nat)
    (a a' : inner_acc) (env env' : trial_env) :
  foldM (inner_loop_step t rlim placer_opts move_lim crit_exponent inner_recompute_limit
           prev_inverse_costs) iters (a, env) = Ok (a', env') ->
  counted (te_counters env) (te_counters env') (ia_stats a) (ia_stats a')
          (Z.of_nat (length iters)).
Proof.
  revert a env. induction iters as [|i iters IH]; intros a env H; cbn [foldM] in H.
  - injection H as <- <-. unfold counted. cbn [length]. lia.
  - destruct (inner_loop_step _ _ _ _ _ _ _ (a, env) i) as [[a1 env1]|err] eqn:Hs;
      cbn [bind] in H; [|discriminate].
    apply inner_loop_step_counts in Hs. apply IH in H.
    unfold counted in *. cbn [length]. lia.
Qed.


(** X14.  The success rate that [calc_placer_stats] computes from the
    statistics of a run of [placement_inner_loop] of at least one trial is
    the finite value [success_sum / move_lim], between 0 and 1; the count
    [success_sum] is left as it is. *)
Theorem success_rate_is_a_fraction (t rlim : fp) (placer_opts : t_placer_opts)
    (move_lim : Z) (crit_exponent : fp) (inner_recompute_limit : Z)
    (prev_inverse_costs : t_placer_prev_inverse_costs) (m m' : Z)
    (env env' : trial_env) (stats : t_placer_statistics) :
  placement_inner_loop t rlim placer_opts move_lim crit_exponent inner_recompute_limit
    prev_inverse_costs m env = Ok (stats, m', env') ->
  (1 <= move_lim)%Z ->
  let r := calc_placer_stats stats (te_costs env') move_lim in
  (exists q, snd (fst r) = Fin q /\ (0 <= q <= 1)%R
             /\ q = (IZR (success_sum stats) / IZR move_lim)%R)
  /\ success_sum (fst (fst r)) = success_sum stats.
Proof.
  intros H Hm r.
  assert (Hs : (0 <= success_sum stats <= move_lim)%Z).
  { unfold placement_inner_loop in H.
    match type of H with
    | bind ?c _ = _ => destruct c as [[a1 env1]|err] eqn:Hloop
    end; cbn [bind] in H; [|discriminate].
    injection H as <- _ _.
    apply inner_loop_counts in Hloop. unfold counted in Hloop.
    cbn [ia_stats success_sum] in Hloop. rewrite length_seq in Hloop. lia. }
  subst r. unfold calc_placer_stats. cbn [fst snd].
  split.
  - unfold of_int. cbn [fdiv].
    assert (Hpos : (0 < IZR move_lim)%R) by (apply IZR_lt; lia).
    destruct (Req_dec_T (IZR move_lim) 0); [lra|].
    eexists. split; [reflexivity|]. split; [|reflexivity].
    assert (H0 : (0 <= IZR (success_sum stats))%R) by (apply IZR_le; lia).
    assert (H1 : (IZR (success_sum stats) <= IZR move_lim)%R) by (apply IZR_le; lia).
    split.
    + apply Rmult_le_pos; [exact H0|]. apply Rlt_le, Rinv_0_lt_compat. exact Hpos.
    + apply (Rmult_le_reg_r (IZR move_lim)); [exact Hpos|]. field_simplify; lra.
  - destruct (success_sum stats =? 0)%Z; reflexivity.
Qed.

(** *** The inverse costs of the outer loop *)

(** X15.  In timing-driven mode [outer_loop_recompute_criticalities] never
    leaves an inverse timing cost above [MAX_INV_TIMING_COST]: for a timing
    cost [c >= 0] it stores the smaller of [1 / c] and [1e9], and [1e9] when
    the timing cost is zero.  The bounding-box cost is not changed, its
    inverse is stored as it is, and the iteration counter is 1 after a
    recomputation and one more than before otherwise. *)
Theorem inverse_timing_cost_capped (placer_opts : t_placer_opts) (costs : t_placer_costs)
    (prev_inverse_costs : t_placer_prev_inverse_costs) (crit_exponent : fp)
    (outer_crit_iter_count : Z) (td : td_state) (e : ext) :
  place_algorithm placer_opts = PATH_TIMING_DRIVEN_PLACE ->
  let r := outer_loop_recompute_criticalities placer_opts costs prev_inverse_costs
             crit_exponent outer_crit_iter_count td e in
  let costs' := fst (fst (fst (fst r))) in
  let inverse' := snd (fst (fst (fst r))) in
  let count' := snd (fst (fst r)) in
  (inv_timing_cost inverse' >? MAX_INV_TIMING_COST)%fp = false
  /\ (forall c, timing_cost costs' = Fin c -> (0 <= c)%R ->
        exists x, inv_timing_cost inverse' = Fin x
                  /\ (0 < x <= 1e9)%R
                  /\ (c = 0%R -> x = 1e9%R)
                  /\ (c <> 0%R -> x = Rmin (1 / c) 1e9))
  /\ bb_cost costs' = bb_cost costs
  /\ inv_bb_cost inverse' = (Fin 1 / bb_cost costs)%fp
  /\ (count' = 1%Z
      \/ (count' = (outer_crit_iter_count + 1)%Z
          /\ (outer_crit_iter_count < recompute_crit_iter placer_opts)%Z
          /\ costs' = costs)).
Proof.
  intros Halg r costs' inverse' count'.
  subst r costs' inverse' count'. unfold outer_loop_recompute_criticalities.
  rewrite Halg.
  set (rec := if (_ || _)%bool then _ else _).
  cbn [fst snd inv_timing_cost inv_bb_cost].
  assert (Hbb : bb_cost (fst (fst (fst rec))) = bb_cost costs).
  { subst rec. destruct (_ || _)%bool; [|reflexivity].
    unfold recompute_criticalities.
    destruct (update_td_costs _ _) as [td1 tc]. reflexivity. }
  split; [|split; [|split; [exact Hbb|split; [rewrite Hbb; reflexivity|]]]].
  - unfold fgt, fmin, MAX_INV_TIMING_COST.
    destruct (Fin 1 / timing_cost (fst (fst (fst rec))))%fp as [| | |x];
      cbn [flt]; try reflexivity.
    + destruct (Rlt_dec 1e9 1e9); [lra|reflexivity].
    + destruct (Rlt_dec 1e9 x); cbn [flt].
      * destruct (Rlt_dec 1e9 1e9); [lra|reflexivity].
      * destruct (Rlt_dec 1e9 x); [contradiction|reflexivity].
  - intros c Hc Hpos. rewrite Hc. unfold MAX_INV_TIMING_COST. cbn [fdiv].
    destruct (Req_dec_T c 0) as [Hz|Hnz].
    + unfold inf_of_sign. destruct (Rlt_dec 0 1); [|lra].
      unfold fmin. cbn [flt]. exists 1e9%R.
      split; [reflexivity|]. split; [lra|]. split; [reflexivity|]. intros; contradiction.
    + rewrite fmin_Fin. exists (Rmin (1 / c) 1e9). split; [reflexivity|].
      assert (Hinv : (0 < 1 / c)%R).
      { unfold Rdiv. rewrite Rmult_1_l. apply Rinv_0_lt_compat. lra. }
      split; [|split; [intros; contradiction|reflexivity]].
      unfold Rmin. destruct (Rle_dec (1 / c) 1e9); lra.
  - subst rec. destruct (_ <=? _)%Z eqn:Hle; cbn [orb].
    + left. reflexivity.
    + destruct (negb _).
      * left. reflexivity.
      * right. cbn [fst snd]. split; [reflexivity|]. split; [|reflexivity].
        apply Z.leb_gt in Hle. exact Hle.
Qed.

(** *** The delays and timing costs from scratch *)

Lemma comp_td_connection_delay_sign (locs : block_locs_t) (net : ClusterNetId)
    (ipin : nat) (d : fp) :
  comp_td_connection_delay locs net ipin = Ok d -> (d <? Fin 0)%fp = false.
Proof.
  unfold comp_td_connection_delay. destruct (negb _).
  - match goal with |- context [if ?c then _ else _] => destruct c eqn:Hc end;
      [discriminate|].
    intros H. injection H as <-. exact Hc.
  - intros H. injection H as <-. cbn [flt]. destruct (Rlt_dec 0 0); [lra|reflexivity].
Qed.

Lemma comp_td_connection_delay_error (locs : block_locs_t) (net : ClusterNetId)
    (ipin : nat) (err : vpr_error) :
  comp_td_connection_delay locs net ipin = Fatal err -> err = NegativeDelay.
Proof.
  unfold comp_td_connection_delay. destruct (negb _); [|discriminate].
  match goal with |- context [if ?c then _ else _] => destruct c end; [|discriminate].
  intros H. injection H as <-. reflexivity.
Qed.

(** The loop of [comp_td_connection_delays] over the sinks [l] of one net. *)
Lemma net_delays_loop (locs : block_locs_t) (net : ClusterNetId) (l : list nat)
    (td : td_state) :
  match foldM (fun td ipin =>
                 delay <- comp_td_connection_delay locs net ipin ;;
                 Ok (set_connection_delay net ipin delay td)) l td with
  | Ok td' =>
      (forall i, In i l ->
         comp_td_connection_delay locs net i = Ok (connection_delay td' net i))
      /\ (forall n i, ~ (n = net /\ In i l) ->
            connection_delay td' n i = connection_delay td n i)
      /\ proposed_connection_delay td' = proposed_connection_delay td
      /\ connection_timing_cost td' = connection_timing_cost td
      /\ proposed_connection_timing_cost td' = proposed_connection_timing_cost td
      /\ net_timing_cost td' = net_timing_cost td
  | Fatal err =>
      err = NegativeDelay
      /\ exists i, In i l /\ comp_td_connection_delay locs net i = Fatal NegativeDelay
  end.
Proof.
  revert td. induction l as [|a l IH]; intros td; cbn [foldM].
  - repeat split; try reflexivity. intros i [].
  - destruct (comp_td_connection_delay locs net a) as [d|err] eqn:Hd; cbn [bind].
    + specialize (IH (set_connection_delay net a d td)).
      destruct (foldM _ l _) as [td'|err].
      * destruct IH as (Hin & Hout & H1 & H2 & H3 & H4).
        cbn [set_connection_delay connection_delay proposed_connection_delay
             connection_timing_cost proposed_connection_timing_cost net_timing_cost]
          in Hout, H1, H2, H3, H4.
        repeat split; try assumption.
        -- intros i [<-|Hi]; [|apply Hin; exact Hi].
           destruct (in_dec Nat.eq_dec a l) as [Hal|Hal]; [apply Hin; exact Hal|].
           rewrite Hout by (intros [_ F]; contradiction).
           rewrite upd2_same. exact Hd.
        -- intros n i Hni. rewrite Hout by (intros [E F]; apply Hni; split;
                                            [exact E|right; exact F]).
           apply upd2_other. intros [E F]. apply Hni. split; [exact E|left; symmetry; exact F].
      * destruct IH as (-> & i & Hi & Hf). split; [reflexivity|].
        exists i. split; [right; exact Hi|exact Hf].
    + pose proof (comp_td_connection_delay_error _ _ _ _ Hd) as ->.
      split; [reflexivity|]. exists a. split; [left; reflexivity|exact Hd].
Qed.

(** The loop of [comp_td_connection_delays] over the nets [l]. *)
Lemma all_delays_loop (locs : block_locs_t) (l : list ClusterNetId) (td : td_state) :
  let sinks n := seq 1 (length (net_pins nl n) - 1) in
  match foldM (fun td net_id =>
                 foldM (fun td ipin =>
                          delay <- comp_td_connection_delay locs net_id ipin ;;
                          Ok (set_connection_delay net_id ipin delay td))
                       (sinks net_id) td) l td with
  | Ok td' =>
      (forall n i, In n l -> In i (sinks n) ->
         comp_td_connection_delay locs n i = Ok (connection_delay td' n i))
      /\ (forall n i, ~ (In n l /\ In i (sinks n)) ->
            connection_delay td' n i = connection_delay td n i)
      /\ proposed_connection_delay td' = proposed_connection_delay td
      /\ connection_timing_cost td' = connection_timing_cost td
      /\ proposed_connection_timing_cost td' = proposed_connection_timing_cost td
      /\ net_timing_cost td' = net_timing_cost td
  | Fatal err =>
      err = NegativeDelay
      /\ exists n i, In n l /\ In i (sinks n)
                     /\ comp_td_connection_delay locs n i = Fatal NegativeDelay
  end.
Proof.
  intros sinks. revert td. induction l as [|a l IH]; intros td; cbn [foldM].
  - repeat split; try reflexivity. intros n i [].
  - pose proof (net_delays_loop locs a (sinks a) td) as Hnet.
    destruct (foldM _ (sinks a) td) as [td1|err]; cbn [bind].
    + destruct Hnet as (Hin1 & Hout1 & A1 & A2 & A3 & A4).
      specialize (IH td1). destruct (foldM _ l td1) as [td'|err].
      * destruct IH as (Hin & Hout & B1 & B2 & B3 & B4).
        repeat split; try congruence.
        -- intros n i [<-|Hn] Hi; [|apply Hin; assumption].
           destruct (in_dec Nat.eq_dec a l) as [Hal|Hal]; [apply Hin; assumption|].
           rewrite Hout by (intros [F _]; contradiction).
           apply Hin1. exact Hi.
        -- intros n i Hni. rewrite Hout by (intros [E F]; apply Hni; split;
                                            [right; exact E|exact F]).
           apply Hout1. intros [E F]. apply Hni. subst n. split; [left; reflexivity|exact F].
      * destruct IH as (-> & n & i & Hn & Hi & Hf). split; [reflexivity|].
        exists n, i. split; [right; exact Hn|]. split; assumption.
    + destruct Hnet as (-> & i & Hi & Hf). split; [reflexivity|].
      exists a, i. split; [left; reflexivity|]. split; assumption.
Qed.

(** X16.  When [comp_td_connection_delays] returns, [connection_delay]
    holds for every sink of every net of the netlist the delay of the delay
    model at the given placement (0 for an ignored net), none of them is
    negative, and nothing else in the timing state has changed.  The only
    error it raises is the one for a negative delay, and only when the delay
    model returns one for some sink. *)
Theorem comp_td_connection_delays_loads (locs : block_locs_t) (td : td_state) :
  match comp_td_connection_delays locs td with
  | Ok td' =>
      (forall n i, In n (nets nl) -> (1 <= i < length (net_pins nl n))%nat ->
         comp_td_connection_delay locs n i = Ok (connection_delay td' n i)
         /\ (connection_delay td' n i <? Fin 0)%fp = false)
      /\ (forall n i, ~ (In n (nets nl) /\ (1 <= i < length (net_pins nl n))%nat) ->
            connection_delay td' n i = connection_delay td n i)
      /\ proposed_connection_delay td' = proposed_connection_delay td
      /\ connection_timing_cost td' = connection_timing_cost td
      /\ proposed_connection_timing_cost td' = proposed_connection_timing_cost td
      /\ net_timing_cost td' = net_timing_cost td
  | Fatal err =>
      err = NegativeDelay
      /\ exists n i, In n (nets nl) /\ (1 <= i < length (net_pins nl n))%nat
                     /\ net_is_ignored nl n = false
                     /\ comp_td_connection_delay locs n i = Fatal NegativeDelay
  end.
Proof.
  unfold comp_td_connection_delays.
  pose proof (all_delays_loop locs (nets nl) td) as H. cbv zeta in H.
  assert (Hseq : forall n i, In i (seq 1 (length (net_pins nl n) - 1))
                             <-> (1 <= i < length (net_pins nl n))%nat).
  { intros n i. rewrite in_seq. lia. }
  destruct (foldM _ (nets nl) td) as [td'|err].
  - destruct H as (Hin & Hout & H1 & H2 & H3 & H4).
    repeat split; try assumption.
    + apply Hin; [assumption|apply Hseq; assumption].
    + eapply comp_td_connection_delay_sign. apply Hin; [eassumption|apply Hseq; assumption].
    + intros n i Hni. apply Hout. intros [E F]. apply Hni. split; [exact E|].
      apply Hseq. exact F.
  - destruct H as (-> & n & i & Hn & Hi & Hf). split; [reflexivity|].
    exists n, i. split; [exact Hn|]. split; [apply Hseq; exact Hi|].
    split; [|exact Hf].
    unfold comp_td_connection_delay in Hf.
    destruct (net_is_ignored nl n); [discriminate|reflexivity].
Qed.

(** The loop of [comp_td_costs] over the sinks [l] of one net. *)
Lemma net_costs_loop (crit : ClusterNetId -> nat -> fp) (net : ClusterNetId)
    (l : list nat) (td : td_state) :
  let td' := fold_left (fun td ipin =>
                          let conn_timing_cost := comp_td_connection_cost crit td net ipin in
                          set_connection_timing_cost net ipin conn_timing_cost td) l td in
  (forall i, In i l ->
     connection_timing_cost td' net i = (crit net i * connection_delay td net i)%fp)
  /\ (forall n i, ~ (n = net /\ In i l) ->
        connection_timing_cost td' n i = connection_timing_cost td n i)
  /\ connection_delay td' = connection_delay td
  /\ proposed_connection_delay td' = proposed_connection_delay td
  /\ proposed_connection_timing_cost td' = proposed_connection_timing_cost td
  /\ net_timing_cost td' = net_timing_cost td.
Proof.
  revert td. induction l as [|a l IH]; intros td; cbn [fold_left].
  - repeat split; try reflexivity. intros i [].
  - cbv zeta in IH |- *.
    specialize (IH (set_connection_timing_cost net a
                      (comp_td_connection_cost crit td net a) td)).
    destruct IH as (Hin & Hout & H1 & H2 & H3 & H4).
    cbn [set_connection_timing_cost connection_delay proposed_connection_delay
         connection_timing_cost proposed_connection_timing_cost net_timing_cost]
      in Hin, Hout, H1, H2, H3, H4.
    repeat split; try assumption.
    + intros i [<-|Hi]; [|apply Hin; exact Hi].
      destruct (in_dec Nat.eq_dec a l) as [Hal|Hal]; [apply Hin; exact Hal|].
      rewrite Hout by (intros [_ F]; contradiction).
      rewrite upd2_same. reflexivity.
    + intros n i Hni. rewrite Hout by (intros [E F]; apply Hni; split;
                                        [exact E|right; exact F]).
      apply upd2_other. intros [E F]. apply Hni. split; [exact E|left; symmetry; exact F].
Qed.

Lemma sum_td_net_cost_ext (td td' : td_state) (net : ClusterNetId) :
  (forall i, In i (seq 1 (length (net_pins nl net) - 1)) ->
     connection_timing_cost td' net i = connection_timing_cost td net i) ->
  sum_td_net_cost td' net = sum_td_net_cost td net.
Proof.
  intros H. unfold sum_td_net_cost. apply fold_left_ext_in.
  intros acc i Hi. rewrite H by exact Hi. reflexivity.
Qed.

(** The loop of [comp_td_costs] over the nets [l]. *)
Lemma all_costs_loop (crit : ClusterNetId -> nat -> fp) (l : list ClusterNetId)
    (td : td_state) :
  let sinks n := seq 1 (length (net_pins nl n) - 1) in
  let td' :=
    fold_left (fun td net_id =>
                 if net_is_ignored nl net_id then td
                 else
                   let td :=
                     fold_left (fun td ipin =>
                                  let conn_timing_cost :=
                                    comp_td_connection_cost crit td net_id ipin in
                                  set_connection_timing_cost net_id ipin conn_timing_cost td)
                               (sinks net_id) td in
                   set_net_timing_cost net_id (sum_td_net_cost td net_id) td)
              l td in
  (forall n i, In n l -> net_is_ignored nl n = false -> In i (sinks n) ->
     connection_timing_cost td' n i = (crit n i * connection_delay td n i)%fp)
  /\ (forall n i, ~ (In n l /\ net_is_ignored nl n = false /\ In i (sinks n)) ->
        connection_timing_cost td' n i = connection_timing_cost td n i)
  /\ (forall n, In n l -> net_is_ignored nl n = false ->
        net_timing_cost td' n = net_td_cost_of crit td n)
  /\ (forall n, ~ (In n l /\ net_is_ignored nl n = false) ->
        net_timing_cost td' n = net_timing_cost td n)
  /\ connection_delay td' = connection_delay td
  /\ proposed_connection_delay td' = proposed_connection_delay td
  /\ proposed_connection_timing_cost td' = proposed_connection_timing_cost td.
Proof.
  intros sinks. revert td. induction l as [|a l IH]; intros td; cbn [fold_left].
  - repeat split; try reflexivity; intros n; intros; contradiction.
  - cbv zeta in IH |- *.
    destruct (net_is_ignored nl a) eqn:Hig.
    + specialize (IH td). destruct IH as (Hc & Hcf & Hn & Hnf & H1 & H2 & H3).
      repeat split; try assumption.
      * intros n i [<-|Hi] Hni Hs; [congruence|]. apply Hc; assumption.
      * intros n i Hni. apply Hcf. intros (E & F & G). apply Hni.
        split; [right; exact E|]. split; assumption.
      * intros n [<-|Hi] Hni; [congruence|]. apply Hn; assumption.
      * intros n Hni. apply Hnf. intros (E & F). apply Hni. split; [right; exact E|exact F].
    + pose proof (net_costs_loop crit a (sinks a) td) as Hnet. cbv zeta in Hnet.
      set (td1 := fold_left _ (sinks a) td) in *.
      destruct Hnet as (Hin1 & Hout1 & A1 & A2 & A3 & A4).
      specialize (IH (set_net_timing_cost a (sum_td_net_cost td1 a) td1)).
      destruct IH as (Hc & Hcf & Hn & Hnf & H1 & H2 & H3).
      cbn [set_net_timing_cost connection_delay proposed_connection_delay
           connection_timing_cost proposed_connection_timing_cost net_timing_cost]
        in Hc, Hcf, Hn, Hnf, H1, H2, H3.
      assert (Hnet1 : sum_td_net_cost td1 a = net_td_cost_of crit td a).
      { unfold sum_td_net_cost, net_td_cost_of. apply fold_left_ext_in.
        intros acc i Hi. rewrite Hin1 by exact Hi. reflexivity. }
      assert (Hof : forall n, net_td_cost_of crit
                                (set_net_timing_cost a (sum_td_net_cost td1 a) td1) n
                              = net_td_cost_of crit td n).
      { intros n. unfold net_td_cost_of. cbn [set_net_timing_cost connection_delay].
        rewrite A1. reflexivity. }
      repeat split; try congruence.
      * intros n i [<-|Hi] Hni Hs.
        -- destruct (in_dec Nat.eq_dec a l) as [Hal|Hal].
           ++ rewrite Hc by assumption. rewrite A1. reflexivity.
           ++ rewrite Hcf by (intros (F & _); contradiction). apply Hin1. exact Hs.
        -- rewrite Hc by assumption. rewrite A1. reflexivity.
      * intros n i Hni. rewrite Hcf by (intros (E & F & G); apply Hni;
                                         split; [right; exact E|split; assumption]).
        apply Hout1. intros [E F]. apply Hni. subst n.
        split; [left; reflexivity|]. split; assumption.
      * intros n [<-|Hi] Hni.
        -- destruct (in_dec Nat.eq_dec a l) as [Hal|Hal].
           ++ rewrite Hn by assumption. apply Hof.
           ++ rewrite Hnf by (intros (F & _); contradiction).
              rewrite upd_same. exact Hnet1.
        -- rewrite Hn by assumption. apply Hof.
      * intros n Hni. rewrite Hnf by (intros (E & F); apply Hni;
                                       split; [right; exact E|exact F]).
        rewrite upd_other; [rewrite A4; reflexivity|].
        intros ->. apply Hni. split; [left; reflexivity|exact Hig].
Qed.

Lemma comp_td_costs_total (crit : ClusterNetId -> nat -> fp) (td : td_state) :
  snd (comp_td_costs crit td)
  = fold_left (fun acc net_id =>
                 if net_is_ignored nl net_id then acc
                 else (acc + net_td_cost_of crit td net_id)%fp)
              (nets nl) (Fin 0).
Proof.
  unfold comp_td_costs. cbn [snd]. unfold sum_td_costs.
  pose proof (all_costs_loop crit (nets nl) td) as H. cbv zeta in H.
  destruct H as (_ & _ & Hn & _).
  apply fold_left_ext_in. intros acc n Hin.
  destruct (net_is_ignored nl n) eqn:Hig; [reflexivity|].
  rewrite Hn by assumption. reflexivity.
Qed.

(** X17.  The total that [comp_td_costs] returns is, over the nets that
    are not ignored and in the order of the netlist, the sum of the net
    sums of criticality times [connection_delay] over the sinks: it depends
    on the delays and the criticalities only, not on the costs stored
    before.  Each of these connections and nets gets its term stored, the
    delays and the proposed values are not written, and a second call
    returns the same total. *)
Theorem comp_td_costs_sums_criticality_delay (crit : ClusterNetId -> nat -> fp)
    (td : td_state) :
  let r := comp_td_costs crit td in
  snd r = fold_left (fun acc net_id =>
                       if net_is_ignored nl net_id then acc
                       else (acc + net_td_cost_of crit td net_id)%fp)
                    (nets nl) (Fin 0)
  /\ (forall n i, In n (nets nl) -> net_is_ignored nl n = false ->
        (1 <= i < length (net_pins nl n))%nat ->
        connection_timing_cost (fst r) n i = (crit n i * connection_delay td n i)%fp)
  /\ (forall n, In n (nets nl) -> net_is_ignored nl n = false ->
        net_timing_cost (fst r) n = sum_td_net_cost (fst r) n)
  /\ connection_delay (fst r) = connection_delay td
  /\ proposed_connection_delay (fst r) = proposed_connection_delay td
  /\ proposed_connection_timing_cost (fst r) = proposed_connection_timing_cost td
  /\ snd (comp_td_costs crit (fst r)) = snd r.
Proof.
  intros r. subst r.
  pose proof (all_costs_loop crit (nets nl) td) as H. cbv zeta in H.
  destruct H as (Hc & _ & Hn & _ & H1 & H2 & H3).
  split; [apply comp_td_costs_total|].
  unfold comp_td_costs at 1 2 3 4 5 6. cbn [fst].
  split; [|split; [|split; [exact H1|split; [exact H2|split; [exact H3|]]]]].
  - intros n i Hin Hig Hi. apply Hc; try assumption. apply in_seq. lia.
  - intros n Hin Hig. rewrite Hn by assumption.
    unfold sum_td_net_cost, net_td_cost_of. symmetry. apply fold_left_ext_in.
    intros acc i Hi. rewrite Hc by assumption. reflexivity.
  - rewrite !comp_td_costs_total. apply fold_left_ext_in. intros acc n Hin.
    destruct (net_is_ignored nl n); [reflexivity|].
    unfold net_td_cost_of. unfold comp_td_costs. cbn [fst]. rewrite H1. reflexivity.
Qed.

(** *** What an accepted trial commits of the timing state *)

Lemma fold_left_map_list {A B C} (f : A -> C -> A) (g : B -> C) (l : list B) (a : A) :
  fold_left f (map g l) a = fold_left (fun a x => f a (g x)) l a.
Proof.
  revert a. induction l as [|b l IH]; intros a; cbn [map fold_left]; [reflexivity|].
  apply IH.
Qed.

Lemma fold_left_flat_map {A B C} (f : A -> C -> A) (g : B -> list C) (l : list B) (a : A) :
  fold_left f (flat_map g l) a = fold_left (fun a x => fold_left f (g x) a) l a.
Proof.
  revert a. induction l as [|b l IH]; intros a; cbn [flat_map fold_left]; [reflexivity|].
  rewrite fold_left_app. apply IH.
Qed.

Lemma proposed_at_frame (crit : ClusterNetId -> nat -> fp) (locs : block_locs_t)
    (td td' : td_state) (c : ClusterNetId * nat) :
  proposed_connection_delay td' (fst c) (snd c) = proposed_connection_delay td (fst c) (snd c) ->
  proposed_connection_timing_cost td' (fst c) (snd c)
  = proposed_connection_timing_cost td (fst c) (snd c) ->
  proposed_at crit locs td c -> proposed_at crit locs td' c.
Proof. unfold proposed_at. intros -> ->. auto. Qed.

Lemma proposed_at_delay (crit : ClusterNetId -> nat -> fp) (locs : block_locs_t)
    (td : td_state) (c : ClusterNetId * nat) :
  proposed_at crit locs td c ->
  delay_of locs c = proposed_connection_delay td (fst c) (snd c).
Proof. unfold proposed_at, delay_of. intros [-> _]. reflexivity. Qed.

(** One pin of a moved block, in timing-driven mode. *)
Lemma affected_pin_step_timing (crit : ClusterNetId -> nat -> fp) (locs : block_locs_t)
    (mb : t_pl_moved_block) (pin : ClusterPinId) (acc acc' : affected_acc) :
  affected_pin_step PATH_TIMING_DRIVEN_PLACE crit locs mb acc pin = Ok acc' ->
  let td := snd (fst (fst (fst acc))) in
  let td' := snd (fst (fst (fst acc'))) in
  let ba := snd (fst (fst acc)) in
  moved_blocks (snd (fst (fst acc'))) = moved_blocks ba
  /\ same_committed td td'
  /\ (forall c, proposed_at crit locs td c \/ In c (td_connections ba pin) ->
                proposed_at crit locs td' c)
  /\ snd acc'
     = fold_left (fun a c =>
                    (a + (crit (fst c) (snd c) * delay_of locs c
                          - connection_timing_cost td (fst c) (snd c)))%fp)
                 (td_connections ba pin) (snd acc).
Proof.
  destruct acc as [[[[[bb nc] td] ba] n] d]. cbn [fst snd].
  unfold affected_pin_step, td_connections.
  destruct (net_is_ignored nl (pin_net nl pin)).
  - intros H. injection H as <-. cbn [fst snd fold_left].
    split; [reflexivity|]. split; [apply same_committed_refl|].
    split; [|reflexivity]. intros c [H|[]]. exact H.
  - destruct (record_affected_net (pin_net nl pin) (nc, n)) as [nc1 n1].
    destruct (update_td_delta_costs crit locs (pin_net nl pin) pin (td, ba, d))
      as [[[td1 ba1] d1]|err] eqn:Hu; cbn [bind]; [|discriminate].
    intros H. injection H as <-. cbn [fst snd].
    unfold update_td_delta_costs in Hu. destruct (pin_type nl pin).
    + apply driver_loop_state in Hu.
      destruct Hu as (Hsc & Hmb & _ & Hin & Hout & Hd).
      split; [exact Hmb|]. split; [exact Hsc|]. split.
      * intros [cn ci] [Hc|Hc].
        -- destruct (Nat.eq_dec cn (pin_net nl pin)) as [->|Hn].
           ++ destruct (le_lt_dec 1 ci) as [H1|H1];
                [destruct (le_lt_dec (length (net_pins nl (pin_net nl pin))) ci) as [H2|H2]|].
              ** refine (proposed_at_frame _ _ _ _ _ _ _ Hc); cbn [fst snd];
                   apply Hout; lia.
              ** split; cbn [fst snd]; apply Hin; lia.
              ** refine (proposed_at_frame _ _ _ _ _ _ _ Hc); cbn [fst snd];
                   apply Hout; lia.
           ++ refine (proposed_at_frame _ _ _ _ _ _ _ Hc); cbn [fst snd];
                apply Hout; intros [E _]; contradiction.
        -- apply in_map_iff in Hc. destruct Hc as (i & E & Hi). injection E as <- <-.
           apply in_seq in Hi. split; cbn [fst snd]; apply Hin; lia.
      * rewrite Hd, fold_left_map_list. apply fold_left_ext_in.
        intros a i Hi. cbn [fst snd]. apply in_seq in Hi.
        destruct (Hin i) as [H1 H2]; [lia|].
        unfold delay_of. cbn [fst snd]. rewrite H1, H2. reflexivity.
    + destruct (driven_by_moved_block (pin_net nl pin) ba); cbn [negb] in Hu.
      * injection Hu as <- <- <-. cbn [fold_left].
        split; [reflexivity|]. split; [apply same_committed_refl|].
        split; [|reflexivity]. intros c [H|[]]. exact H.
      * destruct (propose_connection crit locs (pin_net nl pin) (pin_net_index nl pin)
                    (td, d)) as [[td2 d2]|err] eqn:Hp; cbn [bind] in Hu; [|discriminate].
        injection Hu as <- <- <-.
        apply propose_connection_state in Hp.
        destruct Hp as (Hsc & Hdel & Hcost & Hfr & Hd).
        split; [reflexivity|]. split; [exact Hsc|]. split.
        -- intros [cn ci] Hc.
           destruct (conn_eq_dec (cn, ci) (pin_net nl pin, pin_net_index nl pin)) as [E|Hne].
           ++ rewrite E. split; cbn [fst snd]; assumption.
           ++ destruct Hc as [Hc|[Hc|[]]]; [|symmetry in Hc; contradiction].
              refine (proposed_at_frame _ _ _ _ _ _ _ Hc); cbn [fst snd];
                apply Hfr; intros [-> ->]; apply Hne; reflexivity.
        -- cbn [fold_left fst snd]. rewrite Hd. unfold delay_of. cbn [fst snd].
           rewrite Hdel, Hcost. reflexivity.
Qed.

Lemma trial_proposed_step (crit : ClusterNetId -> nat -> fp) (locs : block_locs_t)
    (td0 : td_state) (ba0 : t_pl_blocks_to_be_moved) (d0 : fp)
    (mb : t_pl_moved_block) (pin : ClusterPinId)
    (w : list (ClusterNetId * nat)) (acc acc' : affected_acc) :
  trial_proposed crit locs td0 ba0 d0 w acc ->
  affected_pin_step PATH_TIMING_DRIVEN_PLACE crit locs mb acc pin = Ok acc' ->
  trial_proposed crit locs td0 ba0 d0 (w ++ td_connections ba0 pin) acc'.
Proof.
  intros (Hmb & Hsc & Hp & Hd) Hs.
  apply affected_pin_step_timing in Hs. cbv zeta in Hs.
  destruct Hs as (Hmb' & Hsc' & Hp' & Hd').
  rewrite (td_connections_moved _ _ pin Hmb) in Hp', Hd'.
  unfold trial_proposed. split; [congruence|].
  split; [apply same_committed_trans with (1 := Hsc); exact Hsc'|].
  split.
  - intros c Hc. apply Hp'. apply in_app_or in Hc. destruct Hc as [Hc|Hc]; auto.
  - rewrite Hd', fold_left_app, <- Hd. apply fold_left_ext_in.
    intros a c _. destruct Hsc as (_ & -> & _). reflexivity.
Qed.

Lemma trial_proposed_pins (crit : ClusterNetId -> nat -> fp) (locs : block_locs_t)
    (td0 : td_state) (ba0 : t_pl_blocks_to_be_moved) (d0 : fp)
    (mb : t_pl_moved_block) (pins : list ClusterPinId)
    (w : list (ClusterNetId * nat)) (acc acc' : affected_acc) :
  trial_proposed crit locs td0 ba0 d0 w acc ->
  foldM (affected_pin_step PATH_TIMING_DRIVEN_PLACE crit locs mb) pins acc = Ok acc' ->
  trial_proposed crit locs td0 ba0 d0 (w ++ flat_map (td_connections ba0) pins) acc'.
Proof.
  revert w acc. induction pins as [|pin pins IH]; intros w acc Hw H; cbn [foldM] in H.
  - injection H as <-. cbn [flat_map]. rewrite app_nil_r. exact Hw.
  - destruct (affected_pin_step _ crit locs mb acc pin) as [acc1|err] eqn:Hs;
      cbn [bind] in H; [|discriminate].
    cbn [flat_map]. rewrite app_assoc. apply IH with (2 := H).
    apply trial_proposed_step with (1 := Hw) (2 := Hs).
Qed.

Lemma trial_proposed_blocks (crit : ClusterNetId -> nat -> fp) (locs : block_locs_t)
    (td0 : td_state) (ba0 : t_pl_blocks_to_be_moved) (d0 : fp)
    (mbs : list t_pl_moved_block)
    (w : list (ClusterNetId * nat)) (acc acc' : affected_acc) :
  trial_proposed crit locs td0 ba0 d0 w acc ->
  foldM (fun acc mb =>
           foldM (affected_pin_step PATH_TIMING_DRIVEN_PLACE crit locs mb)
                 (block_pins nl (block_num mb)) acc) mbs acc = Ok acc' ->
  trial_proposed crit locs td0 ba0 d0 (w ++ touched_connections ba0 mbs) acc'.
Proof.
  revert w acc. induction mbs as [|mb mbs IH]; intros w acc Hw H; cbn [foldM] in H.
  - injection H as <-. unfold touched_connections. cbn [flat_map].
    rewrite app_nil_r. exact Hw.
  - destruct (foldM _ (block_pins nl (block_num mb)) acc) as [acc1|err] eqn:Hs;
      cbn [bind] in H; [|discriminate].
    unfold touched_connections. cbn [flat_map]. rewrite app_assoc.
    apply IH with (2 := H). apply trial_proposed_pins with (1 := Hw) (2 := Hs).
Qed.

(** What [find_affected_nets_and_update_costs] proposes in timing-driven
    mode. *)
Lemma find_affected_proposes (crit : ClusterNetId -> nat -> fp)
    (locs : block_locs_t) (bb bb' : bb_state) (nc nc' : nc_state) (td td' : td_state)
    (ba ba' : t_pl_blocks_to_be_moved) (bbd tdd bbd' tdd' : fp) (num : nat) :
  find_affected_nets_and_update_costs PATH_TIMING_DRIVEN_PLACE crit locs bb nc td ba bbd tdd
  = Ok (num, bb', nc', td', ba', bbd', tdd') ->
  trial_proposed crit locs td ba tdd (touched_connections ba (moved_blocks ba))
                 (bb', nc', td', ba', num, tdd').
Proof.
  intros H. unfold find_affected_nets_and_update_costs in H.
  match type of H with
  | bind ?c _ = _ => destruct c as [[[[[[bb1 nc1] td1] ba1] n1] d1]|err] eqn:Hloop
  end; cbn [bind] in H; [|discriminate].
  destruct (affected_net_costs bb1 n1 (nc1, bbd)) as [nc2 bbd2].
  injection H as <- <- <- <- <- <- <-.
  apply (trial_proposed_blocks crit locs td ba tdd _ []) in Hloop.
  - cbn [app] in Hloop. exact Hloop.
  - unfold trial_proposed. cbn [fst snd fold_left].
    split; [reflexivity|]. split; [apply same_committed_refl|].
    split; [intros c []|reflexivity].
Qed.

(** [commit_td_cost] commits the touched connections one after the other. *)
Lemma commit_td_cost_fold (ba : t_pl_blocks_to_be_moved) (td : td_state) :
  commit_td_cost ba td
  = fold_left (fun td c => commit_connection (fst c) (snd c) td)
              (touched_connections ba (moved_blocks ba)) td.
Proof.
  unfold commit_td_cost, touched_connections.
  rewrite fold_left_flat_map. apply fold_left_ext_in. intros td1 mb _.
  rewrite fold_left_flat_map. apply fold_left_ext_in. intros td2 p _.
  unfold td_connections.
  destruct (net_is_ignored nl (pin_net nl p)); [reflexivity|].
  destruct (pin_type nl p).
  - rewrite fold_left_map_list. reflexivity.
  - destruct (driven_by_moved_block (pin_net nl p) ba); reflexivity.
Qed.

Lemma commit_connection_other (net : ClusterNetId) (ipin : nat) (td : td_state)
    (c : ClusterNetId * nat) :
  c <> (net, ipin) ->
  let td' := commit_connection net ipin td in
  connection_delay td' (fst c) (snd c) = connection_delay td (fst c) (snd c)
  /\ connection_timing_cost td' (fst c) (snd c) = connection_timing_cost td (fst c) (snd c)
  /\ proposed_connection_delay td' (fst c) (snd c)
     = proposed_connection_delay td (fst c) (snd c)
  /\ proposed_connection_timing_cost td' (fst c) (snd c)
     = proposed_connection_timing_cost td (fst c) (snd c).
Proof.
  intros Hne. destruct c as [cn ci]. cbn [fst snd].
  unfold commit_connection.
  cbn [set_proposed_connection_timing_cost set_connection_timing_cost
       set_proposed_connection_delay set_connection_delay
       connection_delay connection_timing_cost proposed_connection_delay
       proposed_connection_timing_cost].
  rewrite !upd2_other by (intros [-> ->]; apply Hne; reflexivity).
  repeat split.
Qed.

Lemma commit_connection_same (net : ClusterNetId) (ipin : nat) (td : td_state) :
  let td' := commit_connection net ipin td in
  connection_delay td' net ipin = proposed_connection_delay td net ipin
  /\ connection_timing_cost td' net ipin = proposed_connection_timing_cost td net ipin
  /\ net_timing_cost td' = net_timing_cost td.
Proof.
  unfold commit_connection.
  cbn [set_proposed_connection_timing_cost set_connection_timing_cost
       set_proposed_connection_delay set_connection_delay
       connection_delay connection_timing_cost proposed_connection_delay
       proposed_connection_timing_cost net_timing_cost].
  rewrite !upd2_same. repeat split.
Qed.

Lemma commit_connections_NoDup (l : list (ClusterNetId * nat)) (td : td_state) :
  NoDup l ->
  let td' := fold_left (fun td c => commit_connection (fst c) (snd c) td) l td in
  (forall c, In c l ->
     connection_delay td' (fst c) (snd c) = proposed_connection_delay td (fst c) (snd c)
     /\ connection_timing_cost td' (fst c) (snd c)
        = proposed_connection_timing_cost td (fst c) (snd c))
  /\ (forall c, ~ In c l ->
        connection_delay td' (fst c) (snd c) = connection_delay td (fst c) (snd c)
        /\ connection_timing_cost td' (fst c) (snd c)
           = connection_timing_cost td (fst c) (snd c))
  /\ net_timing_cost td' = net_timing_cost td.
Proof.
  intros Hnd. revert td. induction Hnd as [|a l Ha Hnd IH]; intros td; cbn [fold_left].
  - split; [intros c []|]. split; [|reflexivity]. intros c _. split; reflexivity.
  - cbv zeta in IH |- *.
    destruct (IH (commit_connection (fst a) (snd a) td)) as (Hin & Hout & Hnet).
    destruct (commit_connection_same (fst a) (snd a) td) as (S1 & S2 & S3).
    split; [|split].
    + intros c [<-|Hc].
      * destruct (Hout a Ha) as [E1 E2]. rewrite E1, E2. split; assumption.
      * destruct (Hin c Hc) as [E1 E2]. rewrite E1, E2.
        assert (Hne : c <> (fst a, snd a)).
        { intros ->. apply Ha. destruct a; exact Hc. }
        destruct (commit_connection_other (fst a) (snd a) td c Hne) as (_ & _ & P1 & P2).
        split; assumption.
    + intros c Hc.
      destruct (Hout c) as [E1 E2]; [intros F; apply Hc; right; exact F|].
      rewrite E1, E2.
      assert (Hne : c <> (fst a, snd a)).
      { intros ->. apply Hc. left. destruct a; reflexivity. }
      destruct (commit_connection_other (fst a) (snd a) td c Hne) as (P1 & P2 & _).
      split; assumption.
    + rewrite Hnet. exact S3.
Qed.

(** X18.  An accepted trial in timing-driven mode, in a well-formed netlist
    with each block moved once.  Every connection with an end on a moved
    block (a sink of a net that is not ignored, where the block of the
    net's driver or the block of the sink is among the moved blocks) has
    afterwards as its committed delay the delay of the delay model at the
    new placement, and as its committed cost the criticality times that
    delay; all other connections keep their delay and cost;
    [net_timing_cost] is not written; and [costs.timing_cost] has grown by
    the changes of the committed costs of these connections, each counted
    once, added in the order in which the trial visits them. *)
Theorem accepted_trial_commits_delays (t : fp) (costs : t_placer_costs)
    (prev_inverse_costs : t_placer_prev_inverse_costs) (rlim : fp)
    (blocks_affected : t_pl_blocks_to_be_moved) (rlim_escape_fraction : fp)
    (timing_tradeoff : fp) (st : placer_state) (costs' : t_placer_costs)
    (blocks_affected' : t_pl_blocks_to_be_moved) (st' : placer_state) :
  netlist_wf -> netlist_pins_wf ->
  let esc := escape_rlim rlim rlim_escape_fraction (ps_ext st) in
  let proposal := propose_move (ps_locs st) blocks_affected (fst esc) (snd esc) in
  let moved := snd (fst proposal) in
  let crit := criticality (snd proposal) in
  NoDup (map block_num (moved_blocks moved)) ->
  try_swap t costs prev_inverse_costs rlim blocks_affected rlim_escape_fraction
    PATH_TIMING_DRIVEN_PLACE timing_tradeoff st
  = Ok (ACCEPTED, costs', blocks_affected', st') ->
  (forall c, moved_connection moved c ->
     comp_td_connection_delay (ps_locs st') (fst c) (snd c)
     = Ok (connection_delay (ps_td st') (fst c) (snd c))
     /\ connection_timing_cost (ps_td st') (fst c) (snd c)
        = (crit (fst c) (snd c) * connection_delay (ps_td st') (fst c) (snd c))%fp)
  /\ (forall c, ~ moved_connection moved c ->
        connection_delay (ps_td st') (fst c) (snd c)
        = connection_delay (ps_td st) (fst c) (snd c)
        /\ connection_timing_cost (ps_td st') (fst c) (snd c)
           = connection_timing_cost (ps_td st) (fst c) (snd c))
  /\ net_timing_cost (ps_td st') = net_timing_cost (ps_td st)
  /\ exists visited,
       NoDup visited
       /\ (forall c, In c visited <-> moved_connection moved c)
       /\ timing_cost costs'
          = (timing_cost costs
             + fold_left (fun a c =>
                            (a + (connection_timing_cost (ps_td st') (fst c) (snd c)
                                  - connection_timing_cost (ps_td st) (fst c) (snd c)))%fp)
                         visited (Fin 0))%fp.
Proof.
  intros Hwf Hpw esc proposal moved crit Hnd H.
  set (touched := touched_connections moved (moved_blocks moved)).
  assert (Hiff : forall c, In c touched <-> moved_connection moved c).
  { intros c. apply touched_connections_moved_connection; assumption. }
  apply try_swap_inv in H. fold esc in H. fold proposal in H.
  destruct H as [(_ & F & _)|(_ & H)]; [discriminate|].
  destruct H as (num & bb & nc & td & ba1 & bbd & tdd & Hfind & H).
  cbv zeta in H. destruct H as (Hacc & _ & Hcosts & _ & _ & Htd & Hlocs).
  rewrite <- Hacc in Hcosts, Htd, Hlocs.
  unfold accept_move in Hcosts, Htd, Hlocs. cbn [fst snd ps_td ps_locs] in Hcosts, Htd, Hlocs.
  fold moved in Hfind, Hlocs. fold crit in Hfind.
  apply find_affected_proposes in Hfind.
  destruct Hfind as (Hmb & Hsc & Hp & Hd). cbn [fst snd] in Hmb, Hsc, Hp, Hd.
  fold touched in Hp, Hd.
  assert (Hnd' : NoDup touched).
  { subst touched. rewrite (touched_connections_list moved Hwf).
    apply moved_pins_connections_NoDup; assumption. }
  rewrite commit_td_cost_fold in Htd.
  unfold touched_connections in Htd. rewrite Hmb in Htd.
  rewrite (flat_map_ext _ _
             (fun mb => flat_map_ext _ _ (fun p => td_connections_moved _ _ p Hmb)
                                     (block_pins nl (block_num mb)))) in Htd.
  change (flat_map _ (moved_blocks moved)) with touched in Htd.
  destruct (commit_connections_NoDup touched td Hnd') as (Hin & Hout & Hnet).
  cbv zeta in Hin, Hout, Hnet. rewrite <- Htd in Hin, Hout, Hnet.
  destruct Hsc as (Scd & Sct & Snt).
  assert (Hcommitted : forall c, In c touched ->
            comp_td_connection_delay (ps_locs st') (fst c) (snd c)
            = Ok (connection_delay (ps_td st') (fst c) (snd c))
            /\ connection_timing_cost (ps_td st') (fst c) (snd c)
               = (crit (fst c) (snd c) * connection_delay (ps_td st') (fst c) (snd c))%fp).
  { intros c Hc. destruct (Hin c Hc) as [E1 E2]. destruct (Hp c Hc) as [P1 P2].
    rewrite E1, E2, Hlocs. split; assumption. }
  split; [intros c Hc; apply Hcommitted, Hiff, Hc|]. split; [|split].
  - intros c Hc. destruct (Hout c) as [E1 E2]; [intros F; apply Hc, Hiff, F|].
    rewrite E1, E2, Scd, Sct. split; reflexivity.
  - rewrite Hnet. exact Snt.
  - exists touched. split; [exact Hnd'|]. split; [exact Hiff|].
    rewrite Hcosts. cbn [timing_cost set_timing_cost]. f_equal.
    rewrite Hd. apply fold_left_ext_in. intros a c Hc.
    destruct (Hcommitted c Hc) as [C1 C2]. rewrite C2.
    unfold delay_of. rewrite <- Hlocs, C1. reflexivity.
Qed.

(** *** The cost factors of the channels *)

Lemma upd2_get {A} (f : nat -> nat -> A) (k i k' i' : nat) (v : A) :
  upd2 f k i v k' i' = if (Nat.eqb k' k && Nat.eqb i' i)%bool then v else f k' i'.
Proof.
  unfold upd2, upd. destruct (Nat.eqb k' k) eqn:Hk; cbn [andb]; [|reflexivity].
  apply Nat.eqb_eq in Hk. subst k'. reflexivity.
Qed.

Lemma sum_row_loop (widths : nat -> Z) (high : nat) (l : list nat) (fac : nat -> nat -> fp) :
  (1 <= high)%nat ->
  let fac' := fold_left (fun fac low =>
                           upd2 fac high low
                                (fac (high - 1)%nat low + of_int (widths high))%fp) l fac in
  (forall low, In low l -> fac' high low = (fac (high - 1)%nat low + of_int (widths high))%fp)
  /\ (forall h lo, ~ (h = high /\ In lo l) -> fac' h lo = fac h lo).
Proof.
  intros Hhigh. revert fac. induction l as [|a l IH]; intros fac; cbn [fold_left].
  - split; [intros low []|]. intros; reflexivity.
  - cbv zeta in IH |- *.
    destruct (IH (upd2 fac high a (fac (high - 1)%nat a + of_int (widths high))%fp))
      as [Hin Hout].
    assert (Hrow : forall lo, upd2 fac high a (fac (high - 1)%nat a + of_int (widths high))%fp
                                   (high - 1)%nat lo = fac (high - 1)%nat lo).
    { intros lo. rewrite upd2_get.
      destruct (Nat.eqb (high - 1) high) eqn:E; [apply Nat.eqb_eq in E; lia|reflexivity]. }
    split.
    + intros low [<-|Hl].
      * destruct (in_dec Nat.eq_dec a l) as [Hal|Hal].
        -- rewrite Hin by exact Hal. rewrite Hrow. reflexivity.
        -- rewrite Hout by (intros [_ F]; contradiction).
           rewrite upd2_get, !Nat.eqb_refl. reflexivity.
      * rewrite Hin by exact Hl. rewrite Hrow. reflexivity.
    + intros h lo Hn. rewrite Hout by (intros [E F]; apply Hn; split; [exact E|right; exact F]).
      rewrite upd2_get.
      destruct (Nat.eqb h high) eqn:E1; [|reflexivity].
      destruct (Nat.eqb lo a) eqn:E2; [|reflexivity].
      apply Nat.eqb_eq in E1, E2. exfalso. apply Hn. split; [exact E1|left; symmetry; exact E2].
Qed.

Lemma tracks_next (widths : nat -> Z) (low high : nat) :
  (low < high)%nat ->
  tracks widths low (high - low + 1)
  = (tracks widths low (high - 1 - low + 1) + widths high)%Z.
Proof.
  intros H. replace (high - low + 1)%nat with (S (high - low)) by lia.
  cbn [tracks]. replace (high - 1 - low + 1)%nat with (high - low)%nat by lia.
  replace (low + (high - low))%nat with high by lia. reflexivity.
Qed.

Lemma tracks_one (widths : nat -> Z) (high : nat) :
  tracks widths high (high - high + 1) = widths high.
Proof.
  rewrite Nat.sub_diag. cbn [tracks Nat.add]. rewrite Nat.add_0_r. reflexivity.
Qed.

(** The first loop: the sums of the widths. *)
Lemma sum_rows_loop (widths : nat -> Z) (k : nat) (fac : nat -> nat -> fp) :
  let fac' :=
    fold_left (fun fac high =>
                 let fac := upd2 fac high high (of_int (widths high)) in
                 fold_left (fun fac low =>
                              upd2 fac high low
                                   (fac (high - 1)%nat low + of_int (widths high))%fp)
                           (seq 0 high) fac)
              (seq 1 k) (upd2 fac 0 0 (of_int (widths 0%nat))) in
  forall high low, (low <= high <= k)%nat ->
                   fac' high low = of_int (tracks widths low (high - low + 1)).
Proof.
  induction k as [|k IH]; cbv zeta.
  - intros high low H. assert (high = 0%nat) by lia. assert (low = 0%nat) by lia. subst.
    cbn [seq fold_left]. rewrite upd2_get. cbn [Nat.eqb andb].
    rewrite tracks_one. reflexivity.
  - intros high low H. rewrite seq_S, fold_left_app. cbn [fold_left Nat.add].
    cbv zeta in IH.
    set (fac1 := fold_left _ (seq 1 k) _) in *.
    set (fac2 := upd2 fac1 (S k) (S k) (of_int (widths (S k)))).
    destruct (sum_row_loop widths (S k) (seq 0 (S k)) fac2) as [Hin Hout]; [lia|].
    destruct (Nat.eq_dec high (S k)) as [->|Hne].
    + destruct (Nat.eq_dec low (S k)) as [->|Hlow].
      * rewrite Hout by (intros [_ F]; apply in_seq in F; lia).
        subst fac2. rewrite upd2_get, !Nat.eqb_refl. cbn [andb].
        rewrite tracks_one. reflexivity.
      * rewrite Hin by (apply in_seq; lia).
        subst fac2. rewrite upd2_get.
        destruct (Nat.eqb (S k - 1) (S k)) eqn:E; [apply Nat.eqb_eq in E; lia|].
        cbn [andb]. rewrite IH by lia.
        rewrite (tracks_next widths low (S k)) by lia.
        unfold of_int. cbn [fadd]. rewrite plus_IZR. reflexivity.
    + rewrite Hout by (intros [E _]; contradiction).
      subst fac2. rewrite upd2_get.
      destruct (Nat.eqb high (S k)) eqn:E; [apply Nat.eqb_eq in E; contradiction|].
      cbn [andb]. apply IH. lia.
Qed.

(** One entry of the second loop. *)
Lemma invert_entry_get (place_cost_exp : fp) (high low : nat) (fac : nat -> nat -> fp)
    (h lo : nat) :
  (let fac := if (fac high low ==? Fin 0)%fp then upd2 fac high low (Fin 1) else fac in
   let fac := upd2 fac high low
                   ((of_int (Z.of_nat (high - low)) + Fin 1) / fac high low)%fp in
   upd2 fac high low (pow (fac high low) place_cost_exp)) h lo
  = if (Nat.eqb h high && Nat.eqb lo low)%bool
    then pow ((of_int (Z.of_nat (high - low)) + Fin 1)
              / (if (fac high low ==? Fin 0)%fp then Fin 1 else fac high low))%fp
             place_cost_exp
    else fac h lo.
Proof.
  cbv zeta. rewrite !upd2_get.
  destruct (Nat.eqb h high && Nat.eqb lo low)%bool eqn:E.
  - rewrite !Nat.eqb_refl. cbn [andb].
    destruct (fac high low ==? Fin 0)%fp; [|reflexivity].
    rewrite upd2_get, !Nat.eqb_refl. reflexivity.
  - destruct (fac high low ==? Fin 0)%fp; [|reflexivity].
    rewrite upd2_get, E. reflexivity.
Qed.

Lemma invert_row_loop (place_cost_exp : fp) (high : nat) (l : list nat)
    (fac : nat -> nat -> fp) :
  NoDup l ->
  let fac' :=
    fold_left (fun fac low =>
                 let fac := if (fac high low ==? Fin 0)%fp
                            then upd2 fac high low (Fin 1) else fac in
                 let fac := upd2 fac high low
                                 ((of_int (Z.of_nat (high - low)) + Fin 1)
                                  / fac high low)%fp in
                 upd2 fac high low (pow (fac high low) place_cost_exp)) l fac in
  (forall low, In low l ->
     fac' high low
     = pow ((of_int (Z.of_nat (high - low)) + Fin 1)
            / (if (fac high low ==? Fin 0)%fp then Fin 1 else fac high low))%fp
           place_cost_exp)
  /\ (forall h lo, ~ (h = high /\ In lo l) -> fac' h lo = fac h lo).
Proof.
  intros Hnd. revert fac. induction Hnd as [|a l Ha Hnd IH]; intros fac; cbn [fold_left].
  - split; [intros low []|]. intros; reflexivity.
  - cbv zeta in IH |- *.
    match goal with
    | |- context [fold_left _ l ?f] => destruct (IH f) as [Hin Hout]
    end.
    split.
    + intros low [<-|Hl].
      * rewrite Hout by (intros [_ F]; contradiction).
        pose proof (invert_entry_get place_cost_exp high a fac high a) as E0; cbv zeta in E0;
        rewrite E0; clear E0.
        rewrite !Nat.eqb_refl. reflexivity.
      * rewrite Hin by exact Hl.
        pose proof (invert_entry_get place_cost_exp high a fac high low) as E0; cbv zeta in E0;
        rewrite E0; clear E0.
        destruct (Nat.eqb low a) eqn:E;
          [apply Nat.eqb_eq in E; subst; contradiction|].
        rewrite Nat.eqb_refl. cbn [andb]. reflexivity.
    + intros h lo Hn.
      rewrite Hout by (intros [E F]; apply Hn; split; [exact E|right; exact F]).
      pose proof (invert_entry_get place_cost_exp high a fac h lo) as E0; cbv zeta in E0;
        rewrite E0; clear E0.
      destruct (Nat.eqb h high) eqn:E1; [|reflexivity].
      destruct (Nat.eqb lo a) eqn:E2; [|reflexivity].
      apply Nat.eqb_eq in E1, E2. exfalso. apply Hn. split; [exact E1|left; symmetry; exact E2].
Qed.

Lemma invert_rows_loop (place_cost_exp : fp) (l : list nat) (fac : nat -> nat -> fp) :
  NoDup l ->
  let fac' :=
    fold_left (fun fac high =>
                 fold_left (fun fac low =>
                              let fac := if (fac high low ==? Fin 0)%fp
                                         then upd2 fac high low (Fin 1) else fac in
                              let fac := upd2 fac high low
                                              ((of_int (Z.of_nat (high - low)) + Fin 1)
                                               / fac high low)%fp in
                              upd2 fac high low (pow (fac high low) place_cost_exp))
                           (seq 0 (high + 1)) fac) l fac in
  (forall high low, In high l -> (low <= high)%nat ->
     fac' high low
     = pow ((of_int (Z.of_nat (high - low)) + Fin 1)
            / (if (fac high low ==? Fin 0)%fp then Fin 1 else fac high low))%fp
           place_cost_exp)
  /\ (forall h lo, ~ (In h l /\ (lo <= h)%nat) -> fac' h lo = fac h lo).
Proof.
  intros Hnd. revert fac. induction Hnd as [|a l Ha Hnd IH]; intros fac; cbn [fold_left].
  - split; [intros high low []|]. intros; reflexivity.
  - cbv zeta in IH |- *.
    destruct (invert_row_loop place_cost_exp a (seq 0 (a + 1)) fac (seq_NoDup _ _))
      as [Rin Rout].
    cbv zeta in Rin, Rout.
    set (fac1 := fold_left _ (seq 0 (a + 1)) fac) in *.
    destruct (IH fac1) as [Hin Hout].
    split.
    + intros high low [<-|Hh] Hle.
      * rewrite Hout by (intros [F _]; contradiction).
        apply Rin. apply in_seq. lia.
      * rewrite Hin by assumption.
        rewrite Rout by (intros [E _]; subst; contradiction). reflexivity.
    + intros h lo Hn.
      rewrite Hout by (intros [E F]; apply Hn; split; [right; exact E|exact F]).
      apply Rout. intros [E F]. apply Hn. subst h. split; [left; reflexivity|].
      apply in_seq in F. lia.
Qed.

Lemma load_place_cost_fac_entry (size : nat) (widths : nat -> Z) (place_cost_exp : fp)
    (fac : nat -> nat -> fp) (high low : nat) :
  (low <= high < size)%nat ->
  load_place_cost_fac size widths place_cost_exp fac high low
  = inverse_average_tracks widths place_cost_exp high low.
Proof.
  intros H. unfold load_place_cost_fac.
  pose proof (sum_rows_loop widths (size - 1) fac) as Hsum. cbv zeta in Hsum.
  set (fac1 := fold_left _ (seq 1 (size - 1)) _) in *.
  destruct (invert_rows_loop place_cost_exp (seq 0 size) fac1 (seq_NoDup _ _)) as [Hin _].
  cbv zeta in Hin. rewrite Hin by (try apply in_seq; lia).
  rewrite Hsum by lia. unfold inverse_average_tracks. cbv zeta.
  f_equal. f_equal.
  - unfold of_int. cbn [fadd]. f_equal.
    replace (high - low + 1)%nat with (S (high - low)) by lia.
    rewrite Nat2Z.inj_succ, succ_IZR. reflexivity.
  - unfold of_int. cbn [feq].
    destruct (Req_dec_T (IZR (tracks widths low (high - low + 1))) 0) as [E|E].
    + apply eq_IZR_R0 in E. rewrite E. reflexivity.
    + destruct (tracks widths low (high - low + 1) =? 0)%Z eqn:Ez; [|reflexivity].
      apply Z.eqb_eq in Ez. rewrite Ez in E. contradiction.
Qed.

(** X19.  After [alloc_and_load_for_fast_cost_update], for every
    [low <= high] below the height of the grid, [chanx_place_cost_fac[high][low]]
    is the number of the channels [low .. high] divided by the sum of their
    widths in [x_list] (by 1 when that sum is 0), taken to the power
    [place_cost_exp]; the same holds for [chany_place_cost_fac] with the
    width of the grid and [y_list].  Nothing of what the tables held before
    is left in these entries. *)
Theorem place_cost_fac_inverse_average (place_cost_exp : fp)
    (chanx chany : nat -> nat -> fp) :
  let r := alloc_and_load_for_fast_cost_update place_cost_exp chanx chany in
  (forall high low, (low <= high < Z.to_nat grid_height)%nat ->
     fst r high low = inverse_average_tracks chan_width_x_list place_cost_exp high low)
  /\ (forall high low, (low <= high < Z.to_nat grid_width)%nat ->
        snd r high low = inverse_average_tracks chan_width_y_list place_cost_exp high low).
Proof.
  cbv zeta. unfold alloc_and_load_for_fast_cost_update. cbn [fst snd].
  split; intros high low H; apply load_place_cost_fac_entry; exact H.
Qed.

(** *** The committed boxes after an accepted trial *)

Lemma update_bb_result (locs : block_locs_t) (net : ClusterNetId)
    (xold yold xnew ynew : Z) (s : bb_state) :
  bb_updated_before s net <> GOT_FROM_SCRATCH ->
  let cur := match bb_updated_before s net with
             | NOT_UPDATED_YET => (bb_coords s net, bb_num_on_edges s net)
             | _ => ts_pair s net
             end in
  let s' := update_bb locs net xold yold xnew ynew s in
  match incremental_axis (x_extent cur) (clip xold (grid_width - 2))
                         (clip xnew (grid_width - 2)),
        incremental_axis (y_extent cur) (clip yold (grid_height - 2))
                         (clip ynew (grid_height - 2)) with
  | Some ax, Some ay =>
      bb_updated_before s' net = UPDATED_ONCE
      /\ x_extent (ts_pair s' net) = ax /\ y_extent (ts_pair s' net) = ay
  | _, _ =>
      bb_updated_before s' net = GOT_FROM_SCRATCH
      /\ ts_pair s' net = get_bb_from_scratch locs net
  end.
Proof.
  intros Hflag cur s'. subst cur s'. unfold update_bb, ts_pair.
  destruct (bb_updated_before s net) eqn:Ef; [| |contradiction]; cbv zeta.
  all: rewrite update_bb_axis_x; cbv zeta.
  all: cbn [set_bb_flag ts_bb_coord_new ts_bb_edge_new].
  all: match goal with
       | |- context [incremental_axis (x_extent ?c) ?o ?n] =>
           destruct (incremental_axis (x_extent c) o n) as [ax|] eqn:Eax
       end; cbn [option_map].
  all: try rewrite update_bb_axis_y; cbv zeta.
  all: unfold y_extent; cbn [fst snd xmin xmax ymin ymax].
  all: try match goal with
           | |- context [incremental_axis ?c ?o ?n] =>
               destruct (incremental_axis c o n) as [ay|] eqn:Eay
           end; cbn [option_map].
  all: repeat (progress (cbn [set_ts_bb set_bb_flag set_ts_bb_coord_new set_ts_bb_edge_new
                               ts_bb_coord_new ts_bb_edge_new bb_updated_before fst snd
                               bb_flag_eqb xmin xmax ymin ymax lo hi lo_edge hi_edge
                               x_extent y_extent];
                          rewrite ?upd_same, ?Ef)).
  all: try (split; [reflexivity|]; destruct (get_bb_from_scratch locs net); reflexivity).
  all: try (split; [reflexivity|]; split; [destruct ax|destruct ay]; reflexivity).
Qed.

Lemma update_bb_other_boxes (locs : block_locs_t) (net m : ClusterNetId)
    (xold yold xnew ynew : Z) (s : bb_state) :
  m <> net ->
  ts_pair (update_bb locs net xold yold xnew ynew s) m = ts_pair s m.
Proof.
  intros Hne. unfold update_bb, ts_pair.
  destruct (bb_updated_before s net) eqn:Hf; try reflexivity;
    repeat match goal with
           | |- context [match ?x with Some _ => _ | None => _ end] => destruct x
           | |- context [if ?c then _ else _] => destruct c
           end;
    cbn [set_bb_flag set_ts_bb set_ts_bb_coord_new set_ts_bb_edge_new
         ts_bb_coord_new ts_bb_edge_new];
    rewrite ?upd_other by exact Hne; reflexivity.
Qed.

Lemma update_net_bb_other_boxes (locs : block_locs_t) (net m : ClusterNetId)
    (mb : t_pl_moved_block) (blk : ClusterBlockId) (blk_pin : ClusterPinId)
    (s : bb_state) :
  m <> net ->
  ts_pair (update_net_bb locs net mb blk blk_pin s) m = ts_pair s m.
Proof.
  intros Hne. unfold update_net_bb.
  destruct (length (net_sinks nl net) <? SMALL_NET)%nat.
  - destruct (bb_updated_before s net); try reflexivity.
    unfold ts_pair. cbn [set_ts_bb_coord_new ts_bb_coord_new ts_bb_edge_new].
    rewrite upd_other by exact Hne. reflexivity.
  - apply update_bb_other_boxes. exact Hne.
Qed.

(** The mixed coordinates of the pins of a net that the next visited pin
    is not on. *)
Lemma mixed_other (f f' : ClusterBlockId * Z -> Z) (visited : list ClusterPinId)
    (pin : ClusterPinId) (pins : list ClusterPinId) :
  ~ In pin pins ->
  map (mixed f f' (visited ++ [pin])) pins = map (mixed f f' visited) pins.
Proof.
  intros Hn. apply map_ext_in. intros p Hp. unfold mixed.
  destruct (in_dec Nat.eq_dec p (visited ++ [pin])) as [H|H];
    destruct (in_dec Nat.eq_dec p visited) as [H'|H']; try reflexivity.
  - apply in_app_or in H. destruct H as [H|[<-|[]]]; contradiction.
  - exfalso. apply H. apply in_or_app. left. exact H'.
Qed.

(** The incremental update of an axis for the next visited pin of the
    net. *)
Lemma mixed_visit (f f' : ClusterBlockId * Z -> Z) (visited : list ClusterPinId)
    (pin : ClusterPinId) (pins : list ClusterPinId) (a a' : extent) :
  NoDup pins -> In pin pins -> ~ In pin visited ->
  is_extent (map (mixed f f' visited) pins) a ->
  incremental_axis a (f (site_of_pin pin)) (f' (site_of_pin pin)) = Some a' ->
  is_extent (map (mixed f f' (visited ++ [pin])) pins) a'.
Proof.
  intros Hnd Hin Hv Ha Hinc.
  apply in_split in Hin. destruct Hin as (l1 & l2 & ->).
  apply NoDup_remove_2 in Hnd.
  assert (Hold : mixed f f' visited pin = f (site_of_pin pin)).
  { unfold mixed. destruct (in_dec Nat.eq_dec pin visited); [contradiction|reflexivity]. }
  assert (Hnew : mixed f f' (visited ++ [pin]) pin = f' (site_of_pin pin)).
  { unfold mixed. destruct (in_dec Nat.eq_dec pin (visited ++ [pin])) as [H|H];
      [reflexivity|]. exfalso. apply H. apply in_or_app. right. left. reflexivity. }
  assert (P : forall g : ClusterPinId -> Z,
             Permutation (map g (l1 ++ pin :: l2)) (g pin :: map g (l1 ++ l2))).
  { intros g. change (g pin :: map g (l1 ++ l2)) with (map g (pin :: l1 ++ l2)).
    apply Permutation_map. apply Permutation_sym. apply Permutation_middle. }
  apply (is_extent_perm _ _ _ (Permutation_sym (P _))).
  rewrite Hnew, (mixed_other f f' visited pin (l1 ++ l2) Hnd).
  apply (incremental_axis_sound _ a _ (f (site_of_pin pin))); [|exact Hinc].
  rewrite <- Hold. apply (is_extent_perm _ _ _ (P _)). exact Ha.
Qed.

Lemma mixed_none (f f' : ClusterBlockId * Z -> Z) (visited pins : list ClusterPinId) :
  (forall p, In p pins -> ~ In p visited) ->
  map (mixed f f' visited) pins = map (fun p => f (site_of_pin p)) pins.
Proof.
  intros H. apply map_ext_in. intros p Hp. unfold mixed.
  destruct (in_dec Nat.eq_dec p visited) as [Hv|Hv]; [|reflexivity].
  exfalso. exact (H p Hp Hv).
Qed.

(** One visited pin, for the net of the pin. *)
Lemma update_net_bb_tracks (locs locs' : block_locs_t) (visited : list ClusterPinId)
    (bb : bb_state) (mb : t_pl_moved_block) (pin : ClusterPinId) :
  netlist_wf -> netlist_sites_wf ->
  let net := pin_net nl pin in
  In net (nets nl) ->
  In pin (block_pins nl (block_num mb)) -> ~ In pin visited ->
  old_loc mb = locs (block_num mb) -> new_loc mb = locs' (block_num mb) ->
  bb_coords bb net = fst (get_bb_from_scratch locs net) ->
  ((SMALL_NET <= length (net_sinks nl net))%nat ->
   bb_num_on_edges bb net = snd (get_bb_from_scratch locs net)) ->
  box_in_progress locs locs' visited bb net
  \/ (bb_updated_before bb net = NOT_UPDATED_YET
      /\ forall p, In p visited -> pin_net nl p <> net) ->
  box_in_progress locs locs' (visited ++ [pin])
                  (update_net_bb locs' net mb (block_num mb) pin bb) net.
Proof.
  intros Hwf Hsw net Hnet Hpin Hv Hold Hnew Hc He Hprior.
  unfold box_in_progress in *. unfold update_net_bb.
  destruct (length (net_sinks nl net) <? SMALL_NET)%nat eqn:Hsmall.
  - assert (Hf : bb_updated_before bb net = NOT_UPDATED_YET).
    { destruct Hprior as [[_ H]|[H _]]; exact H. }
    rewrite Hf. cbn [set_ts_bb_coord_new ts_bb_coord_new bb_updated_before].
    rewrite upd_same. split; [reflexivity|exact Hf].
  - apply Nat.ltb_ge in Hsmall. specialize (He Hsmall).
    assert (Hpins : In pin (net_pins nl net)).
    { apply (ws_pin_in_net Hsw (block_num mb)); assumption. }
    pose proof (ws_nodup Hsw net Hnet) as Hnd.
    pose proof (wf_block_of_pin Hwf _ _ Hpin) as Hblk.
    assert (Hxo : clip (loc_x (old_loc mb)
                        + pin_width_offset nl (block_num mb) (tile_pin_index nl pin))
                       (grid_width - 2) = site_x locs (site_of_pin pin)).
    { unfold site_x, site_of_pin, clipped_pin_x. cbn [fst snd]. rewrite Hblk, Hold.
      reflexivity. }
    assert (Hxn : clip (loc_x (new_loc mb)
                        + pin_width_offset nl (block_num mb) (tile_pin_index nl pin))
                       (grid_width - 2) = site_x locs' (site_of_pin pin)).
    { unfold site_x, site_of_pin, clipped_pin_x. cbn [fst snd]. rewrite Hblk, Hnew.
      reflexivity. }
    assert (Hyo : clip (loc_y (old_loc mb)
                        + pin_height_offset nl (block_num mb) (tile_pin_index nl pin))
                       (grid_height - 2) = site_y locs (site_of_pin pin)).
    { unfold site_y, site_of_pin, clipped_pin_y. cbn [fst snd]. rewrite Hblk, Hold.
      reflexivity. }
    assert (Hyn : clip (loc_y (new_loc mb)
                        + pin_height_offset nl (block_num mb) (tile_pin_index nl pin))
                       (grid_height - 2) = site_y locs' (site_of_pin pin)).
    { unfold site_y, site_of_pin, clipped_pin_y. cbn [fst snd]. rewrite Hblk, Hnew.
      reflexivity. }
    cbv zeta.
    set (s' := update_bb locs' net _ _ _ _ bb).
    assert (Hcur : exists cur,
               cur = match bb_updated_before bb net with
                     | NOT_UPDATED_YET => (bb_coords bb net, bb_num_on_edges bb net)
                     | _ => ts_pair bb net
                     end
               /\ (bb_updated_before bb net = GOT_FROM_SCRATCH
                   /\ ts_pair bb net = get_bb_from_scratch locs' net
                   \/ bb_updated_before bb net <> GOT_FROM_SCRATCH
                      /\ is_extent (map (mixed (site_x locs) (site_x locs') visited)
                                        (net_pins nl net)) (x_extent cur)
                      /\ is_extent (map (mixed (site_y locs) (site_y locs') visited)
                                        (net_pins nl net)) (y_extent cur))).
    { eexists. split; [reflexivity|].
      destruct Hprior as [[(Hf & Hx & Hy)|(Hf & Hts)]|(Hf & Hnone)].
      - right. rewrite Hf. split; [discriminate|]. split; assumption.
      - left. split; assumption.
      - right. rewrite Hf. split; [discriminate|].
        assert (Hcomm : (bb_coords bb net, bb_num_on_edges bb net)
                        = get_bb_from_scratch locs net).
        { rewrite Hc, He. destruct (get_bb_from_scratch locs net). reflexivity. }
        rewrite Hcomm.
        destruct (get_bb_from_scratch_extents locs net) as [Ex Ey].
        rewrite (ws_sites Hsw net Hnet), map_map in Ex, Ey.
        assert (Hfresh : forall p, In p (net_pins nl net) -> ~ In p visited).
        { intros p Hp Hvis. apply (Hnone p Hvis).
          apply (ws_pin_of_net Hsw net p Hnet Hp). }
        rewrite !(mixed_none _ _ visited (net_pins nl net) Hfresh).
        split; assumption. }
    destruct Hcur as (cur & Ecur & [(Hf & Hts)|(Hf & Hx & Hy)]).
    + right. subst s'. rewrite update_bb_after_scratch by exact Hf. split; assumption.
    + pose proof (update_bb_result locs' net
                    (loc_x (old_loc mb)
                     + pin_width_offset nl (block_num mb) (tile_pin_index nl pin))
                    (loc_y (old_loc mb)
                     + pin_height_offset nl (block_num mb) (tile_pin_index nl pin))
                    (loc_x (new_loc mb)
                     + pin_width_offset nl (block_num mb) (tile_pin_index nl pin))
                    (loc_y (new_loc mb)
                     + pin_height_offset nl (block_num mb) (tile_pin_index nl pin))
                    bb Hf) as Hres.
      cbv zeta in Hres. fold s' in Hres. rewrite <- Ecur in Hres.
      rewrite Hxo, Hxn, Hyo, Hyn in Hres.
      destruct (incremental_axis (x_extent cur) _ _) as [ax|] eqn:Eax;
        [destruct (incremental_axis (y_extent cur) _ _) as [ay|] eqn:Eay|].
      * left. destruct Hres as (R1 & R2 & R3). split; [exact R1|].
        rewrite R2, R3. split.
        -- apply (mixed_visit _ _ visited pin _ _ _ Hnd Hpins Hv Hx Eax).
        -- apply (mixed_visit _ _ visited pin _ _ _ Hnd Hpins Hv Hy Eay).
      * right. exact Hres.
      * right. exact Hres.
Qed.

Lemma record_affected_net_listed (nc : nc_state) (num : nat) (net n : ClusterNetId) :
  let r := record_affected_net net (nc, num) in
  (In n (map (ts_nets_to_update (fst r)) (seq 0 (snd r))) ->
   In n (map (ts_nets_to_update nc) (seq 0 num)) \/ n = net)
  /\ (In n (map (ts_nets_to_update nc) (seq 0 num)) ->
      In n (map (ts_nets_to_update (fst r)) (seq 0 (snd r)))).
Proof.
  cbv zeta. unfold record_affected_net.
  destruct (proposed_net_cost nc net <? Fin 0)%fp; cbn [fst snd].
  - rewrite listed_snoc. split.
    + intros H. apply in_app_or in H. destruct H as [H|[<-|[]]]; auto.
    + intros H. apply in_or_app. left. exact H.
  - split; auto.
Qed.

Lemma box_in_progress_other (locs locs' : block_locs_t) (visited : list ClusterPinId)
    (pin : ClusterPinId) (bb bb' : bb_state) (n : ClusterNetId) :
  ~ In pin (net_pins nl n) ->
  ts_pair bb' n = ts_pair bb n ->
  bb_updated_before bb' n = bb_updated_before bb n ->
  box_in_progress locs locs' visited bb n ->
  box_in_progress locs locs' (visited ++ [pin]) bb' n.
Proof.
  intros Hn Hts Hf. unfold box_in_progress.
  rewrite !(mixed_other _ _ visited pin (net_pins nl n) Hn), Hts, Hf.
  assert (Hc : ts_bb_coord_new bb' n = ts_bb_coord_new bb n).
  { unfold ts_pair in Hts. injection Hts as H _. exact H. }
  rewrite Hc. auto.
Qed.

(** One visited pin. *)
Lemma affected_pin_step_boxes (alg : e_place_algorithm)
    (crit : ClusterNetId -> nat -> fp) (locs locs' : block_locs_t) (bb0 : bb_state)
    (mb : t_pl_moved_block) (pin : ClusterPinId) (visited : list ClusterPinId)
    (acc acc' : affected_acc) :
  netlist_wf -> netlist_sites_wf -> boxes_from_scratch locs bb0 ->
  In pin (block_pins nl (block_num mb)) -> ~ In pin visited ->
  old_loc mb = locs (block_num mb) -> new_loc mb = locs' (block_num mb) ->
  affected_pin_step alg crit locs' mb acc pin = Ok acc' ->
  boxes_tracked locs locs' bb0 visited (fst (fst (fst (fst (fst acc)))))
                (snd (fst (fst (fst (fst acc))))) (snd (fst acc)) ->
  boxes_tracked locs locs' bb0 (visited ++ [pin]) (fst (fst (fst (fst (fst acc')))))
                (snd (fst (fst (fst (fst acc'))))) (snd (fst acc')).
Proof.
  intros Hwf Hsw H0 Hpin Hv Hold Hnew H (Hc & He & Hrec & Hnets).
  pose proof (affected_pin_step_once _ _ _ _ _ _ _ H Hrec) as Hrec'.
  destruct acc as [[[[[bb nc] td] ba] num] d]. cbn [fst snd] in *.
  unfold affected_pin_step in H.
  destruct (net_is_ignored nl (pin_net nl pin)) eqn:Hig.
  - injection H as <-. cbn [fst snd] in *.
    split; [exact Hc|]. split; [exact He|]. split; [exact Hrec|].
    intros n Hn Hni. destruct (Hnets n Hn Hni) as [Hl Hnl].
    assert (Hnot : ~ In pin (net_pins nl n)).
    { intros Hp. destruct (ws_pin_of_net Hsw n pin Hn Hp) as [E _]. congruence. }
    split.
    + intros Hin. apply (box_in_progress_other locs locs' visited pin bb bb n); auto.
    + intros Hin p Hp. apply in_app_or in Hp. destruct Hp as [Hp|[<-|[]]].
      * apply Hnl; assumption.
      * congruence.
  - set (net := pin_net nl pin) in *.
    pose proof (record_affected_net_once bb nc num net Hrec) as [_ Hlisted].
    pose proof (fun n => record_affected_net_listed nc num net n) as Hmem.
    cbv zeta in Hmem.
    destruct (record_affected_net net (nc, num)) as [nc1 n1] eqn:Hr.
    cbn [fst snd] in Hlisted, Hmem.
    assert (Hacc : fst (fst (fst (fst (fst acc')))) = update_net_bb locs' net mb
                                                       (block_num mb) pin bb
                   /\ snd (fst (fst (fst (fst acc')))) = nc1 /\ snd (fst acc') = n1).
    { destruct alg.
      - injection H as <-. cbn [fst snd]. auto.
      - destruct (update_td_delta_costs _ _ _ _ _) as [[[td1 ba1] d1]|err];
          cbn [bind] in H; [|discriminate].
        injection H as <-. cbn [fst snd]. auto. }
    destruct Hacc as (E1 & E2 & E3). rewrite E1, E2, E3 in *. clear E1 E2 E3.
    destruct (update_net_bb_committed locs' net mb (block_num mb) pin bb) as [C1 C2].
    split; [rewrite C1; exact Hc|]. split; [rewrite C2; exact He|].
    split; [exact Hrec'|].
    intros n Hn Hni. destruct (Hnets n Hn Hni) as [Hl Hnl].
    destruct (Nat.eq_dec n net) as [->|Hne].
    + split; [|intros Hin; contradiction].
      intros _. destruct (H0 net Hn Hni) as [B1 B2].
      apply update_net_bb_tracks; try assumption.
      * rewrite Hc. exact B1.
      * intros Hlarge. rewrite He. apply B2. exact Hlarge.
      * destruct (in_dec Nat.eq_dec net (map (ts_nets_to_update nc) (seq 0 num)))
          as [Hin|Hin].
        -- left. apply Hl. exact Hin.
        -- right. split; [|apply Hnl; exact Hin].
           destruct Hrec as [_ Hq]. destruct (Hq net) as [[[_ Hf] _]|[_ F]];
             [exact Hf|contradiction].
    + assert (Hnot : ~ In pin (net_pins nl n)).
      { intros Hp. destruct (ws_pin_of_net Hsw n pin Hn Hp) as [E _].
        apply Hne. symmetry. exact E. }
      split.
      * intros Hin. apply (proj1 (Hmem n)) in Hin.
        destruct Hin as [Hin|Hin]; [|contradiction].
        apply (box_in_progress_other locs locs' visited pin bb _ n); auto.
        -- apply update_net_bb_other_boxes. exact Hne.
        -- apply update_net_bb_other_flags. exact Hne.
      * intros Hin p Hp. apply in_app_or in Hp. destruct Hp as [Hp|[<-|[]]].
        -- apply Hnl; [|exact Hp]. intros F. apply Hin. apply (proj2 (Hmem n)). exact F.
        -- intros F. apply Hne. symmetry. exact F.
Qed.

(** The pins of one moved block. *)
Lemma affected_pins_boxes (alg : e_place_algorithm)
    (crit : ClusterNetId -> nat -> fp) (locs locs' : block_locs_t) (bb0 : bb_state)
    (mb : t_pl_moved_block) (pins visited : list ClusterPinId)
    (acc acc' : affected_acc) :
  netlist_wf -> netlist_sites_wf -> boxes_from_scratch locs bb0 ->
  (forall p, In p pins -> In p (block_pins nl (block_num mb))) ->
  NoDup (visited ++ pins) ->
  old_loc mb = locs (block_num mb) -> new_loc mb = locs' (block_num mb) ->
  foldM (affected_pin_step alg crit locs' mb) pins acc = Ok acc' ->
  boxes_tracked locs locs' bb0 visited (fst (fst (fst (fst (fst acc)))))
                (snd (fst (fst (fst (fst acc))))) (snd (fst acc)) ->
  boxes_tracked locs locs' bb0 (visited ++ pins) (fst (fst (fst (fst (fst acc')))))
                (snd (fst (fst (fst (fst acc'))))) (snd (fst acc')).
Proof.
  intros Hwf Hsw H0. revert visited acc.
  induction pins as [|a pins IH]; intros visited acc Hpins Hnd Hold Hnew H Ht;
    cbn [foldM] in H.
  - injection H as <-. rewrite app_nil_r. exact Ht.
  - destruct (affected_pin_step alg crit locs' mb acc a) as [acc1|err] eqn:Hs;
      cbn [bind] in H; [|discriminate].
    assert (Ha : ~ In a visited).
    { intros F. apply (NoDup_remove_2 _ _ _ Hnd). apply in_or_app. left. exact F. }
    pose proof (affected_pin_step_boxes alg crit locs locs' bb0 mb a visited acc acc1
                  Hwf Hsw H0 (Hpins a (or_introl eq_refl)) Ha Hold Hnew Hs Ht) as Ht1.
    replace (visited ++ a :: pins) with ((visited ++ [a]) ++ pins)
      by (rewrite <- app_assoc; reflexivity).
    apply (IH (visited ++ [a]) acc1); try assumption.
    + intros p Hp. apply Hpins. right. exact Hp.
    + rewrite <- app_assoc. exact Hnd.
Qed.

(** The pins of the moved blocks. *)
Lemma affected_blocks_boxes (alg : e_place_algorithm)
    (crit : ClusterNetId -> nat -> fp) (locs locs' : block_locs_t) (bb0 : bb_state)
    (mbs : list t_pl_moved_block) (visited : list ClusterPinId)
    (acc acc' : affected_acc) :
  netlist_wf -> netlist_sites_wf -> boxes_from_scratch locs bb0 ->
  (forall mb, In mb mbs ->
     old_loc mb = locs (block_num mb) /\ new_loc mb = locs' (block_num mb)) ->
  NoDup (visited ++ flat_map (block_pins nl) (map block_num mbs)) ->
  foldM (fun acc mb =>
           foldM (affected_pin_step alg crit locs' mb) (block_pins nl (block_num mb)) acc)
        mbs acc = Ok acc' ->
  boxes_tracked locs locs' bb0 visited (fst (fst (fst (fst (fst acc)))))
                (snd (fst (fst (fst (fst acc))))) (snd (fst acc)) ->
  boxes_tracked locs locs' bb0 (visited ++ flat_map (block_pins nl) (map block_num mbs))
                (fst (fst (fst (fst (fst acc')))))
                (snd (fst (fst (fst (fst acc'))))) (snd (fst acc')).
Proof.
  intros Hwf Hsw H0. revert visited acc.
  induction mbs as [|mb mbs IH]; intros visited acc Hlocs Hnd H Ht;
    cbn [foldM] in H; cbn [map flat_map] in *.
  - injection H as <-. rewrite app_nil_r. exact Ht.
  - destruct (foldM _ (block_pins nl (block_num mb)) acc) as [acc1|err] eqn:Hs;
      cbn [bind] in H; [|discriminate].
    rewrite app_assoc in Hnd |- *.
    destruct (Hlocs mb (or_introl eq_refl)) as [Hold Hnew].
    pose proof (affected_pins_boxes alg crit locs locs' bb0 mb
                  (block_pins nl (block_num mb)) visited acc acc1 Hwf Hsw H0
                  (fun p Hp => Hp) (NoDup_app_remove_r _ _ Hnd) Hold Hnew Hs Ht) as Ht1.
    apply (IH (visited ++ block_pins nl (block_num mb)) acc1); try assumption.
    intros mb' Hmb'. apply Hlocs. right. exact Hmb'.
Qed.

(** What [find_affected_nets_and_update_costs] leaves of the boxes. *)
Lemma find_affected_boxes (alg : e_place_algorithm) (crit : ClusterNetId -> nat -> fp)
    (locs locs' : block_locs_t) (bb bb' : bb_state) (nc nc' : nc_state)
    (td td' : td_state) (ba ba' : t_pl_blocks_to_be_moved) (bbd tdd bbd' tdd' : fp)
    (num : nat) :
  netlist_wf -> netlist_sites_wf -> boxes_from_scratch locs bb ->
  quiesced_markers bb nc ->
  NoDup (map block_num (moved_blocks ba)) ->
  (forall mb, In mb (moved_blocks ba) ->
     old_loc mb = locs (block_num mb) /\ new_loc mb = locs' (block_num mb)) ->
  find_affected_nets_and_update_costs alg crit locs' bb nc td ba bbd tdd
  = Ok (num, bb', nc', td', ba', bbd', tdd') ->
  bb_coords bb' = bb_coords bb
  /\ bb_num_on_edges bb' = bb_num_on_edges bb
  /\ NoDup (map (ts_nets_to_update nc') (seq 0 num))
  /\ forall n, In n (nets nl) -> net_is_ignored nl n = false ->
       (In n (map (ts_nets_to_update nc') (seq 0 num)) ->
        box_in_progress locs locs' (moved_pins ba) bb' n)
       /\ (~ In n (map (ts_nets_to_update nc') (seq 0 num)) ->
           forall p, In p (moved_pins ba) -> pin_net nl p <> n).
Proof.
  intros Hwf Hsw H0 Hq Hnd Hlocs H. unfold find_affected_nets_and_update_costs in H.
  match type of H with
  | bind ?c _ = _ => destruct c as [[[[[[bb1 nc1] td1] ba1] n1] d1]|err] eqn:Hloop
  end; cbn [bind] in H; [|discriminate].
  pose proof (affected_net_costs_proposed bb1 (seq 0 n1) nc1 bbd) as Hcosts.
  cbv zeta in Hcosts. fold (affected_net_costs bb1 n1 (nc1, bbd)) in Hcosts.
  destruct (affected_net_costs bb1 n1 (nc1, bbd)) as [nc2 bbd2]. cbn [fst] in Hcosts.
  destruct Hcosts as (Hts & _ & _).
  injection H as <- <- <- <- <- <- <-.
  apply (affected_blocks_boxes alg crit locs locs' bb (moved_blocks ba) []
           (bb, nc, td, ba, O, tdd)) in Hloop; try assumption.
  - cbn [app fst snd] in Hloop. destruct Hloop as (Hc & He & Hrec & Hnets).
    rewrite Hts. split; [exact Hc|]. split; [exact He|].
    split; [exact (proj1 Hrec)|]. exact Hnets.
  - cbn [app]. apply moved_pins_NoDup; assumption.
  - cbn [fst snd]. split; [reflexivity|]. split; [reflexivity|]. split.
    + split; [constructor|]. intros net. left. split; [apply Hq|intros []].
    + intros n _ _. split; [intros []|]. intros _ p [].
Qed.

(** A pair of boxes with the extremes and edge counts of the pins of a net
    is the pair that [get_bb_from_scratch] computes. *)
Lemma extents_from_scratch (locs : block_locs_t) (n : ClusterNetId) (m : bb_pair) :
  netlist_sites_wf -> In n (nets nl) ->
  is_extent (map (fun p => site_x locs (site_of_pin p)) (net_pins nl n)) (x_extent m) ->
  is_extent (map (fun p => site_y locs (site_of_pin p)) (net_pins nl n)) (y_extent m) ->
  m = get_bb_from_scratch locs n.
Proof.
  intros Hsw Hn Hx Hy.
  destruct (get_bb_from_scratch_extents locs n) as [Ex Ey].
  rewrite (ws_sites Hsw n Hn), map_map in Ex, Ey.
  apply bb_pair_extents.
  - apply (is_extent_unique _ _ _ Hx Ex).
  - apply (is_extent_unique _ _ _ Hy Ey).
Qed.

(** A pin of a net that is not among the pins of the moved blocks sits
    where it sat. *)
Lemma unmoved_pin_site (locs locs' : block_locs_t) (ba : t_pl_blocks_to_be_moved)
    (n : ClusterNetId) (p : ClusterPinId) :
  netlist_sites_wf -> In n (nets nl) -> In p (net_pins nl n) ->
  (forall b, ~ In b (map block_num (moved_blocks ba)) -> locs' b = locs b) ->
  ~ In p (moved_pins ba) ->
  site_x locs' (site_of_pin p) = site_x locs (site_of_pin p)
  /\ site_y locs' (site_of_pin p) = site_y locs (site_of_pin p).
Proof.
  intros Hsw Hn Hp Hrest Hv.
  assert (Hb : ~ In (pin_block nl p) (map block_num (moved_blocks ba))).
  { intros F. apply Hv. unfold moved_pins. apply in_flat_map.
    exists (pin_block nl p). split; [exact F|].
    apply (ws_pin_of_net Hsw n p Hn Hp). }
  unfold site_x, site_y, site_of_pin, clipped_pin_x, clipped_pin_y. cbn [fst snd].
  rewrite (Hrest _ Hb). split; reflexivity.
Qed.

(** The mixed coordinates after all the pins of the moved blocks. *)
Lemma mixed_all (locs locs' : block_locs_t) (ba : t_pl_blocks_to_be_moved)
    (n : ClusterNetId) :
  netlist_sites_wf -> In n (nets nl) ->
  (forall b, ~ In b (map block_num (moved_blocks ba)) -> locs' b = locs b) ->
  map (mixed (site_x locs) (site_x locs') (moved_pins ba)) (net_pins nl n)
  = map (fun p => site_x locs' (site_of_pin p)) (net_pins nl n)
  /\ map (mixed (site_y locs) (site_y locs') (moved_pins ba)) (net_pins nl n)
     = map (fun p => site_y locs' (site_of_pin p)) (net_pins nl n).
Proof.
  intros Hsw Hn Hrest.
  split; apply map_ext_in; intros p Hp; unfold mixed;
    destruct (in_dec Nat.eq_dec p (moved_pins ba)) as [Hv|Hv]; try reflexivity;
    symmetry; apply (unmoved_pin_site locs locs' ba n p Hsw Hn Hp Hrest Hv).
Qed.

(** X20.  An accepted trial keeps the committed boxes those of the
    placement.  In a well-formed netlist, with each block moved once, the
    markers at rest, every moved block recorded with the location it had
    and sitting afterwards at its new location, and all other blocks where
    they were: if before [try_swap] the committed box of every net that is
    not ignored is the one [get_bb_from_scratch] computes on the placement,
    and the committed edge counts of every such net with at least SMALL_NET
    sinks are those it computes, then after an accepted trial the same holds
    on the new placement. *)
Theorem accepted_trial_keeps_boxes (t : fp) (costs : t_placer_costs)
    (prev_inverse_costs : t_placer_prev_inverse_costs) (rlim : fp)
    (blocks_affected : t_pl_blocks_to_be_moved) (rlim_escape_fraction : fp)
    (place_algorithm : e_place_algorithm) (timing_tradeoff : fp)
    (st : placer_state) (costs' : t_placer_costs)
    (blocks_affected' : t_pl_blocks_to_be_moved) (st' : placer_state) :
  netlist_wf -> netlist_sites_wf ->
  let esc := escape_rlim rlim rlim_escape_fraction (ps_ext st) in
  let proposal := propose_move (ps_locs st) blocks_affected (fst esc) (snd esc) in
  let moved := snd (fst proposal) in
  NoDup (map block_num (moved_blocks moved)) ->
  (forall mb, In mb (moved_blocks moved) ->
     old_loc mb = ps_locs st (block_num mb)
     /\ new_loc mb = ps_locs st' (block_num mb)) ->
  (forall b, ~ In b (map block_num (moved_blocks moved)) ->
             ps_locs st' b = ps_locs st b) ->
  quiesced_markers (ps_bb st) (ps_nc st) ->
  boxes_from_scratch (ps_locs st) (ps_bb st) ->
  try_swap t costs prev_inverse_costs rlim blocks_affected rlim_escape_fraction
    place_algorithm timing_tradeoff st
  = Ok (ACCEPTED, costs', blocks_affected', st') ->
  boxes_from_scratch (ps_locs st') (ps_bb st').
Proof.
  intros Hwf Hsw esc proposal moved Hnd Hlocs Hrest Hq H0 H.
  apply try_swap_inv in H. fold esc in H. fold proposal in H.
  destruct H as [(_ & F & _)|(_ & H)]; [discriminate|].
  destruct H as (num & bb & nc & td & ba1 & bbd & tdd & Hfind & H).
  cbv zeta in H. destruct H as (Hacc & _ & _ & Hbb & _ & _ & Hl).
  rewrite <- Hacc in Hbb, Hl.
  unfold accept_move in Hbb, Hl. cbn [fst snd ps_bb ps_nc ps_locs] in Hbb, Hl.
  fold moved in Hfind, Hl. rewrite <- Hl in Hfind.
  apply (find_affected_boxes place_algorithm _ (ps_locs st) (ps_locs st')) in Hfind;
    try assumption.
  destruct Hfind as (Hc & He & Hnd' & Hnets).
  unfold update_move_nets in Hbb. cbv zeta in Hbb.
  pose proof (update_move_nets_commits (seq 0 num) bb nc Hnd') as Hu.
  cbv zeta in Hu. rewrite <- Hbb in Hu. destruct Hu as [Hin Hout].
  intros n Hn Hni. destruct (Hnets n Hn Hni) as [Hlisted Hfree].
  destruct (in_dec Nat.eq_dec n (map (ts_nets_to_update nc) (seq 0 num))) as [Hm|Hm].
  - destruct (Hin n Hm) as (E1 & _ & E2). specialize (Hlisted Hm).
    unfold box_in_progress in Hlisted.
    destruct (length (net_sinks nl n) <? SMALL_NET)%nat eqn:Hsmall.
    + destruct Hlisted as [Hts _]. split.
      * rewrite E1, Hts. apply get_non_updateable_bb_box.
      * intros Hlarge. apply Nat.ltb_lt in Hsmall. lia.
    + assert (Hpair : ts_pair bb n = get_bb_from_scratch (ps_locs st') n).
      { destruct Hlisted as [(_ & Hx & Hy)|(_ & Hts)]; [|exact Hts].
        destruct (mixed_all (ps_locs st) (ps_locs st') moved n Hsw Hn Hrest) as [Mx My].
        rewrite Mx in Hx. rewrite My in Hy.
        apply extents_from_scratch; assumption. }
      unfold ts_pair in Hpair. split.
      * rewrite E1, <- Hpair. reflexivity.
      * intros Hlarge. rewrite (E2 Hlarge), <- Hpair. reflexivity.
  - destruct (Hout n Hm) as (E1 & E2 & _). specialize (Hfree Hm).
    destruct (H0 n Hn Hni) as [B1 B2].
    assert (Hsame : get_bb_from_scratch (ps_locs st) n
                    = get_bb_from_scratch (ps_locs st') n).
    { destruct (get_bb_from_scratch_extents (ps_locs st) n) as [Ex Ey].
      rewrite (ws_sites Hsw n Hn), map_map in Ex, Ey.
      apply extents_from_scratch; try assumption.
      - erewrite map_ext_in; [exact Ex|]. intros p Hp. cbv beta.
        apply (unmoved_pin_site (ps_locs st) (ps_locs st') moved n p Hsw Hn Hp Hrest).
        intros F. apply (Hfree p F). apply (ws_pin_of_net Hsw n p Hn Hp).
      - erewrite map_ext_in; [exact Ey|]. intros p Hp. cbv beta.
        apply (unmoved_pin_site (ps_locs st) (ps_locs st') moved n p Hsw Hn Hp Hrest).
        intros F. apply (Hfree p F). apply (ws_pin_of_net Hsw n p Hn Hp). }
    split.
    + rewrite E1, Hc, B1, Hsame. reflexivity.
    + intros Hlarge. rewrite E2, He, (B2 Hlarge), Hsame. reflexivity.
Qed.

(** *** The incremental timing costs against those from scratch *)

(** The loop of [update_td_costs] over the pins [l]. *)
Lemma update_td_costs_loop (crit : ClusterNetId -> nat -> fp) (l : list ClusterPinId)
    (td : td_state) :
  let td' :=
    fold_left (fun td clb_pin =>
                 match pin_type nl clb_pin with
                 | DRIVER => td
                 | SINK =>
                     let clb_net := pin_net nl clb_pin in
                     if net_is_ignored nl clb_net then td
                     else
                       let ipin := pin_net_index nl clb_pin in
                       let new_timing_cost :=
                         comp_td_connection_cost crit td clb_net ipin in
                       set_connection_timing_cost clb_net ipin new_timing_cost td
                 end) l td in
  (forall p, In p l -> pin_type nl p = SINK -> net_is_ignored nl (pin_net nl p) = false ->
     connection_timing_cost td' (pin_net nl p) (pin_net_index nl p)
     = (crit (pin_net nl p) (pin_net_index nl p)
        * connection_delay td (pin_net nl p) (pin_net_index nl p))%fp)
  /\ (forall n i, connection_timing_cost td' n i = connection_timing_cost td n i
                  \/ connection_timing_cost td' n i = (crit n i * connection_delay td n i)%fp)
  /\ connection_delay td' = connection_delay td
  /\ proposed_connection_delay td' = proposed_connection_delay td
  /\ proposed_connection_timing_cost td' = proposed_connection_timing_cost td
  /\ net_timing_cost td' = net_timing_cost td.
Proof.
  revert td. induction l as [|a l IH]; intros td; cbn [fold_left].
  - split; [intros p []|]. split; [intros; left; reflexivity|]. repeat split.
  - cbv zeta in IH |- *.
    destruct (pin_type nl a) eqn:Ht;
      [|destruct (net_is_ignored nl (pin_net nl a)) eqn:Hig].
    + destruct (IH td) as (Hin & Hany & H1 & H2 & H3 & H4).
      split; [|repeat split; assumption].
      intros p [<-|Hp] Hs Hn; [congruence|]. apply Hin; assumption.
    + destruct (IH td) as (Hin & Hany & H1 & H2 & H3 & H4).
      split; [|repeat split; assumption].
      intros p [<-|Hp] Hs Hn; [congruence|]. apply Hin; assumption.
    + set (td1 := set_connection_timing_cost _ _ _ td).
      destruct (IH td1) as (Hin & Hany & H1 & H2 & H3 & H4).
      assert (Hd : connection_delay td1 = connection_delay td) by reflexivity.
      rewrite Hd in *.
      split; [|split; [|repeat split; assumption]].
      * intros p [<-|Hp] Hs Hn; [|apply Hin; assumption].
        destruct (Hany (pin_net nl a) (pin_net_index nl a)) as [E|E]; [|exact E].
        rewrite E. subst td1. cbn [set_connection_timing_cost connection_timing_cost].
        rewrite upd2_same. reflexivity.
      * intros n i. destruct (Hany n i) as [E|E]; [|right; exact E].
        rewrite E. subst td1. cbn [set_connection_timing_cost connection_timing_cost].
        rewrite upd2_get.
        destruct (Nat.eqb n (pin_net nl a) && Nat.eqb i (pin_net_index nl a))%bool eqn:B.
        -- right. apply andb_prop in B. destruct B as [B1 B2].
           apply Nat.eqb_eq in B1, B2. subst n i. reflexivity.
        -- left. reflexivity.
Qed.

(** X21.  The incremental [update_td_costs] leaves the connection costs
    that [comp_td_costs] computes from scratch.  If every connection cost
    is the former criticality times the committed delay, and every sink
    whose criticality has changed is among the pins with modified
    criticality, then after [update_td_costs] every connection of a net
    that is not ignored has the cost that [comp_td_costs] stores for it
    with the new criticalities.  The delays are not written and the total
    returned is [total_cost] of the connection costs it leaves. *)
Theorem update_td_costs_matches_scratch (crit_old : ClusterNetId -> nat -> fp)
    (e : ext) (td : td_state) :
  (forall n i, In n (nets nl) -> net_is_ignored nl n = false ->
     (1 <= i < length (net_pins nl n))%nat ->
     connection_timing_cost td n i = (crit_old n i * connection_delay td n i)%fp) ->
  (forall n i, In n (nets nl) -> net_is_ignored nl n = false ->
     (1 <= i < length (net_pins nl n))%nat ->
     criticality e n i = crit_old n i
     \/ exists p, In p (pins_with_modified_criticality e) /\ pin_type nl p = SINK
                  /\ pin_net nl p = n /\ pin_net_index nl p = i) ->
  let incremental := update_td_costs e td in
  let scratch := comp_td_costs (criticality e) td in
  (forall n i, In n (nets nl) -> net_is_ignored nl n = false ->
     (1 <= i < length (net_pins nl n))%nat ->
     connection_timing_cost (fst incremental) n i
     = connection_timing_cost (fst scratch) n i)
  /\ connection_delay (fst incremental) = connection_delay td
  /\ snd incremental = total_cost (connection_timing_cost (fst incremental)).
Proof.
  intros Hold Hmod incremental scratch. subst incremental scratch.
  pose proof (update_td_costs_loop (criticality e) (pins_with_modified_criticality e) td)
    as Hu.
  pose proof (all_costs_loop (criticality e) (nets nl) td) as Hs.
  cbv zeta in Hu, Hs. destruct Hu as (Hin & Hany & H1 & _).
  destruct Hs as (Hc & _).
  unfold update_td_costs, comp_td_costs. cbn [fst snd].
  split; [|split; [exact H1|reflexivity]].
  intros n i Hn Hig Hi.
  rewrite (Hc n i Hn Hig) by (apply in_seq; lia).
  destruct (Hmod n i Hn Hig Hi) as [E|(p & Hp & Ht & <- & <-)].
  - destruct (Hany n i) as [A|A]; [|exact A].
    rewrite A, (Hold n i Hn Hig Hi), E. reflexivity.
  - apply Hin; assumption.
Qed.

(** *** The crossing count grows with the fanout *)

Lemma cross_count_step (k : nat) :
  (k < 49)%nat ->
  exists a b, nth k cross_count NaN = Fin a /\ nth (S k) cross_count NaN = Fin b
              /\ (a <= b)%R.
Proof.
  intros H. unfold cross_count.
  do 49 (destruct k as [|k];
         [eexists; eexists; split; [reflexivity|]; split; [reflexivity|]; lra|]).
  lia.
Qed.

Lemma wirelength_crossing_count_step (m : nat) :
  (1 <= m)%nat ->
  exists a b, wirelength_crossing_count m = Fin a
              /\ wirelength_crossing_count (S m) = Fin b /\ (1 <= a <= b)%R.
Proof.
  intros H.
  destruct (wirelength_crossing_count_positive m H) as (a & Ea & Ha).
  destruct (Nat.lt_ge_cases m 50) as [Hs|Hl].
  - destruct (cross_count_step (m - 1)) as (a' & b & E1 & E2 & Hab); [lia|].
    rewrite wirelength_crossing_count_table in Ea by lia.
    exists a, b. rewrite (wirelength_crossing_count_table m) by lia.
    rewrite (wirelength_crossing_count_table (S m)) by lia.
    replace (S m - 1)%nat with (S (m - 1)) by lia.
    split; [exact Ea|]. split; [exact E2|].
    rewrite E1 in Ea. injection Ea as <-. lra.
  - destruct (Nat.eq_dec m 50) as [->|Hne].
    + rewrite wirelength_crossing_count_table in Ea by lia.
      rewrite (wirelength_crossing_count_table 50) by lia.
      rewrite (wirelength_crossing_count_large 51) by lia.
      cbn in Ea. injection Ea as <-.
      eexists. eexists. split; [reflexivity|]. split; [reflexivity|].
      replace (INR 51) with 51%R by (simpl; lra). lra.
    + rewrite (wirelength_crossing_count_large m) in * by lia.
      rewrite (wirelength_crossing_count_large (S m)) by lia.
      injection Ea as <-.
      eexists. eexists. split; [reflexivity|]. split; [reflexivity|].
      rewrite S_INR. lra.
Qed.

(** X22.  [wirelength_crossing_count] does not decrease with the number of
    pins: for [1 <= m <= n] pins both values are finite, at least 1, and
    the one of [m] is not greater than the one of [n]. *)
Theorem wirelength_crossing_count_monotone (m n : nat) :
  (1 <= m <= n)%nat ->
  exists a b, wirelength_crossing_count m = Fin a
              /\ wirelength_crossing_count n = Fin b /\ (1 <= a <= b)%R.
Proof.
  intros [Hm Hmn]. induction Hmn as [|n Hmn IH].
  - destruct (wirelength_crossing_count_positive m Hm) as (a & Ea & Ha).
    exists a, a. split; [exact Ea|]. split; [exact Ea|]. lra.
  - destruct IH as (a & b & Ea & Eb & Hab).
    destruct (wirelength_crossing_count_step n) as (b' & c & Eb' & Ec & Hbc); [lia|].
    rewrite Eb in Eb'. injection Eb' as <-.
    exists a, c. split; [exact Ea|]. split; [exact Ec|]. lra.
Qed.

End Placer.

(** ** Concrete runs *)

(** The three cases of [assess_swap] on the generator that draws one half. *)
Lemma assess_swap_metropolis_witness :
  assess_swap half_frand (Fin (-1)) (Fin 2) 0%nat = (ACCEPTED, 0%nat)
  /\ assess_swap half_frand (Fin 1) (Fin 0) 0%nat = (REJECTED, 0%nat)
  /\ snd (assess_swap half_frand (Fin 1) (Fin 2) 0%nat) = 1%nat.
Proof.
  destruct (assess_swap_metropolis nat half_frand (Fin (-1)) (Fin 2) 0%nat) as [H1 _].
  destruct (assess_swap_metropolis nat half_frand (Fin 1) (Fin 0) 0%nat) as [_ [H2 _]].
  destruct (assess_swap_metropolis nat half_frand (Fin 1) (Fin 2) 0%nat) as [_ [_ H3]].
  split; [| split].
  - apply H1. apply fle_Fin. lra.
  - apply H2; [apply fle_Fin_false; lra | apply feq_Fin; reflexivity].
  - apply H3; [apply fle_Fin_false; lra | apply (proj2 (feq_Fin_false 2 0)); lra].
Defined.

(** The crossing count of a five-pin and of a sixty-pin net. *)
Lemma get_net_cost_formula_witness :
  wirelength_crossing_count (length (net_pins demo_netlist 0%nat)) = Fin 1.1536
  /\ wirelength_crossing_count (length (net_pins wide_netlist 0%nat))
     = Fin (2.7933 + 0.02616 * (INR 60 - 50)).
Proof.
  destruct (get_net_cost_formula demo_netlist (fun _ _ => Fin 1) (fun _ _ => Fin 1)
              0%nat {| xmin := 1; xmax := 3; ymin := 1; ymax := 2 |})
    as [_ [_ [H1 _]]].
  destruct (get_net_cost_formula wide_netlist (fun _ _ => Fin 1) (fun _ _ => Fin 1)
              0%nat {| xmin := 1; xmax := 3; ymin := 1; ymax := 2 |})
    as [_ [_ [_ H2]]].
  split.
  - rewrite H1; [reflexivity | cbn; lia].
  - apply H2. cbn. lia.
Defined.

(** The cost of net 0 of the small netlist with the box [1..3] x [1..2]
    and unit channel factors: [3 * 1.1536 + 2 * 1.1536]. *)
Lemma get_net_cost_demo :
  get_net_cost demo_netlist (fun _ _ => Fin 1) (fun _ _ => Fin 1) 0%nat
    {| xmin := 1; xmax := 3; ymin := 1; ymax := 2 |}
  = Fin 5.768.
Proof.
  rewrite (get_net_cost_real demo_netlist (fun _ _ => Fin 1) (fun _ _ => Fin 1)
             0%nat _ 1.1536 1 1); try reflexivity.
  cbn [xmin xmax ymin ymax]. f_equal.
  replace (3 - 1 + 1)%Z with 3%Z by reflexivity.
  replace (2 - 1 + 1)%Z with 2%Z by reflexivity. lra.
Qed.

(** An annealing state with [rlim = 10] and the USER schedule. *)
Definition rlim_ten : t_annealing_state :=
  {| ann_t := Fin 1; ann_rlim := Fin 10; inverse_delta_rlim := Fin 1;
     ann_alpha := Fin 0.8; restart_t := Fin 1; crit_exponent := Fin 1;
     move_lim_max := 10; move_lim := 10 |}.

Definition user_sched : t_annealing_sched :=
  {| sched_type := USER_SCHED; inner_num := Fin 1; init_t := Fin 100;
     alpha_t := Fin 0.8; exit_t := Fin 0.01; alpha_min := Fin 0.2;
     alpha_max := Fin 0.9; alpha_decay := Fin 0.7; success_min := Fin 0.1;
     success_target := Fin 0.25 |}.

(** C6 as stated fails: with [rlim = 10] and no accepted move on a
    100 x 100 grid the code leaves [5.6], the claimed formula [15.6]; and
    under the USER schedule the outer iteration leaves [rlim] at [10]. *)
Lemma update_rlim_claim_fails :
  update_rlim 100 100 (Fin 10) (Fin 0) = Fin 5.6
  /\ claimed_update_rlim 100 100 (Fin 10) (Fin 0) = Fin 15.6
  /\ update_rlim 100 100 (Fin 10) (Fin 0) <> claimed_update_rlim 100 100 (Fin 10) (Fin 0)
  /\ ann_rlim (snd (update_annealing_state pair_netlist 100 100 rlim_ten (Fin 0)
                      pair_costs
                      {| place_algorithm := BOUNDING_BOX_PLACE; timing_tradeoff := Fin 0.5;
                         rlim_escape_fraction := Fin 0; td_place_exp_first := Fin 1;
                         td_place_exp_last := Fin 8; recompute_crit_iter := 1;
                         inner_loop_recompute_divider := 0 |}
                      user_sched))
     = Fin 10.
Proof.
  assert (H1 : update_rlim 100 100 (Fin 10) (Fin 0) = Fin 5.6).
  { rewrite update_rlim_real by lia. f_equal.
    replace (Z.max 100 100 - 1)%Z with 99%Z by reflexivity.
    unfold Rmax, Rmin. r_dec; lra. }
  assert (H2 : claimed_update_rlim 100 100 (Fin 10) (Fin 0) = Fin 15.6).
  { unfold claimed_update_rlim, of_int, fsub. cbn [fneg fadd fmul].
    rewrite fmin_Fin, fmax_Fin. f_equal.
    replace (Z.max 100 100 - 1)%Z with 99%Z by reflexivity.
    unfold Rmax, Rmin. r_dec; lra. }
  split; [exact H1|]. split; [exact H2|]. split.
  - rewrite H1, H2. intros H. injection H. lra.
  - reflexivity.
Qed.

(** The range limit after an iteration without an accepted move. *)
Lemma update_rlim_formula_witness :
  update_rlim 100 100 (Fin 10) (Fin 0)
  = Fin (Rmax (Rmin (10 * (0.56 + 0)) (IZR (Z.max 100 100 - 1))) 1).
Proof.
  apply (proj1 (update_rlim_formula demo_netlist 100 100)); lia.
Defined.

Definition pair_state : placer_state nat :=
  {| ps_bb := pair_bb; ps_nc := pair_nc; ps_td := pair_td; ps_locs := pair_locs;
     ps_ext := 0%nat; num_ts_called := 0 |}.

(** A trial on the pair netlist. *)
Definition pair_try_swap (safe : bool)
    (propose : block_locs_t -> t_pl_blocks_to_be_moved -> fp -> nat ->
               e_create_move * t_pl_blocks_to_be_moved * nat)
    (t : fp) (alg : e_place_algorithm) (st : placer_state nat) :=
  try_swap pair_netlist 10 10 unit_fac unit_fac half_frand manhattan_delay
    unit_criticality keep_ext safe propose keep_ext keep_ext stats_init
    t pair_costs pair_inverse_costs (Fin 3) no_blocks (Fin 0) alg (Fin 0.5) st.

Lemma pair_netlist_wf : netlist_wf pair_netlist.
Proof.
  constructor.
  - intros [|[|b]] p; cbn; intros H; [| |contradiction H];
      destruct H as [<-|[]]; reflexivity.
  - intros [|[|b]]; cbn; repeat constructor; cbn; auto.
  - intros b p _. reflexivity.
  - intros [|n] i; cbn; [intros _; split; reflexivity | lia].
  - intros [|[|b]] p; cbn; intros H; [| |contradiction H];
      destruct H as [<-|[]]; cbn; intros Ht; [split; reflexivity | discriminate].
Qed.

Lemma pair_state_quiesced : quiesced_markers (ps_bb pair_state) (ps_nc pair_state).
Proof. intros net. split; reflexivity. Qed.

Lemma pair_state_shadows : shadows_invalid pair_netlist (ps_td pair_state).
Proof.
  intros net [|ipin] _ Hipin; [lia|]. split; reflexivity.
Qed.

(** C4 as stated fails in a build without VTR_ASSERT_SAFE_ENABLED: the
    sink is sent from column 2 to column 5, the move is rejected at
    [t = 0], and the proposed delay [4] of the connection stays in the
    shadow array. *)
Lemma rejected_trial_keeps_shadows :
  exists st',
    pair_try_swap false (move_sink_to 5) (Fin 0) PATH_TIMING_DRIVEN_PLACE pair_state
    = Ok (REJECTED, pair_costs, no_blocks, st')
    /\ shadows_invalid pair_netlist (ps_td pair_state)
    /\ proposed_connection_delay (ps_td st') 0%nat 1%nat = Fin 4
    /\ ~ shadows_invalid pair_netlist (ps_td st').
Proof.
  eexists. split; [unfold pair_try_swap; run; reflexivity|].
  split; [exact pair_state_shadows|].
  split; [run; reflexivity|].
  intros H. destruct (H 0%nat 1%nat) as [H1 _]; [left; reflexivity | cbn; lia|].
  revert H1. run. discriminate.
Qed.

(** The same move in a build with VTR_ASSERT_SAFE_ENABLED: the rejected
    trial leaves the markers at rest and every shadow entry NaN. *)
Lemma trial_quiesces_markers_witness :
  exists st',
    pair_try_swap true (move_sink_to 5) (Fin 0) PATH_TIMING_DRIVEN_PLACE pair_state
    = Ok (REJECTED, pair_costs, no_blocks, st')
    /\ quiesced_markers (ps_bb st') (ps_nc st')
    /\ shadows_invalid pair_netlist (ps_td st').
Proof.
  assert (H : exists st',
             pair_try_swap true (move_sink_to 5) (Fin 0) PATH_TIMING_DRIVEN_PLACE pair_state
             = Ok (REJECTED, pair_costs, no_blocks, st')).
  { eexists. unfold pair_try_swap. run. reflexivity. }
  destruct H as [st' H]. exists st'. split; [exact H|].
  destruct (trial_quiesces_markers pair_netlist 10 10 unit_fac unit_fac nat half_frand
              manhattan_delay unit_criticality keep_ext true (move_sink_to 5) keep_ext
              keep_ext stats_init (Fin 0) pair_costs pair_inverse_costs (Fin 3) no_blocks
              (Fin 0) PATH_TIMING_DRIVEN_PLACE (Fin 0.5) pair_state REJECTED pair_costs
              no_blocks st' H)
    as (Hq & Hs & _).
  split.
  - apply Hq. exact pair_state_quiesced.
  - apply Hs; [exact pair_state_shadows|].
    right. right. split; [reflexivity | exact pair_netlist_wf].
Defined.

(** The inner loop on the pair netlist, bounding-box driven, with a
    generator that never finds a move. *)
Definition pair_opts : t_placer_opts :=
  {| place_algorithm := BOUNDING_BOX_PLACE; timing_tradeoff := Fin 0.5;
     rlim_escape_fraction := Fin 0; td_place_exp_first := Fin 1;
     td_place_exp_last := Fin 8; recompute_crit_iter := 1;
     inner_loop_recompute_divider := 0 |}.

Definition timing_opts : t_placer_opts :=
  {| place_algorithm := PATH_TIMING_DRIVEN_PLACE; timing_tradeoff := Fin 0.5;
     rlim_escape_fraction := Fin 0; td_place_exp_first := Fin 1;
     td_place_exp_last := Fin 8; recompute_crit_iter := 1;
     inner_loop_recompute_divider := 0 |}.

Definition pair_env (costs : t_placer_costs) : trial_env nat :=
  {| te_costs := costs; te_blocks_affected := no_blocks;
     te_counters := {| num_swap_rejected := 0; num_swap_accepted := 0;
                       num_swap_aborted := 0 |};
     te_state := pair_state |}.

Definition pair_inner_acc (moves_since_cost_recompute : Z) : inner_acc :=
  {| ia_stats := {| av_cost := Fin 0; av_bb_cost := Fin 0; av_timing_cost := Fin 0;
                    sum_of_squares := Fin 0; success_sum := 0 |};
     ia_inner_crit_iter_count := 1;
     ia_moves_since_cost_recompute := moves_since_cost_recompute |}.

Definition pair_inner_loop_step :=
  inner_loop_step pair_netlist 10 10 unit_fac unit_fac half_frand manhattan_delay
    unit_criticality keep_ext false no_move keep_ext keep_ext stats_init
    keep_ext keep_ext (fun _ => []) (fun e => e) (fun _ => Fin 0)
    (Fin 1) (Fin 3) pair_opts 10 (Fin 1) 1 pair_inverse_costs.

Definition pair_placement_inner_loop :=
  placement_inner_loop pair_netlist 10 10 unit_fac unit_fac half_frand manhattan_delay
    unit_criticality keep_ext false no_move keep_ext keep_ext stats_init
    keep_ext keep_ext (fun _ => []) (fun e => e) (fun _ => Fin 0)
    (Fin 1) (Fin 3) pair_opts.

(** The incremental bounding-box cost has drifted to 100; the net costs
    sum to 3. *)
Definition drifted_costs : t_placer_costs :=
  {| cost := Fin 100; bb_cost := Fin 100; timing_cost := Fin 1 |}.

(** C7 as stated fails: trial 500,000 after a recomputation leaves the
    drifted cost in place and raises nothing; it is trial 500,001 that
    recomputes and raises the error. *)
Lemma no_recompute_on_trial_500000 :
  (exists a' env',
      pair_inner_loop_step (pair_inner_acc 499999, pair_env drifted_costs) 0%nat
      = Ok (a', env')
      /\ ia_moves_since_cost_recompute a' = 500000%Z
      /\ te_costs env' = drifted_costs)
  /\ pair_inner_loop_step (pair_inner_acc 500000, pair_env drifted_costs) 0%nat
     = Fatal BBCostDrift.
Proof.
  split.
  - eexists. eexists. split; [unfold pair_inner_loop_step; run; reflexivity|].
    split; reflexivity.
  - unfold pair_inner_loop_step. run. reflexivity.
Qed.

(** Two trials from a count of 499,999: the second one recomputes the
    costs and resets the count. *)
Lemma recompute_after_max_moves_witness :
  exists stats m' env',
    pair_placement_inner_loop 2 (Fin 1) 1 pair_inverse_costs 499999 (pair_env pair_costs)
    = Ok (stats, m', env')
    /\ m' = 0%Z.
Proof.
  assert (H : exists stats m' env',
             pair_placement_inner_loop 2 (Fin 1) 1 pair_inverse_costs 499999
               (pair_env pair_costs)
             = Ok (stats, m', env')).
  { eexists. eexists. eexists. unfold pair_placement_inner_loop. run. reflexivity. }
  destruct H as (stats & m' & env' & H). exists stats, m', env'. split; [exact H|].
  destruct (recompute_after_max_moves pair_netlist 10 10 unit_fac unit_fac nat half_frand
              manhattan_delay unit_criticality keep_ext false no_move keep_ext keep_ext
              stats_init keep_ext keep_ext (fun _ => []) (fun e => e) (fun _ => Fin 0)
              pair_opts) as (_ & _ & Hloop & _).
  apply (Hloop (Fin 1) (Fin 3) 2%Z (Fin 1) 1%Z pair_inverse_costs 499999%Z
           (pair_env pair_costs) stats m' env') in H.
  - rewrite H. reflexivity.
  - unfold MAX_MOVES_BEFORE_RECOMPUTE. lia.
Defined.

(** The incremental costs lag behind the net costs, which sum to 3, by
    less than the tolerance. *)
Definition lagging_costs : t_placer_costs :=
  {| cost := Fin 2.99; bb_cost := Fin 2.99; timing_cost := Fin 1 |}.

(** The quench of the pair netlist, bounding-box driven: the inner loop at
    [t = 0], with a generator that sends the sink away from the driver. *)
Definition pair_quench :=
  placement_inner_loop pair_netlist 10 10 unit_fac unit_fac half_frand manhattan_delay
    unit_criticality keep_ext false (move_sink_to 5) keep_ext keep_ext stats_init
    keep_ext keep_ext (fun _ => []) (fun e => e) (fun _ => Fin 0)
    (Fin 0) (Fin 3) pair_opts.

(** Evaluation of a concrete run that takes absolute values: the sign of
    an argument is decided before the comparisons it occurs in. *)
Ltac no_abs t :=
  lazymatch t with
  | context [Rcase_abs _] => fail
  | _ => idtac
  end.

Ltac r_step :=
  match goal with
  | |- context [Rcase_abs ?a] =>
      no_rdec a; no_abs a; destruct (Rcase_abs a); try (exfalso; lra)
  | |- context [Rlt_dec ?a ?b] =>
      no_rdec a; no_rdec b; no_abs a; no_abs b;
      destruct (Rlt_dec a b); try (exfalso; lra)
  | |- context [Rle_dec ?a ?b] =>
      no_rdec a; no_rdec b; no_abs a; no_abs b;
      destruct (Rle_dec a b); try (exfalso; lra)
  | |- context [Req_dec_T ?a ?b] =>
      no_rdec a; no_rdec b; no_abs a; no_abs b;
      destruct (Req_dec_T a b); try (exfalso; lra)
  end.

Ltac run_abs :=
  repeat (progress (cbv -[IZR Rplus Rmult Rminus Ropp Rinv Rdiv Rcase_abs Rlt_dec Rle_dec
                          Req_dec_T exp sqrt Rmax Rmin INR Rsqr];
                    repeat r_step)).

(** C9 as stated fails: the quench runs trial 500,001 since the last
    recomputation; its move is rejected, no move is accepted, and the
    recomputation at the end of the loop body raises [costs.cost] from 2.99
    to 3. *)
Lemma quench_recompute_raises_cost :
  exists stats m' env',
    pair_quench 1 (Fin 1) 1 pair_inverse_costs 500000 (pair_env lagging_costs)
    = Ok (stats, m', env')
    /\ success_sum stats = 0%Z
    /\ num_swap_accepted (te_counters env') = 0%Z
    /\ num_swap_rejected (te_counters env') = 1%Z
    /\ cost lagging_costs = Fin 2.99
    /\ cost (te_costs env') = Fin (0 + 3)
    /\ (cost (te_costs env') >? cost lagging_costs)%fp = true.
Proof.
  eexists. eexists. eexists.
  split; [unfold pair_quench; run_abs; reflexivity|].
  split; [reflexivity|]. split; [reflexivity|]. split; [reflexivity|].
  split; [reflexivity|]. split; [reflexivity|].
  run. reflexivity.
Qed.

(** The total of the connection costs of the pair netlist. *)
Definition pair_total_cost (connection_timing_cost : ClusterNetId -> nat -> fp) : fp :=
  connection_timing_cost 0%nat 1%nat.

(** The quench of the pair netlist, timing driven, with a generator that
    sends the sink next to the driver. *)
Definition pair_quench_timing :=
  placement_inner_loop pair_netlist 10 10 unit_fac unit_fac half_frand manhattan_delay
    unit_criticality keep_ext false (move_sink_to 1) keep_ext keep_ext stats_init
    keep_ext keep_ext (fun _ => []) (fun e => e) pair_total_cost
    (Fin 0) (Fin 3) timing_opts.

(** A quench of one trial, which is accepted: the cost at the end is not
    greater than the cost at the start. *)
Lemma quench_cost_never_increases_witness :
  exists stats m' env',
    pair_quench_timing 1 (Fin 1) 1 pair_inverse_costs 0 (pair_env pair_costs)
    = Ok (stats, m', env')
    /\ success_sum stats = 1%Z
    /\ (cost (te_costs env') >? cost pair_costs)%fp = false.
Proof.
  assert (H : exists stats m' env',
             pair_quench_timing 1 (Fin 1) 1 pair_inverse_costs 0 (pair_env pair_costs)
             = Ok (stats, m', env')
             /\ success_sum stats = 1%Z).
  { eexists. eexists. eexists. unfold pair_quench_timing.
    split; [run; reflexivity|reflexivity]. }
  destruct H as (stats & m' & env' & H & Hs). exists stats, m', env'.
  split; [exact H|]. split; [exact Hs|].
  destruct (quench_cost_never_increases pair_netlist 10 10 unit_fac unit_fac nat half_frand
              manhattan_delay unit_criticality keep_ext false (move_sink_to 1) keep_ext
              keep_ext stats_init keep_ext keep_ext (fun _ => []) (fun e => e)
              pair_total_cost) as (_ & _ & _ & Hloop).
  apply (Hloop (Fin 3) timing_opts 1%Z (Fin 1) 1%Z pair_inverse_costs 0%Z
           (pair_env pair_costs) stats m' env' H).
  - left. reflexivity.
  - exact I.
Defined.

(** The standard deviation of the two costs 1 and 3. *)
Lemma starting_t_std_dev_witness :
  claimed_std_dev (map Fin [1; 3]%R) = Fin (sqrt (Rsample_variance [1; 3]%R)).
Proof.
  apply (starting_t_std_dev pair_netlist 10 10 unit_fac unit_fac nat half_frand
           manhattan_delay unit_criticality keep_ext false no_move keep_ext keep_ext
           stats_init (Fin 1) pair_inverse_costs
           {| sched_type := AUTO_SCHED; inner_num := Fin 1; init_t := Fin 100;
              alpha_t := Fin 0.8; exit_t := Fin 0.01; alpha_min := Fin 0.2;
              alpha_max := Fin 0.9; alpha_decay := Fin 0.7; success_min := Fin 0.1;
              success_target := Fin 0.25 |}
           2 (Fin 3) pair_opts (pair_env pair_costs)).
  cbn. lia.
Defined.

(** Two states with the same committed net costs and different markers and
    block locations. *)
Definition pair_state_moved : placer_state nat :=
  {| ps_bb := pair_bb;
     ps_nc := {| net_cost := fun _ => Fin 3; proposed_net_cost := fun _ => Fin 1;
                 ts_nets_to_update := fun _ => 0%nat |};
     ps_td := pair_td;
     ps_locs := fun _ => {| loc_x := 7; loc_y := 7; loc_sub_tile := 0 |};
     ps_ext := 0%nat; num_ts_called := 1 |}.

(** Their recomputed bounding-box costs agree. *)
Lemma recompute_bb_cost_sums_net_cost_witness :
  recompute_bb_cost pair_netlist (ps_nc pair_state)
  = recompute_bb_cost pair_netlist (ps_nc pair_state_moved).
Proof.
  apply (recompute_bb_cost_sums_net_cost pair_netlist nat pair_nc).
  intros n _. reflexivity.
Defined.

(** Net 0 of the five-block design: block 4 sits alone on the right and on
    the top edge of the box and is sent inside it. *)
Definition demo_locs : block_locs_t :=
  fun b => match b with
           | 0%nat => {| loc_x := 1; loc_y := 1; loc_sub_tile := 0 |}
           | 1%nat => {| loc_x := 2; loc_y := 2; loc_sub_tile := 0 |}
           | 2%nat => {| loc_x := 3; loc_y := 1; loc_sub_tile := 0 |}
           | 3%nat => {| loc_x := 3; loc_y := 2; loc_sub_tile := 0 |}
           | _ => {| loc_x := 6; loc_y := 4; loc_sub_tile := 0 |}
           end.

Definition demo_locs_moved : block_locs_t :=
  fun b => match b with
           | 4%nat => {| loc_x := 2; loc_y := 1; loc_sub_tile := 0 |}
           | _ => demo_locs b
           end.

Definition demo_bb : bb_state :=
  let scratch := get_bb_from_scratch demo_netlist 10 10 demo_locs 0%nat in
  let zero := {| xmin := 0; xmax := 0; ymin := 0; ymax := 0 |} in
  {| bb_coords := fun _ => fst scratch; bb_num_on_edges := fun _ => snd scratch;
     ts_bb_coord_new := fun _ => zero; ts_bb_edge_new := fun _ => zero;
     bb_updated_before := fun _ => NOT_UPDATED_YET |}.

(** The incremental update of that move recomputes the box from scratch. *)
Lemma update_bb_matches_scratch_witness :
  let s' := update_bb demo_netlist 10 10 demo_locs_moved 0%nat 6 4 2 1 demo_bb in
  (ts_bb_coord_new s' 0%nat, ts_bb_edge_new s' 0%nat)
  = get_bb_from_scratch demo_netlist 10 10 demo_locs_moved 0%nat
  /\ bb_updated_before s' 0%nat = GOT_FROM_SCRATCH.
Proof.
  destruct (update_bb_matches_scratch demo_netlist 10 10 demo_locs demo_locs_moved
              0%nat 4%nat 4%Z
              [(0%nat, 0%Z); (1%nat, 1%Z); (2%nat, 2%Z); (3%nat, 3%Z)] [] demo_bb)
    as (Hbox & Hflag & _).
  - reflexivity.
  - intros site Hin. cbn in Hin.
    destruct Hin as [<-|[<-|[<-|[<-|[]]]]]; cbn; discriminate.
  - intros c Hc. unfold demo_locs_moved.
    destruct c as [|[|[|[|[|c]]]]]; try reflexivity. contradiction Hc. reflexivity.
  - reflexivity.
  - reflexivity.
  - split; [exact Hbox | exact Hflag].
Defined.

(** The cost of the net of the five-block design is not negative. *)
Lemma get_net_cost_not_negative_witness :
  (get_net_cost demo_netlist unit_fac unit_fac 0%nat
     {| xmin := 1; xmax := 3; ymin := 1; ymax := 2 |} <? Fin 0)%fp = false.
Proof.
  refine (proj2 (get_net_cost_not_negative demo_netlist unit_fac unit_fac 0%nat
                   {| xmin := 1; xmax := 3; ymin := 1; ymax := 2 |} 1 1 _ _ _ _ _ _ _)).
  - cbn. lia.
  - cbn. lia.
  - cbn. lia.
  - reflexivity.
  - lra.
  - reflexivity.
  - lra.
Defined.

(** The costs of the pair netlist pass [check_placement_costs] in
    timing-driven mode. *)
Lemma check_placement_costs_from_scratch_witness :
  fst (check_placement_costs pair_netlist 10 10 unit_fac unit_fac pair_costs
         PATH_TIMING_DRIVEN_PLACE (unit_criticality 0%nat) pair_locs
         (pair_bb, pair_nc, pair_td)) = 0%Z.
Proof.
  refine (proj1 (check_placement_costs_from_scratch pair_netlist 10 10 unit_fac unit_fac
                   pair_costs PATH_TIMING_DRIVEN_PLACE (unit_criticality 0%nat) pair_locs
                   (pair_bb, pair_nc) (pair_bb, pair_nc, pair_td) 3 _ _ _ _)).
  - run. f_equal. lra.
  - reflexivity.
  - lra.
  - intros _. exists 1%R. split; [run; f_equal; lra|]. split; [reflexivity|lra].
Defined.

(** The rejected trial of the pair netlist leaves the costs and the
    committed arrays as they were. *)
Lemma rejected_trial_leaves_committed_witness :
  exists st',
    pair_try_swap true (move_sink_to 5) (Fin 0) PATH_TIMING_DRIVEN_PLACE pair_state
    = Ok (REJECTED, pair_costs, no_blocks, st')
    /\ same_committed_nets (ps_bb pair_state) (ps_bb st') (ps_nc pair_state) (ps_nc st')
    /\ same_committed (ps_td pair_state) (ps_td st').
Proof.
  assert (H : exists st',
             pair_try_swap true (move_sink_to 5) (Fin 0) PATH_TIMING_DRIVEN_PLACE pair_state
             = Ok (REJECTED, pair_costs, no_blocks, st')).
  { eexists. unfold pair_try_swap. run. reflexivity. }
  destruct H as [st' H]. exists st'. split; [exact H|].
  destruct (rejected_trial_leaves_committed pair_netlist 10 10 unit_fac unit_fac nat
              half_frand manhattan_delay unit_criticality keep_ext true (move_sink_to 5)
              keep_ext keep_ext stats_init (Fin 0) pair_costs pair_inverse_costs (Fin 3)
              no_blocks (Fin 0) PATH_TIMING_DRIVEN_PLACE (Fin 0.5) pair_state REJECTED
              pair_costs no_blocks st' H)
    as (_ & Hn & Ht).
  - discriminate.
  - split; assumption.
Defined.

(** After the accepted trial of the pair netlist the cost of the net is
    still the cost of its committed box. *)
Lemma trial_keeps_net_cost_of_box_witness :
  exists costs' st',
    pair_try_swap false (move_sink_to 1) (Fin 0) PATH_TIMING_DRIVEN_PLACE pair_state
    = Ok (ACCEPTED, costs', no_blocks, st')
    /\ net_cost_consistent pair_netlist unit_fac unit_fac (ps_bb st') (ps_nc st') 0%nat.
Proof.
  assert (H : exists costs' st',
             pair_try_swap false (move_sink_to 1) (Fin 0) PATH_TIMING_DRIVEN_PLACE
               pair_state
             = Ok (ACCEPTED, costs', no_blocks, st')).
  { eexists. eexists. unfold pair_try_swap. run. reflexivity. }
  destruct H as (costs' & st' & H). exists costs', st'. split; [exact H|].
  apply (trial_keeps_net_cost_of_box pair_netlist 10 10 unit_fac unit_fac nat half_frand
           manhattan_delay unit_criticality keep_ext false (move_sink_to 1) keep_ext
           keep_ext stats_init (Fin 0) pair_costs pair_inverse_costs (Fin 3) no_blocks
           (Fin 0) PATH_TIMING_DRIVEN_PLACE (Fin 0.5) pair_state ACCEPTED costs' no_blocks
           st' H).
  - exact pair_state_quiesced.
  - unfold net_cost_consistent. run. f_equal. lra.
Defined.

(** The range limit 10 after an iteration without an accepted move on a
    100 x 100 grid stays between 1 and 99. *)
Lemma update_rlim_bounds_witness :
  exists x, update_rlim 100 100 (Fin 10) (Fin 0) = Fin x
            /\ (1 <= x <= Rmax 1 (IZR (Z.max 100 100 - 1)))%R.
Proof.
  refine (proj2 (update_rlim_bounds 100 100 (Fin 10) (Fin 0) _ _) _).
  - lia.
  - lia.
  - reflexivity.
Defined.

Definition auto_sched : t_annealing_sched :=
  {| sched_type := AUTO_SCHED; inner_num := Fin 1; init_t := Fin 100;
     alpha_t := Fin 0.8; exit_t := Fin 0.01; alpha_min := Fin 0.2;
     alpha_max := Fin 0.9; alpha_decay := Fin 0.7; success_min := Fin 0.1;
     success_target := Fin 0.25 |}.

(** The automatic schedule lowers the temperature 1. *)
Lemma auto_schedule_cools_witness :
  exists a, (a = 0.5 \/ a = 0.9 \/ a = 0.95 \/ a = 0.8)%R
            /\ ann_alpha (snd (update_annealing_state pair_netlist 10 10 rlim_ten
                                 (Fin 0.5) pair_costs pair_opts auto_sched)) = Fin a
            /\ ann_t (snd (update_annealing_state pair_netlist 10 10 rlim_ten
                             (Fin 0.5) pair_costs pair_opts auto_sched)) = Fin (1 * a)
            /\ (0 < 1 * a < 1)%R.
Proof.
  refine (auto_schedule_cools pair_netlist 10 10 rlim_ten (Fin 0.5) pair_costs pair_opts
            auto_sched 1 _ _ _).
  - reflexivity.
  - reflexivity.
  - lra.
Defined.


(** The success rate of these two trials is a fraction. *)
Lemma success_rate_is_a_fraction_witness :
  exists stats m' env' q,
    pair_placement_inner_loop 2 (Fin 1) 1 pair_inverse_costs 0 (pair_env pair_costs)
    = Ok (stats, m', env')
    /\ snd (fst (calc_placer_stats stats (te_costs env') 2)) = Fin q
    /\ (0 <= q <= 1)%R.
Proof.
  assert (H : exists stats m' env',
             pair_placement_inner_loop 2 (Fin 1) 1 pair_inverse_costs 0
               (pair_env pair_costs)
             = Ok (stats, m', env')).
  { eexists. eexists. eexists. unfold pair_placement_inner_loop. run. reflexivity. }
  destruct H as (stats & m' & env' & H).
  destruct (success_rate_is_a_fraction pair_netlist 10 10 unit_fac unit_fac nat
              half_frand manhattan_delay unit_criticality keep_ext false no_move keep_ext
              keep_ext stats_init keep_ext keep_ext (fun _ => []) (fun e => e)
              (fun _ => Fin 0) (Fin 1) (Fin 3) pair_opts 2%Z (Fin 1) 1%Z
              pair_inverse_costs 0%Z m' (pair_env pair_costs) env' stats H)
    as ((q & Hq & Hr & _) & _).
  - lia.
  - exists stats, m', env', q. split; [exact H|]. split; [exact Hq|exact Hr].
Defined.

(** The inverse timing cost of the pair netlist after the outer loop has
    recomputed the criticalities. *)
Lemma inverse_timing_cost_capped_witness :
  (inv_timing_cost
     (snd (fst (fst (fst (outer_loop_recompute_criticalities pair_netlist
                            unit_criticality keep_ext keep_ext (fun _ => [])
                            (fun e => e) (fun _ => Fin 0) timing_opts pair_costs
                            pair_inverse_costs (Fin 1) 0 pair_td 0%nat)))))
   >? MAX_INV_TIMING_COST)%fp = false.
Proof.
  refine (proj1 (inverse_timing_cost_capped pair_netlist nat unit_criticality keep_ext
                   keep_ext (fun _ => []) (fun e => e) (fun _ => Fin 0) timing_opts
                   pair_costs pair_inverse_costs (Fin 1) 0 pair_td 0%nat _)).
  reflexivity.
Defined.


Lemma demo_netlist_wf : netlist_wf demo_netlist.
Proof.
  constructor.
  - intros [|[|[|[|[|b]]]]] p; cbn; intros H; repeat destruct H as [<-|H];
      try contradiction H; reflexivity.
  - intros [|[|[|[|[|b]]]]]; cbn; repeat constructor; cbn; intuition discriminate.
  - intros [|[|[|[|[|b]]]]] p; cbn; intros H; repeat destruct H as [<-|H];
      try contradiction H; reflexivity.
  - intros [|[|n]] i; cbn; intros H.
    + destruct i as [|[|[|[|[|i]]]]]; try lia; split; reflexivity.
    + destruct i as [|[|i]]; try lia; split; reflexivity.
    + lia.
  - intros [|[|[|[|[|b]]]]] p; cbn; intros H; repeat destruct H as [<-|H];
      try contradiction H; cbn; intros Ht; try discriminate; split; reflexivity.
Qed.

Lemma demo_netlist_sites_wf : netlist_sites_wf demo_netlist.
Proof.
  constructor.
  - intros n [<-|[<-|[]]]; reflexivity.
  - intros n [<-|[<-|[]]]; cbn; repeat constructor; cbn; intuition discriminate.
  - intros n p [<-|[<-|[]]]; cbn; intros H; repeat destruct H as [<-|H];
      try contradiction H; split; cbn; auto.
  - intros [|[|[|[|[|b]]]]] p; cbn; intros H; repeat destruct H as [<-|H];
      try contradiction H; intros _; cbn; auto 10.
Qed.

(** The five-block design with the committed boxes of its placement, and a
    move generator that sends block 1 from (2, 2) to (1, 2). *)
Definition demo_boxes : bb_state :=
  let zero := {| xmin := 0; xmax := 0; ymin := 0; ymax := 0 |} in
  {| bb_coords := fun n => match n with
                           | 0%nat => {| xmin := 1; xmax := 6; ymin := 1; ymax := 4 |}
                           | _ => {| xmin := 1; xmax := 2; ymin := 1; ymax := 2 |}
                           end;
     bb_num_on_edges := fun n => match n with
                                 | 0%nat => {| xmin := 1; xmax := 1; ymin := 2; ymax := 1 |}
                                 | _ => {| xmin := 1; xmax := 1; ymin := 1; ymax := 1 |}
                                 end;
     ts_bb_coord_new := fun _ => zero; ts_bb_edge_new := fun _ => zero;
     bb_updated_before := fun _ => NOT_UPDATED_YET |}.

Definition demo_state : placer_state nat :=
  {| ps_bb := demo_boxes;
     ps_nc := {| net_cost := fun _ => Fin 20; proposed_net_cost := fun _ => Fin (-1);
                 ts_nets_to_update := fun _ => 0%nat |};
     ps_td := pair_td; ps_locs := demo_locs; ps_ext := 0%nat; num_ts_called := 0 |}.

Definition move_block_1 (locs : block_locs_t) (ba : t_pl_blocks_to_be_moved)
    (rlim : fp) (e : nat) : e_create_move * t_pl_blocks_to_be_moved * nat :=
  (VALID,
   {| moved_blocks := [{| block_num := 1%nat; old_loc := locs 1%nat;
                          new_loc := {| loc_x := 1; loc_y := 2; loc_sub_tile := 0 |} |}];
      affected_pins := [] |},
   e).

Lemma demo_boxes_from_scratch :
  boxes_from_scratch demo_netlist 10 10 demo_locs demo_boxes.
Proof.
  intros n [<-|[<-|[]]] _; split; try intros _; vm_compute; reflexivity.
Qed.

Lemma demo_netlist_pins_wf : netlist_pins_wf demo_netlist.
Proof.
  constructor.
  - intros [|[|n]]; cbn; [auto | auto | lia].
  - intros [|[|n]] i; cbn; intros H.
    + destruct i as [|[|[|[|[|i]]]]]; try lia; cbn; auto 10.
    + destruct i as [|[|i]]; try lia; cbn; auto.
    + lia.
  - intros [|[|[|[|[|b]]]]] p; cbn; intros H; repeat destruct H as [<-|H];
      try contradiction H; cbn; intros Ht; try discriminate; lia.
Qed.

(** The timing state of the five-block design at its placement, with the
    delays of [manhattan_delay] and criticality 1: entry 0 of a net stays
    0, the shadow entries of the sinks are NaN. *)
Definition demo_td : td_state :=
  let delay (n : ClusterNetId) (ipin : nat) : fp :=
    match n, ipin with
    | _, 0%nat => Fin 0
    | 0%nat, 1%nat => Fin 2
    | 0%nat, 2%nat => Fin 2
    | 0%nat, 3%nat => Fin 3
    | 0%nat, _ => Fin 8
    | _, _ => Fin 2
    end in
  let invalid (n : ClusterNetId) (ipin : nat) : fp :=
    match ipin with 0%nat => Fin 0 | _ => NaN end in
  {| connection_delay := delay; proposed_connection_delay := invalid;
     connection_timing_cost := delay; proposed_connection_timing_cost := invalid;
     net_timing_cost := fun n => match n with 0%nat => Fin 15 | _ => Fin 2 end |}.

Definition demo_nc : nc_state :=
  {| net_cost := fun n => match n with 0%nat => Fin 11.536 | _ => Fin 4 end;
     proposed_net_cost := fun _ => Fin (-1);
     ts_nets_to_update := fun _ => 0%nat |}.

Definition demo_timing_state : placer_state nat :=
  {| ps_bb := demo_boxes; ps_nc := demo_nc; ps_td := demo_td; ps_locs := demo_locs;
     ps_ext := 0%nat; num_ts_called := 0 |}.

Definition demo_costs : t_placer_costs :=
  {| cost := Fin 1; bb_cost := Fin 15.536; timing_cost := Fin 17 |}.

Definition demo_inverse_costs : t_placer_prev_inverse_costs :=
  {| inv_bb_cost := Fin (1 / 15.536); inv_timing_cost := Fin (1 / 17) |}.

(** Blocks 0 and 2 change places. *)
Definition swap_0_2 : t_pl_blocks_to_be_moved :=
  {| moved_blocks :=
       [{| block_num := 0%nat;
           old_loc := {| loc_x := 1; loc_y := 1; loc_sub_tile := 0 |};
           new_loc := {| loc_x := 3; loc_y := 1; loc_sub_tile := 0 |} |};
        {| block_num := 2%nat;
           old_loc := {| loc_x := 3; loc_y := 1; loc_sub_tile := 0 |};
           new_loc := {| loc_x := 1; loc_y := 1; loc_sub_tile := 0 |} |}];
     affected_pins := [] |}.

Definition move_swap_0_2 (locs : block_locs_t) (ba : t_pl_blocks_to_be_moved)
    (rlim : fp) (e : nat) : e_create_move * t_pl_blocks_to_be_moved * nat :=
  (VALID, swap_0_2, e).


(** Blocks 0 and 2 of the five-block design change places at [t = 0]: the
    driver of net 0 comes closer to its sinks and the move is accepted.  The
    connections with an end on a moved block are the four of net 0, driven
    from block 0, and the one of net 1, whose sink is on block 0 and whose
    driver stays; each has afterwards the delay of the new placement. *)
Lemma accepted_trial_commits_delays_witness :
  exists costs' st',
    try_swap demo_netlist 10 10 unit_fac unit_fac half_frand manhattan_delay
      unit_criticality keep_ext false move_swap_0_2 keep_ext keep_ext stats_init
      (Fin 0) demo_costs demo_inverse_costs (Fin 3) no_blocks (Fin 0)
      PATH_TIMING_DRIVEN_PLACE (Fin 0.5) demo_timing_state
    = Ok (ACCEPTED, costs', no_blocks, st')
    /\ (forall c, In c [(0, 1); (0, 2); (0, 3); (0, 4); (1, 1)]%nat ->
          comp_td_connection_delay demo_netlist manhattan_delay (ps_locs st')
            (fst c) (snd c)
          = Ok (connection_delay (ps_td st') (fst c) (snd c)))
    /\ net_timing_cost (ps_td st') = net_timing_cost demo_td.
Proof.
  assert (H : exists costs' st',
             try_swap demo_netlist 10 10 unit_fac unit_fac half_frand manhattan_delay
               unit_criticality keep_ext false move_swap_0_2 keep_ext keep_ext stats_init
               (Fin 0) demo_costs demo_inverse_costs (Fin 3) no_blocks (Fin 0)
               PATH_TIMING_DRIVEN_PLACE (Fin 0.5) demo_timing_state
             = Ok (ACCEPTED, costs', no_blocks, st')).
  { eexists. eexists. run. reflexivity. }
  destruct H as (costs' & st' & H). exists costs', st'. split; [exact H|].
  destruct (accepted_trial_commits_delays demo_netlist 10 10 unit_fac unit_fac nat
              half_frand manhattan_delay unit_criticality keep_ext false move_swap_0_2
              keep_ext keep_ext stats_init (Fin 0) demo_costs demo_inverse_costs (Fin 3)
              no_blocks (Fin 0) (Fin 0.5) demo_timing_state costs' no_blocks st'
              demo_netlist_wf demo_netlist_pins_wf)
    as (Hc & _ & Hn & _).
  - cbn. repeat constructor; cbn; intuition discriminate.
  - exact H.
  - split; [|exact Hn].
    intros c Hin. apply Hc.
    repeat destruct Hin as [<-|Hin]; try contradiction Hin;
      (split; [reflexivity|]); (split; [cbn; lia|]); cbn; auto.
Defined.

(** The accepted trial of that move, bounding-box driven, at [t = 0]: the
    large net 0 is updated incrementally, the small net 1 is recomputed, and
    the committed boxes are those of the new placement. *)
Lemma accepted_trial_keeps_boxes_witness :
  exists costs' st',
    try_swap demo_netlist 10 10 unit_fac unit_fac half_frand manhattan_delay
      unit_criticality keep_ext false move_block_1 keep_ext keep_ext stats_init
      (Fin 0) pair_costs pair_inverse_costs (Fin 3) no_blocks (Fin 0)
      BOUNDING_BOX_PLACE (Fin 0.5) demo_state
    = Ok (ACCEPTED, costs', no_blocks, st')
    /\ boxes_from_scratch demo_netlist 10 10 (ps_locs st') (ps_bb st').
Proof.
  assert (H : exists costs' st',
             try_swap demo_netlist 10 10 unit_fac unit_fac half_frand manhattan_delay
               unit_criticality keep_ext false move_block_1 keep_ext keep_ext stats_init
               (Fin 0) pair_costs pair_inverse_costs (Fin 3) no_blocks (Fin 0)
               BOUNDING_BOX_PLACE (Fin 0.5) demo_state
             = Ok (ACCEPTED, costs', no_blocks, st')
             /\ ps_locs st'
                = upd demo_locs 1%nat {| loc_x := 1; loc_y := 2; loc_sub_tile := 0 |}).
  { eexists. eexists. split; [run; reflexivity|reflexivity]. }
  destruct H as (costs' & st' & H & Hlocs). exists costs', st'. split; [exact H|].
  apply (accepted_trial_keeps_boxes demo_netlist 10 10 unit_fac unit_fac nat half_frand
           manhattan_delay unit_criticality keep_ext false move_block_1 keep_ext keep_ext
           stats_init (Fin 0) pair_costs pair_inverse_costs (Fin 3) no_blocks (Fin 0)
           BOUNDING_BOX_PLACE (Fin 0.5) demo_state costs' no_blocks st'
           demo_netlist_wf demo_netlist_sites_wf).
  - cbn. repeat constructor. cbn. auto.
  - cbn. intros mb [<-|[]]. cbn. rewrite Hlocs. split; reflexivity.
  - cbn. intros b Hb. rewrite Hlocs. unfold upd.
    destruct (Nat.eqb b 1) eqn:E; [|reflexivity].
    apply Nat.eqb_eq in E. exfalso. apply Hb. left. symmetry. exact E.
  - intros net. split; reflexivity.
  - exact demo_boxes_from_scratch.
  - exact H.
Defined.

(** The criticality of the one connection of the pair netlist has doubled
    and its sink is reported as modified: the incremental update stores the
    cost that the computation from scratch stores. *)
Lemma update_td_costs_matches_scratch_witness :
  connection_timing_cost
    (fst (update_td_costs pair_netlist (fun (_ : nat) _ _ => Fin 2)
            (fun _ => [1%nat]) (fun _ => Fin 0) 0%nat pair_td)) 0%nat 1%nat
  = connection_timing_cost
      (fst (comp_td_costs pair_netlist (fun _ _ => Fin 2) pair_td)) 0%nat 1%nat.
Proof.
  refine (proj1 (update_td_costs_matches_scratch pair_netlist nat
                   (fun (_ : nat) _ _ => Fin 2) (fun _ => [1%nat]) (fun _ => Fin 0)
                   (fun _ _ => Fin 1) 0%nat pair_td _ _) 0%nat 1%nat _ _ _).
  - intros n [|i] _ _ Hi; [lia|]. cbn. f_equal. lra.
  - intros n i [<-|[]] _ Hi. cbn in Hi. right. exists 1%nat.
    assert (i = 1%nat) by lia. subst i. cbn. auto.
  - left. reflexivity.
  - reflexivity.
  - cbn. lia.
Defined.

(** The crossing counts of 3 and of 60 pins. *)
Lemma wirelength_crossing_count_monotone_witness :
  exists a b, wirelength_crossing_count 3 = Fin a
              /\ wirelength_crossing_count 60 = Fin b /\ (1 <= a <= b)%R.
Proof.
  apply (wirelength_crossing_count_monotone 3 60). lia.
Defined.
